(* ===== verification/_CoqProject ===== *)
-Q . S2P
Prelude.v
CppString.v
CppNumber.v
CppDouble.v
CppFormat.v
Types.v
BoundedFifo.v
Monitor.v
WireLine.v
TaskMessage.v
ResultMessage.v
Memory.v
BufferPool.v
PoolHistory.v
QueuePair.v
Connection.v
Completion.v
Metrics.v
Resources.v
Transport.v
RdmaWaiters.v
World.v
Poller.v
PollerThread.v
WorkerSession.v
ClientServer.v
Pingpong.v
Demos.v
Benchmarks.v
Reports.v
WorkerConfig.v
WorkerLogger.v
WorkerTask.v
SchedulerClient.v
Timer.v
TcpTransport.v
TaskQueue.v
ThreadPool.v
WorkerWaiters.v
WorkerNode.v
NodeThreads.v
NodeProps.v
MainProgram.v
Tensor.v
WorkerRuntime.v
EndpointNet.v
