(* ===== verification/Prelude.v ===== *)
(** * A verification library for RDMA-AI-Platform

    The repository holds a C++ library that offers RDMA-style messaging inside one
    process (src/rdma), a C++ worker process that receives tasks over TCP, executes
    them and reports to a scheduler over HTTP (src/worker), benchmarks, and the
    scheduler itself, in Go (src/scheduler).  This library models the C++ program as
    Rocq functions and step relations, translated from the sources, and proves the
    theorems that make its parts correct.

    ** The program and its model

    Shared machinery
    - [Prelude]: machine integers as [Z] with their reductions ([u64], [u32],
      [u16], [i32]), exceptions as [outcome] values, a state-and-exception monad, tactics,
      hints and the lemmas shared by all files.
    - [CppString], [CppNumber]: the operations of std::string, std::getline,
      std::map iteration, std::to_string, std::stoi and stream extraction that the
      sources use.
    - [CppDouble], [CppFormat]: double precision arithmetic, over the Standard Library's
      [SpecFloat], with the errors of its conversions, products and quotients, and the
      way an output stream prints a double (six significant digits).
    - [BoundedFifo]: the drop-oldest queue as an interface ([DropOldestFifo]) with a
      reference implementation; the completion queue and the transport's inboxes
      are instances of it or refine it.  [fifo_account] says what a client of such a
      queue can rely on.
    - [Monitor]: a condition variable with its mutex as an interface: the predicate of
      the wait, the operations and their notifications; threads that sleep, are woken
      (also spuriously), time out, and notifications that come after the mutex was
      released.  The classes [Broadcast] and [Demand] are the two disciplines the
      program uses (notify_all, or notify_one per item) and each is proved to serve its
      waiters.

    The RDMA library (src/rdma/include/rdma, src/rdma/src)
    - [Types]: types.h, config.h, config.cpp.
    - [WireLine], [TaskMessage], [ResultMessage]: task_message.h, result_message.h.
      [WireFormat] is the interface of a text format: what it can carry and that it
      gives it back.
    - [Memory]: memory_region.cpp.  Byte buffers live on an explicit [Heap], because
      regions, pool buffers and messages share them through shared pointers.
    - [BufferPool], [QueuePair], [Connection] (with handshake.cpp), [Completion]
      (with event_channel.cpp), [Metrics], [Resources] (device, context, protection
      domain, logger), [Transport] (transport_rdma.cpp): one file per class.
      [PoolHistory]: histories of the users of a buffer pool, against an abstract pool.
    - [RdmaWaiters]: the waits of CompletionQueue, EventChannel and TransportRdma as
      monitors; Push and its notifications of the channels as separate steps, between
      which other threads push, bind, poll, wait and reset.
    - [World]: the heap, the event channels and the transport that all endpoints of a
      process share.  [Poller], [WorkerSession], [ClientServer] (rdma_client.cpp,
      rdma_server.cpp and the loops of examples/pingpong.cpp in lock step) thread it
      beside their own state.  [PollerThread]: the poller's thread step by step, with
      any number of overlapping calls of Start and Stop, senders and other consumers
      around it.
    - [EndpointNet]: any number of sessions, clients, servers and runtimes on one
      transport, in any order of operations.  The class [EndpointLaws] is what an
      endpoint promises to the others; the specification is one drop-oldest queue of
      mail per node.
    - [Pingpong]: examples/pingpong.cpp with its two threads.  [Demos]: the other
      programs of examples, as functions from a clock reading (and a schedule) to the
      exit code and the printed lines.
    - [Benchmarks]: the programs of rdma/benchmark and src/benchmark: set-up, sender,
      receivers and exit codes; tcp_compare.cpp over the results of its socket calls.
      [Reports]: what these programs and pingpong print, from the state at their end and
      the time between their two clock readings.

    The worker (src/worker)
    - [WorkerConfig]: trim, parseInt and loadConfig of worker_node.cpp.
    - [WorkerLogger]: logger.cpp of the worker.
    - [WorkerTask]: task.h, executor.cpp, fake_model.cpp.
    - [SchedulerClient]: scheduler_client.cpp; the process's descriptors are threaded
      through the exchange.
    - [TcpTransport]: transport_tcp.cpp.
    - [TaskQueue], [ThreadPool], [Timer]: the thread primitives of the worker;
      [WorkerWaiters]: the waits of the last two as monitors.
    - [WorkerNode]: worker_node.cpp, composed from the files above; start and stop
      are one function each, [Waiting] while the scheduler does not answer.
    - [NodeThreads]: the same node with its threads: start and stop cut into the parts
      between which other threads run, the accept thread, the timer thread and the
      consumers, as one step relation.  An exchange with the scheduler is two steps: the
      request is made, and the exchange ends.  [NodeProps] has its invariants and theorems.
    - [MainProgram]: main.cpp: the main thread, the signal watcher and the signals
      around the node of [NodeThreads].
    - [Tensor], [WorkerRuntime]: model/tensor.cpp, task/task.cpp and
      runtime/worker_runtime.cpp, a second, library-level worker on top of the
      in-memory transport.

    Correspondence: a class is a [Record] with the class's members, an operation is a
    function from its arguments and the object to its result and the new object, with
    the guards and early returns of the code; a definition has the operation's name,
    with a prefix where two classes have an operation of the same name.  A function
    that can throw returns an [outcome].  A null pointer is [None].

    ** Concurrency

    An operation under a mutex is one step.  Where the code releases a mutex inside an
    operation, or where an interleaving matters, the operation is split and the steps
    form a relation: [Transport.transport_run] (PollReceive is split at its wait),
    [Monitor.mon_progress] and [Monitor.mon_outside] for everything that waits on a
    condition variable, [RdmaWaiters.push_step], [PollerThread.poller_next] and
    [PollerThread.poller_outside], [ThreadPool.pool_step], [Timer.timer_step],
    [Pingpong.pp_step], [Benchmarks.bench_step], [NodeThreads.node_step] and
    [MainProgram.main_step].  The steps of the last two carry a label: [Internal] for
    what the process does by itself, [Answer] for the end of an exchange with the
    scheduler (which may never come, since the code sets no timeout), [Input] for what
    else comes from outside (bytes, clients, the clock, signals, spurious wake-ups) and
    [Call] for a call of start or stop; termination is termination of the [Internal] and
    [Answer] steps, and what can be waited for when only [Internal] steps are taken is
    stated apart.  A wait with a predicate
    returns in a state where the predicate holds, or at its timeout.  Classes without a
    mutex (queue pairs, connections, the endpoints) are modelled as used by one thread
    at a time; data races on plain members, such as the descriptor of the listening
    socket, are outside the model.

    ** What the theorems show

    - Delivery: any number of endpoints of all four kinds behave as one drop-oldest
      queue of mail per node ([EndpointNet.endpoints_refine]) and deliver tasks and
      results unchanged and in order ([EndpointNet.endpoints_deliver]); request/response rounds ([ClientServer]);
      messages per node under every interleaving ([Transport]); the polling thread
      ([Poller], [PollerThread.poller_account]); tensors ([WorkerRuntime]).
    - Round trips: both messages, with the exact condition; the configuration file;
      JSON escaping, with the exact condition; tensor bytes.
    - Invariants over all histories: the registry of memory regions, with the exact
      number of registrations after which access keys repeat
      ([Memory.registry_history_wf]), the buffer pool's
      operations, connections and queue pairs, sessions, the worker's task
      bookkeeping.
    - Refinements: inboxes and the completion queue against the drop-oldest queue, the
      buffer pool against a pool of buffers that are free or lent
      ([PoolHistory.pool_refines], [PoolHistory.pool_grows_to_peak]),
      the queue pair against the state machine of
      rdma/docs/qp_state_machine.md.
    - Framing and exchanges: the TCP line protocol and the HTTP exchange do not depend
      on how the network cuts the bytes; an exchange that returns has closed its sockets
      ([SchedulerClient.postJSON_closes]), also after a send that failed or was
      interrupted, which is not retried.
    - Waiting: no waiter sleeps while what it waits for is there, once the steps under
      way are done, for the task queue, the completion queue, the event channel, the
      transport, the thread pool and the timer; a push signals every channel that was bound
      before it, whatever other threads do in between
      ([RdmaWaiters.push_signals_channels]); the thread pool runs everything it
      accepted.
    - Termination: the node's own steps and its exchanges end from every state and a stop
      under way gets to its end if the exchanges do ([NodeProps.node_comes_to_rest]); a
      scheduler that does not answer holds stop for good
      ([NodeProps.silent_scheduler_blocks_stop]); where the worker process can end or
      wait ([MainProgram.main_ends]), the lost wake-up of run among these places
      ([MainProgram.main_can_hang]); pingpong and the benchmarks end under every
      interleaving and timeout; pingpong with all its rounds answered if no poll times
      out ([Reports.pingpong_prints]), the benchmarks whose messages fit the
      mailbox with 0 and a report that says so, if no receiver gives up before the
      sender is done ([Reports.bench_outputs]).
      A poller's thread ends within one round of its loop after Stop whatever other
      threads do ([PollerThread.poller_stop_ends]); but a Start while a Stop joins
      terminates the process ([PollerThread.poller_start_races_stop]).
    - Figures: the latencies and rates the benchmarks print are within six millionths of
      the exact quotients, for every positive 64-bit time, all roundings included
      ([Reports.report_figures]).
    - Start and stop: all or nothing, no descriptor leaks, the sockets of the exchanges
      included, whichever call or thread creation fails
      ([WorkerNode.node_start_all_or_nothing]).
    - Well-formedness: every configuration loadConfig accepts is well formed.
    - Behaviour that surprises is stated as it is: results come out of PollTask,
      sessions never release memory, a restarted worker refuses all tasks, an idle
      client blocks the task server, a port above 65535 is advertised but not bound, the
      latency benchmarks overrun the mailbox and then print an average over messages that
      did not arrive, tcp_compare joins a thread in accept, a
      heartbeat's count and ids are read under separate locks, a poller without the
      handler for what it has runs without a pause.

    ** Parameters

    Code outside the repository is a parameter: the evaluation order of function
    arguments ([ArgOrder], which C++ leaves open), clock readings, the results of the
    socket calls and of thread creation ([SchedulerClient.Net], [TcpTransport.Sys],
    [WorkerNode.StartEnv]).  Theorems about them state what they need of these results
    as hypotheses and have a concrete instance as a witness.

    ** Fuel and bounds

    [CppString.while_getline] runs with the length of its input as fuel; every round
    removes a character, so this is always enough ([getline_loop_fuel]).  The loops
    over socket calls recurse on the list of the calls' results and answer [Waiting]
    when it is used up.  [CppFormat.exponent_up] and [CppFormat.exponent_down], which
    find the decimal exponent of a number, run with the binary logarithm of an operand
    as fuel, which is enough because every round multiplies by ten ([log2_fuel],
    [exponent_up_spec], [exponent_down_spec]).  Hypotheses on counters ([counters_ok],
    [counters_room]) say that a 64-bit or 32-bit counter does not wrap in the run; they
    are hypotheses of theorems, never guards of a step.  What happens at the wrap is in
    [Memory.registry_history_wf] and [Memory.registry_counters].

    ** Not modelled

    The Go scheduler, the proto files, scripts and deployment (another language or
    configuration); how the clock gets from one reading to the next (a time is an
    argument of a report); locales other than the initial one; the texts the example
    programs and tcp_compare.cpp write to std::cerr when they fail; the log calls of
    the other components (the two loggers are modelled by themselves, and a log call
    changes none of a component's state); allocation failure; failure to create the
    thread of a poller or main's signal watcher (that of the other threads of the worker
    is modelled); the end of the process by SIGPIPE when a peer closes a connection during
    a send; NaN payloads (the model has one NaN); the exact order of an unordered_set; the headers that only forward to another header. *)

From stdpp Require Export base gmap strings list pretty sorting fin_maps.
From Stdlib Require Export ZArith Lia.

Declare Scope cpp_scope.
Delimit Scope cpp_scope with cpp.

(** ** Machine integers

    [std::size_t], [std::uint64_t] and [std::uint32_t] values are kept in [Z];
    an operation that can leave the range writes its reduction out. *)

Definition u64 (x : Z) : Z := (x mod 2 ^ 64)%Z.

Definition u32 (x : Z) : Z := (x mod 2 ^ 32)%Z.

Definition u16 (x : Z) : Z := (x mod 2 ^ 16)%Z.

(** [static_cast<int>]. *)
Definition i32 (x : Z) : Z := ((x + 2 ^ 31) mod 2 ^ 32 - 2 ^ 31)%Z.

(** [std::size(c)] of a container, as a [std::size_t]. *)
Definition sizeZ {A} (l : list A) : Z := Z.of_nat (length l).

(** ** Exceptions

    A C++ function that may throw returns an [outcome].  The state an operation
    leaves behind when it throws is returned beside the outcome: destructors
    release locks but nothing is rolled back. *)

Inductive outcome (A : Type) : Type :=
| Ok (a : A)
| Throw (what : string).
Arguments Ok {A} _.
Arguments Throw {A} _.

(** What the constructor of [std::thread] throws when the system has no thread left. *)
Definition thread_error : string := "Resource temporarily unavailable".

(** State passing with exceptions: the final state exists in both cases. *)
Definition M (S A : Type) : Type := S -> outcome A * S.

Definition ret {S A} (a : A) : M S A := fun s => (Ok a, s).

Definition throw {S A} (what : string) : M S A := fun s => (Throw what, s).

Definition bind {S A B} (m : M S A) (k : A -> M S B) : M S B :=
  fun s =>
    match m s with
    | (Ok a, s') => k a s'
    | (Throw e, s') => (Throw e, s')
    end.

Definition gets {S A} (f : S -> A) : M S A := fun s => (Ok (f s), s).

Definition modify {S} (f : S -> S) : M S unit := fun s => (Ok tt, f s).

Notation "x <- m ;; k" := (bind m (fun x => k))
  (at level 100, m at next level, right associativity) : cpp_scope.
Notation "m ;;; k" := (bind m (fun _ => k))
  (at level 100, right associativity) : cpp_scope.

(** ** Automation *)

Create HintDb cpp.
Create Rewrite HintDb size.

(** Case analysis on every boolean test and [decide] the goal is stuck on,
    turning the tests into propositions. *)
Ltac split_tests :=
  repeat match goal with
    | |- context [if decide ?P then _ else _] => destruct (decide P)
    | |- context [if ?b then _ else _] =>
        lazymatch b with
        | context [if _ then _ else _] => fail
        | _ => let E := fresh "E" in destruct b eqn:E
        end
    end.

Ltac bool_to_prop :=
  repeat match goal with
    | H : (_ && _) = true |- _ => apply andb_true_iff in H as [??]
    | H : (_ && _) = false |- _ => apply andb_false_iff in H as [?|?]
    | H : negb _ = true |- _ => apply negb_true_iff in H
    | H : negb _ = false |- _ => apply negb_false_iff in H
    | H : (_ <? _)%Z = true |- _ => apply Z.ltb_lt in H
    | H : (_ <? _)%Z = false |- _ => apply Z.ltb_ge in H
    | H : (_ <=? _)%Z = true |- _ => apply Z.leb_le in H
    | H : (_ <=? _)%Z = false |- _ => apply Z.leb_gt in H
    | H : (_ =? _)%Z = true |- _ => apply Z.eqb_eq in H
    | H : (_ =? _)%Z = false |- _ => apply Z.eqb_neq in H
    | H : bool_decide _ = true |- _ => apply bool_decide_eq_true_1 in H
    | H : bool_decide _ = false |- _ => apply bool_decide_eq_false_1 in H
    end.

(** ** Generic lemmas: integers *)

Lemma u64_small (x : Z) : (0 <= x < 2 ^ 64)%Z -> u64 x = x.
Proof. intros. unfold u64. by apply Z.mod_small. Qed.

Lemma u64_range (x : Z) : (0 <= u64 x < 2 ^ 64)%Z.
Proof. apply Z.mod_pos_bound. lia. Qed.

Lemma u64_add_l (x y : Z) : u64 (u64 x + y) = u64 (x + y).
Proof. unfold u64. by rewrite Zplus_mod_idemp_l. Qed.

Lemma i32_small (x : Z) : (- 2 ^ 31 <= x < 2 ^ 31)%Z -> i32 x = x.
Proof. intros H. unfold i32. rewrite Z.mod_small; lia. Qed.

Lemma u32_small (x : Z) : (0 <= x < 2 ^ 32)%Z -> u32 x = x.
Proof. intros. unfold u32. by apply Z.mod_small. Qed.

Lemma u32_range (x : Z) : (0 <= u32 x < 2 ^ 32)%Z.
Proof. apply Z.mod_pos_bound. lia. Qed.

Lemma sizeZ_nil {A} : sizeZ (@nil A) = 0%Z.
Proof. done. Qed.

Lemma sizeZ_cons {A} (x : A) l : sizeZ (x :: l) = (1 + sizeZ l)%Z.
Proof. unfold sizeZ. simpl length. lia. Qed.

Lemma sizeZ_app {A} (l k : list A) : sizeZ (l ++ k) = (sizeZ l + sizeZ k)%Z.
Proof. unfold sizeZ. rewrite length_app. lia. Qed.

Lemma sizeZ_nonneg {A} (l : list A) : (0 <= sizeZ l)%Z.
Proof. unfold sizeZ. lia. Qed.

(** ** Generic lemmas: the state-and-exception monad *)

Lemma bind_ok {S A B} (m : M S A) (k : A -> M S B) s a s' :
  m s = (Ok a, s') -> bind m k s = k a s'.
Proof. intros H. unfold bind. by rewrite H. Qed.

Lemma bind_throw {S A B} (m : M S A) (k : A -> M S B) s e s' :
  m s = (Throw e, s') -> bind m k s = (Throw e, s').
Proof. intros H. unfold bind. by rewrite H. Qed.

Lemma bind_assoc {S A B C} (m : M S A) (k : A -> M S B) (k' : B -> M S C) s :
  bind (bind m k) k' s = bind m (fun a => bind (k a) k') s.
Proof. unfold bind. by destruct (m s) as [[a|e] s']. Qed.

(** ** Generic lemmas: lists *)

Lemma fold_left_ind {A B} (P : A -> Prop) (f : A -> B -> A) (l : list B) (a : A) :
  P a -> (forall a b, b ∈ l -> P a -> P (f a b)) -> P (fold_left f l a).
Proof.
  revert a. induction l as [|b l IH]; simpl; intros a Ha Hstep; [done|].
  apply IH; [apply Hstep; [set_solver|done] | intros; apply Hstep; [set_solver|done]].
Qed.

(** Inserting the entries of a list, first to last, into a map: keys listed
    once end up with their listed value. *)
Lemma fold_insert_list_to_map {V} (l : list (string * V)) (m : gmap string V) :
  NoDup l.*1 ->
  fold_left (fun acc e => <[e.1 := e.2]> acc) l m = list_to_map l ∪ m.
Proof.
  revert m. induction l as [|[k v] l IH]; intros m; simpl.
  - by rewrite map_empty_union.
  - intros [Hk Hnd]%NoDup_cons. rewrite IH by done.
    assert (Hnone : (list_to_map l : gmap string V) !! k = None)
      by (by apply not_elem_of_list_to_map_1).
    apply map_eq. intros j. destruct (decide (k = j)) as [->|Hne].
    + rewrite lookup_union_r by done. rewrite lookup_insert_eq.
      symmetry. apply lookup_union_Some_l, lookup_insert_eq.
    + rewrite !lookup_union, !lookup_insert_ne by done. done.
Qed.

(** ** Generic lemmas: step relations *)

(** A property every step preserves holds in every reachable state. *)
Lemma rtc_invariant {S} (R : relation S) (I : S -> Prop) :
  (forall s s', R s s' -> I s -> I s') ->
  forall s s', rtc R s s' -> I s -> I s'.
Proof. intros Hstep s s' Hrtc. induction Hrtc; eauto. Qed.

(** A relation whose steps all decrease a measure has only finite runs. *)
Lemma sn_measure {S} (R : relation S) (measure : S -> nat) :
  (forall s s', R s s' -> measure s' < measure s) -> forall s, sn R s.
Proof.
  intros Hdec s. remember (measure s) as n eqn:E. revert s E.
  induction (lt_wf n) as [n _ IH]. intros s ->. constructor. intros s' Hstep.
  eapply IH; [exact (Hdec s s' Hstep) | reflexivity].
Qed.

(** The same where the steps decrease the measure only under an invariant. *)
Lemma sn_measure_inv {S} (R : relation S) (I : S -> Prop) (measure : S -> nat) :
  (forall s s', R s s' -> I s -> I s') ->
  (forall s s', R s s' -> I s -> measure s' < measure s) -> forall s, I s -> sn R s.
Proof.
  intros Hinv Hdec s. remember (measure s) as n eqn:E. revert s E.
  induction (lt_wf n) as [n _ IH]. intros s -> HI. constructor. intros s' Hstep.
  eapply IH; [exact (Hdec s s' Hstep HI) | reflexivity | exact (Hinv s s' Hstep HI)].
Qed.

#[export] Hint Resolve sizeZ_nonneg u64_range u32_range : cpp.
#[export] Hint Rewrite @sizeZ_nil @sizeZ_cons @sizeZ_app : size.
