(* ===== verification/CppString.v ===== *)
(** * std::string, std::istringstream and std::map as the sources use them

    Byte strings are [string] (8-bit characters, as [char] is compared and
    stored); [std::string::npos] is [None].  The file holds the operations the
    parsers call ([find], [rfind], [substr], [std::getline], [std::to_string]),
    the iteration order of [std::map<std::string, std::string>], and the lemmas
    the wire formats and the configuration parser share. *)

From S2P Require Import Prelude.
From Stdlib Require Import Ascii.

(** ** Characters and searching *)

(** The newline character and the one-character string holding it. *)
Definition nl_char : ascii := "010"%char.

Definition nl : string := String nl_char "".

(** [s.find(c)]: the first position of [c]. *)
Fixpoint find_char (c : ascii) (s : string) : option nat :=
  match s with
  | EmptyString => None
  | String a s' => if decide (a = c) then Some 0 else S <$> find_char c s'
  end.

(** [s.rfind(c)]: the last position of [c]. *)
Fixpoint rfind_char (c : ascii) (s : string) : option nat :=
  match s with
  | EmptyString => None
  | String a s' =>
      match rfind_char c s' with
      | Some i => Some (S i)
      | None => if decide (a = c) then Some 0 else None
      end
  end.

(** [s.substr(pos)] for [pos <= s.size()], which every call site ensures. *)
Fixpoint substr_from (pos : nat) (s : string) : string :=
  match pos, s with
  | O, _ => s
  | S _, EmptyString => EmptyString
  | S p, String _ s' => substr_from p s'
  end.

(** [s.substr(0, n)]. *)
Fixpoint substr_to (n : nat) (s : string) : string :=
  match n, s with
  | O, _ => EmptyString
  | S _, EmptyString => EmptyString
  | S n', String a s' => String a (substr_to n' s')
  end.

(** [s.rfind(p, 0) == 0]: [s] starts with [p]. *)
Definition starts_with (p s : string) : bool := String.prefix p s.

(** Whether [c] occurs in [s]. *)
Fixpoint has_char (c : ascii) (s : string) : bool :=
  match s with
  | EmptyString => false
  | String a s' => bool_decide (a = c) || has_char c s'
  end.

(** [std::to_string] of an integer. *)
Definition to_string (z : Z) : string := pretty z.

(** ** std::getline

    The unread part of the stream is a string.  [getline] fails exactly when
    nothing is left to read; a last line without a newline is delivered. *)
Fixpoint getline_split (s : string) : string * string :=
  match s with
  | EmptyString => (EmptyString, EmptyString)
  | String a s' =>
      if decide (a = nl_char) then (EmptyString, s')
      else let '(line, rest) := getline_split s' in (String a line, rest)
  end.

Definition getline (stream : string) : option (string * string) :=
  match stream with
  | EmptyString => None
  | _ => Some (getline_split stream)
  end.

(** [while (std::getline(stream, line)) { ... }]: [body] returns [None] where
    the loop's body returns from the enclosing function.  Every round removes at
    least one character, so [String.length stream] rounds are enough
    ([getline_loop_fuel]). *)
Fixpoint getline_loop {A} (body : A -> string -> option A) (fuel : nat)
    (acc : A) (stream : string) : option A :=
  match getline stream with
  | None => Some acc
  | Some (line, rest) =>
      match fuel with
      | O => Some acc
      | S fuel' =>
          match body acc line with
          | None => None
          | Some acc' => getline_loop body fuel' acc' rest
          end
      end
  end.

Definition while_getline {A} (body : A -> string -> option A) (acc : A)
    (stream : string) : option A :=
  getline_loop body (String.length stream) acc stream.

(** The same loop when its body never leaves the function. *)
Definition for_each_line {A} (body : A -> string -> A) (acc : A)
    (stream : string) : A :=
  default acc (while_getline (fun a line => Some (body a line)) acc stream).

(** ** std::map<std::string, std::string>

    A [std::map] is a [gmap]; its iteration order is the ascending order of the
    keys ([std::less<std::string>] compares the bytes as unsigned). *)
Definition entry_le (a b : string * string) : Prop := String.le a.1 b.1.

Instance entry_le_dec (a b : string * string) : Decision (entry_le a b).
Proof. unfold entry_le. apply _. Defined.

Definition map_entries (m : gmap string string) : list (string * string) :=
  merge_sort entry_le (map_to_list m).

(** ** Lemmas: append *)

Lemma sapp_assoc (a b c : string) : (a +:+ b) +:+ c = a +:+ (b +:+ c).
Proof. induction a as [|x a IH]; [done|]. change (String x ((a +:+ b) +:+ c) = String x (a +:+ (b +:+ c))). by rewrite IH. Qed.

Lemma sapp_nil_r (a : string) : a +:+ "" = a.
Proof. induction a as [|x a IH]; [done|]. change (String x (a +:+ "") = String x a). by rewrite IH. Qed.

Lemma sapp_cons (x : ascii) (a b : string) : String x a +:+ b = String x (a +:+ b).
Proof. done. Qed.

Lemma slength_app (a b : string) :
  String.length (a +:+ b) = String.length a + String.length b.
Proof. induction a as [|x a IH]; [done|]. simpl. by rewrite IH. Qed.

Lemma has_char_app c a b : has_char c (a +:+ b) = has_char c a || has_char c b.
Proof.
  induction a as [|x a IH]; [done|]. simpl.
  by rewrite IH, orb_assoc.
Qed.

(** ** Lemmas: find and substr *)

Lemma find_char_None c s : find_char c s = None <-> has_char c s = false.
Proof.
  induction s as [|a s IH]; simpl; [done|].
  case_decide as E; subst.
  - by rewrite bool_decide_eq_true_2.
  - rewrite bool_decide_eq_false_2 by done. simpl. rewrite <- IH.
    destruct (find_char c s); simpl; split; congruence.
Qed.

Lemma find_char_app c a b :
  has_char c a = false -> find_char c (a +:+ String c b) = Some (String.length a).
Proof.
  induction a as [|x a IH]; simpl; intros H.
  - change (find_char c (String c b) = Some 0). simpl. by rewrite decide_True.
  - apply orb_false_iff in H as [H1 H2]. apply bool_decide_eq_false in H1.
    simpl. rewrite decide_False by done. by rewrite IH.
Qed.

Lemma substr_to_app a b : substr_to (String.length a) (a +:+ b) = a.
Proof.
  induction a as [|x a IH]; simpl; [by destruct b|].
  simpl. by rewrite IH.
Qed.

Lemma substr_from_app a b : substr_from (String.length a) (a +:+ b) = b.
Proof. induction a as [|x a IH]; simpl; [done|]. done. Qed.

Lemma substr_from_app_S a c b :
  substr_from (S (String.length a)) (a +:+ String c b) = b.
Proof. induction a as [|x a IH]; simpl; [done|]. done. Qed.

(** A successful [find] splits the string at the first occurrence. *)
Lemma find_char_Some c s i :
  find_char c s = Some i ->
  s = substr_to i s +:+ String c (substr_from (S i) s)
  /\ has_char c (substr_to i s) = false.
Proof.
  revert i. induction s as [|a s IH]; intros i; simpl; [done|].
  case_decide as E; subst.
  - intros [= <-]. split; [done|done].
  - destruct (find_char c s) as [j|]; simpl; [|done]. intros [= <-].
    destruct (IH j eq_refl) as [Hs Hn]. simpl. split.
    + exact (f_equal (String a) Hs).
    + rewrite bool_decide_eq_false_2 by done. exact Hn.
Qed.

Lemma has_char_substr_from c n s :
  has_char c s = false -> has_char c (substr_from n s) = false.
Proof.
  revert n. induction s as [|a s IH]; intros [|n]; simpl; try done.
  intros [_ H]%orb_false_iff. by apply IH.
Qed.

Lemma has_char_substr_to c n s :
  has_char c s = false -> has_char c (substr_to n s) = false.
Proof.
  revert n. induction s as [|a s IH]; intros [|n]; simpl; try done.
  intros [H1 H2]%orb_false_iff. rewrite H1. by apply IH.
Qed.

Lemma starts_with_app p s : starts_with p (p +:+ s) = true.
Proof.
  unfold starts_with. induction p as [|x p IH]; [by destruct s|].
  simpl. destruct (ascii_dec x x); [done|congruence].
Qed.

(** ** Lemmas: getline *)

Lemma getline_split_length s :
  s <> "" -> String.length (getline_split s).2 < String.length s.
Proof.
  induction s as [|a s IH]; [done|]. intros _. simpl.
  case_decide; simpl; [lia|].
  destruct (getline_split s) as [line rest] eqn:E. simpl.
  destruct s as [|b s']; [simpl in E; inv E; simpl; lia|].
  assert (String.length rest < String.length (String b s')) by (apply IH; done). lia.
Qed.

Lemma getline_length s line rest :
  getline s = Some (line, rest) -> String.length rest < String.length s.
Proof.
  destruct s as [|a s]; [done|]. intros [= E].
  change (getline_split (String a s) = (line, rest)) in E.
  pose proof (getline_split_length (String a s) ltac:(done)) as H'.
  by rewrite E in H'.
Qed.

Lemma getline_line_no_nl s line rest :
  getline s = Some (line, rest) -> has_char nl_char line = false.
Proof.
  intros H. assert (E : getline_split s = (line, rest)) by (destruct s; [done|by injection H]).
  clear H. revert line rest E. induction s as [|a s IH]; simpl; intros line rest E.
  - by inv E.
  - case_decide as D; [by inv E|].
    destruct (getline_split s) as [l r]. inv E. simpl.
    rewrite bool_decide_eq_false_2 by done. by eapply IH.
Qed.

Lemma getline_app line rest :
  has_char nl_char line = false ->
  getline (line +:+ nl +:+ rest) = Some (line, rest).
Proof.
  intros H. assert (E : getline_split (line +:+ nl +:+ rest) = (line, rest)).
  { induction line as [|a line IH]; simpl in H.
    - done.
    - apply orb_false_iff in H as [H1 H2]. apply bool_decide_eq_false in H1.
      simpl. rewrite decide_False by done. by rewrite IH. }
  destruct line as [|a line]; unfold getline; rewrite <- E; done.
Qed.

(** Enough fuel: any two fuels at least the stream's length agree. *)
Lemma getline_loop_fuel {A} (body : A -> string -> option A) n m acc s :
  String.length s <= n -> String.length s <= m ->
  getline_loop body n acc s = getline_loop body m acc s.
Proof.
  revert m acc s. induction n as [|n IH]; intros m acc s Hn Hm.
  - destruct s; [|simpl in Hn; lia]. by destruct m.
  - destruct (getline s) as [[line rest]|] eqn:E.
    + pose proof (getline_length _ _ _ E). destruct m as [|m]; [lia|].
      simpl. rewrite E. destruct (body acc line); [|done]. apply IH; lia.
    + simpl. rewrite E. destruct m; simpl; by rewrite E.
Qed.

Lemma while_getline_step {A} (body : A -> string -> option A) acc s line rest :
  getline s = Some (line, rest) ->
  while_getline body acc s =
    match body acc line with None => None | Some acc' => while_getline body acc' rest end.
Proof.
  intros E. pose proof (getline_length _ _ _ E). unfold while_getline.
  destruct (String.length s) as [|n] eqn:L; [lia|]. simpl. rewrite E.
  destruct (body acc line); [|done]. apply getline_loop_fuel; lia.
Qed.

Lemma while_getline_nil {A} (body : A -> string -> option A) acc :
  while_getline body acc "" = Some acc.
Proof. done. Qed.

Lemma while_getline_line {A} (body : A -> string -> option A) acc line rest :
  has_char nl_char line = false ->
  while_getline body acc (line +:+ nl +:+ rest) =
    match body acc line with None => None | Some acc' => while_getline body acc' rest end.
Proof. intros H. by apply while_getline_step, getline_app. Qed.

(** Rule for invariants of a [while (std::getline(..))] loop: every line handed
    to the body is free of newlines. *)
Lemma while_getline_ind {A} (P : A -> Prop) (body : A -> string -> option A) :
  (forall acc line acc', has_char nl_char line = false ->
     P acc -> body acc line = Some acc' -> P acc') ->
  forall s acc acc', P acc -> while_getline body acc s = Some acc' -> P acc'.
Proof.
  intros Hbody s. remember (String.length s) as n eqn:Hn. revert s Hn.
  induction (lt_wf n) as [n _ IH]. intros s -> acc acc' Ha.
  destruct (getline s) as [[line rest]|] eqn:E.
  - rewrite (while_getline_step _ _ _ _ _ E).
    destruct (body acc line) as [acc1|] eqn:Eb; [|done].
    eapply IH; [by eapply getline_length | done |].
    eapply Hbody; [by eapply getline_line_no_nl | done | done].
  - destruct s; [|done]. rewrite while_getline_nil. by intros [= <-].
Qed.

(** A loop whose body never returns early always ends with a value. *)
Lemma while_getline_total {A} (body : A -> string -> A) s acc :
  exists acc', while_getline (fun a line => Some (body a line)) acc s = Some acc'.
Proof.
  remember (String.length s) as n eqn:Hn. revert s Hn acc.
  induction (lt_wf n) as [n _ IH]. intros s -> acc.
  destruct (getline s) as [[line rest]|] eqn:E.
  - rewrite (while_getline_step _ _ _ _ _ E).
    eapply IH; [by eapply getline_length | done].
  - destruct s; [|done]. by exists acc.
Qed.

Lemma for_each_line_nil {A} (body : A -> string -> A) acc :
  for_each_line body acc "" = acc.
Proof. done. Qed.

Lemma for_each_line_line {A} (body : A -> string -> A) acc line rest :
  has_char nl_char line = false ->
  for_each_line body acc (line +:+ nl +:+ rest) = for_each_line body (body acc line) rest.
Proof.
  intros H. unfold for_each_line. rewrite while_getline_line by done.
  destruct (while_getline_total body rest (body acc line)) as [acc' ->]. done.
Qed.

Lemma for_each_line_ind {A} (P : A -> Prop) (body : A -> string -> A) :
  (forall acc line, has_char nl_char line = false -> P acc -> P (body acc line)) ->
  forall s acc, P acc -> P (for_each_line body acc s).
Proof.
  intros Hbody s acc Ha. unfold for_each_line.
  destruct (while_getline_total body s acc) as [acc' E]. rewrite E. simpl.
  eapply (while_getline_ind P); [|exact Ha|exact E].
  intros a line a' Hl Pa [= <-]. by apply Hbody.
Qed.

(** ** Lemmas: std::map iteration *)

Lemma map_entries_perm m : map_entries m ≡ₚ map_to_list m.
Proof. apply merge_sort_Permutation. Qed.

Lemma map_entries_NoDup m : NoDup (map_entries m).*1.
Proof. rewrite map_entries_perm. apply NoDup_fst_map_to_list. Qed.

Lemma map_entries_elem m k v : (k, v) ∈ map_entries m <-> m !! k = Some v.
Proof. rewrite map_entries_perm. apply elem_of_map_to_list. Qed.

Lemma list_to_map_entries m : list_to_map (map_entries m) = m.
Proof.
  transitivity (list_to_map (map_to_list m) : gmap string string).
  - apply list_to_map_proper; [apply map_entries_NoDup | apply map_entries_perm].
  - apply list_to_map_to_list.
Qed.

Lemma to_string_inj x y : to_string x = to_string y -> x = y.
Proof. unfold to_string. apply pretty_Z_inj. Qed.

#[export] Hint Resolve has_char_substr_from has_char_substr_to : cpp.
Create Rewrite HintDb has_char.
#[export] Hint Rewrite has_char_app : has_char.

#[global] Arguments substr_from : simpl never.
#[global] Arguments substr_to : simpl never.
