(* ===== verification/CppNumber.v ===== *)
(** * Reading integers: std::stoi and istream extraction

    Both read the longest decimal numeral after leading white space.  [std::stoi]
    throws on an empty numeral or a value outside [int]; [stream >> int] stores 0 or
    the nearest [int] instead. *)

From S2P Require Import Prelude CppString.
From Stdlib Require Import Ascii.

(** [std::isspace] in the C locale. *)
Definition is_space (c : ascii) : bool :=
  let n := nat_of_ascii c in (n =? 32) || ((9 <=? n) && (n <=? 13)).

Definition digit_value (c : ascii) : option Z :=
  let n := nat_of_ascii c in
  if (48 <=? n) && (n <=? 57) then Some (Z.of_nat n - 48)%Z else None.

(** The digits at the front: their value after [acc], and how many there are. *)
Fixpoint read_digits (acc : Z) (s : string) : Z * nat :=
  match s with
  | EmptyString => (acc, 0)
  | String c s' =>
      match digit_value c with
      | None => (acc, 0)
      | Some d => let '(v, n) := read_digits (acc * 10 + d) s' in (v, S n)
      end
  end.

(** The white space at the front. *)
Fixpoint count_space (s : string) : nat :=
  match s with
  | EmptyString => 0
  | String c s' => if is_space c then S (count_space s') else 0
  end.

(** An optional sign: the factor and the characters it takes. *)
Definition read_sign (s : string) : Z * nat :=
  match s with
  | String "-" _ => ((-1)%Z, 1)
  | String "+" _ => (1%Z, 1)
  | _ => (1%Z, 0)
  end.

(** The value of the numeral after leading white space and the position behind it;
    nothing without a digit. *)
Definition scan_int (s : string) : option (Z * nat) :=
  let k := count_space s in
  let '(sign, j) := read_sign (substr_from k s) in
  let '(v, n) := read_digits 0 (substr_from (k + j) s) in
  if decide (n = 0) then None else Some ((sign * v)%Z, k + j + n).

Definition INT_MIN : Z := - 2 ^ 31.

Definition INT_MAX : Z := 2 ^ 31 - 1.

Definition int_range (z : Z) : Prop := (INT_MIN <= z <= INT_MAX)%Z.

Instance int_range_dec z : Decision (int_range z).
Proof. unfold int_range. apply _. Defined.

(** [std::stoi(text, &index)]: the value and the index. *)
Definition stoi (text : string) : outcome (Z * nat) :=
  match scan_int text with
  | None => Throw "stoi: invalid_argument"
  | Some (v, index) =>
      if decide (int_range v) then Ok (v, index) else Throw "stoi: out_of_range"
  end.

(** [stream >> value] for an [int]: what [value] holds afterwards. *)
Definition extract_int (stream : string) : Z :=
  match scan_int stream with
  | None => 0
  | Some (v, _) => Z.max INT_MIN (Z.min INT_MAX v)
  end.

(** [stream >> text]: the word and the rest of the stream. *)
Fixpoint read_word (s : string) : string * string :=
  match s with
  | EmptyString => ("", "")
  | String c s' =>
      if is_space c then ("", s)
      else let '(w, rest) := read_word s' in (String c w, rest)
  end.

Definition extract_word (stream : string) : string * string :=
  read_word (substr_from (count_space stream) stream).

(** No character of [s] is white space. *)
Fixpoint no_space (s : string) : bool :=
  match s with
  | EmptyString => true
  | String c s' => negb (is_space c) && no_space s'
  end.

(** [s] does not start with a digit. *)
Definition no_digit_front (s : string) : Prop :=
  match s with
  | EmptyString => True
  | String c _ => digit_value c = None
  end.

(** ** Lemmas *)

Lemma digit_value_pretty x : (x < 10)%N -> digit_value (pretty_N_char x) = Some (Z.of_N x).
Proof.
  intros H. assert (x = 0 \/ x = 1 \/ x = 2 \/ x = 3 \/ x = 4 \/ x = 5 \/ x = 6 \/ x = 7 \/ x = 8
    \/ x = 9)%N as E by lia. by destruct_or! E; subst.
Qed.

Lemma read_digits_stop acc s : no_digit_front s -> read_digits acc s = (acc, 0).
Proof. destruct s as [|c s]; simpl; [done|]. by intros ->. Qed.

Lemma pretty_N_go_app x s : pretty_N_go x s = pretty_N_go x "" +:+ s.
Proof.
  revert s. induction (N.lt_wf_0 x) as [x _ IH]. intros s.
  destruct (decide (0 < x)%N) as [Hx|Hx].
  - rewrite !(pretty_N_go_step x) by done.
    rewrite (IH _ (N.div_lt x 10 Hx eq_refl)), (IH _ (N.div_lt x 10 Hx eq_refl) (String _ "")).
    by rewrite sapp_assoc.
  - assert (x = 0)%N as -> by lia. by rewrite !pretty_N_go_0.
Qed.

(** Reading the digits of [x] multiplies by the power of ten they take and adds [x]. *)
Lemma read_digits_pretty_go x s :
  exists k, k + String.length s = String.length (pretty_N_go x s) /\ forall acc,
    read_digits acc (pretty_N_go x s) =
      let '(v, n) := read_digits (acc * 10 ^ Z.of_nat k + Z.of_N x) s in (v, n + k).
Proof.
  revert s. induction (N.lt_wf_0 x) as [x _ IH]. intros s.
  destruct (decide (0 < x)%N) as [Hx|Hx].
  - destruct (IH (x / 10)%N (N.div_lt x 10 Hx eq_refl) (String (pretty_N_char (x mod 10)) s))
      as (k & Hlen & Hk).
    exists (S k). rewrite pretty_N_go_step by done. split; [rewrite <- Hlen; simpl; lia|].
    intros acc. rewrite Hk by done. cbn [read_digits].
    rewrite digit_value_pretty by (by apply N.mod_lt).
    rewrite Nat2Z.inj_succ, Z.pow_succ_r by lia.
    replace ((acc * 10 ^ Z.of_nat k + Z.of_N (x / 10)) * 10 + Z.of_N (x mod 10))%Z
      with (acc * (10 * 10 ^ Z.of_nat k) + Z.of_N x)%Z by (pose proof (N.div_mod x 10); lia).
    destruct (read_digits _ s) as [v n]. f_equal. lia.
  - assert (x = 0)%N as -> by lia. exists 0. rewrite pretty_N_go_0. split; [done|]. intros acc.
    change (10 ^ Z.of_nat 0)%Z with 1%Z. replace (acc * 1 + Z.of_N 0)%Z with acc by lia.
    destruct (read_digits acc s). f_equal. lia.
Qed.

(** The digits of a natural number in front of anything but a digit. *)
Lemma read_digits_pretty (x : N) s :
  no_digit_front s ->
  read_digits 0 (pretty x +:+ s) = (Z.of_N x, String.length (pretty x)) /\
  String.length (pretty x) <> 0.
Proof.
  intros Hs. destruct (decide (x = 0)%N) as [->|Hx].
  - change (pretty 0%N) with "0". simpl. by rewrite read_digits_stop.
  - assert (E : pretty x = pretty_N_go x "") by (unfold pretty, pretty_N; by rewrite decide_False).
    rewrite E, <- pretty_N_go_app.
    destruct (read_digits_pretty_go x s) as (k & Hlen & Hk).
    rewrite pretty_N_go_app, slength_app in Hlen.
    rewrite Hk, read_digits_stop by done. split; [f_equal; lia|].
    rewrite pretty_N_go_step by lia. rewrite pretty_N_go_app, slength_app. simpl. lia.
Qed.

(** Nothing a numeral starts with is white space. *)
Lemma pretty_N_front (x : N) s : exists c r d,
  pretty x +:+ s = String c r /\ digit_value c = Some d.
Proof.
  assert (Hgo : forall y t, (0 < y)%N -> exists c r d,
    pretty_N_go y t = String c r /\ digit_value c = Some d).
  { intros y. induction (N.lt_wf_0 y) as [y _ IH]. intros t Hy. rewrite pretty_N_go_step by done.
    destruct (decide (0 < y / 10)%N) as [Hd|Hd].
    - by apply IH; [apply N.div_lt|].
    - assert (y / 10 = 0)%N as -> by (by apply N.le_0_r, N.nlt_ge). rewrite pretty_N_go_0. eexists _, _, _.
      split; [done|]. apply digit_value_pretty. by apply N.mod_lt. }
  unfold pretty, pretty_N. case_decide; [by eexists _, _, _|].
  rewrite <- pretty_N_go_app. apply Hgo. lia.
Qed.

Lemma digit_not_space c d : digit_value c = Some d -> is_space c = false.
Proof.
  by destruct c as [[] [] [] [] [] [] [] []].
Qed.

Lemma digit_not_sign c d r : digit_value c = Some d -> read_sign (String c r) = (1%Z, 0).
Proof. by destruct c as [[] [] [] [] [] [] [] []]. Qed.

Lemma count_space_front c r : is_space c = false -> count_space (String c r) = 0.
Proof. simpl. by intros ->. Qed.

Lemma substr_from_0 s : substr_from 0 s = s.
Proof. by destruct s. Qed.

Lemma substr_from_1 c s : substr_from 1 (String c s) = s.
Proof. by destruct s. Qed.

(** [std::to_string] and the numeral reader are inverse, whatever follows. *)
Lemma scan_int_to_string z s :
  no_digit_front s ->
  scan_int (to_string z +:+ s) = Some (z, String.length (to_string z)).
Proof.
  intros Hs.
  assert (Hpos : forall x : N,
    scan_int (pretty x +:+ s) = Some (Z.of_N x, String.length (pretty x))).
  { intros x. destruct (pretty_N_front x s) as (c & r & d & E & Hd). unfold scan_int.
    destruct (read_digits_pretty x s Hs) as [Hr Hn].
    rewrite E in *. rewrite count_space_front by eauto using digit_not_space.
    rewrite substr_from_0, (digit_not_sign _ d) by done. cbn [Nat.add].
    rewrite substr_from_0.
    rewrite Hr, decide_False by done. do 2 f_equal; lia. }
  unfold to_string. destruct z as [|p|p]; [apply (Hpos 0%N)|apply (Hpos (Npos p))|].
  change (pretty (Z.neg p)) with ("-" +:+ pretty (Npos p)).
  destruct (read_digits_pretty (Npos p) s Hs) as [Hr Hn]. rewrite sapp_assoc.
  change ("-" +:+ (pretty (Npos p) +:+ s)) with (String "-" (pretty (Npos p) +:+ s)).
  unfold scan_int. rewrite count_space_front, substr_from_0 by done. cbn [read_sign Nat.add].
  rewrite substr_from_1, Hr, decide_False by done. by rewrite slength_app.
Qed.

Lemma stoi_to_string z :
  int_range z -> stoi (to_string z) = Ok (z, String.length (to_string z)).
Proof.
  intros Hz. unfold stoi. rewrite <- (sapp_nil_r (to_string z)) at 1.
  by rewrite scan_int_to_string, decide_True.
Qed.

(** A blank in front of the numeral is skipped. *)
Lemma scan_int_blank s : scan_int (String " " s) =
  (fun '(v, n) => (v, S n)) <$> scan_int s.
Proof.
  unfold scan_int. change (count_space (String " " s)) with (S (count_space s)).
  change (substr_from (S (count_space s)) (String " " s)) with (substr_from (count_space s) s).
  destruct (read_sign _) as [sign j].
  change (substr_from (S (count_space s) + j) (String " " s)) with (substr_from (count_space s + j) s).
  destruct (read_digits _ _) as [v n]. by case_decide.
Qed.

Lemma extract_int_to_string z s :
  int_range z -> no_digit_front s -> extract_int (String " " (to_string z +:+ s)) = z.
Proof.
  intros [H1 H2] Hs. unfold extract_int. rewrite scan_int_blank, scan_int_to_string by done. simpl.
  lia.
Qed.

Lemma extract_int_range s : int_range (extract_int s).
Proof.
  unfold extract_int, int_range. destruct (scan_int s) as [[v n]|]; unfold INT_MIN, INT_MAX; lia.
Qed.

Lemma read_word_blank w s : no_space w = true -> read_word (w +:+ String " " s) = (w, String " " s).
Proof.
  induction w as [|c w IH]; simpl; intros H; [done|].
  apply andb_true_iff in H as [H1 H2]. apply negb_true_iff in H1.
  rewrite H1, IH by done. done.
Qed.

Lemma extract_word_blank w s :
  no_space w = true -> w <> "" -> extract_word (w +:+ String " " s) = (w, String " " s).
Proof.
  intros Hw Hne. unfold extract_word. rewrite <- read_word_blank by done. f_equal.
  destruct w as [|c w]; [done|]. simpl in Hw. apply andb_true_iff in Hw as [H1 _].
  apply negb_true_iff in H1. rewrite sapp_cons, count_space_front by done. apply substr_from_0.
Qed.
