(* ===== verification/CppDouble.v ===== *)
(** * double: arithmetic and std::chrono conversions

    [double] is IEEE double precision with rounding to nearest even ([SpecFloat] with
    precision 53 and exponent bound 1024).  The lemmas bound the relative error of a
    conversion, a product and a quotient by 2^-52 where the result is neither tiny nor
    huge, and carry errors of the operands through a quotient. *)

From S2P Require Import Prelude.
From Stdlib Require Import SpecFloat QArith Qabs Qpower Lqa.

Abbreviation double := spec_float.

(** [static_cast<double>(z)] of an integer. *)
Definition f64_of_Z (z : Z) : double := binary_normalize 53 1024 z 0 false.

Definition f64_mul : double -> double -> double := SFmul 53 1024.

Definition f64_div : double -> double -> double := SFdiv 53 1024.

(** ** std::chrono: a steady_clock duration counts nanoseconds in 64 bits *)

(** [std::chrono::duration<double>(d).count()]. *)
Definition duration_seconds (ns : Z) : double := f64_div (f64_of_Z ns) (f64_of_Z 1000000000).

(** [std::chrono::duration<double, std::micro>(d).count()]. *)
Definition duration_micros (ns : Z) : double := f64_div (f64_of_Z ns) (f64_of_Z 1000).

(** ** Lemmas: rationals *)

Local Open Scope Q_scope.

Lemma Qpower_pos_lt (a : Q) (z : Z) : 0 < a -> 0 < a ^ z.
Proof. apply Qpower_0_lt. Qed.

Lemma Qpower_split (a : Q) (x y z : Z) : 0 < a -> z = (x + y)%Z -> a ^ z == a ^ x * a ^ y.
Proof. intros Ha ->. apply Qpower_plus. intros E. rewrite E in Ha. by apply (Qlt_irrefl 0). Qed.

Lemma inject_Z_pow (a z : Z) : (0 <= z)%Z -> inject_Z (a ^ z) == inject_Z a ^ z.
Proof. apply Zpower_Qpower. Qed.

Lemma inject_Z_le (a b : Z) : (a <= b)%Z <-> inject_Z a <= inject_Z b.
Proof. by rewrite Zle_Qle. Qed.

Lemma inject_Z_lt (a b : Z) : (a < b)%Z <-> inject_Z a < inject_Z b.
Proof. by rewrite Zlt_Qlt. Qed.

Lemma inject_Z_pos (a : Z) : (0 < a)%Z -> 0 < inject_Z a.
Proof. intros Ha. unfold Qlt. simpl. lia. Qed.

Lemma Qdiv_eq (a b c : Q) : 0 < b -> a == c * b -> a / b == c.
Proof. intros Hb ->. field. intros E. rewrite E in Hb. by apply (Qlt_irrefl 0). Qed.

Lemma Qmul_lt_r (a b c : Q) : 0 < c -> a < b -> a * c < b * c.
Proof. intros Hc H. by apply Qmult_lt_compat_r. Qed.

Lemma Qmul_le_r (a b c : Q) : 0 <= c -> a <= b -> a * c <= b * c.
Proof. intros Hc H. by apply Qmult_le_compat_r. Qed.


(** ** Lemmas: digits and shifts *)

Lemma Zdigits2_log2 m : (0 < m)%Z -> Zdigits2 m = (Z.log2 m + 1)%Z.
Proof.
  destruct m as [|p|p]; try lia. intros _. cbn [Zdigits2].
  induction p as [p IH|p IH|]; [| |done]; cbn [digits2_pos]; rewrite Pos2Z.inj_succ, IH;
    destruct p; simpl; lia.
Qed.

Lemma iter_pos_nat {A} (f : A -> A) p x : SpecFloat.iter_pos f p x = Nat.iter (Pos.to_nat p) f x.
Proof.
  revert x. induction p as [p IH|p IH|]; intros x; cbn [SpecFloat.iter_pos]; [| |done].
  - rewrite !IH, Pos2Nat.inj_xI, <- Nat.iter_succ_r, <- Nat.iter_add. f_equal. lia.
  - rewrite !IH, Pos2Nat.inj_xO, <- Nat.iter_add. f_equal. lia.
Qed.

Lemma shr_1_div2 r : (0 <= shr_m r)%Z -> shr_m (shr_1 r) = (shr_m r / 2)%Z.
Proof.
  destruct r as [m r s]. cbn [shr_m]. intros Hm. destruct m as [|p|p]; [done| |lia].
  rewrite <- Z.div2_div. by destruct p.
Qed.

Lemma shr_steps n r :
  (0 <= shr_m r)%Z -> shr_m (Nat.iter n shr_1 r) = (shr_m r / 2 ^ Z.of_nat n)%Z.
Proof.
  intros Hr. induction n as [|n IH].
  - change (2 ^ Z.of_nat 0)%Z with 1%Z. by rewrite Z.div_1_r.
  - change (Nat.iter (S n) shr_1 r) with (shr_1 (Nat.iter n shr_1 r)). rewrite shr_1_div2; [|rewrite IH; apply Z.div_pos; lia].
    rewrite IH, Z.div_div, Nat2Z.inj_succ, Z.pow_succ_r, (Z.mul_comm 2) by lia. done.
Qed.

Lemma shr_spec r e n :
  (0 <= shr_m r)%Z -> (0 <= n)%Z ->
  shr_m (shr r e n).1 = (shr_m r / 2 ^ n)%Z /\ (shr r e n).2 = (e + n)%Z.
Proof.
  intros Hr Hn. unfold shr. destruct n as [|p|p]; [| |lia].
  - simpl. rewrite Z.div_1_r. split; [done|lia].
  - cbn [fst snd]. rewrite iter_pos_nat, shr_steps by done. by rewrite positive_nat_Z.
Qed.

Lemma shr_record_of_loc_m m l : shr_m (shr_record_of_loc m l) = m.
Proof. by destruct l as [|[]]. Qed.

Lemma round_nearest_even_cases m l : round_nearest_even m l = m \/ round_nearest_even m l = (m + 1)%Z.
Proof. destruct l as [|[]]; simpl; auto. destruct (Z.even m); auto. Qed.

(** A normal mantissa: 53 digits. *)
Definition normal (m : Z) : Prop := (2 ^ 52 <= m < 2 ^ 53)%Z.

Lemma normal_log2 m : normal m -> Z.log2 m = 52%Z.
Proof. intros Hm. by apply Z.log2_unique. Qed.

(** Cut to 53 digits, a mantissa is normal. *)
Lemma cut_normal m :
  (2 ^ 52 <= m)%Z -> (0 <= Z.log2 m - 52)%Z /\ normal (m / 2 ^ (Z.log2 m - 52)).
Proof.
  intros Hm. assert (Hn : (52 <= Z.log2 m)%Z) by (by apply (Z.log2_le_mono (2 ^ 52))).
  split; [lia|]. pose proof (Z.log2_spec m ltac:(lia)) as [H1 H2]. set (n := (Z.log2 m - 52)%Z).
  assert (E1 : (2 ^ Z.log2 m = 2 ^ n * 2 ^ 52)%Z) by (rewrite <- Z.pow_add_r by lia; f_equal; lia).
  assert (E2 : (2 ^ Z.succ (Z.log2 m) = 2 ^ n * 2 ^ 53)%Z) by (rewrite <- Z.pow_add_r by lia; f_equal; lia).
  split; [apply Z.div_le_lower_bound; lia|apply Z.div_lt_upper_bound; lia].
Qed.

(** ** Lemmas: rounding *)

(** What the rounding of a mantissa of at least 53 digits comes to: [r * 2^e1] for one of
    the two neighbours [r] of the cut mantissa. *)
Lemma binary_round_aux_spec m e l :
  (2 ^ 52 <= m)%Z ->
  let n := (Z.log2 m - 52)%Z in
  (-1000 <= e + n)%Z -> (e + n <= 960)%Z ->
  exists m' e' r, binary_round_aux 53 1024 false m e l = S754_finite false m' e' /\
    normal (Zpos m') /\ (r = m / 2 ^ n \/ r = m / 2 ^ n + 1)%Z /\ normal (m / 2 ^ n) /\
    inject_Z (Zpos m') * 2 ^ e' == inject_Z r * 2 ^ (e + n).
Proof.
  intros Hm n Hlo Hhi. destruct (cut_normal m Hm) as [Hn Hnorm]. fold n in Hn, Hnorm.
  assert (Hfexp : forall d, (-1000 <= d)%Z -> fexp 53 1024 (d + 53) = d)
    by (intros d Hd; unfold fexp, emin; lia).
  unfold binary_round_aux, shr_fexp.
  rewrite (Zdigits2_log2 m) by lia. replace (Z.log2 m + 1 + e)%Z with (e + n + 53)%Z by lia.
  rewrite Hfexp by lia. replace (e + n - e)%Z with n by lia.
  destruct (shr_spec (shr_record_of_loc m l) e n) as [E1 E2]; [rewrite shr_record_of_loc_m; lia|done|].
  rewrite shr_record_of_loc_m in E1. destruct (shr _ e n) as [mrs e1]. cbn [fst snd] in E1, E2. subst e1.
  rewrite E1. set (r := round_nearest_even _ _). set (q := (m / 2 ^ n)%Z) in *.
  assert (Hr : r = q \/ r = (q + 1)%Z) by apply round_nearest_even_cases.
  unfold normal in Hnorm. rewrite (Zdigits2_log2 r) by lia.
  destruct (decide (r = 2 ^ 53)%Z) as [E|E].
  - rewrite E. change (Z.log2 (2 ^ 53)) with 53%Z. replace (53 + 1 + (e + n))%Z with (e + n + 1 + 53)%Z by lia.
    rewrite Hfexp by lia. replace (e + n + 1 - (e + n))%Z with 1%Z by lia.
    change (shr (shr_record_of_loc (2 ^ 53) loc_Exact) (e + n) 1) with
      (Build_shr_record (2 ^ 52) false false, e + n + 1)%Z.
    cbn iota. change (shr_m (Build_shr_record (2 ^ 52) false false)) with (Zpos (2 ^ 52)). cbn iota.
    rewrite (proj2 (Z.leb_le (e + n + 1) (1024 - 53))) by lia.
    exists (2 ^ 52)%positive, (e + n + 1)%Z, r.
    split; [done|]. split; [by split; vm_compute|]. split; [exact Hr|]. split; [exact Hnorm|].
    rewrite E, (Qpower_split 2 (e + n) 1 (e + n + 1)) by (lra || lia).
    change (inject_Z (Z.pos (2 ^ 52))) with 4503599627370496. change (inject_Z (2 ^ 53)) with 9007199254740992.
    change (2 ^ 1) with 2. ring.
  - assert (Hrn : normal r) by (unfold normal; lia). rewrite (normal_log2 r Hrn).
    replace (52 + 1 + (e + n))%Z with (e + n + 53)%Z by lia. rewrite Hfexp, Z.sub_diag by lia.
    cbn [shr]. rewrite shr_record_of_loc_m. unfold normal in Hrn. destruct r as [|p|p] eqn:Er; try lia.
    rewrite (proj2 (Z.leb_le (e + n) (1024 - 53))) by lia.
    exists p, (e + n)%Z, (Zpos p).
    split; [done|]. split; [exact Hrn|]. split; [exact Hr|]. split; [exact Hnorm|reflexivity].
Qed.

(** One rounding is off by at most this, relative to the result. *)
Definition ulp : Q := 1 # 4503599627370496.

(** [f] is finite, positive and normal, and [q] up to a relative error of [eps]. *)
Definition near (eps : Q) (f : double) (q : Q) : Prop :=
  exists m e, f = S754_finite false m e /\ normal (Zpos m) /\
    Qabs (inject_Z (Zpos m) * 2 ^ e - q) <= eps * q.

(** Neither tiny nor huge. *)
Definition in_range (v : Q) : Prop := 2 ^ (-900) <= v /\ v <= 2 ^ 900.

Lemma binary_round_aux_near m e l v :
  (2 ^ 52 <= m)%Z -> inject_Z m * 2 ^ e <= v -> v < inject_Z (m + 1) * 2 ^ e -> in_range v ->
  near ulp (binary_round_aux 53 1024 false m e l) v.
Proof.
  intros Hm Hlo Hhi [Hr1 Hr2]. set (n := (Z.log2 m - 52)%Z).
  destruct (cut_normal m Hm) as [Hn Hq]. fold n in Hn, Hq. set (q := (m / 2 ^ n)%Z) in *. pose proof (Z.div_mod m (2 ^ n) ltac:(lia)) as Ed.
  pose proof (Z.mod_pos_bound m (2 ^ n) ltac:(lia)) as Hmod. fold q in Ed.
  set (T := 2 ^ (e + n)). assert (HT : 0 < T) by (apply Qpower_pos_lt; lra).
  assert (HTe : T == 2 ^ e * inject_Z (2 ^ n)).
  { unfold T. rewrite (Qpower_split 2 e n) by (lra || lia). by rewrite inject_Z_pow. }
  assert (He : 0 < 2 ^ e) by (apply Qpower_pos_lt; lra).
  assert (Hv1 : inject_Z q * T <= v).
  { rewrite HTe. apply Qle_trans with (inject_Z m * 2 ^ e); [|done].
    assert (H : (q * 2 ^ n <= m)%Z) by lia. apply inject_Z_le in H. rewrite inject_Z_mult in H.
    apply (Qmul_le_r _ _ (2 ^ e)) in H; lra. }
  assert (Hv2 : v < inject_Z (q + 1) * T).
  { rewrite HTe. apply Qlt_le_trans with (inject_Z (m + 1) * 2 ^ e); [done|].
    assert (H : (m + 1 <= (q + 1) * 2 ^ n)%Z) by lia. apply inject_Z_le in H. rewrite inject_Z_mult in H.
    apply (Qmul_le_r _ _ (2 ^ e)) in H; lra. }
  assert (Hq1 : inject_Z (2 ^ 52) <= inject_Z q) by (apply -> inject_Z_le; apply Hq).
  assert (Hq2 : inject_Z (q + 1) <= inject_Z (2 ^ 53)) by (apply -> inject_Z_le; unfold normal in Hq; lia).
  change (inject_Z (2 ^ 52)) with (2 ^ 52) in Hq1. change (inject_Z (2 ^ 53)) with (2 ^ 53) in Hq2.
  assert (Hup : (e + n <= 960)%Z).
  { assert (H : 2 ^ (52 + (e + n)) <= 2 ^ 900).
    { rewrite (Qpower_split 2 52 (e + n) (52 + (e + n)) ltac:(lra) eq_refl). fold T.
      apply Qle_trans with (inject_Z q * T); [by apply Qmul_le_r; [lra|]|lra]. }
    apply Qpower_le_compat_l_inv in H; [lia|lra]. }
  assert (Hdown : (-1000 <= e + n)%Z).
  { assert (H : 2 ^ (-900) < 2 ^ (53 + (e + n))).
    { rewrite (Qpower_split 2 53 (e + n) (53 + (e + n)) ltac:(lra) eq_refl). fold T.
      apply Qlt_le_trans with (inject_Z (q + 1) * T); [lra|]. by apply Qmul_le_r; [lra|]. }
    apply Qpower_lt_compat_l_inv in H; [lia|lra]. }
  destruct (binary_round_aux_spec m e l Hm Hdown Hup) as (m' & e' & r & -> & Hm' & Hr & _ & Ev).
  exists m', e'. split; [done|]. split; [done|]. rewrite Ev. fold n T. fold n q in Hr.
  rewrite inject_Z_plus in Hv2. change (inject_Z 1) with 1 in Hv2.
  assert (Hvq : (2 ^ 52) * T <= v) by (apply Qle_trans with (inject_Z q * T); [by apply Qmul_le_r; [lra|]|done]).
  change (2 ^ 52) with 4503599627370496 in Hvq.
  apply Qabs_Qle_condition. unfold ulp.
  destruct Hr as [-> | ->]; rewrite ?inject_Z_plus; change (inject_Z 1) with 1; lra.
Qed.

Lemma Pos_iter_xO p k : Zpos (Pos.iter xO p k) = (Zpos p * 2 ^ Zpos k)%Z.
Proof.
  induction k as [|k IH] using Pos.peano_ind; [simpl; lia|].
  rewrite Pos.iter_succ, Pos2Z.inj_xO, IH, Pos2Z.inj_succ, Z.pow_succ_r by lia. lia.
Qed.

Lemma f64_of_Z_near z : (0 < z < 2 ^ 900)%Z -> near ulp (f64_of_Z z) (inject_Z z).
Proof.
  intros [Hz1 Hz2]. destruct z as [|p|p]; try lia. unfold f64_of_Z, binary_normalize, binary_round.
  assert (Hrange : in_range (inject_Z (Zpos p))).
  { split.
    - apply Qle_trans with 1; [by vm_compute|]. change 1 with (inject_Z 1). apply -> inject_Z_le. lia.
    - change (2 ^ 900) with (inject_Z (2 ^ 900)). apply -> inject_Z_le. lia. }
  change (Z.pos (digits2_pos p)) with (Zdigits2 (Zpos p)). rewrite Zdigits2_log2 by lia.
  pose proof (Z.log2_nonneg (Zpos p)) as Hl. pose proof (Z.log2_spec (Zpos p) ltac:(lia)) as [Hlo Hhi].
  set (l := Z.log2 (Zpos p)) in *. unfold shl_align.
  replace (fexp 53 1024 (l + 1 + 0) - 0)%Z with (l - 52)%Z by (unfold fexp, emin; lia).
  destruct (l - 52)%Z as [|k|k] eqn:Ek.
  1,2: apply binary_round_aux_near; [|change (2 ^ 0) with 1; lra| |done].
  - assert (l = 52)%Z as E by lia. rewrite E in Hlo. lia.
  - apply Qlt_le_trans with (inject_Z (Zpos p + 1)); [apply -> inject_Z_lt; lia|change (2 ^ 0) with 1; lra].
  - apply Z.le_trans with (2 ^ l)%Z; [apply Z.pow_le_mono_r; lia|lia].
  - apply Qlt_le_trans with (inject_Z (Zpos p + 1)); [apply -> inject_Z_lt; lia|change (2 ^ 0) with 1; lra].
  - replace (fexp 53 1024 (l + 1 + 0))%Z with (Z.neg k) by (unfold fexp, emin; lia).
    assert (HT : 0 < 2 ^ Z.neg k) by (apply Qpower_pos_lt; lra).
    assert (Ev : inject_Z (Zpos (Pos.iter xO p k)) * 2 ^ Z.neg k == inject_Z (Zpos p)).
    { rewrite Pos_iter_xO, inject_Z_mult, inject_Z_pow, <- Qmult_assoc by lia. change (inject_Z 2) with 2.
      rewrite <- (Qpower_split 2 (Zpos k) (Z.neg k) 0) by (lra || lia). change (2 ^ 0) with 1. lra. }
    apply binary_round_aux_near; [|lra|rewrite inject_Z_plus; change (inject_Z 1) with 1; lra|done].
    rewrite Pos_iter_xO. replace (2 ^ 52)%Z with (2 ^ l * 2 ^ Zpos k)%Z; [nia|].
    rewrite <- Z.pow_add_r by lia. f_equal. lia.
Qed.

Lemma f64_mul_near m1 e1 m2 e2 :
  normal (Zpos m1) -> normal (Zpos m2) ->
  let v := inject_Z (Zpos m1) * 2 ^ e1 * (inject_Z (Zpos m2) * 2 ^ e2) in
  in_range v -> near ulp (f64_mul (S754_finite false m1 e1) (S754_finite false m2 e2)) v.
Proof.
  intros H1 H2 v Hv. unfold normal in *. cbn [f64_mul SFmul xorb].
  assert (HT : 0 < 2 ^ (e1 + e2)) by (apply Qpower_pos_lt; lra).
  assert (Ev : v == inject_Z (Zpos (m1 * m2)) * 2 ^ (e1 + e2)).
  { unfold v. rewrite Pos2Z.inj_mul, inject_Z_mult, (Qpower_split 2 e1 e2 (e1 + e2) ltac:(lra) eq_refl). ring. }
  apply binary_round_aux_near; [lia|lra| |done].
  rewrite inject_Z_plus. change (inject_Z 1) with 1. lra.
Qed.

(** A quotient in the range is not estimated as subnormal. *)
Lemma quotient_exponent m1 e1 m2 e2 :
  in_range (inject_Z (Zpos m1) * 2 ^ e1 / (inject_Z (Zpos m2) * 2 ^ e2)) ->
  (-1000 <= Z.log2 (Zpos m1) + 1 + e1 - (Z.log2 (Zpos m2) + 1 + e2))%Z.
Proof.
  set (v := _ / _). intros Hv.
  pose proof (Z.log2_spec (Zpos m1) ltac:(lia)) as [_ U1]. pose proof (Z.log2_nonneg (Zpos m1)) as N1.
  pose proof (Z.log2_spec (Zpos m2) ltac:(lia)) as [L2 _]. pose proof (Z.log2_nonneg (Zpos m2)) as N2.
  set (l1 := Z.log2 (Zpos m1)) in *. set (l2 := Z.log2 (Zpos m2)) in *.
  set (D := (l1 + 1 + e1 - (l2 + 1 + e2))%Z).
  assert (P2 : 0 < inject_Z (Zpos m2)) by (by apply inject_Z_pos).
  assert (T1 : 0 < 2 ^ e1) by (apply Qpower_pos_lt; lra). assert (T2 : 0 < 2 ^ e2) by (apply Qpower_pos_lt; lra).
  assert (H : 2 ^ (-900) < 2 ^ (D + 1)); [|apply Qpower_lt_compat_l_inv in H; [lia|lra]].
  apply Qle_lt_trans with v; [apply Hv|].
  assert (T : 0 < inject_Z (Zpos m2) * 2 ^ e2) by nra. apply (Qmult_lt_r _ _ _ T).
  assert (E : v * (inject_Z (Zpos m2) * 2 ^ e2) == inject_Z (Zpos m1) * 2 ^ e1) by (unfold v; field; lra).
  rewrite E. apply Qlt_le_trans with (2 ^ (l1 + 1) * 2 ^ e1).
  - apply Qmul_lt_r; [done|]. change 2 with (inject_Z 2) at 1. rewrite <- inject_Z_pow by lia.
    apply -> inject_Z_lt. exact U1.
  - rewrite <- (Qpower_split 2 (l1 + 1) e1 (l1 + 1 + e1) ltac:(lra) eq_refl).
    rewrite (Qpower_split 2 (D + 1) (l2 + e2) (l1 + 1 + e1) ltac:(lra) ltac:(lia)).
    rewrite (Qpower_split 2 l2 e2 (l2 + e2) ltac:(lra) eq_refl).
    assert (2 ^ l2 <= inject_Z (Zpos m2)).
    { change 2 with (inject_Z 2) at 1. rewrite <- inject_Z_pow by lia. by apply -> inject_Z_le. }
    pose proof (Qpower_pos_lt 2 (D + 1) ltac:(lra)). pose proof (Qpower_pos_lt 2 l2 ltac:(lra)).
    rewrite !(Qmult_comm (2 ^ (D + 1))). apply Qmul_le_r; [lra|]. by apply Qmul_le_r; [lra|].
Qed.

Lemma f64_div_near m1 e1 m2 e2 :
  let v := inject_Z (Zpos m1) * 2 ^ e1 / (inject_Z (Zpos m2) * 2 ^ e2) in
  in_range v -> near ulp (f64_div (S754_finite false m1 e1) (S754_finite false m2 e2)) v.
Proof.
  intros v Hv. cbn [f64_div SFdiv xorb]. unfold SFdiv_core_binary.
  rewrite !Zdigits2_log2 by lia.
  pose proof (Z.log2_spec (Zpos m1) ltac:(lia)) as [L1 U1]. pose proof (Z.log2_nonneg (Zpos m1)) as N1.
  pose proof (Z.log2_spec (Zpos m2) ltac:(lia)) as [L2 U2]. pose proof (Z.log2_nonneg (Zpos m2)) as N2.
  set (l1 := Z.log2 (Zpos m1)) in *. set (l2 := Z.log2 (Zpos m2)) in *.
  set (D := (l1 + 1 + e1 - (l2 + 1 + e2))%Z). set (e' := Z.min (fexp 53 1024 D) (e1 - e2)).
  set (s := (e1 - e2 - e')%Z). assert (Hs : (0 <= s)%Z) by lia.
  replace (match s with 0%Z => Z.pos m1 | Z.pos _ => Z.shiftl (Z.pos m1) s | Z.neg _ => 0%Z end)
    with (Zpos m1 * 2 ^ s)%Z by (destruct s; [lia|by rewrite Z.shiftl_mul_pow2|lia]).
  assert (P1 : 0 < inject_Z (Zpos m1)) by (by apply inject_Z_pos).
  assert (P2 : 0 < inject_Z (Zpos m2)) by (by apply inject_Z_pos).
  assert (T1 : 0 < 2 ^ e1) by (apply Qpower_pos_lt; lra). assert (T2 : 0 < 2 ^ e2) by (apply Qpower_pos_lt; lra).
  assert (T' : 0 < 2 ^ e') by (apply Qpower_pos_lt; lra).
  (* the exact quotient over the mantissas *)
  assert (Ev : v * inject_Z (Zpos m2) == inject_Z (Zpos m1 * 2 ^ s) * 2 ^ e').
  { rewrite inject_Z_mult, inject_Z_pow, <- Qmult_assoc by lia. change (inject_Z 2) with 2.
    rewrite <- (Qpower_split 2 s e' (e1 - e2) ltac:(lra) ltac:(lia)). unfold v.
    rewrite (Qpower_split 2 (e1 - e2) e2 e1 ltac:(lra) ltac:(lia)). field. lra. }
  pose proof (Z.div_mod (Zpos m1 * 2 ^ s) (Zpos m2) ltac:(lia)) as Ed.
  pose proof (Z.mod_pos_bound (Zpos m1 * 2 ^ s) (Zpos m2) ltac:(lia)) as Hmod.
  unfold Z.div, Z.modulo in Ed, Hmod. destruct (Z.div_eucl (Zpos m1 * 2 ^ s) (Zpos m2)) as [q r].
  assert (Hq : (2 ^ 52 <= q)%Z).
  { (* the estimate of the exponent is not in the subnormal range *)
    assert (HD : (-1000 <= D)%Z) by (exact (quotient_exponent m1 e1 m2 e2 Hv)).
    assert (Hsl : (52 + (l2 + 1) <= l1 + s)%Z) by (unfold s, e', fexp, emin in *; lia).
    assert (Hbig : (2 ^ 52 * 2 ^ (l2 + 1) <= Zpos m1 * 2 ^ s)%Z).
    { rewrite <- Z.pow_add_r by lia. apply Z.le_trans with (2 ^ l1 * 2 ^ s)%Z; [|nia].
      rewrite <- Z.pow_add_r by lia. apply Z.pow_le_mono_r; lia. }
    assert (Hm2 : (Zpos m2 <= 2 ^ (l2 + 1))%Z) by (rewrite Z.add_1_r; lia). nia. }
  assert (Hqr : (q * Zpos m2 <= Zpos m1 * 2 ^ s < (q + 1) * Zpos m2)%Z) by lia.
  destruct Hqr as [Hq1 Hq2]. apply inject_Z_le in Hq1. apply inject_Z_lt in Hq2.
  rewrite inject_Z_mult in Hq1. rewrite (inject_Z_mult (q + 1)) in Hq2.
  apply binary_round_aux_near; [done| | |done].
  - apply (Qmult_le_r _ _ _ P2). rewrite Ev. apply (Qmul_le_r _ _ (2 ^ e')) in Hq1; lra.
  - apply (Qmult_lt_r _ _ _ P2). rewrite Ev. apply (Qmul_lt_r _ _ (2 ^ e')) in Hq2; lra.
Qed.

(** ** Lemmas: errors of the operands *)

Lemma near_bounds eps f q :
  near eps f q -> 0 < q -> 0 <= eps -> eps <= 1 # 1000 ->
  exists m e, f = S754_finite false m e /\ normal (Zpos m) /\
    let x := inject_Z (Zpos m) * 2 ^ e in
    0 < x /\ (1 - eps) * q <= x /\ x <= (1 + eps) * q.
Proof.
  intros (m & e & -> & Hm & Hx) Hq H0 H1. exists m, e. split; [done|]. split; [done|]. cbv zeta.
  apply Qabs_Qle_condition in Hx as [Hx1 Hx2]. split; [|lra].
  apply Qmult_lt_0_compat; [by apply inject_Z_pos|apply Qpower_pos_lt; lra].
Qed.

(** A relative error over a relative error. *)
Lemma near_trans eps v q f :
  near ulp f v -> 0 < q -> 0 <= eps -> eps <= 1 # 1000 -> (1 - eps) * q <= v -> v <= (1 + eps) * q ->
  near (eps + 2 * ulp) f q.
Proof.
  intros (m & e & -> & Hm & Hx) Hq H0 H1 Hv1 Hv2. exists m, e. split; [done|]. split; [done|].
  apply Qabs_Qle_condition in Hx as [Hx1 Hx2]. apply Qabs_Qle_condition.
  assert (Hu : 0 < ulp) by done. assert (ulp * v <= 2 * ulp * q); [|lra].
  assert (v <= 2 * q) by nra. nra.
Qed.

Lemma in_range_from v q :
  2 ^ (-800) <= q -> q <= 2 ^ 800 -> (1 # 2) * q <= v -> v <= 2 * q -> in_range v.
Proof.
  intros H1 H2 H3 H4. split.
  - apply Qle_trans with ((1 # 2) * 2 ^ (-800)); [by vm_compute|lra].
  - apply Qle_trans with (2 * 2 ^ 800); [lra|by vm_compute].
Qed.

Lemma near_div a b x y p q :
  near a x p -> near b y q -> 0 < p -> 0 < q -> 0 <= a -> a <= 1 # 10000 -> 0 <= b -> b <= 1 # 10000 ->
  2 ^ (-800) <= p / q -> p / q <= 2 ^ 800 ->
  near (a + 2 * b + 2 * ulp) (f64_div x y) (p / q).
Proof.
  intros Hx Hy Hp Hq Ha0 Ha1 Hb0 Hb1 R1 R2.
  destruct (near_bounds _ _ _ Hx Hp Ha0 ltac:(lra)) as (m1 & e1 & -> & _ & X0 & X1 & X2).
  destruct (near_bounds _ _ _ Hy Hq Hb0 ltac:(lra)) as (m2 & e2 & -> & _ & Y0 & Y1 & Y2).
  pose proof (f64_div_near m1 e1 m2 e2) as HD. cbv zeta in HD.
  set (X := inject_Z (Zpos m1) * 2 ^ e1) in *. set (Y := inject_Z (Zpos m2) * 2 ^ e2) in *.
  set (c := p / q) in *. assert (Ec : p == c * q) by (unfold c; field; lra).
  assert (Hc : 0 < c) by (apply (Qmult_lt_r _ _ _ Hq); lra).
  assert (Ex : X / Y * Y == X) by (field; lra). set (v := X / Y) in *.
  assert (V1 : (1 - (a + 2 * b)) * c <= v).
  { apply (Qmult_le_r _ _ _ Y0). rewrite Ex. apply Qle_trans with ((1 - (a + 2 * b)) * c * ((1 + b) * q)).
    - apply Qmult_le_l; [nra|done].
    - apply Qle_trans with ((1 - a) * p); [|done]. rewrite Ec.
      assert ((1 - (a + 2 * b)) * (1 + b) <= 1 - a) by nra. assert (0 < c * q) by nra. nra. }
  assert (V2 : v <= (1 + (a + 2 * b)) * c).
  { apply (Qmult_le_r _ _ _ Y0). rewrite Ex. apply Qle_trans with ((1 + (a + 2 * b)) * c * ((1 - b) * q)).
    - apply Qle_trans with ((1 + a) * p); [done|]. rewrite Ec.
      assert (1 + a <= (1 + (a + 2 * b)) * (1 - b)) by nra. assert (0 < c * q) by nra. nra.
    - apply Qmult_le_l; [nra|done]. }
  apply (near_trans _ v); [|done|lra|lra|done|done].
  apply HD, (in_range_from _ c); [done|done|nra|nra].
Qed.

Lemma near_mul a b x y p q :
  near a x p -> near b y q -> 0 < p -> 0 < q -> 0 <= a -> a <= 1 # 10000 -> 0 <= b -> b <= 1 # 10000 ->
  2 ^ (-800) <= p * q -> p * q <= 2 ^ 800 ->
  near (a + 2 * b + 2 * ulp) (f64_mul x y) (p * q).
Proof.
  intros Hx Hy Hp Hq Ha0 Ha1 Hb0 Hb1 R1 R2.
  destruct (near_bounds _ _ _ Hx Hp Ha0 ltac:(lra)) as (m1 & e1 & -> & N1 & X0 & X1 & X2).
  destruct (near_bounds _ _ _ Hy Hq Hb0 ltac:(lra)) as (m2 & e2 & -> & N2 & Y0 & Y1 & Y2).
  pose proof (f64_mul_near m1 e1 m2 e2 N1 N2) as HM. cbv zeta in HM.
  set (X := inject_Z (Zpos m1) * 2 ^ e1) in *. set (Y := inject_Z (Zpos m2) * 2 ^ e2) in *.
  assert (Hpq : 0 < p * q) by nra.
  assert (V1 : (1 - (a + 2 * b)) * (p * q) <= X * Y).
  { apply Qle_trans with ((1 - a) * p * ((1 - b) * q)).
    - assert (1 - (a + 2 * b) <= (1 - a) * (1 - b)) by nra. nra.
    - apply Qle_trans with (X * ((1 - b) * q)); [apply Qmul_le_r; [nra|done]|apply Qmult_le_l; done]. }
  assert (V2 : X * Y <= (1 + (a + 2 * b)) * (p * q)).
  { apply Qle_trans with ((1 + a) * p * ((1 + b) * q)).
    - apply Qle_trans with (X * ((1 + b) * q)); [apply Qmult_le_l; done|apply Qmul_le_r; [nra|done]].
    - assert ((1 + a) * (1 + b) <= 1 + (a + 2 * b)) by nra. nra. }
  apply (near_trans _ (X * Y)); [|done|lra|lra|done|done].
  apply HM, (in_range_from _ (p * q)); [done|done|nra|nra].
Qed.
