(* ===== verification/CppFormat.v ===== *)
(** * Stream output of a double

    [operator<<] of a stream with its default format prints a double as printf does with
    [%g]: six significant digits, the nearest such decimal (ties to even), without
    trailing zeros, in scientific notation when the decimal exponent is below -4 or above
    5.  Read back as a decimal, the text is within a relative 5e-6 of the double. *)

From S2P Require Import Prelude CppString CppNumber CppDouble.
From Stdlib Require Import SpecFloat QArith Qabs Qpower Lqa.
From Stdlib Require Import Ascii.

(** ** Stream output *)

(** The nearest integer to [n/d], the even one of two. *)
Definition round_half_even (n d : Z) : Z :=
  let q := (n / d)%Z in
  match (2 * (n mod d) ?= d)%Z with
  | Lt => q
  | Gt => q + 1
  | Eq => if Z.even q then q else q + 1
  end.

(** The exponent [x] with [10^x <= n/d < 10^(x+1)], counted up from [n/d >= 1] or down
    to it. *)
Fixpoint exponent_up (fuel : nat) (n d x : Z) : Z :=
  match fuel with
  | 0%nat => x
  | S fuel' => if (n <? 10 * d)%Z then x else exponent_up fuel' n (10 * d) (x + 1)
  end.

Fixpoint exponent_down (fuel : nat) (n d x : Z) : Z :=
  match fuel with
  | 0%nat => x
  | S fuel' => if (d <=? n)%Z then x else exponent_down fuel' (10 * n) d (x - 1)
  end.

Definition decimal_exponent (n d : Z) : Z :=
  if (d <=? n)%Z then exponent_up (S (Z.to_nat (Z.log2 n))) n d 0
  else exponent_down (S (Z.to_nat (Z.log2 d))) n d 0.

(** Six digits [D] and an exponent [x] with [D * 10^(x-5)] nearest to [n/d]. *)
Definition six_digits (n d : Z) : Z * Z :=
  let x := decimal_exponent n d in
  let digits :=
    if (5 <=? x)%Z then round_half_even n (d * 10 ^ (x - 5))
    else round_half_even (n * 10 ^ (5 - x)) d in
  if (digits =? 1000000)%Z then (100000, x + 1)%Z else (digits, x).

Definition digit_char (d : Z) : ascii := ascii_of_nat (48 + Z.to_nat d).

(** The last [p] digits of [n]. *)
Fixpoint digits_text (p : nat) (n : Z) : string :=
  match p with
  | 0%nat => ""
  | S p' => digits_text p' (n / 10) +:+ String (digit_char (n mod 10)) ""
  end.

Fixpoint trim_zeros (s : string) : string :=
  match s with
  | EmptyString => ""
  | String c s' =>
      match trim_zeros s' with
      | EmptyString => if decide (c = "0"%char) then "" else String c ""
      | t => String c t
      end
  end.

Definition fraction_text (s : string) : string :=
  match trim_zeros s with
  | EmptyString => ""
  | t => "." +:+ t
  end.

(** [n / 10^p] as a decimal. *)
Definition fixed_text (p : nat) (n : Z) : string :=
  to_string (n / 10 ^ Z.of_nat p) +:+ fraction_text (digits_text p n).

Definition exponent_text (x : Z) : string :=
  "e" +:+ (if (x <? 0)%Z then "-" else "+") +:+
  (if (Z.abs x <? 10)%Z then "0" else "") +:+ to_string (Z.abs x).

Definition put_fraction (n d : Z) : string :=
  let '(digits, x) := six_digits n d in
  if ((-4 <=? x) && (x <? 6))%Z then fixed_text (Z.to_nat (5 - x)) digits
  else fixed_text 5 digits +:+ exponent_text x.

(** The value [m * 2^e] as a fraction. *)
Definition f64_num (m : positive) (e : Z) : Z := (Zpos m * 2 ^ Z.max e 0)%Z.

Definition f64_den (e : Z) : Z := (2 ^ Z.max (- e) 0)%Z.

(** [stream << f]. *)
Definition put_double (f : double) : string :=
  let sign (s : bool) := if s then "-" else "" in
  match f with
  | S754_zero s => sign s +:+ "0"
  | S754_infinity s => sign s +:+ "inf"
  | S754_nan => "nan"
  | S754_finite s m e => sign s +:+ put_fraction (f64_num m e) (f64_den e)
  end.

Example put_examples :
  put_double <$> [duration_micros 1234567; f64_div (f64_of_Z 1) (f64_of_Z 3); f64_of_Z 1000000;
    f64_of_Z 999999; f64_div (f64_of_Z 1) (f64_of_Z 10000); f64_div (f64_of_Z 1) (f64_of_Z 100000);
    f64_of_Z 0; f64_div (f64_of_Z 1) (f64_of_Z 0); f64_of_Z 9999995; f64_of_Z (-25)] =
  ["1234.57"; "0.333333"; "1e+06"; "999999"; "0.0001"; "1e-05"; "0"; "inf"; "1e+07"; "-25"].
Proof. vm_compute. reflexivity. Qed.

Local Open Scope Q_scope.

(** ** Lemmas: the decimal rounding *)

Lemma round_half_even_close n d :
  (0 < d)%Z -> (Z.abs (2 * (round_half_even n d * d - n)) <= d)%Z.
Proof.
  intros Hd. unfold round_half_even.
  pose proof (Z.div_mod n d ltac:(lia)) as E. pose proof (Z.mod_pos_bound n d Hd) as Hr.
  assert (Hq : (n / d * d = n - n mod d)%Z) by lia.
  destruct (Z.compare_spec (2 * (n mod d)) d); [destruct (Z.even (n / d))|..];
    rewrite ?Z.mul_add_distr_r, Hq; lia.
Qed.

Lemma exponent_up_spec fuel n d x :
  (0 < d <= n)%Z -> (n < d * 2 ^ Z.of_nat fuel)%Z ->
  exists k, (0 <= k)%Z /\ exponent_up fuel n d x = (x + k)%Z /\
    (d * 10 ^ k <= n < d * 10 ^ (k + 1))%Z.
Proof.
  revert d x. induction fuel as [|fuel IH]; intros d x Hd Hn; cbn [exponent_up].
  - change (2 ^ Z.of_nat 0)%Z with 1%Z in Hn. lia.
  - destruct (Z.ltb_spec n (10 * d)) as [Hlt|Hge].
    + exists 0%Z. change (10 ^ 0)%Z with 1%Z. change (10 ^ (0 + 1))%Z with 10%Z. lia.
    + rewrite Nat2Z.inj_succ, Z.pow_succ_r in Hn by lia.
      destruct (IH (10 * d)%Z (x + 1)%Z) as (k & Hk & -> & Hb); [lia|nia|].
      exists (k + 1)%Z. split_and!; [lia|lia| |]; rewrite !Z.pow_add_r, !Z.pow_1_r in * by lia; lia.
Qed.

Lemma exponent_down_spec fuel n d x :
  (0 < n)%Z -> (n < 10 * d)%Z -> (d <= n * 2 ^ Z.of_nat fuel)%Z -> (fuel <> 0)%nat ->
  exists k, (0 <= k)%Z /\ exponent_down fuel n d x = (x - k)%Z /\
    (d <= n * 10 ^ k < 10 * d)%Z.
Proof.
  revert n x. induction fuel as [|fuel IH]; intros n x Hn Hd Hf Hz; [done|]. cbn [exponent_down].
  destruct (Z.leb_spec d n) as [Hle|Hlt].
  - exists 0%Z. change (10 ^ 0)%Z with 1%Z. lia.
  - rewrite Nat2Z.inj_succ, Z.pow_succ_r in Hf by lia.
    destruct fuel as [|fuel]; [change (2 ^ Z.of_nat 0)%Z with 1%Z in Hf|].
    { exists 1%Z. cbn [exponent_down]. change (10 ^ 1)%Z with 10%Z. lia. }
    destruct (IH (10 * n)%Z (x - 1)%Z) as (k & Hk & -> & Hb); [lia|lia|nia|done|].
    exists (k + 1)%Z. split_and!; [lia|lia| |]; rewrite !Z.pow_add_r, !Z.pow_1_r by lia; lia.
Qed.

Lemma log2_fuel n : (0 < n)%Z -> (n < 2 ^ Z.of_nat (S (Z.to_nat (Z.log2 n))))%Z.
Proof.
  intros Hn. pose proof (Z.log2_nonneg n). rewrite Nat2Z.inj_succ, Z2Nat.id by done.
  by apply Z.log2_spec.
Qed.

(** [10^x <= n/d < 10^(x+1)]. *)
Lemma decimal_exponent_spec n d :
  (0 < n)%Z -> (0 < d)%Z ->
  let v := inject_Z n / inject_Z d in
  10 ^ decimal_exponent n d <= v /\ v < 10 ^ (decimal_exponent n d) * 10.
Proof.
  intros Hn Hd v. assert (HdQ : 0 < inject_Z d) by (by apply inject_Z_pos).
  assert (Hv : v * inject_Z d == inject_Z n) by (unfold v; field; lra).
  unfold decimal_exponent. destruct (Z.leb_spec d n) as [Hle|Hlt].
  - destruct (exponent_up_spec (S (Z.to_nat (Z.log2 n))) n d 0) as (k & Hk & -> & H1 & H2);
      [lia|pose proof (log2_fuel n Hn); nia|]. rewrite Z.add_0_l.
    apply inject_Z_le in H1. apply inject_Z_lt in H2.
    rewrite inject_Z_mult, inject_Z_pow in H1, H2 by lia.
    change (inject_Z 10) with 10 in *. rewrite (Qpower_split 10 k 1 (k + 1) ltac:(lra) eq_refl) in H2.
    change (10 ^ 1) with 10 in H2.
    split; [apply (Qmult_le_r _ _ _ HdQ)|apply (Qmult_lt_r _ _ _ HdQ)]; rewrite Hv; lra.
  - destruct (exponent_down_spec (S (Z.to_nat (Z.log2 d))) n d 0) as (k & Hk & -> & H1 & H2);
      [lia|lia|pose proof (log2_fuel d Hd); nia|done|]. rewrite Z.sub_0_l.
    apply inject_Z_le in H1. apply inject_Z_lt in H2.
    rewrite inject_Z_mult, inject_Z_pow in H1, H2 by lia. rewrite (inject_Z_mult 10 d) in H2. change (inject_Z 10) with 10 in *.
    pose proof (Qpower_pos_lt 10 k ltac:(lra)) as Hp.
    assert (E : 10 ^ (- k) * 10 ^ k == 1) by (rewrite <- (Qpower_split 10 (- k) k 0 ltac:(lra) ltac:(lia)); reflexivity).
    pose proof (Qpower_pos_lt 10 (- k) ltac:(lra)).
    assert (Hvk : v * 10 ^ k * inject_Z d == inject_Z n * 10 ^ k) by (rewrite <- Hv; ring).
    assert (H1' : 1 <= v * 10 ^ k) by (apply (Qmult_le_r _ _ _ HdQ); lra).
    assert (H2' : v * 10 ^ k < 10) by (apply (Qmult_lt_r _ _ _ HdQ); lra).
    assert (Ev : v == v * 10 ^ k * 10 ^ (- k)) by (rewrite <- Qmult_assoc, (Qmult_comm (10 ^ k)), E; ring).
    rewrite Ev. split; nra.
Qed.

(** The rounded quotient, in rationals. *)
Lemma round_half_even_Q n d :
  (0 < d)%Z ->
  Qabs (inject_Z (round_half_even n d) - inject_Z n / inject_Z d) <= 1 # 2.
Proof.
  intros Hd. pose proof (round_half_even_close n d Hd) as H. set (r := round_half_even n d) in *.
  assert (HdQ : 0 < inject_Z d) by (by apply inject_Z_pos).
  set (v := inject_Z n / inject_Z d).
  assert (Hv : v * inject_Z d == inject_Z n) by (unfold v; field; lra).
  assert (H1 : (2 * (r * d) - 2 * n <= d)%Z) by lia. assert (H2 : (2 * n - 2 * (r * d) <= d)%Z) by lia.
  apply inject_Z_le in H1, H2. unfold Z.sub in H1, H2.
  rewrite !inject_Z_plus, !inject_Z_opp, !inject_Z_mult in H1, H2.
  change (inject_Z 2) with 2 in *. rewrite <- Hv in H1, H2.
  apply Qabs_Qle_condition. split; apply (Qmult_le_r _ _ _ HdQ); lra.
Qed.

(** The six digits are the nearest decimal. *)
Lemma six_digits_spec n d :
  (0 < n)%Z -> (0 < d)%Z ->
  let v := inject_Z n / inject_Z d in
  let '(digits, x) := six_digits n d in
  (100000 <= digits < 1000000)%Z /\
  Qabs (inject_Z digits * 10 ^ (x - 5) - v) <= (1 # 200000) * v.
Proof.
  intros Hn Hd v. pose proof (decimal_exponent_spec n d Hn Hd) as [H1 H2]. fold v in H1, H2.
  unfold six_digits. set (x := decimal_exponent n d) in *.
  set (r := if (5 <=? x)%Z then _ else _). set (T := 10 ^ (x - 5)).
  assert (HT : 0 < T) by (apply Qpower_pos_lt; lra).
  assert (Hx : 10 ^ x == T * 100000).
  { unfold T. rewrite (Qpower_split 10 (x - 5) 5 x ltac:(lra) ltac:(lia)). reflexivity. }
  assert (HdQ : 0 < inject_Z d) by (by apply inject_Z_pos).
  assert (Hr : Qabs (inject_Z r - v / T) <= 1 # 2).
  { subst r. destruct (Z.leb_spec 5 x) as [Hle|Hlt].
    - assert (HP : 0 < inject_Z (10 ^ (x - 5))) by (apply inject_Z_pos; lia).
      assert (E : v / T == inject_Z n / inject_Z (d * 10 ^ (x - 5))).
      { unfold v, T. rewrite inject_Z_mult, inject_Z_pow in * by lia. change (inject_Z 10) with 10 in *.
        field. split; lra. }
      rewrite E. apply round_half_even_Q. nia.
    - assert (HP : 0 < 10 ^ (5 - x)) by (apply Qpower_pos_lt; lra).
      assert (HPT : 10 ^ (5 - x) * T == 1).
      { unfold T. rewrite <- (Qpower_split 10 (5 - x) (x - 5) 0 ltac:(lra) ltac:(lia)). reflexivity. }
      assert (E : v / T == inject_Z (n * 10 ^ (5 - x)) / inject_Z d).
      { rewrite inject_Z_mult, inject_Z_pow by lia. change (inject_Z 10) with 10.
        apply Qdiv_eq; [done|]. transitivity (v * (10 ^ (5 - x) * T)); [rewrite HPT; ring|].
        unfold v. field. lra. }
      rewrite E. by apply round_half_even_Q. }
  set (w := v / T) in *. assert (Hw : v == w * T) by (unfold w; field; lra).
  assert (H1' : 100000 <= w) by (apply (Qmult_le_r _ _ _ HT); lra).
  assert (H2' : w < 1000000) by (apply (Qmult_lt_r _ _ _ HT); lra).
  apply Qabs_Qle_condition in Hr as [Hr1 Hr2].
  assert (Hlow : (100000 <= r)%Z).
  { apply Z.lt_succ_r. unfold Z.succ. apply inject_Z_lt. rewrite inject_Z_plus.
    change (inject_Z 100000) with 100000. change (inject_Z 1) with 1. lra. }
  assert (Hup : (r <= 1000000)%Z).
  { apply Z.lt_succ_r, inject_Z_lt. change (inject_Z (Z.succ 1000000)) with 1000001. lra. }
  assert (Hclose : Qabs (inject_Z r * T - v) <= (1 # 200000) * v).
  { apply Qabs_Qle_condition. rewrite Hw. split; nra. }
  destruct (Z.eqb_spec r 1000000) as [E|E]; [|split; [lia|done]].
  split; [lia|]. rewrite E in Hclose.
  assert (Hs : inject_Z 100000 * 10 ^ (x + 1 - 5) == inject_Z 1000000 * T).
  { unfold T. rewrite (Qpower_split 10 (x - 5) 1 (x + 1 - 5) ltac:(lra) ltac:(lia)).
    change (10 ^ 1) with 10. change (inject_Z 100000) with 100000. change (inject_Z 1000000) with 1000000. ring. }
  by rewrite Hs.
Qed.

(** ** Reading a decimal numeral *)

(** The exponent behind a numeral, if any. *)
Definition read_exponent (s : string) : Z :=
  match s with
  | String "e" r => match scan_int r with Some (v, _) => v | None => 0%Z end
  | _ => 0%Z
  end.

(** The number an unsigned decimal numeral stands for. *)
Definition read_decimal (s : string) : Q :=
  let '(i, k) := read_digits 0 s in
  match substr_from k s with
  | String "." r =>
      let '(f, j) := read_digits 0 r in
      (inject_Z i + inject_Z f / 10 ^ Z.of_nat j) * 10 ^ read_exponent (substr_from j r)
  | r => inject_Z i * 10 ^ read_exponent r
  end.

(** ** Lemmas: digits *)

Fixpoint all_digits (s : string) : Prop :=
  match s with
  | EmptyString => True
  | String c s' => is_Some (digit_value c) /\ all_digits s'
  end.

Fixpoint digits_value (acc : Z) (s : string) : Z :=
  match s with
  | EmptyString => acc
  | String c s' => digits_value (acc * 10 + default 0%Z (digit_value c)) s'
  end.

Fixpoint zeros (j : nat) : string :=
  match j with 0%nat => "" | S j' => String "0" (zeros j') end.

Lemma read_digits_all acc s t :
  all_digits s -> no_digit_front t ->
  read_digits acc (s +:+ t) = (digits_value acc s, String.length s).
Proof.
  intros Hs Ht. revert acc. induction s as [|c s IH]; intros acc; [by apply read_digits_stop|].
  destruct Hs as [[d Hd] Hs]. rewrite sapp_cons. cbn [read_digits digits_value String.length].
  by rewrite Hd, IH.
Qed.

Lemma digits_value_app acc s t : digits_value acc (s +:+ t) = digits_value (digits_value acc s) t.
Proof. revert acc. induction s as [|c s IH]; intros acc; [done|]. apply IH. Qed.

Lemma all_digits_app s t : all_digits (s +:+ t) <-> all_digits s /\ all_digits t.
Proof. induction s as [|c s IH]; [simpl; tauto|]. rewrite sapp_cons. simpl. rewrite IH. tauto. Qed.

Lemma digits_value_zeros acc j : digits_value acc (zeros j) = (acc * 10 ^ Z.of_nat j)%Z.
Proof.
  revert acc. induction j as [|j IH]; intros acc; [simpl; lia|].
  cbn [zeros digits_value]. change (default 0%Z (digit_value "0")) with 0%Z.
  rewrite IH, Nat2Z.inj_succ, Z.pow_succ_r by lia. lia.
Qed.

Lemma zeros_length j : String.length (zeros j) = j.
Proof. induction j; simpl; congruence. Qed.

Lemma digit_char_value d : (0 <= d < 10)%Z -> digit_value (digit_char d) = Some d.
Proof.
  intros Hd. assert (d = 0 \/ d = 1 \/ d = 2 \/ d = 3 \/ d = 4 \/ d = 5 \/ d = 6 \/ d = 7 \/ d = 8
    \/ d = 9)%Z as E by lia. by destruct_or! E; subst.
Qed.

Lemma digits_text_spec p n :
  (0 <= n)%Z ->
  all_digits (digits_text p n) /\ String.length (digits_text p n) = p /\
  forall acc, digits_value acc (digits_text p n) = (acc * 10 ^ Z.of_nat p + n mod 10 ^ Z.of_nat p)%Z.
Proof.
  revert n. induction p as [|p IH]; intros n Hn.
  { split_and!; [done|done|]. intros acc. change (10 ^ Z.of_nat 0)%Z with 1%Z. rewrite Z.mod_1_r. simpl. lia. }
  cbn [digits_text]. destruct (IH (n / 10)%Z) as (Ha & Hl & Hv); [by apply Z.div_pos|].
  pose proof (digit_char_value (n mod 10) ltac:(by apply Z.mod_pos_bound)) as Hc.
  split_and!.
  - apply all_digits_app. split; [done|]. simpl. rewrite Hc. split; [by eexists|done].
  - rewrite slength_app, Hl. simpl. lia.
  - intros acc. rewrite digits_value_app, Hv. cbn [digits_value]. rewrite Hc. simpl default.
    rewrite Nat2Z.inj_succ, Z.pow_succ_r, Z.rem_mul_r by lia. lia.
Qed.

Lemma trim_zeros_split s : exists j, s = trim_zeros s +:+ zeros j.
Proof.
  induction s as [|c s [j IH]]; [by exists 0%nat|]. cbn [trim_zeros].
  destruct (trim_zeros s) as [|c' t] eqn:E.
  - case_decide as Hc; [exists (S j)|exists j]; rewrite IH; subst; done.
  - exists j. rewrite IH at 1. done.
Qed.

(** What is left of the digits of a fraction after trimming stands for the fraction. *)
Lemma trim_zeros_value p n :
  (0 <= n)%Z ->
  let t := trim_zeros (digits_text p n) in
  all_digits t /\
  inject_Z (digits_value 0 t) / 10 ^ Z.of_nat (String.length t) ==
    inject_Z (n mod 10 ^ Z.of_nat p) / 10 ^ Z.of_nat p.
Proof.
  intros Hn t. destruct (digits_text_spec p n Hn) as (Ha & Hl & Hv).
  destruct (trim_zeros_split (digits_text p n)) as [j Hj]. fold t in Hj.
  specialize (Hv 0%Z). rewrite Hj in Ha, Hl, Hv.
  apply all_digits_app in Ha as [Ha _]. rewrite slength_app, zeros_length in Hl.
  rewrite digits_value_app, digits_value_zeros in Hv. split; [done|].
  rewrite Z.mul_0_l, Z.add_0_l in Hv. rewrite <- Hv, inject_Z_mult, inject_Z_pow by lia.
  change (inject_Z 10) with 10.
  rewrite (Qpower_split 10 (Z.of_nat (String.length t)) (Z.of_nat j) (Z.of_nat p)) by (lra || lia).
  pose proof (Qpower_pos_lt 10 (Z.of_nat (String.length t)) ltac:(lra)).
  pose proof (Qpower_pos_lt 10 (Z.of_nat j) ltac:(lra)). field. split; lra.
Qed.

(** ** Lemmas: the printed text *)

(** Nothing, or an exponent, follows the digits. *)
Definition after_digits (t : string) : Prop := t = "" \/ exists r, t = String "e" r.

Lemma after_digits_front t : after_digits t -> no_digit_front t.
Proof. by intros [->|[r ->]]. Qed.

Lemma read_digits_to_string n t :
  (0 <= n)%Z -> no_digit_front t ->
  read_digits 0 (to_string n +:+ t) = (n, String.length (to_string n)).
Proof.
  intros Hn Ht. unfold to_string. destruct n as [|p|p]; [|..|lia].
  - exact (proj1 (read_digits_pretty 0%N t Ht)).
  - exact (proj1 (read_digits_pretty (Npos p) t Ht)).
Qed.

Lemma fixed_text_reads p n t :
  (0 <= n)%Z -> after_digits t ->
  read_decimal (fixed_text p n +:+ t) == inject_Z n / 10 ^ Z.of_nat p * 10 ^ read_exponent t.
Proof.
  intros Hn Ht. unfold fixed_text, fraction_text. set (P := (10 ^ Z.of_nat p)%Z).
  assert (HP : (0 < P)%Z) by (unfold P; lia).
  assert (Hi : (0 <= n / P)%Z) by (by apply Z.div_pos; [|lia]).
  destruct (trim_zeros_value p n Hn) as [Ha Hv]. fold P in Hv.
  set (s := trim_zeros (digits_text p n)) in *.
  assert (HPQ : inject_Z P == 10 ^ Z.of_nat p) by (unfold P; by rewrite inject_Z_pow by lia).
  assert (HPpos : 0 < 10 ^ Z.of_nat p) by (apply Qpower_pos_lt; lra).
  assert (Hdm : inject_Z n / 10 ^ Z.of_nat p == inject_Z (n / P) + inject_Z (n mod P) / 10 ^ Z.of_nat p).
  { rewrite (Z.div_mod n P) at 1 by lia. rewrite inject_Z_plus, inject_Z_mult, HPQ. field. lra. }
  rewrite Hdm, sapp_assoc. unfold read_decimal. destruct s as [|c r] eqn:Es.
  - change ("" +:+ t) with t. rewrite read_digits_to_string by auto using after_digits_front.
    rewrite substr_from_app. simpl in Hv. rewrite <- Hv.
    assert (E : inject_Z (n / P) + inject_Z 0 / 1 == inject_Z (n / P)) by (field). rewrite E.
    destruct Ht as [->|[e ->]]; reflexivity.
  - rewrite sapp_assoc. change ("." +:+ (String c r +:+ t)) with (String "." (String c r +:+ t)).
    rewrite read_digits_to_string by done. rewrite substr_from_app.
    rewrite read_digits_all by auto using after_digits_front. rewrite substr_from_app, Hv. reflexivity.
Qed.

Lemma exponent_text_reads x : read_exponent (exponent_text x) = x.
Proof.
  unfold exponent_text, read_exponent.
  set (sign := if (x <? 0)%Z then "-" else "+"). set (pad := if (Z.abs x <? 10)%Z then "0" else "").
  change ("e" +:+ (sign +:+ (pad +:+ to_string (Z.abs x)))) with (String "e" (sign +:+ (pad +:+ to_string (Z.abs x)))).
  assert (Hr : exists k, k <> 0%nat /\ read_digits 0 (pad +:+ to_string (Z.abs x)) = (Z.abs x, k)).
  { pose proof (read_digits_to_string (Z.abs x) "" ltac:(lia) I) as H. rewrite sapp_nil_r in H.
    assert (Hlen : String.length (to_string (Z.abs x)) <> 0%nat).
    { unfold to_string. destruct (Z.abs x) as [|q|q] eqn:E; [done| |lia].
      exact (proj2 (read_digits_pretty (Npos q) "" I)). }
    unfold pad. destruct (Z.abs x <? 10)%Z.
    - change ("0" +:+ to_string (Z.abs x)) with (String "0" (to_string (Z.abs x))). cbn [read_digits].
      change (digit_value "0") with (Some 0%Z). cbn iota. change (0 * 10 + 0)%Z with 0%Z. rewrite H. eexists. by split; [|reflexivity].
    - change ("" +:+ to_string (Z.abs x)) with (to_string (Z.abs x)). rewrite H. eexists. by split; [|reflexivity]. }
  destruct Hr as (k & Hk & Hr). unfold scan_int, sign. destruct (Z.ltb_spec x 0).
  - change ("-" +:+ (pad +:+ to_string (Z.abs x))) with (String "-" (pad +:+ to_string (Z.abs x))).
    rewrite count_space_front, substr_from_0 by done. cbn [read_sign Nat.add].
    rewrite substr_from_1, Hr, decide_False by done. lia.
  - change ("+" +:+ (pad +:+ to_string (Z.abs x))) with (String "+" (pad +:+ to_string (Z.abs x))).
    rewrite count_space_front, substr_from_0 by done. cbn [read_sign Nat.add].
    rewrite substr_from_1, Hr, decide_False by done. lia.
Qed.

Lemma put_fraction_close n d :
  (0 < n)%Z -> (0 < d)%Z ->
  let v := inject_Z n / inject_Z d in
  Qabs (read_decimal (put_fraction n d) - v) <= (1 # 200000) * v.
Proof.
  intros Hn Hd v. pose proof (six_digits_spec n d Hn Hd) as H. unfold put_fraction. fold v in H.
  destruct (six_digits n d) as [digits x]. destruct H as [Hdig Hclose].
  destruct ((-4 <=? x) && (x <? 6))%Z eqn:E.
  - apply andb_true_iff in E as [E1%Z.leb_le E2%Z.ltb_lt].
    pose proof (fixed_text_reads (Z.to_nat (5 - x)) digits "" ltac:(lia) ltac:(by left)) as Hr.
    rewrite sapp_nil_r, Z2Nat.id in Hr by lia. rewrite Hr.
    assert (Ep : inject_Z digits / 10 ^ (5 - x) * 10 ^ read_exponent "" == inject_Z digits * 10 ^ (x - 5)); [|by rewrite Ep].
    replace (5 - x)%Z with (- (x - 5))%Z by lia. rewrite Qpower_opp.
    pose proof (Qpower_pos_lt 10 (x - 5) ltac:(lra)). change (10 ^ read_exponent "") with 1. field. lra.
  - pose proof (fixed_text_reads 5 digits (exponent_text x) ltac:(lia) ltac:(right; by eexists)) as Hr.
    rewrite exponent_text_reads in Hr. rewrite Hr.
    assert (Ep : inject_Z digits / 10 ^ Z.of_nat 5 * 10 ^ x == inject_Z digits * 10 ^ (x - 5)); [|by rewrite Ep].
    rewrite (Qpower_split 10 (x - 5) 5 x) by (lra || lia). change (10 ^ Z.of_nat 5) with (10 ^ 5).
    change (10 ^ 5) with 100000. field.
Qed.

Lemma f64_fraction m e :
  inject_Z (f64_num m e) / inject_Z (f64_den e) == inject_Z (Zpos m) * 2 ^ e.
Proof.
  unfold f64_num, f64_den. rewrite inject_Z_mult, !inject_Z_pow by lia. change (inject_Z 2) with 2.
  pose proof (Qpower_pos_lt 2 (Z.max (- e) 0) ltac:(lra)).
  rewrite (Qpower_split 2 e (Z.max (- e) 0) (Z.max e 0)) by (lra || lia). field. lra.
Qed.

(** The text stands for [q] up to 6 in the sixth digit after the first. *)
Definition reads_close (text : string) (q : Q) : Prop :=
  Qabs (read_decimal text - q) <= (6 # 1000000) * q.

(** A double that is close to a number prints as a numeral that is. *)
Lemma put_double_near eps f q :
  near eps f q -> 0 < q -> 0 <= eps -> eps <= 1 # 10000000 -> reads_close (put_double f) q.
Proof.
  intros Hf Hq H0 H1. destruct (near_bounds _ _ _ Hf Hq H0 ltac:(lra)) as (m & e & -> & _ & Hx & X1 & X2).
  unfold put_double. change ("" +:+ put_fraction (f64_num m e) (f64_den e)) with (put_fraction (f64_num m e) (f64_den e)).
  pose proof (put_fraction_close (f64_num m e) (f64_den e) ltac:(unfold f64_num; lia) ltac:(unfold f64_den; lia)) as H.
  cbv zeta in H. rewrite f64_fraction in H. set (x := inject_Z (Zpos m) * 2 ^ e) in *.
  unfold reads_close. apply Qabs_Qle_condition in H as [A B]. apply Qabs_Qle_condition.
  assert (eps * q <= (1 # 10000000) * q) by (apply Qmul_le_r; lra). lra.
Qed.
