(* ===== verification/Types.v ===== *)
(** * rdma/include/rdma/types.h and rdma/include/rdma/config.h

    The enumerations with their [ToString] overloads, byte buffers and their
    conversions from and to text, and the configuration records with the default
    values their member initialisers give. *)

From S2P Require Import Prelude CppString.
From Stdlib Require Import Ascii.
From Stdlib Require Import Strings.Byte.

(** ** Enumerations *)

Inductive CompletionStatus := cs_kSuccess | cs_kFailed | cs_kTimeout.

Inductive QueuePairState :=
| kReset
| kInit
| kReadyToReceive
| kReadyToSend
| kError.

Inductive OperationType := op_kSend | op_kWrite | op_kResult.

Inductive LogLevel := lv_kDebug | lv_kInfo | lv_kWarn | lv_kError.

Instance CompletionStatus_eq_dec : EqDecision CompletionStatus.
Proof. solve_decision. Defined.
Instance QueuePairState_eq_dec : EqDecision QueuePairState.
Proof. solve_decision. Defined.
Instance OperationType_eq_dec : EqDecision OperationType.
Proof. solve_decision. Defined.
Instance LogLevel_eq_dec : EqDecision LogLevel.
Proof. solve_decision. Defined.

(** The four [ToString] overloads; the trailing [return "unknown"] is not
    reachable from a value of the enumeration. *)
Definition ToString_CompletionStatus (status : CompletionStatus) : string :=
  match status with
  | cs_kSuccess => "success"
  | cs_kFailed => "failed"
  | cs_kTimeout => "timeout"
  end.

Definition ToString_QueuePairState (state : QueuePairState) : string :=
  match state with
  | kReset => "reset"
  | kInit => "init"
  | kReadyToReceive => "ready_to_receive"
  | kReadyToSend => "ready_to_send"
  | kError => "error"
  end.

Definition ToString_OperationType (type : OperationType) : string :=
  match type with
  | op_kSend => "send"
  | op_kWrite => "write"
  | op_kResult => "result"
  end.

Definition ToString_LogLevel (level : LogLevel) : string :=
  match level with
  | lv_kDebug => "debug"
  | lv_kInfo => "info"
  | lv_kWarn => "warn"
  | lv_kError => "error"
  end.

(** [static_cast<int>(level)]. *)
Definition LogLevel_to_int (level : LogLevel) : Z :=
  match level with
  | lv_kDebug => 0
  | lv_kInfo => 1
  | lv_kWarn => 2
  | lv_kError => 3
  end.

(** ** Byte buffers *)

Abbreviation ByteBuffer := (list byte).

(** A [steady_clock] reading. *)
Abbreviation TimePoint := Z.

(** A [std::uint64_t]. *)
Abbreviation WorkRequestId := Z.

Fixpoint BytesFromString (text : string) : ByteBuffer :=
  match text with
  | EmptyString => []
  | String ch text' => byte_of_ascii ch :: BytesFromString text'
  end.

Fixpoint StringFromBytes (bytes : ByteBuffer) : string :=
  match bytes with
  | [] => EmptyString
  | value :: bytes' => String (ascii_of_byte value) (StringFromBytes bytes')
  end.

(** ** Configuration records (config.h) *)

Record DeviceConfig := mkDeviceConfig {
  dev_name : string;
  dev_port : Z;                       (* std::uint16_t *)
}.

Record CompletionQueueConfig := mkCompletionQueueConfig {
  cq_depth : Z;                       (* std::size_t *)
}.

Record BufferPoolConfig := mkBufferPoolConfig {
  bp_buffers : Z;                     (* std::size_t *)
  bp_buffer_size : Z;                 (* std::size_t *)
}.

Record TransportConfig := mkTransportConfig {
  tc_backend_name : string;
  tc_mailbox_capacity : Z;            (* std::size_t *)
}.

Record ServerConfig := mkServerConfig {
  sc_node_id : string;
  sc_listen_address : string;
}.

Record ClientConfig := mkClientConfig {
  cc_node_id : string;
  cc_server_node : string;
}.

Record WorkerSessionConfig := mkWorkerSessionConfig {
  wsc_node_id : string;
  wsc_buffer_pool : BufferPoolConfig;
  wsc_completion_queue : CompletionQueueConfig;
}.

Record RdmaConfig := mkRdmaConfig {
  rc_device : DeviceConfig;
  rc_buffer_pool : BufferPoolConfig;
  rc_completion_queue : CompletionQueueConfig;
  rc_transport : TransportConfig;
}.

(** The default member initialisers. *)
Definition default_DeviceConfig : DeviceConfig := mkDeviceConfig "loopback0" 1.
Definition default_CompletionQueueConfig : CompletionQueueConfig :=
  mkCompletionQueueConfig 1024.
Definition default_BufferPoolConfig : BufferPoolConfig :=
  mkBufferPoolConfig 8 (64 * 1024).
Definition default_TransportConfig : TransportConfig :=
  mkTransportConfig "in-memory-rdma" 4096.
Definition default_ServerConfig : ServerConfig :=
  mkServerConfig "rdma-server" "loopback".
Definition default_ClientConfig : ClientConfig :=
  mkClientConfig "rdma-client" "rdma-server".
Definition default_WorkerSessionConfig : WorkerSessionConfig :=
  mkWorkerSessionConfig "worker" default_BufferPoolConfig
    default_CompletionQueueConfig.

Definition DefaultRdmaConfig : RdmaConfig :=
  mkRdmaConfig default_DeviceConfig default_BufferPoolConfig
    default_CompletionQueueConfig default_TransportConfig.

(** config.cpp: one line describing a configuration. *)
Definition Summarize (config : RdmaConfig) : string :=
  "device=" +:+ dev_name (rc_device config) +:+ ":" +:+
  to_string (dev_port (rc_device config)) +:+
  ", cq_depth=" +:+ to_string (cq_depth (rc_completion_queue config)) +:+
  ", buffers=" +:+ to_string (bp_buffers (rc_buffer_pool config)) +:+
  ", buffer_size=" +:+ to_string (bp_buffer_size (rc_buffer_pool config)) +:+
  ", backend=" +:+ tc_backend_name (rc_transport config).

(** ** Lemmas *)

Lemma StringFromBytes_BytesFromString (text : string) :
  StringFromBytes (BytesFromString text) = text.
Proof. induction text as [|a s IH]; simpl; [done|]. by rewrite ascii_of_byte_of_ascii, IH. Qed.

Lemma BytesFromString_StringFromBytes (bytes : ByteBuffer) :
  BytesFromString (StringFromBytes bytes) = bytes.
Proof. induction bytes as [|b l IH]; simpl; [done|]. by rewrite byte_of_ascii_of_byte, IH. Qed.

Lemma BytesFromString_length (text : string) :
  length (BytesFromString text) = String.length text.
Proof. induction text; simpl; congruence. Qed.

Instance BytesFromString_inj : Inj (=) (=) BytesFromString.
Proof.
  intros x y H. rewrite <- (StringFromBytes_BytesFromString x), H.
  apply StringFromBytes_BytesFromString.
Qed.

Instance ToString_QueuePairState_inj : Inj (=) (=) ToString_QueuePairState.
Proof. by intros [] []. Qed.
