(* ===== verification/BoundedFifo.v ===== *)
(** * Drop-oldest queues

    The completion queue and the transport's inboxes are both bounded queues that
    discard their oldest element when a new one arrives at capacity (capacity 0
    means unbounded).  This file states that contract as an interface, and proves
    once what any history of puts and takes on such a queue delivers. *)

From S2P Require Import Prelude.

(** The specification of a put. *)
Definition push_bounded {A} (cap : Z) (q : list A) (x : A) : list A :=
  (if (0 <? cap)%Z && (cap <=? sizeZ q)%Z then tail q else q) ++ [x].

(** What a component promises: its observable contents change as a drop-oldest
    queue of its capacity. *)
Class DropOldestFifo (S A : Type) := {
  df_capacity : S -> Z;
  df_contents : S -> list A;
  df_put : A -> S -> S;
  df_take : S -> option A * S;
  df_put_contents : forall x s,
    df_contents (df_put x s) = push_bounded (df_capacity s) (df_contents s) x;
  df_put_capacity : forall x s, df_capacity (df_put x s) = df_capacity s;
  df_take_result : forall s, (df_take s).1 = head (df_contents s);
  df_take_contents : forall s, df_contents (df_take s).2 = tail (df_contents s);
  df_take_capacity : forall s, df_capacity (df_take s).2 = df_capacity s;
}.

(** The reference queue: a capacity and a list. *)
Record Mailbox (A : Type) := mkMailbox { mb_capacity : Z; mb_items : list A }.
Arguments mkMailbox {A} _ _.
Arguments mb_capacity {A} _.
Arguments mb_items {A} _.

Definition mb_put {A} (x : A) (m : Mailbox A) : Mailbox A :=
  mkMailbox (mb_capacity m) (push_bounded (mb_capacity m) (mb_items m) x).

Definition mb_take {A} (m : Mailbox A) : option A * Mailbox A :=
  (head (mb_items m), mkMailbox (mb_capacity m) (tail (mb_items m))).

#[refine, export] Instance Mailbox_fifo A : DropOldestFifo (Mailbox A) A := {
  df_capacity := mb_capacity;
  df_contents := mb_items;
  df_put := mb_put;
  df_take := mb_take;
}.
Proof. all: done. Defined.

(** Histories, in the order the queue's mutex serialises them. *)
Inductive fifo_op (A : Type) :=
| FPut (x : A)
| FTake.
Arguments FPut {A} _.
Arguments FTake {A}.

Section history.
Context {S A : Type} `{DropOldestFifo S A}.

Fixpoint fifo_run (ops : list (fifo_op A)) (s : S) : list A * S :=
  match ops with
  | [] => ([], s)
  | FPut x :: ops' => fifo_run ops' (df_put x s)
  | FTake :: ops' =>
      let '(got, s1) := df_take s in
      let '(rest, s2) := fifo_run ops' s1 in
      (option_list got ++ rest, s2)
  end.

End history.

Fixpoint fifo_puts {A} (ops : list (fifo_op A)) : list A :=
  match ops with
  | [] => []
  | FPut x :: ops' => x :: fifo_puts ops'
  | FTake :: ops' => fifo_puts ops'
  end.

(** ** Lemmas *)

Lemma push_bounded_unbounded {A} (q : list A) x : push_bounded 0 q x = q ++ [x].
Proof. done. Qed.

Lemma push_bounded_room {A} cap (q : list A) x :
  (sizeZ q < cap)%Z -> push_bounded cap q x = q ++ [x].
Proof.
  intros Hs. unfold push_bounded. destruct (cap <=? sizeZ q)%Z eqn:E; bool_to_prop; [lia|].
  by rewrite andb_false_r.
Qed.

Lemma push_bounded_full {A} cap (y : A) q x :
  (0 < cap)%Z -> (cap <= sizeZ (y :: q))%Z -> push_bounded cap (y :: q) x = q ++ [x].
Proof.
  intros H0 H1. unfold push_bounded.
  rewrite (proj2 (Z.ltb_lt _ _) H0), (proj2 (Z.leb_le _ _) H1). done.
Qed.

(** Either nothing is lost or the queue was full and loses its head. *)
Lemma push_bounded_cases {A} cap (q : list A) x :
  push_bounded cap q x = q ++ [x] \/
  (exists y q', q = y :: q' /\ (0 < cap <= sizeZ q)%Z /\ push_bounded cap q x = q' ++ [x]).
Proof.
  unfold push_bounded. destruct (_ && _) eqn:E; [|by left]. bool_to_prop. right.
  destruct q as [|y q']; [rewrite sizeZ_nil in *; lia|]. by exists y, q'.
Qed.

Lemma push_bounded_size {A} cap (q : list A) x :
  (0 < cap)%Z -> (sizeZ q <= cap)%Z -> (sizeZ (push_bounded cap q x) <= cap)%Z.
Proof.
  intros H0 H1. destruct (decide (sizeZ q < cap)%Z) as [Hr|Hr].
  - rewrite push_bounded_room by done. autorewrite with size. lia.
  - destruct q as [|y q']; [rewrite sizeZ_nil in *; lia|].
    rewrite push_bounded_full by lia. autorewrite with size in *. lia.
Qed.

Section history_lemmas.
Context {S A : Type} `{DropOldestFifo S A}.
Implicit Types (s : S) (ops : list (fifo_op A)).

Lemma fifo_run_take ops s :
  fifo_run (FTake :: ops) s =
    (option_list (head (df_contents s)) ++ (fifo_run ops (df_take s).2).1,
     (fifo_run ops (df_take s).2).2).
Proof.
  simpl. rewrite <- df_take_result. destruct (df_take s) as [got s1]. simpl.
  by destruct (fifo_run ops s1).
Qed.

Lemma fifo_run_capacity ops s : df_capacity (fifo_run ops s).2 = df_capacity s.
Proof.
  revert s. induction ops as [|[x|] ops IH]; intros s; [done| |].
  - simpl. by rewrite IH, df_put_capacity.
  - rewrite fifo_run_take. simpl. by rewrite IH, df_take_capacity.
Qed.

Lemma fifo_run_bound ops s :
  (0 < df_capacity s)%Z -> (sizeZ (df_contents s) <= df_capacity s)%Z ->
  (sizeZ (df_contents (fifo_run ops s).2) <= df_capacity s)%Z.
Proof.
  revert s. induction ops as [|[x|] ops IH]; intros s Hc Hs; [done| |].
  - simpl. rewrite <- (df_put_capacity x). apply IH; rewrite df_put_capacity; [done|].
    rewrite df_put_contents. by apply push_bounded_size.
  - rewrite fifo_run_take. simpl. rewrite <- df_take_capacity.
    apply IH; rewrite df_take_capacity; [done|]. rewrite df_take_contents.
    destruct (df_contents s); [done|]. simpl. autorewrite with size in Hs. lia.
Qed.

(** Elements leave in arrival order, delivered ones among them; what was put and
    has not left is what the queue holds. *)
Lemma fifo_run_order ops s :
  exists gone,
    df_contents s ++ fifo_puts ops = gone ++ df_contents (fifo_run ops s).2 /\
    (fifo_run ops s).1 `sublist_of` gone.
Proof.
  revert s. induction ops as [|[x|] ops IH]; intros s.
  - exists []. split; [by rewrite app_nil_r | constructor].
  - destruct (IH (df_put x s)) as (gone & Hg & Hs). rewrite df_put_contents in Hg. simpl.
    destruct (push_bounded_cases (df_capacity s) (df_contents s) x)
      as [E|(y & q & Eq & _ & E)]; rewrite E in Hg.
    + exists gone. split; [|done]. by rewrite <- Hg, <- app_assoc.
    + exists (y :: gone). split; [|by apply sublist_cons].
      rewrite Eq. simpl. f_equal. by rewrite <- Hg, <- app_assoc.
  - destruct (IH (df_take s).2) as (gone & Hg & Hs). rewrite fifo_run_take. simpl.
    rewrite df_take_contents in Hg. destruct (df_contents s) as [|y q]; simpl in *.
    + by exists gone.
    + exists (y :: gone). split; [by rewrite Hg|]. by apply sublist_skip.
Qed.

(** Nothing is lost when the queue is unbounded or everything fits at once. *)
Lemma fifo_run_lossless ops s :
  (df_capacity s = 0 \/ sizeZ (df_contents s) + sizeZ (fifo_puts ops) <= df_capacity s)%Z ->
  df_contents s ++ fifo_puts ops = (fifo_run ops s).1 ++ df_contents (fifo_run ops s).2.
Proof.
  revert s. induction ops as [|[x|] ops IH]; intros s Hc.
  - simpl. by rewrite app_nil_r.
  - simpl. assert (E : df_contents (df_put x s) = df_contents s ++ [x]).
    { rewrite df_put_contents. destruct Hc as [->|Hc]; [done|]. apply push_bounded_room.
      simpl in Hc. rewrite sizeZ_cons in Hc. pose proof (sizeZ_nonneg (fifo_puts ops)). lia. }
    rewrite <- IH, E, <- app_assoc; [done|]. rewrite df_put_capacity, E.
    destruct Hc as [?|Hc]; [by left|right]. simpl in Hc. autorewrite with size in *. lia.
  - rewrite fifo_run_take. simpl. specialize (IH (df_take s).2).
    rewrite df_take_contents, df_take_capacity in IH.
    destruct (df_contents s) as [|y q]; simpl in *; [by apply IH|].
    f_equal. apply IH. destruct Hc as [?|Hc]; [by left|right].
    autorewrite with size in Hc. lia.
Qed.

End history_lemmas.

Lemma fifo_run_app {S A} `{DropOldestFifo S A} (a b : list (fifo_op A)) (s : S) :
  fifo_run (a ++ b) s =
    ((fifo_run a s).1 ++ (fifo_run b (fifo_run a s).2).1, (fifo_run b (fifo_run a s).2).2).
Proof.
  revert s. induction a as [|[x|] a IH]; intros s; simpl.
  - by destruct (fifo_run b s).
  - apply IH.
  - destruct (df_take s) as [got s1]. rewrite IH. destruct (fifo_run a s1) as [l s2]. simpl.
    by rewrite app_assoc.
Qed.

Lemma fifo_puts_app {A} (a b : list (fifo_op A)) :
  fifo_puts (a ++ b) = fifo_puts a ++ fifo_puts b.
Proof. induction a as [|[x|] a IH]; simpl; congruence. Qed.

(** ** The account of a queue

    What was put in, what was taken out and what is held, of a queue that was empty at
    first. *)
Definition fifo_ledger {A} (cap : Z) (puts taken held : list A) : Prop :=
  exists ops, fifo_puts ops = puts /\ fifo_run ops (mkMailbox cap []) = (taken, mkMailbox cap held).

Lemma ledger_nil {A} cap : @fifo_ledger A cap [] [] [].
Proof. by exists []. Qed.

Lemma ledger_put {A} cap (puts taken held : list A) x :
  fifo_ledger cap puts taken held ->
  fifo_ledger cap (puts ++ [x]) taken (push_bounded cap held x).
Proof.
  intros (ops & <- & E). exists (ops ++ [FPut x]). rewrite fifo_puts_app, fifo_run_app, E. simpl.
  by rewrite app_nil_r.
Qed.

Lemma ledger_take {A} cap (puts taken rest : list A) x :
  fifo_ledger cap puts taken (x :: rest) -> fifo_ledger cap puts (taken ++ [x]) rest.
Proof.
  intros (ops & <- & E). exists (ops ++ [FTake]). rewrite fifo_puts_app, fifo_run_app, E. simpl.
  by rewrite app_nil_r.
Qed.

(** The order is kept: what was taken is a part, in order, of what has left, and what
    is held is what was put last; the bound holds; and nothing is lost where the queue
    is unbounded or everything fits. *)
Definition fifo_account {A} (cap : Z) (puts taken held : list A) : Prop :=
  (exists gone, puts = gone ++ held /\ taken `sublist_of` gone) /\
  ((0 < cap)%Z -> (sizeZ held <= cap)%Z) /\
  (cap = 0%Z \/ (sizeZ puts <= cap)%Z -> puts = taken ++ held).

Lemma ledger_spec {A} cap (puts taken held : list A) :
  fifo_ledger cap puts taken held -> fifo_account cap puts taken held.
Proof.
  intros (ops & <- & E). split_and!.
  - pose proof (fifo_run_order ops (mkMailbox cap [])) as Ho. by rewrite E in Ho.
  - intros Hc. pose proof (fifo_run_bound ops (mkMailbox cap []) Hc) as Hb.
    rewrite E in Hb. apply Hb. change (0 <= cap)%Z. lia.
  - intros Hc. pose proof (fifo_run_lossless ops (mkMailbox cap [])) as Hl. rewrite E in Hl.
    by apply Hl.
Qed.

#[export] Hint Resolve ledger_nil ledger_put ledger_take : cpp.
