(* ===== verification/Monitor.v ===== *)
(** * Waiting on a condition variable

    Five classes of the program wait in the same way: a call takes the mutex, waits
    with [std::condition_variable::wait] or [wait_for] and a predicate, and leaves with
    a result once the predicate holds or its time is up; other threads change the state
    under the mutex and notify one or all waiters afterwards.  This file models such a
    monitor once, over any state, predicate and operations, with the wait set and the
    notifications that are still to come, and proves that two disciplines of notifying
    lose no wake-up.  A class is an instance of [Monitor] and of one of them.

    [wait_for(lock, timeout, pred)] is the loop
    [while (!pred()) if (wait_until(...) == timeout) return pred(); return true;]. *)

From S2P Require Import Prelude.

(** What an operation calls after its critical section. *)
Inductive notification := NotifyNone | NotifyOne | NotifyAll.

(** [S] is the state under the mutex, [W] the arguments of a waiting call, [R] its
    result and [O] the operations of the other threads. *)
Class Monitor (S W R O : Type) := {
  mon_enter : W -> S -> S;                  (* the call, up to the wait *)
  mon_ready : W -> S -> bool;               (* the predicate *)
  mon_leave : W -> S -> R * S;              (* the call, after a successful wait *)
  mon_timeout : W -> option R;              (* its result after a timeout; [None]: it waits without one *)
  mon_op : O -> S -> S * notification;
}.

Record MonitorRun (S W R O : Type) := mkMonitorRun {
  mo_state : S;
  mo_sleeping : list W;                     (* in the wait set *)
  mo_woken : list W;                        (* notified, about to test the predicate *)
  mo_notify_one : nat;                      (* notify_one calls to come *)
  mo_notify_all : nat;                      (* notify_all calls to come *)
  mo_ops : list O;                          (* operations so far, in order *)
  mo_returned : list (W * R);               (* calls that returned, in order *)
}.
Arguments mkMonitorRun {S W R O}.
Arguments mo_state {S W R O}.
Arguments mo_sleeping {S W R O}.
Arguments mo_woken {S W R O}.
Arguments mo_notify_one {S W R O}.
Arguments mo_notify_all {S W R O}.
Arguments mo_ops {S W R O}.
Arguments mo_returned {S W R O}.

(** ** The threads *)

Section Threads.
  Context {S W R O : Type} `{Monitor S W R O}.

(** Nobody waits and nothing has happened. *)
Definition mo_quiet (st : S) : MonitorRun S W R O := mkMonitorRun st [] [] 0 0 [] [].

(** The call of [w] returns after its predicate held. *)
Definition mo_leave (w : W) (s : MonitorRun S W R O) : MonitorRun S W R O :=
  let '(r, st) := mon_leave w (mo_state s) in
  mkMonitorRun st (mo_sleeping s) (mo_woken s) (mo_notify_one s) (mo_notify_all s)
    (mo_ops s) (mo_returned s ++ [(w, r)]).

(** [w] tests the predicate: it leaves or goes to sleep. *)
Definition mo_test (w : W) (s : MonitorRun S W R O) : MonitorRun S W R O :=
  if mon_ready w (mo_state s) then mo_leave w s
  else
    mkMonitorRun (mo_state s) (w :: mo_sleeping s) (mo_woken s) (mo_notify_one s)
      (mo_notify_all s) (mo_ops s) (mo_returned s).

(** The time of [w] is up: it tests the predicate a last time; [r] is its result if the
    predicate does not hold. *)
Definition mo_give_up (w : W) (r : R) (s : MonitorRun S W R O) : MonitorRun S W R O :=
  if mon_ready w (mo_state s) then mo_leave w s
  else
    mkMonitorRun (mo_state s) (mo_sleeping s) (mo_woken s) (mo_notify_one s)
      (mo_notify_all s) (mo_ops s) (mo_returned s ++ [(w, r)]).

Definition with_sleeping (l : list W) (s : MonitorRun S W R O) : MonitorRun S W R O :=
  mkMonitorRun (mo_state s) l (mo_woken s) (mo_notify_one s) (mo_notify_all s) (mo_ops s)
    (mo_returned s).

Definition with_woken (l : list W) (s : MonitorRun S W R O) : MonitorRun S W R O :=
  mkMonitorRun (mo_state s) (mo_sleeping s) l (mo_notify_one s) (mo_notify_all s) (mo_ops s)
    (mo_returned s).

Definition with_state (st : S) (s : MonitorRun S W R O) : MonitorRun S W R O :=
  mkMonitorRun st (mo_sleeping s) (mo_woken s) (mo_notify_one s) (mo_notify_all s) (mo_ops s)
    (mo_returned s).

Definition with_notify (ones alls : nat) (s : MonitorRun S W R O) : MonitorRun S W R O :=
  mkMonitorRun (mo_state s) (mo_sleeping s) (mo_woken s) ones alls (mo_ops s) (mo_returned s).

(** The critical section of an operation; its notification is to come. *)
Definition mo_do (o : O) (s : MonitorRun S W R O) : MonitorRun S W R O :=
  let '(st, n) := mon_op o (mo_state s) in
  mkMonitorRun st (mo_sleeping s) (mo_woken s)
    (match n with NotifyOne => Datatypes.S (mo_notify_one s) | _ => mo_notify_one s end)
    (match n with NotifyAll => Datatypes.S (mo_notify_all s) | _ => mo_notify_all s end)
    (mo_ops s ++ [o]) (mo_returned s).

(** What has been set going and happens without anybody's help. *)
Inductive mon_progress : MonitorRun S W R O -> MonitorRun S W R O -> Prop :=
| mp_notify_one s n l1 w l2 :
    mo_notify_one s = Datatypes.S n -> mo_sleeping s = l1 ++ w :: l2 ->
    mon_progress s
      (with_notify n (mo_notify_all s)
         (with_woken (w :: mo_woken s) (with_sleeping (l1 ++ l2) s)))
| mp_notify_nobody s n :
    mo_notify_one s = Datatypes.S n -> mo_sleeping s = [] ->
    mon_progress s (with_notify n (mo_notify_all s) s)
| mp_notify_all s n :
    mo_notify_all s = Datatypes.S n ->
    mon_progress s
      (with_notify (mo_notify_one s) n
         (with_woken (mo_sleeping s ++ mo_woken s) (with_sleeping [] s)))
| mp_retry s l1 w l2 :
    mo_woken s = l1 ++ w :: l2 ->
    mon_progress s (mo_test w (with_woken (l1 ++ l2) s)).

(** What the threads and the clock do: operations, new calls, timeouts of sleeping and
    of woken waiters, and spurious wake-ups. *)
Inductive mon_outside : MonitorRun S W R O -> MonitorRun S W R O -> Prop :=
| mx_op s o : mon_outside s (mo_do o s)
| mx_arrive s w : mon_outside s (mo_test w (with_state (mon_enter w (mo_state s)) s))
| mx_timeout s l1 w l2 r :
    mo_sleeping s = l1 ++ w :: l2 -> mon_timeout w = Some r ->
    mon_outside s (mo_give_up w r (with_sleeping (l1 ++ l2) s))
| mx_timeout_woken s l1 w l2 r :
    mo_woken s = l1 ++ w :: l2 -> mon_timeout w = Some r ->
    mon_outside s (mo_give_up w r (with_woken (l1 ++ l2) s))
| mx_spurious s l1 w l2 :
    mo_sleeping s = l1 ++ w :: l2 ->
    mon_outside s (with_woken (w :: mo_woken s) (with_sleeping (l1 ++ l2) s)).

Definition mon_any (s s' : MonitorRun S W R O) : Prop := mon_progress s s' \/ mon_outside s s'.

(** A state reached from a quiet one. *)
Definition mon_reached (st : S) (s : MonitorRun S W R O) : Prop := rtc mon_any (mo_quiet st) s.
End Threads.

(** ** What a class promises to its waiters *)

(** Operations that can make a predicate true notify all waiters; returning calls make
    none true. *)
Class Broadcast (S W R O : Type) `{Monitor S W R O} := {
  bc_op : forall o s w, mon_ready w s = false -> mon_ready w (mon_op o s).1 = true ->
    (mon_op o s).2 = NotifyAll;
  bc_enter : forall w w' s, mon_ready w (mon_enter w' s) = mon_ready w s;
  bc_leave : forall w w' s, mon_ready w' s = true -> mon_ready w s = false ->
    mon_ready w (mon_leave w' s).2 = false;
}.

(** All waiters have the same predicate, and the state says how many of them can be
    served ([None]: all).  Each returning call uses one up; an operation that adds one
    notifies one waiter, and an operation that lets all leave notifies all. *)
Class Demand (S W R O : Type) `{Monitor S W R O} := {
  dm_demand : S -> option nat;
  dm_ready : forall w s,
    mon_ready w s = match dm_demand s with None => true | Some n => 0 <? n end;
  dm_enter : forall w s, dm_demand (mon_enter w s) = dm_demand s;
  dm_leave : forall w s,
    match dm_demand s with
    | None => dm_demand (mon_leave w s).2 = None
    | Some n => 0 < n -> exists n', dm_demand (mon_leave w s).2 = Some n' /\ n' < n
    end;
  dm_op : forall o s,
    match dm_demand s, dm_demand (mon_op o s).1 with
    | None, None => True
    | None, Some _ => False
    | Some _, None => (mon_op o s).2 = NotifyAll
    | Some n, Some n' => n' <= n \/ n' = Datatypes.S n /\ (mon_op o s).2 = NotifyOne
    end;
}.

(** The two disciplines share what the theorem needs: an invariant that leaves nobody
    asleep whose predicate holds, once no wake-up is under way. *)
Class ServesWaiters (S W R O : Type) `{Monitor S W R O} := {
  sw_inv : MonitorRun S W R O -> Prop;
  sw_quiet : forall st, sw_inv (mo_quiet st);
  sw_step : forall s s', mon_any s s' -> sw_inv s -> sw_inv s';
  sw_rest : forall s w, sw_inv s -> mo_notify_one s = 0 -> mo_notify_all s = 0 ->
    mo_woken s = [] -> w ∈ mo_sleeping s -> mon_ready w (mo_state s) = false;
}.

(** ** Lemmas *)

Section Lemmas.
  Context {S W R O : Type} `{Monitor S W R O}.
  Implicit Types (s : MonitorRun S W R O) (w : W).

Lemma mo_leave_fields w s :
  mo_sleeping (mo_leave w s) = mo_sleeping s /\ mo_woken (mo_leave w s) = mo_woken s /\
  mo_notify_one (mo_leave w s) = mo_notify_one s /\
  mo_notify_all (mo_leave w s) = mo_notify_all s /\ mo_ops (mo_leave w s) = mo_ops s /\
  mo_state (mo_leave w s) = (mon_leave w (mo_state s)).2 /\
  mo_returned (mo_leave w s) = mo_returned s ++ [(w, (mon_leave w (mo_state s)).1)].
Proof. unfold mo_leave. by destruct (mon_leave w (mo_state s)). Qed.

Lemma mo_do_fields o s :
  mo_sleeping (mo_do o s) = mo_sleeping s /\ mo_woken (mo_do o s) = mo_woken s /\
  mo_notify_one (mo_do o s) =
    (match (mon_op o (mo_state s)).2 with
     | NotifyOne => Datatypes.S (mo_notify_one s) | _ => mo_notify_one s end) /\
  mo_notify_all (mo_do o s) =
    (match (mon_op o (mo_state s)).2 with
     | NotifyAll => Datatypes.S (mo_notify_all s) | _ => mo_notify_all s end) /\
  mo_ops (mo_do o s) = mo_ops s ++ [o] /\
  mo_state (mo_do o s) = (mon_op o (mo_state s)).1 /\ mo_returned (mo_do o s) = mo_returned s.
Proof. unfold mo_do. by destruct (mon_op o (mo_state s)). Qed.

(** Induction over what happens under the mutex, in order. *)
Lemma mon_invariant (I : S -> list O -> list (W * R) -> Prop) st0 s :
  I st0 [] [] ->
  (forall o st os rs, I st os rs -> I (mon_op o st).1 (os ++ [o]) rs) ->
  (forall w st os rs, I st os rs -> I (mon_enter w st) os rs) ->
  (forall w st os rs, mon_ready w st = true -> I st os rs ->
     I (mon_leave w st).2 os (rs ++ [(w, (mon_leave w st).1)])) ->
  (forall w r st os rs, mon_ready w st = false -> mon_timeout w = Some r -> I st os rs ->
     I st os (rs ++ [(w, r)])) ->
  mon_reached st0 s -> I (mo_state s) (mo_ops s) (mo_returned s).
Proof.
  intros H0 Hop Henter Hleave Htimeout Hr.
  pose (J s := I (mo_state s) (mo_ops s) (mo_returned s)).
  assert (HL : forall w s, mon_ready w (mo_state s) = true -> J s -> J (mo_leave w s)).
  { intros w t Hw HJ. unfold J. destruct (mo_leave_fields w t) as (_ & _ & _ & _ & -> & -> & ->).
    by apply Hleave. }
  assert (HT : forall w s, J s -> J (mo_test w s)).
  { intros w t HJ. unfold mo_test. destruct (mon_ready w (mo_state t)) eqn:E; [by apply HL|done]. }
  assert (HG : forall w r s, mon_timeout w = Some r -> J s -> J (mo_give_up w r s)).
  { intros w r t Hw HJ. unfold mo_give_up. destruct (mon_ready w (mo_state t)) eqn:E;
      [by apply HL|by apply Htimeout]. }
  change (J s). apply (rtc_invariant mon_any J) with (mo_quiet st0); [|exact Hr|exact H0].
  intros t t' [Hstep|Hstep] HJ; destruct Hstep; try done; try by apply HT.
  - unfold J. destruct (mo_do_fields o s0) as (_ & _ & _ & _ & -> & -> & ->). by apply Hop.
  - apply HT. unfold J. simpl. by apply Henter.
  - by apply HG.
  - by apply HG.
Qed.

(** Every run of notifications and of waiters that look again is finite: a waiter that
    goes back to sleep has used up a wake-up. *)
Definition mon_work s : nat :=
  (mo_notify_one s + mo_notify_all s) * Datatypes.S (length (mo_sleeping s) + length (mo_woken s)) +
  length (mo_woken s).

Lemma mon_progress_work s s' : mon_progress s s' -> mon_work s' < mon_work s.
Proof.
  intros Hstep. unfold mon_work.
  destruct Hstep as [s n l1 w l2 Hn Hl|s n Hn Hl|s n Hn|s l1 w l2 Hl]; simpl.
  - rewrite Hn, Hl, !length_app. simpl. nia.
  - rewrite Hn, Hl. simpl. nia.
  - rewrite Hn, length_app. nia.
  - rewrite Hl, length_app. simpl. unfold mo_test.
    destruct (mon_ready w (mo_state (with_woken (l1 ++ l2) s))).
    + destruct (mo_leave_fields w (with_woken (l1 ++ l2) s)) as (-> & -> & -> & -> & _).
      simpl. rewrite length_app. nia.
    + simpl. rewrite length_app. nia.
Qed.

(** A run comes to an end only when no wake-up is under way. *)
Lemma mon_progress_end s :
  nf mon_progress s -> mo_notify_one s = 0 /\ mo_notify_all s = 0 /\ mo_woken s = [].
Proof.
  intros Hnf. split_and!.
  - destruct (mo_notify_one s) as [|n] eqn:E; [done|]. exfalso. apply Hnf.
    destruct (mo_sleeping s) as [|w l] eqn:El; eexists;
      [by apply (mp_notify_nobody s n) | by apply (mp_notify_one s n [] w l)].
  - destruct (mo_notify_all s) as [|n] eqn:E; [done|]. exfalso. apply Hnf. eexists.
    by apply (mp_notify_all s n).
  - destruct (mo_woken s) as [|w l] eqn:E; [done|]. exfalso. apply Hnf. eexists.
    by apply (mp_retry s [] w l).
Qed.
End Lemmas.

(** ** The broadcast discipline *)

Section BroadcastServes.
  Context {S W R O : Type} `{Broadcast S W R O}.
  Implicit Types (s : MonitorRun S W R O).

(** Whoever sleeps although its predicate holds will be notified. *)
Definition bc_inv s : Prop :=
  forall w, w ∈ mo_sleeping s -> mon_ready w (mo_state s) = true -> 0 < mo_notify_all s.

Lemma bc_inv_leave w s : mon_ready w (mo_state s) = true -> bc_inv s -> bc_inv (mo_leave w s).
Proof.
  intros Hw HI w' Hin. destruct (mo_leave_fields w s) as (E & _ & _ & E' & _ & E'' & _).
  rewrite E in Hin. rewrite E', E''. destruct (mon_ready w' (mo_state s)) eqn:Ew'.
  - intros _. exact (HI w' Hin Ew').
  - by rewrite bc_leave.
Qed.

Lemma bc_inv_test w s : bc_inv s -> bc_inv (mo_test w s).
Proof.
  intros HI. unfold mo_test. destruct (mon_ready w (mo_state s)) eqn:E; [by apply bc_inv_leave|].
  intros w' [->|Hin]%elem_of_cons Hr; simpl in *; [congruence|exact (HI w' Hin Hr)].
Qed.

Lemma bc_inv_give_up w r s : bc_inv s -> bc_inv (mo_give_up w r s).
Proof.
  intros HI. unfold mo_give_up. destruct (mon_ready w (mo_state s)) eqn:E; [by apply bc_inv_leave|].
  exact HI.
Qed.

Lemma bc_inv_fewer l1 w l2 s :
  mo_sleeping s = l1 ++ w :: l2 -> bc_inv s -> bc_inv (with_sleeping (l1 ++ l2) s).
Proof. intros El HI w' Hin. apply HI. rewrite El. simpl in Hin. set_solver. Qed.

Lemma bc_inv_do o s : bc_inv s -> bc_inv (mo_do o s).
Proof.
  intros HI w Hin. destruct (mo_do_fields o s) as (E & _ & _ & E' & _ & E'' & _).
  rewrite E in Hin. rewrite E', E''. intros Hr. destruct (mon_ready w (mo_state s)) eqn:Ew.
  - specialize (HI w Hin Ew). destruct (mon_op o (mo_state s)).2; lia.
  - rewrite (bc_op o (mo_state s) w Ew Hr). lia.
Qed.

Lemma bc_inv_step s s' : mon_any s s' -> bc_inv s -> bc_inv s'.
Proof.
  intros [Hstep|Hstep] HI.
  - destruct Hstep as [s n l1 w l2 Hn Hl|s n Hn Hl|s n Hn|s l1 w l2 Hl].
    + exact (bc_inv_fewer l1 w l2 s Hl HI).
    + exact HI.
    + intros w Hin. by apply elem_of_nil in Hin.
    + by apply bc_inv_test.
  - destruct Hstep as [s o|s w|s l1 w l2 r Hl Hw|s l1 w l2 r Hl Hw|s l1 w l2 Hl].
    + by apply bc_inv_do.
    + apply bc_inv_test. intros w' Hin. simpl. rewrite bc_enter. by apply HI.
    + apply bc_inv_give_up. by apply (bc_inv_fewer l1 w l2).
    + by apply bc_inv_give_up.
    + exact (bc_inv_fewer l1 w l2 s Hl HI).
Qed.

#[refine, export] Instance Broadcast_serves : ServesWaiters S W R O := { sw_inv := bc_inv }.
Proof.
  - intros st w Hin. by apply elem_of_nil in Hin.
  - exact bc_inv_step.
  - intros s w HI _ Hall _ Hin. destruct (mon_ready w (mo_state s)) eqn:E; [|done].
    specialize (HI w Hin E). lia.
Defined.
End BroadcastServes.

(** ** The counting discipline *)

Section DemandServes.
  Context {S W R O : Type} `{Demand S W R O}.
  Implicit Types (s : MonitorRun S W R O).

(** While somebody sleeps, there are at least as many wake-ups under way as waiters
    that could be served. *)
Definition dm_covered (wakeups : nat) s : Prop :=
  mo_sleeping s = [] \/ 0 < mo_notify_all s \/
  exists n, dm_demand (mo_state s) = Some n /\ n <= wakeups.

Definition dm_inv s : Prop := dm_covered (mo_notify_one s + length (mo_woken s)) s.

(** A waiter that looks may use up one wake-up. *)
Lemma dm_covered_leave k w s :
  mon_ready w (mo_state s) = true -> dm_covered (Datatypes.S k) s -> dm_covered k (mo_leave w s).
Proof.
  intros Hw HC. destruct (mo_leave_fields w s) as (E & _ & _ & E' & _ & E'' & _).
  unfold dm_covered in *. rewrite E, E', E''. destruct HC as [?|[?|(n & En & Hn)]]; auto.
  right; right. pose proof (dm_leave w (mo_state s)) as HL. rewrite dm_ready, En in Hw.
  rewrite En in HL. apply Nat.ltb_lt in Hw. destruct (HL Hw) as (n' & E1 & Hlt).
  exists n'. split; [done|lia].
Qed.

Lemma dm_not_ready w s : mon_ready w (mo_state s) = false -> dm_demand (mo_state s) = Some 0.
Proof.
  rewrite dm_ready. destruct (dm_demand (mo_state s)) as [n|]; [|done].
  intros ?%Nat.ltb_ge. f_equal. lia.
Qed.

Lemma dm_covered_test k w s : dm_covered (Datatypes.S k) s -> dm_covered k (mo_test w s).
Proof.
  intros HC. unfold mo_test. destruct (mon_ready w (mo_state s)) eqn:E; [by apply dm_covered_leave|].
  right; right. exists 0. split; [exact (dm_not_ready w s E)|lia].
Qed.

Lemma dm_covered_give_up k w r s : dm_covered (Datatypes.S k) s -> dm_covered k (mo_give_up w r s).
Proof.
  intros HC. unfold mo_give_up. destruct (mon_ready w (mo_state s)) eqn:E; [by apply dm_covered_leave|].
  right; right. exists 0. split; [exact (dm_not_ready w s E)|lia].
Qed.

Lemma dm_covered_more k k' s : k <= k' -> dm_covered k s -> dm_covered k' s.
Proof. intros Hk [?|[?|(n & ? & ?)]]; [by left|by right; left|]. right; right. exists n. split; [done|lia]. Qed.

Lemma dm_covered_fewer k l1 w l2 s :
  mo_sleeping s = l1 ++ w :: l2 -> dm_covered k s -> dm_covered k (with_sleeping (l1 ++ l2) s).
Proof. intros El [E|HC]; [rewrite E in El; by destruct l1|by right]. Qed.

Lemma mo_test_counts w s :
  mo_notify_one (mo_test w s) = mo_notify_one s /\ mo_woken (mo_test w s) = mo_woken s.
Proof.
  unfold mo_test. destruct (mon_ready w (mo_state s)); [|done].
  by destruct (mo_leave_fields w s) as (_ & -> & -> & _).
Qed.

Lemma mo_give_up_counts w r s :
  mo_notify_one (mo_give_up w r s) = mo_notify_one s /\ mo_woken (mo_give_up w r s) = mo_woken s.
Proof.
  unfold mo_give_up. destruct (mon_ready w (mo_state s)); [|done].
  by destruct (mo_leave_fields w s) as (_ & -> & -> & _).
Qed.

Lemma dm_inv_do o s : dm_inv s -> dm_inv (mo_do o s).
Proof.
  unfold dm_inv, dm_covered. intros HC.
  destruct (mo_do_fields o s) as (-> & -> & -> & -> & _ & -> & _).
  destruct HC as [?|[?|(n & En & Hn)]]; [by left| |].
  - right; left. destruct (mon_op o (mo_state s)).2; lia.
  - right. pose proof (dm_op o (mo_state s)) as HO. rewrite En in HO.
    destruct (dm_demand (mon_op o (mo_state s)).1) as [n'|]; [right|left; rewrite HO; lia].
    exists n'. split; [done|]. destruct HO as [?|[-> ->]]; [|lia].
    destruct (mon_op o (mo_state s)).2; lia.
Qed.

Lemma dm_inv_step s s' : mon_any s s' -> dm_inv s -> dm_inv s'.
Proof.
  intros [Hstep|Hstep] HI; unfold dm_inv in *.
  - destruct Hstep as [s n l1 w l2 Hn Hl|s n Hn Hl|s n Hn|s l1 w l2 Hl].
    + apply (dm_covered_more (mo_notify_one s + length (mo_woken s))); [simpl; lia|].
      exact (dm_covered_fewer _ l1 w l2 s Hl HI).
    + by left.
    + by left.
    + destruct (mo_test_counts w (with_woken (l1 ++ l2) s)) as [-> ->]. apply dm_covered_test.
      eapply (dm_covered_more (mo_notify_one s + length (mo_woken s))); [|exact HI].
      simpl. rewrite Hl, !length_app. simpl. lia.
  - destruct Hstep as [s o|s w|s l1 w l2 r Hl Hw|s l1 w l2 r Hl Hw|s l1 w l2 Hl].
    + by apply dm_inv_do.
    + destruct (mo_test_counts w (with_state (mon_enter w (mo_state s)) s)) as [-> ->].
      apply dm_covered_test. eapply dm_covered_more; [|unfold dm_covered; simpl; rewrite dm_enter; exact HI].
      simpl. lia.
    + destruct (mo_give_up_counts w r (with_sleeping (l1 ++ l2) s)) as [-> ->].
      apply dm_covered_give_up. eapply dm_covered_more; [|exact (dm_covered_fewer _ l1 w l2 s Hl HI)].
      simpl. lia.
    + destruct (mo_give_up_counts w r (with_woken (l1 ++ l2) s)) as [-> ->].
      apply dm_covered_give_up. eapply dm_covered_more; [|exact HI].
      simpl. rewrite Hl, !length_app. simpl. lia.
    + apply (dm_covered_more (mo_notify_one s + length (mo_woken s))); [simpl; lia|].
      exact (dm_covered_fewer _ l1 w l2 s Hl HI).
Qed.

#[refine, export] Instance Demand_serves : ServesWaiters S W R O := { sw_inv := dm_inv }.
Proof.
  - intros st. by left.
  - exact dm_inv_step.
  - intros s w HI H1 H2 H3 Hin. unfold dm_inv, dm_covered in HI. rewrite H1, H3 in HI.
    destruct HI as [E|[?|(n & En & Hn)]]; [rewrite E in Hin; by apply elem_of_nil in Hin|lia|].
    rewrite dm_ready, En. apply Nat.ltb_ge. simpl in Hn. lia.
Defined.
End DemandServes.

(** ** Waiters are served *)

(** From every reachable state, whatever the interleaving: the wake-ups under way come
    to an end, and then nobody is left waiting whose predicate holds. *)
Definition waiters_served {S W R O : Type} `{Monitor S W R O} (s : MonitorRun S W R O) : Prop :=
  sn mon_progress s /\
  forall s', rtc mon_progress s s' -> nf mon_progress s' ->
    mo_woken s' = [] /\ forall w, w ∈ mo_sleeping s' -> mon_ready w (mo_state s') = false.

Lemma monitor_serves {S W R O : Type} `{ServesWaiters S W R O} (st : S) (s : MonitorRun S W R O) :
  mon_reached st s -> waiters_served s.
Proof.
  intros Hr. split; [apply (sn_measure _ mon_work); exact mon_progress_work|].
  intros s' Hs' Hnf. destruct (mon_progress_end s' Hnf) as (H1 & H2 & H3). split; [done|].
  intros w. apply sw_rest; try done.
  assert (Hr' : mon_reached st s').
  { unfold mon_reached in *. etrans; [exact Hr|]. eapply rtc_subrel; [|exact Hs']. intros a b Hab. by left. }
  exact (rtc_invariant mon_any sw_inv sw_step _ _ Hr' (sw_quiet st)).
Qed.
