(* ===== verification/WireLine.v ===== *)
(** * The line format shared by TaskMessage and ResultMessage

    Both structs serialise to lines [key=value], followed by one line
    [meta:key=value] per metadata entry, and parse with the same loop
    (rdma/include/rdma/task_message.h and result_message.h).  This file holds the
    classification of a line, the metadata block, the values the format can carry,
    and the interface [WireFormat] the transports' clients rely on. *)

From S2P Require Import Prelude CppString Types.
From Stdlib Require Import Ascii.

(** What the loop of [Deserialize] makes of one line: the [continue]s, the
    metadata branch, and the named-field branch. *)
Inductive wire_line :=
| WSkip
| WMeta (key value : string)
| WField (key value : string).

Definition parse_line (line : string) : wire_line :=
  if decide (line = "") then WSkip
  else if starts_with "meta:" line then
    let pair := substr_from 5 line in
    match find_char "="%char pair with
    | Some pos => WMeta (substr_to pos pair) (substr_from (S pos) pair)
    | None => WSkip
    end
  else
    match find_char "="%char line with
    | None => WSkip
    | Some pos => WField (substr_to pos line) (substr_from (S pos) line)
    end.

(** [stream << key << value << "\n"] for a key text such as "task_id=". *)
Definition field_text (key value : string) : string := key +:+ value +:+ nl.

(** The metadata loop of [Serialize]. *)
Fixpoint meta_text (entries : list (string * string)) : string :=
  match entries with
  | [] => ""
  | (key, value) :: rest =>
      "meta:" +:+ key +:+ "=" +:+ value +:+ nl +:+ meta_text rest
  end.

(** ** What the format can carry *)

Definition plain (s : string) : bool := negb (has_char nl_char s).

Definition plain_key (s : string) : bool := plain s && negb (has_char "="%char s).

Definition plain_meta (m : gmap string string) : Prop :=
  map_Forall (fun k v => plain_key k = true /\ plain v = true) m.

Instance plain_meta_dec m : Decision (plain_meta m).
Proof. unfold plain_meta. apply _. Defined.

(** ** The interface between the message structs and their users *)

Class WireFormat (A : Type) := {
  wire_encode : A -> ByteBuffer;
  wire_decode : ByteBuffer -> A;
  wire_safe : A -> Prop;
  wire_decode_encode : forall a, wire_safe a -> wire_decode (wire_encode a) = a;
  wire_decode_safe : forall bytes, wire_safe (wire_decode bytes);
}.

(** ** Lemmas *)

Lemma plain_spec s : plain s = true <-> has_char nl_char s = false.
Proof. unfold plain. apply negb_true_iff. Qed.

Lemma plain_key_spec s :
  plain_key s = true <-> has_char nl_char s = false /\ has_char "="%char s = false.
Proof. unfold plain_key. rewrite andb_true_iff, plain_spec, negb_true_iff. done. Qed.

Lemma plain_meta_empty : plain_meta ∅.
Proof. apply map_Forall_empty. Qed.

Lemma plain_meta_insert m k v :
  plain_key k = true -> plain v = true -> plain_meta m -> plain_meta (<[k := v]> m).
Proof. intros. by apply map_Forall_insert_2. Qed.

Lemma app_eq_nonempty k v : k +:+ "=" +:+ v <> "".
Proof. by destruct k. Qed.

(** A line [key=value] whose key holds no '=' and does not look like metadata. *)
Lemma parse_line_field k v :
  has_char "="%char k = false -> starts_with "meta:" (k +:+ "=" +:+ v) = false ->
  parse_line (k +:+ "=" +:+ v) = WField k v.
Proof.
  intros Hk Hm. unfold parse_line.
  rewrite decide_False by apply app_eq_nonempty. rewrite Hm.
  change ("=" +:+ v) with (String "="%char v). rewrite find_char_app by done.
  by rewrite substr_to_app, substr_from_app_S.
Qed.

Lemma parse_line_meta k v :
  has_char "="%char k = false -> parse_line ("meta:" +:+ k +:+ "=" +:+ v) = WMeta k v.
Proof.
  intros Hk. unfold parse_line. rewrite decide_False by done.
  rewrite starts_with_app. cbv zeta.
  change (substr_from 5 ("meta:" +:+ k +:+ "=" +:+ v)) with (k +:+ "=" +:+ v).
  change ("=" +:+ v) with (String "="%char v). rewrite find_char_app by done.
  by rewrite substr_to_app, substr_from_app_S.
Qed.

Lemma parse_line_plain_meta line k v :
  has_char nl_char line = false -> parse_line line = WMeta k v ->
  plain_key k = true /\ plain v = true.
Proof.
  intros Hl. unfold parse_line. case_decide; [done|].
  destruct (starts_with _ _).
  - destruct (find_char _ _) as [pos|] eqn:E; [|done]. intros [= <- <-].
    rewrite plain_key_spec, plain_spec. apply find_char_Some in E as [_ E].
    auto 8 using has_char_substr_from, has_char_substr_to.
  - by destruct (find_char _ _).
Qed.

Lemma parse_line_plain_field line k v :
  has_char nl_char line = false -> parse_line line = WField k v -> plain v = true.
Proof.
  intros Hl. unfold parse_line. case_decide; [done|].
  destruct (starts_with _ _).
  - by destruct (find_char _ _).
  - destruct (find_char _ _) as [pos|]; [|done]. intros [= <- <-].
    rewrite plain_spec. by apply has_char_substr_from.
Qed.

(** The metadata block of a message, read back by a loop that stores each
    metadata line with [operator[]]. *)
Lemma for_each_line_meta {A} (body : A -> string -> A) (upd : gmap string string -> A)
    (entries : list (string * string)) (m : gmap string string) :
  (forall m k v line, parse_line line = WMeta k v -> body (upd m) line = upd (<[k := v]> m)) ->
  Forall (fun e => plain_key e.1 = true /\ plain e.2 = true) entries ->
  for_each_line body (upd m) (meta_text entries)
    = upd (fold_left (fun acc e => <[e.1 := e.2]> acc) entries m).
Proof.
  intros Hbody Hall. revert m. induction Hall as [|[k v] l [Hk Hv] _ IH]; intros m.
  - apply for_each_line_nil.
  - simpl meta_text. simpl in Hk, Hv. apply plain_key_spec in Hk as [Hk1 Hk2].
    apply plain_spec in Hv.
    replace ("meta:" +:+ k +:+ "=" +:+ v +:+ nl +:+ meta_text l)
      with (("meta:" +:+ k +:+ "=" +:+ v) +:+ nl +:+ meta_text l)
      by (by rewrite !sapp_assoc).
    rewrite for_each_line_line by (autorewrite with has_char; by rewrite Hk1, Hv).
    rewrite (Hbody _ k v) by (by apply parse_line_meta). apply IH.
Qed.

Lemma for_each_line_entries {A} (body : A -> string -> A) (upd : gmap string string -> A) m :
  (forall m k v line, parse_line line = WMeta k v -> body (upd m) line = upd (<[k := v]> m)) ->
  plain_meta m ->
  for_each_line body (upd ∅) (meta_text (map_entries m)) = upd m.
Proof.
  intros Hbody Hm. rewrite (for_each_line_meta body upd) by
    (done || (apply Forall_forall; intros [k v] Hin%map_entries_elem; by apply Hm)).
  rewrite fold_insert_list_to_map by apply map_entries_NoDup.
  by rewrite map_union_empty, list_to_map_entries.
Qed.

(** A field line [key=value]: the loop hands the body the line without its
    newline. *)
Lemma for_each_line_field {A} (body : A -> string -> A) acc key value rest :
  plain key = true -> plain value = true ->
  for_each_line body acc (field_text key value +:+ rest)
    = for_each_line body (body acc (key +:+ value)) rest.
Proof.
  intros Hk%plain_spec Hv%plain_spec. unfold field_text. rewrite !sapp_assoc.
  rewrite <- (sapp_assoc key). apply for_each_line_line.
  autorewrite with has_char. by rewrite Hk, Hv.
Qed.
