(* ===== verification/TaskMessage.v ===== *)
(** * rdma/include/rdma/task_message.h *)

From S2P Require Import Prelude CppString Types WireLine.

Record TaskMessage := mkTaskMessage {
  tm_task_id : string;
  tm_kind : string;
  tm_source_node : string;
  tm_target_node : string;
  tm_description : string;
  tm_metadata : gmap string string;
}.

Instance TaskMessage_eq_dec : EqDecision TaskMessage.
Proof. solve_decision. Defined.

(** [TaskMessage message;] *)
Definition empty_task : TaskMessage := mkTaskMessage "" "" "" "" "" ∅.

(** The text [Serialize] collects in its [ostringstream]. *)
Definition task_text (m : TaskMessage) : string :=
  field_text "task_id=" (tm_task_id m) +:+
  field_text "kind=" (tm_kind m) +:+
  field_text "source_node=" (tm_source_node m) +:+
  field_text "target_node=" (tm_target_node m) +:+
  field_text "description=" (tm_description m) +:+
  meta_text (map_entries (tm_metadata m)).

Definition Serialize (m : TaskMessage) : ByteBuffer := BytesFromString (task_text m).

(** The [if]/[else if] chain over the known keys. *)
Definition assign_field (message : TaskMessage) (key value : string) : TaskMessage :=
  let '(mkTaskMessage task_id kind source_node target_node description metadata) := message in
  if decide (key = "task_id") then
    mkTaskMessage value kind source_node target_node description metadata
  else if decide (key = "kind") then
    mkTaskMessage task_id value source_node target_node description metadata
  else if decide (key = "source_node") then
    mkTaskMessage task_id kind value target_node description metadata
  else if decide (key = "target_node") then
    mkTaskMessage task_id kind source_node value description metadata
  else if decide (key = "description") then
    mkTaskMessage task_id kind source_node target_node value metadata
  else message.

(** [message.metadata[key] = value]. *)
Definition put_meta (message : TaskMessage) (key value : string) : TaskMessage :=
  let '(mkTaskMessage task_id kind source_node target_node description metadata) := message in
  mkTaskMessage task_id kind source_node target_node description (<[key := value]> metadata).

(** The body of the [while (std::getline(..))] loop. *)
Definition read_line (message : TaskMessage) (line : string) : TaskMessage :=
  match parse_line line with
  | WSkip => message
  | WMeta key value => put_meta message key value
  | WField key value => assign_field message key value
  end.

Definition Deserialize (payload : ByteBuffer) : TaskMessage :=
  for_each_line read_line empty_task (StringFromBytes payload).

(** The messages the text format can carry: no newline in a field, and neither a
    newline nor '=' in a metadata key. *)
Definition task_safe (m : TaskMessage) : Prop :=
  plain (tm_task_id m) = true /\ plain (tm_kind m) = true /\
  plain (tm_source_node m) = true /\ plain (tm_target_node m) = true /\
  plain (tm_description m) = true /\ plain_meta (tm_metadata m).

Instance task_safe_dec m : Decision (task_safe m).
Proof. unfold task_safe. apply _. Defined.

(** ** Lemmas *)

Lemma read_line_task_safe message line :
  has_char nl_char line = false -> task_safe message -> task_safe (read_line message line).
Proof.
  intros Hl Hs. unfold read_line. destruct (parse_line line) as [|k v|k v] eqn:E; [done| |].
  - apply parse_line_plain_meta in E as [Hk Hv]; [|done].
    destruct message; unfold task_safe in *; simpl in *. destruct_and!. split_and!; auto using plain_meta_insert.
  - apply parse_line_plain_field in E; [|done].
    destruct message; unfold task_safe, assign_field in *; simpl in *.
    destruct_and!. repeat case_decide; simpl; split_and!; auto.
Qed.

Lemma Deserialize_task_safe payload : task_safe (Deserialize payload).
Proof.
  apply (for_each_line_ind task_safe); [apply read_line_task_safe|].
  split_and!; [done..|apply plain_meta_empty].
Qed.

Lemma task_roundtrip m : task_safe m -> Deserialize (Serialize m) = m.
Proof.
  intros (H1 & H2 & H3 & H4 & H5 & Hm). unfold Deserialize, Serialize, task_text.
  rewrite StringFromBytes_BytesFromString.
  do 5 (rewrite for_each_line_field by done).
  destruct m as [a b c d e meta]; cbn [tm_task_id tm_kind tm_source_node tm_target_node
    tm_description tm_metadata] in *.
  set (acc := read_line _ _).
  assert (acc = mkTaskMessage a b c d e ∅) as ->.
  { subst acc. unfold read_line.
    change ("task_id=" +:+ a) with ("task_id" +:+ "=" +:+ a).
    change ("kind=" +:+ b) with ("kind" +:+ "=" +:+ b).
    change ("source_node=" +:+ c) with ("source_node" +:+ "=" +:+ c).
    change ("target_node=" +:+ d) with ("target_node" +:+ "=" +:+ d).
    change ("description=" +:+ e) with ("description" +:+ "=" +:+ e).
    by rewrite !parse_line_field. }
  apply (for_each_line_entries read_line (mkTaskMessage a b c d e)); [|done].
  intros m k v line Hp. unfold read_line. by rewrite Hp.
Qed.

Instance TaskMessage_wire : WireFormat TaskMessage := {
  wire_encode := Serialize;
  wire_decode := Deserialize;
  wire_safe := task_safe;
  wire_decode_encode := task_roundtrip;
  wire_decode_safe := Deserialize_task_safe;
}.

(** ** Properties *)

(** C11. Parsing what [TaskMessage::Serialize] wrote gives the message back
    exactly for the messages without a newline in a field or metadata entry and
    without '=' in a metadata key. *)
Theorem TaskMessage_roundtrip_iff (m : TaskMessage) :
  Deserialize (Serialize m) = m <-> task_safe m.
Proof.
  split; [intros <-; apply Deserialize_task_safe | apply task_roundtrip].
Qed.
