(* ===== verification/ResultMessage.v ===== *)
(** * rdma/include/rdma/result_message.h *)

From S2P Require Import Prelude CppString Types WireLine.
From S2P Require TaskMessage.

Record ResultMessage := mkResultMessage {
  rm_task_id : string;
  rm_worker_node : string;
  rm_target_node : string;
  rm_success : bool;
  rm_detail : string;
  rm_metadata : gmap string string;
}.

Instance ResultMessage_eq_dec : EqDecision ResultMessage.
Proof. solve_decision. Defined.

(** [ResultMessage message;] *)
Definition empty_result : ResultMessage := mkResultMessage "" "" "" false "" ∅.

(** [success ? "1" : "0"]. *)
Definition success_text (b : bool) : string := if b then "1" else "0".

Definition result_text (m : ResultMessage) : string :=
  field_text "task_id=" (rm_task_id m) +:+
  field_text "worker_node=" (rm_worker_node m) +:+
  field_text "target_node=" (rm_target_node m) +:+
  field_text "success=" (success_text (rm_success m)) +:+
  field_text "detail=" (rm_detail m) +:+
  meta_text (map_entries (rm_metadata m)).

Definition Serialize (m : ResultMessage) : ByteBuffer := BytesFromString (result_text m).

Definition assign_field (message : ResultMessage) (key value : string) : ResultMessage :=
  let '(mkResultMessage task_id worker_node target_node success detail metadata) := message in
  if decide (key = "task_id") then
    mkResultMessage value worker_node target_node success detail metadata
  else if decide (key = "worker_node") then
    mkResultMessage task_id value target_node success detail metadata
  else if decide (key = "target_node") then
    mkResultMessage task_id worker_node value success detail metadata
  else if decide (key = "success") then
    mkResultMessage task_id worker_node target_node (bool_decide (value = "1")) detail metadata
  else if decide (key = "detail") then
    mkResultMessage task_id worker_node target_node success value metadata
  else message.

Definition put_meta (message : ResultMessage) (key value : string) : ResultMessage :=
  let '(mkResultMessage task_id worker_node target_node success detail metadata) := message in
  mkResultMessage task_id worker_node target_node success detail (<[key := value]> metadata).

Definition read_line (message : ResultMessage) (line : string) : ResultMessage :=
  match parse_line line with
  | WSkip => message
  | WMeta key value => put_meta message key value
  | WField key value => assign_field message key value
  end.

Definition Deserialize (payload : ByteBuffer) : ResultMessage :=
  for_each_line read_line empty_result (StringFromBytes payload).

Definition result_safe (m : ResultMessage) : Prop :=
  plain (rm_task_id m) = true /\ plain (rm_worker_node m) = true /\
  plain (rm_target_node m) = true /\ plain (rm_detail m) = true /\
  plain_meta (rm_metadata m).

Instance result_safe_dec m : Decision (result_safe m).
Proof. unfold result_safe. apply _. Defined.

(** ** Lemmas *)

Lemma read_line_result_safe message line :
  has_char nl_char line = false -> result_safe message -> result_safe (read_line message line).
Proof.
  intros Hl Hs. unfold read_line. destruct (parse_line line) as [|k v|k v] eqn:E; [done| |].
  - apply parse_line_plain_meta in E as [Hk Hv]; [|done].
    destruct message; unfold result_safe in *; simpl in *. destruct_and!.
    split_and!; auto using plain_meta_insert.
  - apply parse_line_plain_field in E; [|done].
    destruct message; unfold result_safe, assign_field in *; simpl in *. destruct_and!.
    repeat case_decide; simpl; split_and!; auto.
Qed.

Lemma Deserialize_result_safe payload : result_safe (Deserialize payload).
Proof.
  apply (for_each_line_ind result_safe); [apply read_line_result_safe|].
  split_and!; [done..|apply plain_meta_empty].
Qed.

Lemma plain_success_text b : plain (success_text b) = true.
Proof. by destruct b. Qed.

Lemma result_roundtrip m : result_safe m -> Deserialize (Serialize m) = m.
Proof.
  intros (H1 & H2 & H3 & H4 & Hm). unfold Deserialize, Serialize, result_text.
  rewrite StringFromBytes_BytesFromString.
  do 5 (rewrite for_each_line_field by auto using plain_success_text).
  destruct m as [a b c d e meta]; cbn [rm_task_id rm_worker_node rm_target_node rm_success
    rm_detail rm_metadata] in *.
  set (acc := read_line _ _).
  assert (acc = mkResultMessage a b c d e ∅) as ->.
  { subst acc. unfold read_line.
    change ("task_id=" +:+ a) with ("task_id" +:+ "=" +:+ a).
    change ("worker_node=" +:+ b) with ("worker_node" +:+ "=" +:+ b).
    change ("target_node=" +:+ c) with ("target_node" +:+ "=" +:+ c).
    change ("success=" +:+ success_text d) with ("success" +:+ "=" +:+ success_text d).
    change ("detail=" +:+ e) with ("detail" +:+ "=" +:+ e).
    rewrite !parse_line_field by done. by destruct d. }
  apply (for_each_line_entries read_line (mkResultMessage a b c d e)); [|done].
  intros m k v line Hp. unfold read_line. by rewrite Hp.
Qed.

Instance ResultMessage_wire : WireFormat ResultMessage := {
  wire_encode := Serialize;
  wire_decode := Deserialize;
  wire_safe := result_safe;
  wire_decode_encode := result_roundtrip;
  wire_decode_safe := Deserialize_result_safe;
}.

(** A result read as a task keeps the fields the two structs share and leaves
    the others empty. *)
Lemma task_of_result (r : ResultMessage) :
  result_safe r ->
  TaskMessage.Deserialize (Serialize r) =
    TaskMessage.mkTaskMessage (rm_task_id r) "" "" (rm_target_node r) "" (rm_metadata r).
Proof.
  intros (H1 & H2 & H3 & H4 & Hm). unfold TaskMessage.Deserialize, Serialize, result_text.
  rewrite StringFromBytes_BytesFromString.
  do 5 (rewrite for_each_line_field by auto using plain_success_text).
  destruct r as [a b c d e meta]; cbn [rm_task_id rm_worker_node rm_target_node rm_success
    rm_detail rm_metadata] in *.
  set (acc := TaskMessage.read_line _ _).
  assert (acc = TaskMessage.mkTaskMessage a "" "" c "" ∅) as ->.
  { subst acc. unfold TaskMessage.read_line.
    change ("task_id=" +:+ a) with ("task_id" +:+ "=" +:+ a).
    change ("worker_node=" +:+ b) with ("worker_node" +:+ "=" +:+ b).
    change ("target_node=" +:+ c) with ("target_node" +:+ "=" +:+ c).
    change ("success=" +:+ success_text d) with ("success" +:+ "=" +:+ success_text d).
    change ("detail=" +:+ e) with ("detail" +:+ "=" +:+ e).
    by rewrite !parse_line_field. }
  apply (for_each_line_entries TaskMessage.read_line (TaskMessage.mkTaskMessage a "" "" c ""));
    [|done].
  intros m k v line Hp. unfold TaskMessage.read_line. by rewrite Hp.
Qed.

(** ** Properties *)

(** C12. Parsing what [ResultMessage::Serialize] wrote gives the result back
    exactly for the results without a newline in a field or metadata entry and
    without '=' in a metadata
    key. *)
Theorem ResultMessage_roundtrip_iff (m : ResultMessage) :
  Deserialize (Serialize m) = m <-> result_safe m.
Proof.
  split; [intros <-; apply Deserialize_result_safe | apply result_roundtrip].
Qed.
