(* ===== verification/Memory.v ===== *)
(** * rdma/include/rdma/memory_region.h, rdma/src/memory_region.cpp

    Registered memory.  A [ByteBufferPtr] ([std::shared_ptr<ByteBuffer>]) is a
    location of a heap of byte buffers ([None] is [nullptr]), so that a region, a
    pool entry and a message in flight that share a payload share a location.
    Buffers are never reclaimed in the model: a [shared_ptr] keeps its buffer
    alive for as long as anything can reach it. *)

From S2P Require Import Prelude CppString Types.
From Stdlib Require Import Strings.Byte.

(** ** The heap of shared byte buffers *)

Abbreviation ByteBufferPtr := (option nat).

Record Heap := mkHeap {
  hp_next : nat;
  hp_cells : gmap nat ByteBuffer;
}.

Definition empty_heap : Heap := mkHeap 0 ∅.

(** [std::make_shared<ByteBuffer>(bytes)]. *)
Definition make_shared (bytes : ByteBuffer) (h : Heap) : ByteBufferPtr * Heap :=
  (Some (hp_next h), mkHeap (S (hp_next h)) (<[hp_next h := bytes]> (hp_cells h))).

(** The buffer behind a pointer. *)
Definition deref (p : ByteBufferPtr) (h : Heap) : ByteBuffer :=
  match p with
  | None => []
  | Some l => default [] (hp_cells h !! l)
  end.

(** [p == nullptr ? 0U : p->size()]. *)
Definition ptr_size (p : ByteBufferPtr) (h : Heap) : Z :=
  match p with
  | None => 0
  | Some _ => sizeZ (deref p h)
  end.

(** [p->resize(n)] on a non-null pointer: truncate, or pad with zero bytes. *)
Definition ptr_resize (p : ByteBufferPtr) (n : Z) (h : Heap) : Heap :=
  match p with
  | None => h
  | Some l => mkHeap (hp_next h) (alter (resize (Z.to_nat n) x00) l (hp_cells h))
  end.

(** ** MemoryRegion *)

Record MemoryRegion := mkMemoryRegion {
  mr_key : string;
  mr_local_key : Z;                   (* std::uint32_t *)
  mr_remote_key : Z;                  (* std::uint32_t *)
  mr_storage : ByteBufferPtr;
}.

Definition mr_size (region : MemoryRegion) (h : Heap) : Z :=
  ptr_size (mr_storage region) h.

(** ** MemoryRegistry *)

Record MemoryRegistry := mkMemoryRegistry {
  reg_next_region_id : Z;             (* std::uint64_t *)
  reg_next_access_key : Z;            (* std::uint32_t *)
  reg_regions : gmap string MemoryRegion;
}.

(** [MemoryRegistry registry;] *)
Definition new_MemoryRegistry : MemoryRegistry := mkMemoryRegistry 0 1024 ∅.

(** The text of the [n]-th key. *)
Definition region_key (n : Z) : string := "mr-" +:+ to_string n.

Definition NextKey (r : MemoryRegistry) : string * MemoryRegistry :=
  let id := u64 (reg_next_region_id r + 1) in
  (region_key id, mkMemoryRegistry id (reg_next_access_key r) (reg_regions r)).

Definition NextAccessKey (r : MemoryRegistry) : Z * MemoryRegistry :=
  (reg_next_access_key r,
   mkMemoryRegistry (reg_next_region_id r) (u32 (reg_next_access_key r + 1))
     (reg_regions r)).

(** The two calls of [NextAccessKey] are arguments of one constructor call, and
    C++ leaves their order to the compiler. *)
Class ArgOrder := args_left_to_right : bool.

(** [unordered_map::emplace]: an existing entry is kept. *)
Definition emplace {V} (key : string) (v : V) (m : gmap string V) : gmap string V :=
  match m !! key with
  | Some _ => m
  | None => <[key := v]> m
  end.

Section registry.
Context {AO : ArgOrder}.

(** [Register(ByteBuffer&&)]; [Register(const ByteBuffer&)] copies first. *)
Definition Register (bytes : ByteBuffer) (h : Heap) (r : MemoryRegistry)
    : MemoryRegion * Heap * MemoryRegistry :=
  let '(key, r1) := NextKey r in
  let '(storage, h1) := make_shared bytes h in
  let '(first, r2) := NextAccessKey r1 in
  let '(second, r3) := NextAccessKey r2 in
  let region :=
    if args_left_to_right then mkMemoryRegion key first second storage
    else mkMemoryRegion key second first storage in
  (region, h1,
   mkMemoryRegistry (reg_next_region_id r3) (reg_next_access_key r3)
     (emplace key region (reg_regions r3))).

(** [Register(std::size_t)]: a zero-filled buffer. *)
Definition Register_size (bytes : Z) (h : Heap) (r : MemoryRegistry)
    : MemoryRegion * Heap * MemoryRegistry :=
  Register (replicate (Z.to_nat bytes) x00) h r.

End registry.

Definition Lookup (key : string) (r : MemoryRegistry) : outcome MemoryRegion :=
  match reg_regions r !! key with
  | None => Throw ("memory region not found: " +:+ key)
  | Some region => Ok region
  end.

Definition Release (key : string) (r : MemoryRegistry) : MemoryRegistry :=
  mkMemoryRegistry (reg_next_region_id r) (reg_next_access_key r)
    (delete key (reg_regions r)).

Definition Size (r : MemoryRegistry) : Z := Z.of_nat (size (reg_regions r)).

(** ** Invariant *)

(** Locations are handed out in order. *)
Definition heap_wf (h : Heap) : Prop :=
  forall l, hp_next h <= l -> hp_cells h !! l = None.

Definition live (h : Heap) (p : ByteBufferPtr) : Prop :=
  exists l bytes, p = Some l /\ hp_cells h !! l = Some bytes.

(** A registered region: filed under its own key, with a key and access keys
    already handed out, and with live storage. *)
Record region_wf (h : Heap) (r : MemoryRegistry) (k : string) (region : MemoryRegion)
    : Prop := {
  rwf_key : mr_key region = k;
  rwf_id : exists n, (1 <= n <= reg_next_region_id r)%Z /\ k = region_key n;
  rwf_local : (1024 <= mr_local_key region < reg_next_access_key r)%Z;
  rwf_remote : (1024 <= mr_remote_key region < reg_next_access_key r)%Z;
  rwf_apart : mr_local_key region <> mr_remote_key region;
  rwf_live : live h (mr_storage region);
}.

(** Two regions share neither an access key nor storage. *)
Definition regions_apart (a b : MemoryRegion) : Prop :=
  mr_storage a <> mr_storage b /\
  mr_local_key a <> mr_local_key b /\ mr_local_key a <> mr_remote_key b /\
  mr_remote_key a <> mr_local_key b /\ mr_remote_key a <> mr_remote_key b.

Record registry_wf (h : Heap) (r : MemoryRegistry) : Prop := {
  wf_heap : heap_wf h;
  wf_next : (0 <= reg_next_region_id r)%Z;
  wf_access : (1024 <= reg_next_access_key r)%Z;
  wf_regions : map_Forall (region_wf h r) (reg_regions r);
  wf_apart : forall k1 k2 a b, k1 <> k2 ->
    reg_regions r !! k1 = Some a -> reg_regions r !! k2 = Some b -> regions_apart a b;
}.

(** Neither counter is about to wrap around. *)
Definition counters_ok (r : MemoryRegistry) : Prop :=
  (reg_next_region_id r + 1 < 2 ^ 64)%Z /\ (reg_next_access_key r + 2 < 2 ^ 32)%Z.

(** ** Histories of a registry *)

(** The operations on a new registry and its heap, in the order the registry's mutex
    serialises them; the number counts the registrations. *)
Inductive registry_history `{ArgOrder} : nat -> Heap * MemoryRegistry -> Prop :=
| hist_new : registry_history 0 (empty_heap, new_MemoryRegistry)
| hist_Register n bytes h r region h' r' :
    registry_history n (h, r) -> Register bytes h r = (region, h', r') ->
    registry_history (S n) (h', r')
| hist_Release n key h r : registry_history n (h, r) -> registry_history n (h, Release key r)
| hist_resize n p size h r : registry_history n (h, r) -> registry_history n (ptr_resize p size h, r).

(** The access keys of the [m]-th registration. *)
Definition numbered `{ArgOrder} (m : Z) (region : MemoryRegion) : Prop :=
  let first := u32 (1022 + 2 * m) in
  let second := u32 (1023 + 2 * m) in
  mr_key region = region_key m /\
  if args_left_to_right then mr_local_key region = first /\ mr_remote_key region = second
  else mr_local_key region = second /\ mr_remote_key region = first.

(** Two regions have an access key in common. *)
Definition share_access_key (a b : MemoryRegion) : Prop :=
  mr_local_key a = mr_local_key b \/ mr_local_key a = mr_remote_key b \/
  mr_remote_key a = mr_local_key b \/ mr_remote_key a = mr_remote_key b.

(** Registering a sequence of buffers with a new registry. *)
Definition register_all `{ArgOrder} (buffers : list ByteBuffer) (h : Heap)
    (r : MemoryRegistry) : Heap * MemoryRegistry :=
  fold_left (fun s bytes => let '(_, h', r') := Register bytes s.1 s.2 in (h', r'))
    buffers (h, r).

(** ** Lemmas: heap *)

Lemma deref_make_shared bytes h :
  deref (make_shared bytes h).1 (make_shared bytes h).2 = bytes.
Proof. simpl. by rewrite lookup_insert_eq. Qed.

Lemma heap_wf_make_shared bytes h : heap_wf h -> heap_wf (make_shared bytes h).2.
Proof.
  intros Hh l Hl. simpl in *. rewrite lookup_insert_ne by lia. apply Hh. lia.
Qed.

Lemma live_make_shared bytes h p : live h p -> live (make_shared bytes h).2 p.
Proof.
  intros (l & b & -> & Hl). exists l. simpl. destruct (decide (hp_next h = l)) as [<-|].
  - exists bytes. by rewrite lookup_insert_eq.
  - exists b. by rewrite lookup_insert_ne.
Qed.

Lemma live_fresh h p : heap_wf h -> live h p -> p <> Some (hp_next h).
Proof. intros Hh (l & b & -> & Hl) [= ->]. rewrite Hh in Hl by lia. done. Qed.

Lemma deref_make_shared_live bytes h p :
  heap_wf h -> live h p -> deref p (make_shared bytes h).2 = deref p h.
Proof.
  intros Hh Hp. pose proof (live_fresh h p Hh Hp). destruct Hp as (l & b & -> & Hl).
  simpl. rewrite lookup_insert_ne by congruence. done.
Qed.

Lemma heap_wf_resize p n h : heap_wf h -> heap_wf (ptr_resize p n h).
Proof.
  intros Hh l Hl. destruct p as [l'|]; simpl in *; [|by apply Hh].
  rewrite lookup_alter. case_decide; subst; by rewrite Hh.
Qed.

Lemma live_resize p q n h : live h p -> live (ptr_resize q n h) p.
Proof.
  intros (l & b & -> & Hl). destruct q as [l'|]; [|by exists l, b].
  exists l. simpl. rewrite lookup_alter. case_decide; subst; rewrite Hl; simpl; eauto.
Qed.

Lemma ptr_size_resize p n h :
  live h p -> (0 <= n)%Z -> ptr_size p (ptr_resize p n h) = n.
Proof.
  intros (l & b & -> & Hl) Hn. simpl. rewrite lookup_alter_eq, Hl.
  simpl. unfold sizeZ. rewrite length_resize. lia.
Qed.

Lemma deref_resize_ne p q n h : p <> q -> deref p (ptr_resize q n h) = deref p h.
Proof.
  intros Hne. destruct p as [l|], q as [l'|]; simpl; try done.
  by rewrite lookup_alter_ne by congruence.
Qed.

(** ** Lemmas: Register *)

Lemma region_key_inj a b : region_key a = region_key b -> a = b.
Proof. unfold region_key. intros H%(inj (String.append "mr-")). by apply to_string_inj. Qed.

Lemma region_key_fresh h r :
  registry_wf h r -> counters_ok r ->
  reg_regions r !! region_key (reg_next_region_id r + 1) = None.
Proof.
  intros Hwf _. destruct (reg_regions r !! _) as [region|] eqn:E; [|done].
  apply (wf_regions _ _ Hwf) in E as [_ (n & Hn & Hk) _ _ _ _].
  apply region_key_inj in Hk. lia.
Qed.

Section register_lemmas.
Context {AO : ArgOrder}.

Lemma Register_spec bytes h r region h' r' :
  registry_wf h r -> counters_ok r ->
  Register bytes h r = (region, h', r') ->
  mr_key region = region_key (reg_next_region_id r + 1) /\
  mr_storage region = Some (hp_next h) /\
  h' = (make_shared bytes h).2 /\
  reg_next_region_id r' = (reg_next_region_id r + 1)%Z /\
  reg_next_access_key r' = (reg_next_access_key r + 2)%Z /\
  reg_regions r' = <[mr_key region := region]> (reg_regions r) /\
  reg_regions r !! mr_key region = None /\
  ((mr_local_key region = reg_next_access_key r /\
    mr_remote_key region = reg_next_access_key r + 1) \/
   (mr_local_key region = reg_next_access_key r + 1 /\
    mr_remote_key region = reg_next_access_key r))%Z.
Proof.
  intros Hwf [Hc1 Hc2]. pose proof (region_key_fresh h r Hwf ltac:(split; done)) as Hf.
  pose proof (wf_next _ _ Hwf). pose proof (wf_access _ _ Hwf).
  unfold Register. simpl. rewrite !u64_small, !u32_small by lia.
  unfold emplace. rewrite Hf.
  destruct args_left_to_right; intros [= <- <- <-]; simpl; rewrite ?u32_small by lia;
    split_and!; auto; lia.
Qed.

Lemma registry_wf_Register bytes h r region h' r' :
  registry_wf h r -> counters_ok r ->
  Register bytes h r = (region, h', r') -> registry_wf h' r'.
Proof.
  intros Hwf Hc E.
  destruct (Register_spec _ _ _ _ _ _ Hwf Hc E)
    as (Hk & Hs & -> & Hid & Hak & Hm & Hfresh & Hkeys).
  destruct Hwf as [Hh Hn Ha Hr Hap].
  assert (Hnew : forall k a, reg_regions r !! k = Some a -> regions_apart region a).
  { intros k a Hka. apply Hr in Hka as [_ _ [] [] _ Hl].
    pose proof (live_fresh h _ Hh Hl). unfold regions_apart. rewrite Hs.
    destruct Hkeys as [[]|[]]; split_and!; try congruence; lia. }
  constructor.
  - by apply heap_wf_make_shared.
  - lia.
  - lia.
  - rewrite Hm. apply map_Forall_insert_2.
    + constructor; [done | exists (reg_next_region_id r + 1)%Z; split; [lia|done] |
        destruct Hkeys as [[]|[]]; lia.. |].
      exists (hp_next h), bytes. split; [done|]. simpl. by rewrite lookup_insert_eq.
    + intros k a Hka. apply Hr in Hka as [H1 (n & H2 & H3) H4 H5 H6 H7].
      constructor; [done | exists n; split; [lia|done] | lia.. | by apply live_make_shared].
  - intros k1 k2 a b Hne. rewrite Hm, !lookup_insert. repeat case_decide; subst; try done.
    + intros [= <-] Hb. by eapply Hnew.
    + intros Hb [= <-]. apply Hnew in Hb as (?&?&?&?&?). by repeat split; congruence.
    + by apply Hap.
Qed.

Lemma Lookup_Register bytes h r region h' r' :
  registry_wf h r -> counters_ok r ->
  Register bytes h r = (region, h', r') ->
  Lookup (mr_key region) r' = Ok region /\ deref (mr_storage region) h' = bytes.
Proof.
  intros Hwf Hc E.
  destruct (Register_spec _ _ _ _ _ _ Hwf Hc E) as (_ & Hs & -> & _ & _ & Hm & _).
  unfold Lookup. rewrite Hm, lookup_insert_eq, Hs. split; [done|].
  apply deref_make_shared.
Qed.

End register_lemmas.

Lemma registry_wf_Release key h r : registry_wf h r -> registry_wf h (Release key r).
Proof.
  intros [Hh Hn Ha Hr Hap]. constructor; simpl; auto.
  - intros k a [_ Ha1]%lookup_delete_Some. apply Hr in Ha1 as []. by constructor.
  - intros k1 k2 a b Hne [_ Ha1]%lookup_delete_Some [_ Hb]%lookup_delete_Some. by eapply Hap.
Qed.

Lemma registry_wf_new h : heap_wf h -> registry_wf h new_MemoryRegistry.
Proof. intros. constructor; simpl; try lia; [done | apply map_Forall_empty | set_solver]. Qed.

Lemma heap_wf_empty : heap_wf empty_heap.
Proof. intros l _. apply lookup_empty. Qed.

(** Resizing the storage of a live pointer keeps the registry well formed. *)
Lemma registry_wf_resize p n h r : registry_wf h r -> registry_wf (ptr_resize p n h) r.
Proof.
  intros [Hh Hn Ha Hr Hap]. constructor; auto using heap_wf_resize.
  intros k a Hka. apply Hr in Hka as []. constructor; auto using live_resize.
Qed.

#[export] Hint Resolve heap_wf_make_shared live_make_shared heap_wf_resize live_resize
  registry_wf_Release registry_wf_resize : cpp.

(** ** Lemmas: histories *)

Lemma register_all_counters `{ArgOrder} buffers h r :
  reg_next_region_id (register_all buffers h r).2 =
    u64 (reg_next_region_id r + sizeZ buffers) \/ buffers = [].
Proof.
  destruct buffers as [|b bs]; [by right|left]. revert b h r.
  induction bs as [|b' bs IH]; intros b h r.
  - unfold register_all, Register. simpl. destruct args_left_to_right; done.
  - change (register_all (b :: b' :: bs) h r)
      with (let '(_, h', r') := Register b h r in register_all (b' :: bs) h' r').
    destruct (Register b h r) as [[region h'] r'] eqn:E. rewrite IH.
    assert (reg_next_region_id r' = u64 (reg_next_region_id r + 1)) as ->
      by (unfold Register in E; simpl in E; destruct args_left_to_right; inv E; done).
    rewrite u64_add_l, !sizeZ_cons. f_equal. lia.
Qed.

Lemma register_all_access `{ArgOrder} buffers h r :
  (0 <= reg_next_access_key r < 2 ^ 32)%Z ->
  reg_next_access_key (register_all buffers h r).2 =
    u32 (reg_next_access_key r + 2 * sizeZ buffers).
Proof.
  revert h r. induction buffers as [|b bs IH]; intros h r Hr.
  - simpl. rewrite Z.mul_0_r, Z.add_0_r. by rewrite u32_small.
  - change (register_all (b :: bs) h r)
      with (let '(_, h', r') := Register b h r in register_all bs h' r').
    destruct (Register b h r) as [[region h'] r'] eqn:E.
    assert (reg_next_access_key r' = u32 (reg_next_access_key r + 2)) as Ea.
    { unfold Register in E. simpl in E.
      assert (u32 (u32 (reg_next_access_key r + 1) + 1) = u32 (reg_next_access_key r + 2)) as Eu
        by (unfold u32; rewrite Zplus_mod_idemp_l; f_equal; lia).
      destruct args_left_to_right; inv E; done. }
    rewrite IH, Ea by (rewrite Ea; apply u32_range).
    rewrite sizeZ_cons. unfold u32. rewrite Zplus_mod_idemp_l. f_equal. lia.
Qed.

Lemma registry_wf_make_shared bytes h r : registry_wf h r -> registry_wf (make_shared bytes h).2 r.
Proof.
  intros [Hh Hn Ha Hr Hap]. constructor; auto using heap_wf_make_shared.
  intros k region Hk. destruct (Hr k region Hk) as [? ? ? ? ? (l & b & Hs & Hl)].
  constructor; auto. exists l, b. split; [done|]. simpl. rewrite lookup_insert_ne; [done|].
  intros <-. by rewrite (Hh (hp_next h)) in Hl.
Qed.

(** What every history keeps, whatever wraps. *)
Record numbered_registry `{ArgOrder} (n : nat) (s : Heap * MemoryRegistry) : Prop := {
  nm_heap : heap_wf s.1;
  nm_id : reg_next_region_id s.2 = Z.of_nat n;
  nm_access : reg_next_access_key s.2 = u32 (1024 + 2 * Z.of_nat n);
  nm_regions : forall k a, reg_regions s.2 !! k = Some a ->
    (exists m, (1 <= m <= Z.of_nat n)%Z /\ k = region_key m /\ numbered m a) /\ live s.1 (mr_storage a);
  nm_storage : forall k1 k2 a b, k1 <> k2 ->
    reg_regions s.2 !! k1 = Some a -> reg_regions s.2 !! k2 = Some b -> mr_storage a <> mr_storage b;
}.

(** Arithmetic with remainders by constants. *)
Ltac euclid := Z.to_euclidean_division_equations; lia.

Lemma numbered_apart `{ArgOrder} m a : numbered m a -> mr_local_key a <> mr_remote_key a.
Proof.
  unfold numbered, u32. intros [_ Hk]. destruct args_left_to_right; destruct Hk as [-> ->]; euclid.
Qed.

Lemma numbered_share `{ArgOrder} m1 m2 a b :
  numbered m1 a -> numbered m2 b ->
  share_access_key a b <-> (m1 mod 2 ^ 31 = m2 mod 2 ^ 31)%Z.
Proof.
  unfold numbered, share_access_key, u32. intros [_ H1] [_ H2].
  destruct args_left_to_right; destruct H1 as [-> ->]; destruct H2 as [-> ->];
    (split; [intros [E|[E|[E|E]]]|intros E; first [left; solve [euclid]|right; left; solve [euclid]]]; euclid).
Qed.

(** What [Register] does, counters at their width. *)
Lemma Register_numbered `{ArgOrder} n bytes h r region h' r' :
  numbered_registry n (h, r) -> (Z.of_nat (S n) < 2 ^ 64)%Z ->
  Register bytes h r = (region, h', r') ->
  h' = (make_shared bytes h).2 /\ mr_storage region = Some (hp_next h) /\
  numbered (Z.of_nat (S n)) region /\
  reg_next_region_id r' = Z.of_nat (S n) /\
  reg_next_access_key r' = u32 (1024 + 2 * Z.of_nat (S n)) /\
  reg_regions r' = <[region_key (Z.of_nat (S n)) := region]> (reg_regions r).
Proof.
  intros [H1 H2 H3 H4 H5] Hn. simpl in *. unfold Register. simpl. rewrite H2, H3.
  replace (u64 (Z.of_nat n + 1)) with (Z.of_nat (S n)) by (rewrite u64_small; lia).
  assert (Hf : reg_regions r !! region_key (Z.of_nat (S n)) = None).
  { destruct (reg_regions r !! _) as [a|] eqn:E; [|done].
    apply H4 in E as [(m & Hm & Hk%region_key_inj & _) _]. lia. }
  unfold emplace. rewrite Hf. unfold numbered.
  destruct args_left_to_right; intros [= <- <- <-]; simpl; split_and!; try done; unfold u32; euclid.
Qed.

Lemma history_inv `{ArgOrder} n s :
  registry_history n s -> (Z.of_nat n < 2 ^ 64)%Z -> numbered_registry n s.
Proof.
  induction 1 as [|n bytes h r region h' r' _ IH E|n key h r _ IH|n p size h r _ IH]; intros Hn.
  - by constructor.
  - specialize (IH ltac:(lia)).
    destruct (Register_numbered _ _ _ _ _ _ _ IH Hn E) as (-> & Hs & Hnum & Hid & Hak & Hm).
    destruct IH as [H1 _ _ H4 H5]. cbn [fst snd] in *.
    assert (Hnew : forall k a, reg_regions r !! k = Some a -> mr_storage a <> mr_storage region).
    { intros k a Ha. rewrite Hs. apply (live_fresh h); [done|]. by apply (H4 k a). }
    constructor; cbn [fst snd]; auto using heap_wf_make_shared.
    + intros k a. rewrite Hm, lookup_insert. case_decide as Hk.
      * intros [= <-]. subst k. split; [exists (Z.of_nat (S n)); split_and!; [lia|lia|done|done]|].
        rewrite Hs. exists (hp_next h), bytes. simpl. by rewrite lookup_insert_eq.
      * intros Ha. destruct (H4 k a Ha) as [(m & Hm' & ? & ?) Hl].
        split; [exists m; split_and!; [lia|lia|done|done]|by apply live_make_shared].
    + intros k1 k2 a b Hne. rewrite Hm, !lookup_insert. repeat case_decide; subst; try done.
      * intros [= <-] Hb. apply not_eq_sym. by eapply Hnew.
      * intros Ha [= <-]. by eapply Hnew.
      * by apply H5.
  - destruct (IH Hn) as [H1 H2 H3 H4 H5]. constructor; simpl in *; auto.
    + intros k a [_ Ha]%lookup_delete_Some. by apply H4.
    + intros k1 k2 a b Hne [_ Ha]%lookup_delete_Some [_ Hb]%lookup_delete_Some. by eapply H5.
  - destruct (IH Hn) as [H1 H2 H3 H4 H5]. constructor; simpl in *; auto using heap_wf_resize.
    intros k a Ha. destruct (H4 k a Ha). split; [done|by apply live_resize].
Qed.

Lemma history_wf `{ArgOrder} n s :
  registry_history n s -> (Z.of_nat n < 2 ^ 31 - 512)%Z -> registry_wf s.1 s.2.
Proof.
  induction 1 as [|n bytes h r region h' r' Hh IH E|n key h r _ IH|n p size h r _ IH]; intros Hn;
    simpl in *; eauto with cpp; [apply registry_wf_new, heap_wf_empty|].
  eapply registry_wf_Register; [apply IH; lia| |exact E].
  destruct (history_inv _ _ Hh ltac:(lia)) as [_ H2 H3 _ _]. simpl in *. unfold counters_ok.
  rewrite H2, H3, u32_small by lia. lia.
Qed.

(** ** Properties *)

(** [MemoryRegistry::Register] on a well-formed registry whose counters do
    not wrap: the key is new, [Lookup] returns the region, its storage holds the
    registered bytes and is shared with no other region, every earlier region
    stays registered with its bytes, and the registry stays well formed. *)
Theorem Register_correct `{ArgOrder} (bytes : ByteBuffer) (h : Heap) (r : MemoryRegistry)
    (region : MemoryRegion) (h' : Heap) (r' : MemoryRegistry) :
  registry_wf h r -> counters_ok r ->
  Register bytes h r = (region, h', r') ->
  registry_wf h' r' /\
  reg_regions r !! mr_key region = None /\
  Lookup (mr_key region) r' = Ok region /\
  deref (mr_storage region) h' = bytes /\
  Size r' = (Size r + 1)%Z /\
  forall key other, Lookup key r = Ok other ->
    Lookup key r' = Ok other /\ regions_apart region other /\
    deref (mr_storage other) h' = deref (mr_storage other) h.
Proof.
  intros Hwf Hc E.
  pose proof (registry_wf_Register _ _ _ _ _ _ Hwf Hc E) as Hwf'.
  destruct (Lookup_Register _ _ _ _ _ _ Hwf Hc E) as [HL HD].
  destruct (Register_spec _ _ _ _ _ _ Hwf Hc E) as (_ & Hs & -> & _ & _ & Hm & Hfresh & _).
  split_and!; auto.
  - unfold Size. rewrite Hm, map_size_insert_None by done. lia.
  - intros key other. unfold Lookup. destruct (reg_regions r !! key) eqn:Ek; [|done].
    intros [= ->]. assert (mr_key region <> key) by congruence.
    assert (Hk' : reg_regions r' !! key = Some other) by (by rewrite Hm, lookup_insert_ne).
    rewrite Hk'. split_and!; [done| |].
    + eapply (wf_apart _ _ Hwf' (mr_key region)); [done| |exact Hk'].
      by rewrite Hm, lookup_insert_eq.
    + apply (wf_regions _ _ Hwf) in Ek as [_ _ _ _ _ Hlive].
      apply deref_make_shared_live; [apply Hwf | done].
Qed.

(** C10. Every history of registrations, releases and buffer resizes on a new registry, as
    long as the 64-bit region number does not wrap: each registered region is filed under
    the key of its registration, its storage is live and shared with no other region, and
    its two access keys differ.  Access keys are 32-bit and do wrap: the regions of
    registrations [m1] and [m2] have an access key in common exactly if the numbers agree
    modulo 2^31, so keys are pairwise distinct up to 2^31 registrations and not beyond.
    Below 2^31 - 512 registrations the registry is well formed in the sense the other
    components rely on. *)
Theorem registry_history_wf `{ArgOrder} (n : nat) (h : Heap) (r : MemoryRegistry) :
  registry_history n (h, r) -> (Z.of_nat n < 2 ^ 64)%Z ->
  (forall k a, reg_regions r !! k = Some a ->
     (exists m, (1 <= m <= Z.of_nat n)%Z /\ k = region_key m) /\
     mr_key a = k /\ live h (mr_storage a) /\ mr_local_key a <> mr_remote_key a) /\
  (forall m1 m2 a b, m1 <> m2 -> (1 <= m1 <= Z.of_nat n)%Z -> (1 <= m2 <= Z.of_nat n)%Z ->
     reg_regions r !! region_key m1 = Some a -> reg_regions r !! region_key m2 = Some b ->
     mr_storage a <> mr_storage b /\
     (share_access_key a b <-> (m1 mod 2 ^ 31 = m2 mod 2 ^ 31)%Z)) /\
  ((Z.of_nat n < 2 ^ 31 - 512)%Z -> registry_wf h r).
Proof.
  intros Hh Hn. pose proof (history_inv n (h, r) Hh Hn) as [H1 H2 H3 H4 H5]. simpl in *. split_and!.
  - intros k a Ha. destruct (H4 k a Ha) as ((m & Hm & Hk & Hnum) & Hl). split_and!.
    + by exists m.
    + destruct Hnum as [-> _]. done.
    + done.
    + by eapply numbered_apart.
  - intros m1 m2 a b Hne Hm1 Hm2 Ha Hb. split.
    + eapply H5; [|exact Ha|exact Hb]. by intros ?%region_key_inj.
    + destruct (H4 _ _ Ha) as ((k1 & _ & E1%region_key_inj & N1) & _).
      destruct (H4 _ _ Hb) as ((k2 & _ & E2%region_key_inj & N2) & _). subst k1 k2.
      by apply numbered_share.
  - intros Hb. exact (history_wf n (h, r) Hh Hb).
Qed.

(** After registering [n] buffers the two counters are the starting values
    plus [n] and [2 n], reduced modulo 2^64 and 2^32: region keys repeat only
    after 2^64 registrations, access keys already after 2^31. *)
Theorem registry_counters `{ArgOrder} (buffers : list ByteBuffer) (h : Heap) :
  let r := (register_all buffers h new_MemoryRegistry).2 in
  reg_next_region_id r = u64 (sizeZ buffers) /\
  reg_next_access_key r = u32 (1024 + 2 * sizeZ buffers).
Proof.
  split.
  - destruct (register_all_counters buffers h new_MemoryRegistry) as [->| ->]; done.
  - apply register_all_access. simpl. lia.
Qed.

(** Witnesses. *)
Lemma Register_correct_witness :
  let h := empty_heap in
  let r := new_MemoryRegistry in
  let res := @Register true (BytesFromString "abc") h r in
  Lookup "mr-1" res.2 = Ok (mkMemoryRegion "mr-1" 1024 1025 (Some 0)) /\
  Size res.2 = 1%Z.
Proof.
  pose proof (@Register_correct true (BytesFromString "abc") empty_heap new_MemoryRegistry
    _ _ _ (registry_wf_new _ heap_wf_empty) ltac:(split; simpl; lia) eq_refl) as H.
  destruct H as (_ & _ & H1 & _ & H2 & _). split; [exact H1 | exact H2].
Defined.

Lemma registry_history_wf_witness :
  let s := @Register false (BytesFromString "abc") empty_heap new_MemoryRegistry in
  let s' := @Register false (BytesFromString "d") s.1.2 s.2 in
  registry_wf s'.1.2 (Release "mr-1" s'.2).
Proof.
  apply (proj2 (proj2 (@registry_history_wf false 2 _ _
    (hist_Release _ "mr-1" _ _ (hist_Register _ (BytesFromString "d") _ _ _ _ _
      (hist_Register _ (BytesFromString "abc") _ _ _ _ _ hist_new eq_refl) eq_refl))
    (eq_refl : (Z.of_nat 2 < 2 ^ 64)%Z)))).
  reflexivity.
Defined.
