(* ===== verification/BufferPool.v ===== *)
(** * rdma/include/rdma/buffer_pool.h, rdma/src/buffer_pool.cpp

    A pool of registered buffers of one size.  The pool works on a registry it
    does not own, so its operations thread the heap, the registry and the pool,
    and they throw where [MemoryRegistry::Lookup] throws. *)

From S2P Require Import Prelude CppString Types Memory.
From Stdlib Require Import Strings.Byte.

Record BufferPool := mkBufferPool {
  bp_config : BufferPoolConfig;
  bp_free_keys : list string;         (* std::deque, front first *)
  bp_known_keys : gset string;
}.

Record PoolState := mkPoolState {
  ps_heap : Heap;
  ps_registry : MemoryRegistry;
  ps_pool : BufferPool;
}.

Definition set_free_keys (keys : list string) (s : PoolState) : PoolState :=
  mkPoolState (ps_heap s) (ps_registry s)
    (mkBufferPool (bp_config (ps_pool s)) keys (bp_known_keys (ps_pool s))).

Definition add_known_key (key : string) (s : PoolState) : PoolState :=
  mkPoolState (ps_heap s) (ps_registry s)
    (mkBufferPool (bp_config (ps_pool s)) (bp_free_keys (ps_pool s))
       ({[key]} ∪ bp_known_keys (ps_pool s))).

Definition pool_buffer_size (s : PoolState) : Z := bp_buffer_size (bp_config (ps_pool s)).

(** [registry_->Lookup(key)]. *)
Definition pool_lookup (key : string) : M PoolState MemoryRegion :=
  fun s => (Lookup key (ps_registry s), s).

(** [region.storage()->resize(config_.buffer_size)]. *)
Definition pool_resize (region : MemoryRegion) : M PoolState unit :=
  modify (fun s => mkPoolState (ptr_resize (mr_storage region) (pool_buffer_size s) (ps_heap s))
                     (ps_registry s) (ps_pool s)).

Section pool.
Context {AO : ArgOrder}.
Local Open Scope cpp_scope.

(** [registry_->Register(config_.buffer_size)]. *)
Definition pool_register : M PoolState MemoryRegion :=
  fun s =>
    let '(region, h', r') := Register_size (pool_buffer_size s) (ps_heap s) (ps_registry s) in
    (Ok region, mkPoolState h' r' (ps_pool s)).

Definition Acquire : M PoolState MemoryRegion :=
  free_keys <- gets (fun s => bp_free_keys (ps_pool s)) ;;
  match free_keys with
  | [] =>
      region <- pool_register ;;
      modify (add_known_key (mr_key region)) ;;;
      ret region
  | key :: rest =>
      modify (set_free_keys rest) ;;;
      region <- pool_lookup key ;;
      needs_resize <- gets (fun s =>
        bool_decide (mr_storage region <> None) &&
        negb (mr_size region (ps_heap s) =? pool_buffer_size s)%Z) ;;
      (if needs_resize : bool then pool_resize region else ret tt) ;;;
      ret region
  end.

Definition Release (key : string) : M PoolState unit :=
  pool <- gets ps_pool ;;
  if negb (bool_decide (key ∈ bp_known_keys pool)) then ret tt
  else if bool_decide (key ∈ bp_free_keys pool) then ret tt
  else
    region <- pool_lookup key ;;
    (if bool_decide (mr_storage region <> None) then pool_resize region else ret tt) ;;;
    modify (set_free_keys (bp_free_keys pool ++ [key])).

(** The constructor's loop. *)
Fixpoint construct_buffers (n : nat) (s : PoolState) : PoolState :=
  match n with
  | O => s
  | S n' =>
      match pool_register s with
      | (Ok region, s') =>
          construct_buffers n'
            (add_known_key (mr_key region)
               (set_free_keys (bp_free_keys (ps_pool s') ++ [mr_key region]) s'))
      | (Throw _, s') => s'
      end
  end.

Definition new_BufferPool (config : BufferPoolConfig) (h : Heap) (r : MemoryRegistry)
    : PoolState :=
  construct_buffers (Z.to_nat (bp_buffers config))
    (mkPoolState h r (mkBufferPool config [] ∅)).

End pool.

Definition Available (s : PoolState) : Z := sizeZ (bp_free_keys (ps_pool s)).

(** ** Invariant *)

(** Buffers handed out and not yet returned. *)
Definition outstanding (s : PoolState) : gset string :=
  bp_known_keys (ps_pool s) ∖ list_to_set (bp_free_keys (ps_pool s)).

(** The buffer filed under a key has the pool's size. *)
Definition has_pool_size (s : PoolState) (key : string) : Prop :=
  exists region, reg_regions (ps_registry s) !! key = Some region /\
    mr_size region (ps_heap s) = pool_buffer_size s.

Record pool_wf (s : PoolState) : Prop := {
  pwf_registry : registry_wf (ps_heap s) (ps_registry s);
  pwf_size : (0 <= pool_buffer_size s)%Z;
  pwf_nodup : NoDup (bp_free_keys (ps_pool s));
  pwf_known : forall key, key ∈ bp_free_keys (ps_pool s) -> key ∈ bp_known_keys (ps_pool s);
  pwf_registered : forall key, key ∈ bp_known_keys (ps_pool s) ->
    is_Some (reg_regions (ps_registry s) !! key);
  pwf_free_size : forall key, key ∈ bp_free_keys (ps_pool s) -> has_pool_size s key;
}.

(** Room for [n] more registrations. *)
Definition counters_room (r : MemoryRegistry) (n : Z) : Prop :=
  (reg_next_region_id r + n < 2 ^ 64)%Z /\ (reg_next_access_key r + 2 * n < 2 ^ 32)%Z.

(** ** Lemmas *)

Lemma diff_append (known : gset string) (free : list string) key :
  known ∖ list_to_set (free ++ [key]) = (known ∖ list_to_set free) ∖ {[key]}.
Proof. set_solver. Qed.

Lemma diff_fresh (known : gset string) (free : list string) key :
  key ∉ known ->
  ({[key]} ∪ known) ∖ list_to_set (free ++ [key]) = known ∖ list_to_set free.
Proof. set_solver. Qed.

Lemma diff_take (known : gset string) (rest : list string) key :
  key ∈ known -> key ∉ rest ->
  known ∖ list_to_set rest = {[key]} ∪ known ∖ list_to_set (key :: rest).
Proof.
  intros. apply set_eq. intros x. destruct (decide (x = key)); set_solver.
Qed.

Section pool_lemmas.
Context {AO : ArgOrder}.

(** A new buffer: fresh key, the pool's size, nothing else changed. *)
Lemma pool_register_spec s :
  pool_wf s -> counters_ok (ps_registry s) ->
  exists region s',
    pool_register s = (Ok region, s') /\
    ps_pool s' = ps_pool s /\
    registry_wf (ps_heap s') (ps_registry s') /\
    reg_regions (ps_registry s) !! mr_key region = None /\
    reg_regions (ps_registry s') = <[mr_key region := region]> (reg_regions (ps_registry s)) /\
    mr_size region (ps_heap s') = pool_buffer_size s /\
    reg_next_region_id (ps_registry s') = (reg_next_region_id (ps_registry s) + 1)%Z /\
    reg_next_access_key (ps_registry s') = (reg_next_access_key (ps_registry s) + 2)%Z /\
    (forall key, has_pool_size s key -> has_pool_size s' key).
Proof.
  intros Hwf Hc. unfold pool_register.
  destruct (Register_size _ _ _) as [[region h'] r'] eqn:E. unfold Register_size in E.
  pose proof (pwf_registry _ Hwf) as Hr.
  destruct (Register_spec _ _ _ _ _ _ Hr Hc E) as (_ & Hs & Hh & Hid & Hak & Hm & Hfresh & _).
  pose proof (registry_wf_Register _ _ _ _ _ _ Hr Hc E) as Hr'.
  destruct (Lookup_Register _ _ _ _ _ _ Hr Hc E) as [_ HD].
  exists region, (mkPoolState h' r' (ps_pool s)). simpl. split_and!; auto.
  - unfold mr_size. rewrite Hs in *. unfold ptr_size. rewrite HD. unfold sizeZ.
    rewrite length_replicate. pose proof (pwf_size _ Hwf). lia.
  - intros key (other & Hk & Hsz). exists other. split.
    + simpl. rewrite Hm, lookup_insert_ne by congruence. done.
    + change (mr_size other h' = pool_buffer_size s). rewrite <- Hsz.
      apply (wf_regions _ _ Hr) in Hk as [_ _ _ _ _ Hlive].
      simpl. subst h'. unfold mr_size, ptr_size. destruct (mr_storage other); [|done].
      rewrite deref_make_shared_live; [done | apply Hr | done].
Qed.

Lemma Acquire_empty s :
  pool_wf s -> counters_ok (ps_registry s) -> bp_free_keys (ps_pool s) = [] ->
  exists region s0,
    pool_register s = (Ok region, s0) /\
    Acquire s = (Ok region, add_known_key (mr_key region) s0).
Proof.
  intros Hwf Hc Hf. destruct (pool_register_spec s Hwf Hc) as (region & s0 & E & _).
  exists region, s0. split; [done|]. unfold Acquire.
  erewrite bind_ok by reflexivity. cbn beta. rewrite Hf.
  by erewrite bind_ok by apply E.
Qed.

Lemma Acquire_reuse s key rest :
  pool_wf s -> bp_free_keys (ps_pool s) = key :: rest ->
  exists region,
    reg_regions (ps_registry s) !! key = Some region /\
    Acquire s = (Ok region, set_free_keys rest s).
Proof.
  intros Hwf Hf.
  destruct (pwf_free_size _ Hwf key ltac:(rewrite Hf; set_solver)) as (region & Hk & Hsz).
  exists region. split; [done|]. unfold Acquire.
  erewrite bind_ok by reflexivity. cbn beta. rewrite Hf.
  erewrite bind_ok by reflexivity. unfold pool_lookup, Lookup, bind, gets, ret. simpl.
  rewrite Hk. simpl. unfold pool_buffer_size in *. simpl. rewrite Hsz, Z.eqb_refl.
  by rewrite andb_false_r.
Qed.

Lemma pool_wf_take s key rest :
  pool_wf s -> bp_free_keys (ps_pool s) = key :: rest -> pool_wf (set_free_keys rest s).
Proof.
  intros [Hr Hsz Hnd Hk Hreg Hfs] Hf. rewrite Hf in *. apply NoDup_cons in Hnd as [_ Hnd].
  constructor; simpl; auto; intros k Hin; [apply Hk | apply Hfs]; set_solver.
Qed.

Lemma pool_wf_new_buffer s region s0 :
  pool_wf s -> counters_ok (ps_registry s) -> pool_register s = (Ok region, s0) ->
  forall keys, NoDup keys ->
  (forall k, k ∈ keys -> k = mr_key region \/ k ∈ bp_free_keys (ps_pool s)) ->
  pool_wf (add_known_key (mr_key region) (set_free_keys keys s0)).
Proof.
  intros Hwf Hc E keys Hnd Hin.
  destruct (pool_register_spec s Hwf Hc)
    as (region' & s' & E' & Hp & Hr & Hfresh & Hm & Hsz & _ & _ & Hkeep).
  rewrite E in E'. inv E'. destruct Hwf as [_ Hpos _ Hk Hreg Hfs].
  assert (Hbs : pool_buffer_size s' = pool_buffer_size s) by (unfold pool_buffer_size; by rewrite Hp).
  constructor; simpl; auto.
  - change (0 <= pool_buffer_size s')%Z. lia.
  - intros k [->|Hkf]%Hin; [set_solver|]. rewrite Hp. set_solver.
  - intros k. rewrite Hp, elem_of_union, elem_of_singleton, Hm. intros [->|Hkn].
    + rewrite lookup_insert_eq. eauto.
    + destruct (Hreg _ Hkn) as [x Hx]. rewrite lookup_insert_ne by congruence. eauto.
  - intros k [->|Hkf]%Hin.
    + exists region'. simpl. rewrite Hm, lookup_insert_eq. split; [done|].
      change (mr_size region' (ps_heap s') = pool_buffer_size s'). by rewrite Hbs.
    + destruct (Hkeep k (Hfs k Hkf)) as (x & Hx & Hxs). exists x. split; [done|exact Hxs].
Qed.

(** Putting a buffer back: its storage is resized, every other buffer keeps its
    bytes. *)
Lemma has_pool_size_resize s region key :
  registry_wf (ps_heap s) (ps_registry s) -> (0 <= pool_buffer_size s)%Z ->
  reg_regions (ps_registry s) !! mr_key region = Some region ->
  key = mr_key region \/ has_pool_size s key ->
  has_pool_size (pool_resize region s).2 key.
Proof.
  intros Hr Hpos Hreg Hkey.
  assert (Hlive : live (ps_heap s) (mr_storage region))
    by (by apply (wf_regions _ _ Hr) in Hreg as []).
  destruct (decide (key = mr_key region)) as [->|Hne].
  - exists region. split; [done|]. simpl. unfold mr_size.
    by rewrite ptr_size_resize.
  - destruct Hkey as [?|(x & Hx & Hxs)]; [done|]. exists x. split; [done|].
    change (mr_size x (ptr_resize (mr_storage region) (pool_buffer_size s) (ps_heap s))
      = pool_buffer_size s).
    rewrite <- Hxs at 2. unfold mr_size, ptr_size.
    destruct (wf_apart _ _ Hr _ _ _ _ Hne Hx Hreg) as [Hst _].
    destruct (mr_storage x) eqn:Ex; [|done]. rewrite deref_resize_ne; [done|congruence].
Qed.

Lemma Release_outstanding s key :
  pool_wf s -> key ∈ outstanding s ->
  exists region,
    reg_regions (ps_registry s) !! key = Some region /\
    Release key s =
      (Ok tt, set_free_keys (bp_free_keys (ps_pool s) ++ [key]) (pool_resize region s).2).
Proof.
  intros Hwf Hout. unfold outstanding in Hout.
  apply elem_of_difference in Hout as [Hk Hf]. rewrite elem_of_list_to_set in Hf.
  destruct (pwf_registered _ Hwf key Hk) as [region Hreg].
  pose proof (wf_regions _ _ (pwf_registry _ Hwf) _ _ Hreg) as [_ _ _ _ _ (l & b & Hst & _)].
  exists region. split; [done|]. unfold Release.
  erewrite bind_ok by reflexivity. cbn beta.
  rewrite (bool_decide_eq_true_2 _ Hk), (bool_decide_eq_false_2 _ Hf). simpl.
  unfold bind, pool_lookup, Lookup. rewrite Hreg. simpl.
  rewrite (bool_decide_eq_true_2 (mr_storage region <> None)) by (rewrite Hst; done). done.
Qed.

Lemma Release_other s key :
  pool_wf s -> key ∉ outstanding s -> Release key s = (Ok tt, s).
Proof.
  intros Hwf Hout. unfold Release. erewrite bind_ok by reflexivity. cbn beta.
  case_bool_decide as Hk; simpl; [|done].
  rewrite bool_decide_eq_true_2; [done|].
  unfold outstanding in Hout. rewrite elem_of_difference, elem_of_list_to_set in Hout.
  destruct (decide (key ∈ bp_free_keys (ps_pool s))); naive_solver.
Qed.

Lemma pool_wf_put_back s key region :
  pool_wf s -> key ∈ outstanding s -> reg_regions (ps_registry s) !! key = Some region ->
  pool_wf (set_free_keys (bp_free_keys (ps_pool s) ++ [key]) (pool_resize region s).2).
Proof.
  intros Hwf Hout Hreg. unfold outstanding in Hout.
  apply elem_of_difference in Hout as [Hk Hf]. rewrite elem_of_list_to_set in Hf.
  assert (mr_key region = key) as <-
    by (by apply (wf_regions _ _ (pwf_registry _ Hwf)) in Hreg as []).
  destruct Hwf as [Hr Hpos Hnd Hkn Hrg Hfs]. constructor; simpl; auto with cpp.
  - apply NoDup_app. split_and!; [done| |apply NoDup_singleton].
    intros x Hx ->%list_elem_of_singleton. done.
  - intros x [?| ->%list_elem_of_singleton]%elem_of_app; auto.
  - intros x Hx. apply (has_pool_size_resize s region x Hr Hpos Hreg).
    apply elem_of_app in Hx as [?| ->%list_elem_of_singleton]; auto.
Qed.

(** The constructor only adds buffers: regions of any registry stay intact. *)
Lemma construct_buffers_keeps n s r :
  registry_wf (ps_heap s) r -> registry_wf (ps_heap (construct_buffers n s)) r.
Proof.
  revert s. induction n as [|n IH]; intros s Hr; [done|].
  cbn [construct_buffers]. destruct (pool_register s) as [[region|] s'] eqn:E.
  - apply IH. simpl. unfold pool_register, Register_size, Register in E. simpl in E.
    injection E as _ <-. simpl. by apply (registry_wf_make_shared _ (ps_heap s)).
  - unfold pool_register, Register_size, Register in E. simpl in E. by injection E.
Qed.

Lemma construct_buffers_spec n s :
  pool_wf s -> counters_room (ps_registry s) (Z.of_nat n) ->
  let s' := construct_buffers n s in
  pool_wf s' /\ Available s' = (Available s + Z.of_nat n)%Z /\
  outstanding s' = outstanding s /\
  Size (ps_registry s') = (Size (ps_registry s) + Z.of_nat n)%Z /\
  bp_config (ps_pool s') = bp_config (ps_pool s) /\
  reg_next_region_id (ps_registry s') = (reg_next_region_id (ps_registry s) + Z.of_nat n)%Z /\
  reg_next_access_key (ps_registry s')
    = (reg_next_access_key (ps_registry s) + 2 * Z.of_nat n)%Z.
Proof.
  revert s. induction n as [|n IH]; intros s Hwf [Hc1 Hc2].
  - simpl. split_and!; [done|lia|done|lia|done|lia|lia].
  - assert (Hc : counters_ok (ps_registry s)) by (split; lia).
    destruct (pool_register_spec s Hwf Hc)
      as (region & s1 & E & Hp & Hr & Hfresh & Hm & _ & Hid & Hak & _).
    cbn [construct_buffers]. rewrite E. cbv zeta.
    set (s2 := add_known_key _ _).
    assert (Hkf : mr_key region ∉ bp_known_keys (ps_pool s)).
    { intros [x Hx]%(pwf_registered _ Hwf). congruence. }
    assert (Hff : mr_key region ∉ bp_free_keys (ps_pool s))
      by (intros ?%(pwf_known _ Hwf); done).
    assert (Hwf2 : pool_wf s2).
    { eapply pool_wf_new_buffer; [exact Hwf|exact Hc|exact E| |]; rewrite Hp.
      - apply NoDup_app. split_and!; [apply Hwf| |apply NoDup_singleton].
        intros x Hx ->%list_elem_of_singleton. done.
      - intros k [?| ->%list_elem_of_singleton]%elem_of_app; auto. }
    destruct (IH s2 Hwf2) as (H1 & H2 & H3 & H4 & H5 & H6 & H7); [split; simpl; lia|].
    split_and!; [done|..].
    + rewrite H2. unfold Available, s2. simpl. rewrite Hp, sizeZ_app, sizeZ_cons, sizeZ_nil. lia.
    + rewrite H3. unfold outstanding, s2. simpl. rewrite Hp. by apply diff_fresh.
    + rewrite H4. unfold Size, s2. simpl. rewrite Hm, map_size_insert_None by done. lia.
    + rewrite H5. unfold s2. simpl. by rewrite Hp.
    + rewrite H6. unfold s2. simpl. lia.
    + rewrite H7. unfold s2. simpl. lia.
Qed.

Lemma pool_wf_init config h r :
  registry_wf h r -> (0 <= bp_buffer_size config)%Z ->
  pool_wf (mkPoolState h r (mkBufferPool config [] ∅)).
Proof. intros. constructor; simpl; auto; [constructor|set_solver..]. Qed.

End pool_lemmas.

(** ** Properties *)

(** The constructor registers exactly [config.buffers] buffers of
    [config.buffer_size] bytes, all of them available and none handed out. *)
Theorem new_BufferPool_correct `{ArgOrder} (config : BufferPoolConfig) (h : Heap)
    (r : MemoryRegistry) :
  registry_wf h r -> (0 <= bp_buffers config)%Z -> (0 <= bp_buffer_size config)%Z ->
  counters_room r (bp_buffers config) ->
  let s := new_BufferPool config h r in
  pool_wf s /\ Available s = bp_buffers config /\ outstanding s = ∅ /\
  Size (ps_registry s) = (Size r + bp_buffers config)%Z /\
  pool_buffer_size s = bp_buffer_size config.
Proof.
  intros Hr Hn Hsz Hroom. cbv zeta.
  destruct (construct_buffers_spec (Z.to_nat (bp_buffers config))
    (mkPoolState h r (mkBufferPool config [] ∅)) (pool_wf_init _ _ _ Hr Hsz))
    as (H1 & H2 & H3 & H4 & H5 & _ & _).
  { simpl. by rewrite Z2Nat.id. }
  rewrite Z2Nat.id in * by done. fold (new_BufferPool config h r) in *.
  split_and!; [done | by rewrite H2 | | done |].
  - rewrite H3. unfold outstanding. simpl. by rewrite difference_empty_L.
  - unfold pool_buffer_size. by rewrite H5.
Qed.

(** [Acquire] on a well-formed pool returns a buffer of the pool's size that
    nobody holds, records it as handed out, reuses an available buffer when there
    is one (the registry is then untouched) and registers exactly one new buffer
    otherwise. *)
Theorem Acquire_correct `{ArgOrder} (s : PoolState) :
  pool_wf s -> counters_ok (ps_registry s) ->
  exists region s',
    Acquire s = (Ok region, s') /\ pool_wf s' /\
    Lookup (mr_key region) (ps_registry s') = Ok region /\
    mr_size region (ps_heap s') = pool_buffer_size s /\
    (mr_key region ∉ outstanding s) /\
    outstanding s' = {[mr_key region]} ∪ outstanding s /\
    (if decide (Available s = 0%Z)
     then Available s' = 0%Z /\ Size (ps_registry s') = (Size (ps_registry s) + 1)%Z
     else Available s' = (Available s - 1)%Z /\ ps_registry s' = ps_registry s).
Proof.
  intros Hwf Hc. destruct (bp_free_keys (ps_pool s)) as [|key rest] eqn:Hf.
  - destruct (Acquire_empty s Hwf Hc Hf) as (region & s0 & E & EA).
    destruct (pool_register_spec s Hwf Hc)
      as (region' & s0' & E' & Hp & Hr & Hfresh & Hm & Hsz & _ & _ & Hkeep).
    rewrite E in E'. inv E'.
    assert (Hkf : mr_key region' ∉ bp_known_keys (ps_pool s))
      by (intros [x Hx]%(pwf_registered _ Hwf); congruence).
    exists region', (add_known_key (mr_key region') s0'). split_and!; auto.
    + replace s0' with (set_free_keys [] s0')
        by (unfold set_free_keys; rewrite Hp, <- Hf, <- Hp; by destruct s0' as [? ? []]).
      eapply pool_wf_new_buffer; eauto using NoDup_nil_2. set_solver.
    + unfold Lookup. simpl. by rewrite Hm, lookup_insert_eq.
    + unfold outstanding. intros [? _]%elem_of_difference. done.
    + unfold outstanding. simpl. rewrite Hp, Hf. simpl. by rewrite !difference_empty_L.
    + unfold Available. rewrite Hf, decide_True by done. simpl. rewrite Hp, Hf. split; [done|].
      unfold Size. rewrite Hm, map_size_insert_None by done. lia.
  - destruct (Acquire_reuse s key rest Hwf Hf) as (region & Hreg & EA).
    pose proof (pwf_nodup _ Hwf) as Hnd. rewrite Hf in Hnd. apply NoDup_cons in Hnd as [Hn1 Hn2].
    assert (mr_key region = key) as <-
      by (by apply (wf_regions _ _ (pwf_registry _ Hwf)) in Hreg as []).
    exists region, (set_free_keys rest s). split_and!; eauto using pool_wf_take.
    + unfold Lookup. simpl. by rewrite Hreg.
    + destruct (pwf_free_size _ Hwf (mr_key region)) as (x & Hx & Hxs); [rewrite Hf; set_solver|].
      simpl. congruence.
    + unfold outstanding. rewrite Hf. intros [_ Hx]%elem_of_difference. apply Hx. set_solver.
    + pose proof (pwf_known _ Hwf (mr_key region) ltac:(rewrite Hf; set_solver)).
      unfold outstanding. simpl. rewrite Hf. by apply diff_take.
    + unfold Available. rewrite Hf. rewrite decide_False by (rewrite sizeZ_cons; pose proof (sizeZ_nonneg rest); lia).
      simpl. rewrite sizeZ_cons. split; [lia|done].
Qed.

(** [Release] of a buffer that is handed out makes it available again with
    the pool's size; for a key the pool does not know, or a second release, it
    changes nothing.  It never touches the registry and never throws on a
    well-formed pool. *)
Theorem Release_correct (s : PoolState) (key : string) :
  pool_wf s ->
  exists s',
    Release key s = (Ok tt, s') /\ pool_wf s' /\ ps_registry s' = ps_registry s /\
    outstanding s' = outstanding s ∖ {[key]} /\
    (if decide (key ∈ outstanding s)
     then bp_free_keys (ps_pool s') = bp_free_keys (ps_pool s) ++ [key] /\ has_pool_size s' key
     else s' = s).
Proof.
  intros Hwf. destruct (decide (key ∈ outstanding s)) as [Hout|Hout].
  - destruct (Release_outstanding s key Hwf Hout) as (region & Hreg & E).
    pose proof (pool_wf_put_back s key region Hwf Hout Hreg) as Hwf'.
    eexists. split_and!; [exact E|exact Hwf'|done| |done|].
    + unfold outstanding. simpl. by rewrite diff_append.
    + apply Hwf'. simpl. set_solver.
  - exists s. rewrite (Release_other s key Hwf Hout). split_and!; auto.
    apply set_eq. intros x. destruct (decide (x = key)); set_solver.
Qed.

(** When the registry no longer holds an available buffer (someone released
    its key from the registry), [Acquire] throws the registry's error, and the
    key has already left the free list: the pool has lost that buffer. *)
Theorem Acquire_lost_buffer `{ArgOrder} (s : PoolState) (key : string) (rest : list string) :
  bp_free_keys (ps_pool s) = key :: rest ->
  reg_regions (ps_registry s) !! key = None ->
  Acquire s = (Throw ("memory region not found: " +:+ key), set_free_keys rest s).
Proof.
  intros Hf Hr. unfold Acquire. erewrite bind_ok by reflexivity. cbn beta. rewrite Hf.
  erewrite bind_ok by reflexivity. unfold bind, pool_lookup, Lookup. simpl. by rewrite Hr.
Qed.

(** ** Witnesses *)

(** A pool of two four-byte buffers over a new registry. *)
Definition small_pool : PoolState :=
  @new_BufferPool true (mkBufferPoolConfig 2 4) empty_heap new_MemoryRegistry.

Lemma new_BufferPool_correct_witness :
  Available small_pool = 2%Z /\ pool_wf small_pool.
Proof.
  destruct (@new_BufferPool_correct true (mkBufferPoolConfig 2 4) empty_heap new_MemoryRegistry
    (registry_wf_new _ heap_wf_empty)) as (H1 & H2 & _); simpl; try lia; [split; simpl; lia|].
  split; [exact H2 | exact H1].
Defined.

Lemma small_pool_wf : pool_wf small_pool.
Proof.
  apply construct_buffers_spec; [apply pool_wf_init; [apply registry_wf_new, heap_wf_empty|simpl; lia]|].
  split; simpl; lia.
Qed.

Lemma Acquire_correct_witness :
  exists region s',
    @Acquire true small_pool = (Ok region, s') /\ mr_size region (ps_heap s') = 4%Z.
Proof.
  destruct (@Acquire_correct true small_pool small_pool_wf ltac:(split; vm_compute; reflexivity))
    as (region & s' & H1 & _ & _ & H2 & _).
  exists region, s'. split; [exact H1 | exact H2].
Defined.

Lemma Release_correct_witness :
  exists s', Release "mr-9" small_pool = (Ok tt, s') /\ ps_registry s' = ps_registry small_pool.
Proof.
  destruct (Release_correct small_pool "mr-9" small_pool_wf) as (s' & H1 & _ & H2 & _).
  exists s'. split; [exact H1 | exact H2].
Defined.

Lemma Acquire_lost_buffer_witness :
  let s := mkPoolState (ps_heap small_pool) (Memory.Release "mr-1" (ps_registry small_pool))
             (ps_pool small_pool) in
  @Acquire true s = (Throw "memory region not found: mr-1", set_free_keys ["mr-2"] s).
Proof. apply (@Acquire_lost_buffer true); vm_compute; reflexivity. Defined.
