(* ===== verification/PoolHistory.v ===== *)
(** * Histories of the buffer pool, against an abstract pool

    The pool's users acquire and release buffers and change the buffers they hold; other
    users of the same registry register regions of their own.  The abstract pool knows
    neither heap nor registry: a queue of available buffers and the set of those handed
    out. *)

From S2P Require Import Prelude CppString Types Memory BufferPool.

Inductive pool_op :=
| PAcquire
| PRelease (key : string)
| PResize (key : string) (n : Z)      (* a holder resizes its buffer *)
| PRegister (n : Z).                  (* somebody else registers a region *)

Section run.
Context {AO : ArgOrder}.

(** An operation; [Acquire] answers the key of the buffer and its size. *)
Definition pool_step (op : pool_op) (s : PoolState) : outcome (option (string * Z)) * PoolState :=
  match op with
  | PAcquire =>
      match Acquire s with
      | (Ok region, s') => (Ok (Some (mr_key region, mr_size region (ps_heap s'))), s')
      | (Throw what, s') => (Throw what, s')
      end
  | PRelease key =>
      match Release key s with
      | (Ok _, s') => (Ok None, s')
      | (Throw what, s') => (Throw what, s')
      end
  | PResize key n =>
      (Ok None,
       match reg_regions (ps_registry s) !! key with
       | Some region =>
           if decide (key ∈ outstanding s)
           then mkPoolState (ptr_resize (mr_storage region) n (ps_heap s)) (ps_registry s) (ps_pool s)
           else s
       | None => s
       end)
  | PRegister n =>
      let '(_, h', r') := Register_size n (ps_heap s) (ps_registry s) in
      (Ok None, mkPoolState h' r' (ps_pool s))
  end.

Fixpoint pool_run (ops : list pool_op) (s : PoolState)
    : list (outcome (option (string * Z))) * PoolState :=
  match ops with
  | [] => ([], s)
  | op :: ops' =>
      let '(out, s1) := pool_step op s in
      let '(outs, s2) := pool_run ops' s1 in
      (out :: outs, s2)
  end.

(** The most buffers that were handed out at once. *)
Fixpoint pool_peak (ops : list pool_op) (s : PoolState) : nat :=
  match ops with
  | [] => size (outstanding s)
  | op :: ops' => Nat.max (size (outstanding s)) (pool_peak ops' (pool_step op s).2)
  end.
End run.

(** ** The abstract pool *)

Record AbsPool := mkAbsPool {
  ap_free : list string;
  ap_out : gset string;
}.

(** [size] is the size of every buffer handed out. *)
Inductive abs_step (size : Z) : pool_op -> option (string * Z) -> AbsPool -> AbsPool -> Prop :=
(** The buffer that has been available longest. *)
| as_reuse key free out :
    key ∉ out ->
    abs_step size PAcquire (Some (key, size)) (mkAbsPool (key :: free) out)
      (mkAbsPool free ({[key]} ∪ out))
(** A new buffer, only when none is available. *)
| as_new key out :
    key ∉ out ->
    abs_step size PAcquire (Some (key, size)) (mkAbsPool [] out) (mkAbsPool [] ({[key]} ∪ out))
| as_release key free out :
    key ∈ out ->
    abs_step size (PRelease key) None (mkAbsPool free out) (mkAbsPool (free ++ [key]) (out ∖ {[key]}))
| as_release_other key p : key ∉ ap_out p -> abs_step size (PRelease key) None p p
| as_resize key n p : abs_step size (PResize key n) None p p
| as_register n p : abs_step size (PRegister n) None p p.

Inductive abs_run (size : Z)
    : list pool_op -> list (outcome (option (string * Z))) -> AbsPool -> AbsPool -> Prop :=
| ar_nil p : abs_run size [] [] p p
| ar_cons op ops out outs p1 p2 p3 :
    abs_step size op out p1 p2 -> abs_run size ops outs p2 p3 ->
    abs_run size (op :: ops) (Ok out :: outs) p1 p3.

(** What the abstract pool sees of a pool. *)
Definition abstract (s : PoolState) : AbsPool :=
  mkAbsPool (bp_free_keys (ps_pool s)) (outstanding s).

(** ** Lemmas *)

Section lemmas.
Context {AO : ArgOrder}.

(** The buffers the pool has registered; they grow only when none is available. *)
Definition pool_known (s : PoolState) : nat := size (bp_known_keys (ps_pool s)).

Lemma pool_known_split s :
  pool_wf s -> pool_known s = length (bp_free_keys (ps_pool s)) + size (outstanding s).
Proof.
  intros Hwf. unfold pool_known, outstanding.
  rewrite <- (size_list_to_set (C := gset string) (bp_free_keys (ps_pool s))) by apply Hwf.
  rewrite size_difference.
  - pose proof (subseteq_size (list_to_set (bp_free_keys (ps_pool s)) : gset string)
      (bp_known_keys (ps_pool s))) as Hle.
    assert (Hsub : list_to_set (bp_free_keys (ps_pool s)) ⊆ bp_known_keys (ps_pool s)).
    { intros k Hk%elem_of_list_to_set. by apply Hwf. }
    specialize (Hle Hsub). lia.
  - intros k Hk%elem_of_list_to_set. by apply Hwf.
Qed.

(** What one operation keeps, and how far the counters and the pool can move. *)
Record step_ok (op : pool_op) (out : option (string * Z)) (s s' : PoolState) : Prop := {
  so_wf : pool_wf s';
  so_config : bp_config (ps_pool s') = bp_config (ps_pool s);
  so_abs : abs_step (pool_buffer_size s) op out (abstract s) (abstract s');
  so_id : (reg_next_region_id (ps_registry s') <= reg_next_region_id (ps_registry s) + 1)%Z;
  so_key : (reg_next_access_key (ps_registry s') <= reg_next_access_key (ps_registry s) + 2)%Z;
  so_known : pool_known s <= pool_known s' <= Nat.max (pool_known s) (size (outstanding s'));
}.

Lemma acquire_ok s :
  pool_wf s -> counters_ok (ps_registry s) ->
  exists out s', pool_step PAcquire s = (Ok out, s') /\ step_ok PAcquire out s s'.
Proof.
  intros Hwf Hc. destruct (Acquire_correct s Hwf Hc)
    as (region & s' & EA & Hwf' & _ & Hsz & Hnew & Hout & _).
  exists (Some (mr_key region, pool_buffer_size s)), s'. simpl. rewrite EA, Hsz. split; [done|].
  pose proof (pool_known_split s Hwf) as HK. pose proof (pool_known_split s' Hwf') as HK'.
  assert (Hsize : size (outstanding s') = S (size (outstanding s))).
  { rewrite Hout, size_union, size_singleton by set_solver. done. }
  destruct (bp_free_keys (ps_pool s)) as [|key rest] eqn:Hf.
  - destruct (Acquire_empty s Hwf Hc Hf) as (region' & s0 & E & EA').
    rewrite EA in EA'. injection EA' as <- ->.
    destruct (pool_register_spec s Hwf Hc) as (region' & s0' & E' & Hp & _ & _ & _ & _ & Hid & Hak & _).
    rewrite E in E'. injection E' as <- <-.
    assert (Hf' : bp_free_keys (ps_pool (add_known_key (mr_key region) s0)) = [])
      by (simpl; by rewrite Hp).
    rewrite Hf' in HK'. cbn [length] in HK, HK'.
    constructor; [done|simpl; by rewrite Hp| |simpl; lia|simpl; lia|lia].
    unfold abstract. rewrite Hf, Hf', Hout. by constructor.
  - destruct (Acquire_reuse s key rest Hwf Hf) as (region' & Hreg & EA').
    rewrite EA in EA'. injection EA' as <- ->.
    assert (mr_key region = key) as <-
      by (by apply (wf_regions _ _ (pwf_registry _ Hwf)) in Hreg as []).
    cbn [length set_free_keys ps_pool bp_free_keys] in HK, HK'.
    constructor; [done|done| |simpl; lia|simpl; lia|lia].
    unfold abstract. rewrite Hf, Hout. by constructor.
Qed.

Lemma release_ok key s :
  pool_wf s ->
  exists out s', pool_step (PRelease key) s = (Ok out, s') /\ step_ok (PRelease key) out s s'.
Proof.
  intros Hwf. destruct (Release_correct s key Hwf) as (s' & E & Hwf' & Hreg & Hout & Hcase).
  exists None, s'. simpl. rewrite E. split; [done|].
  destruct (decide (key ∈ outstanding s)) as [Hin|Hin].
  - destruct (Release_outstanding s key Hwf Hin) as (region & _ & E'). rewrite E in E'.
    injection E' as ->. constructor; simpl; try done; try lia.
    + unfold abstract. simpl. simpl in Hout. rewrite Hout. by constructor.
    + unfold pool_known. simpl. lia.
  - subst s'. constructor; simpl; try done; try lia. by constructor.
Qed.

(** Bytes a holder changes are not those of an available buffer. *)
Lemma resize_ok key n s :
  pool_wf s ->
  exists out s', pool_step (PResize key n) s = (Ok out, s') /\ step_ok (PResize key n) out s s'.
Proof.
  intros Hwf. exists None. simpl. eexists. split; [done|].
  destruct (reg_regions (ps_registry s) !! key) as [region|] eqn:Hreg;
    [destruct (decide (key ∈ outstanding s)) as [Hin|Hin]|];
    [|constructor; simpl; try done; try lia; apply as_resize..].
  constructor; simpl; try done; try lia; [|apply as_resize|unfold pool_known; simpl; lia].
  destruct Hwf as [Hr Hpos Hnd Hkn Hrg Hfs]. constructor; simpl; auto using registry_wf_resize.
  intros k Hk. destruct (Hfs k Hk) as (x & Hx & Hxs). exists x. split; [done|].
  assert (Hne : k <> key).
  { intros ->. apply elem_of_difference in Hin as [_ Hin]. apply Hin. by apply elem_of_list_to_set. }
  destruct (wf_apart _ _ Hr _ _ _ _ Hne Hx Hreg) as [Hst _].
  change (mr_size x (ptr_resize (mr_storage region) n (ps_heap s)) = pool_buffer_size s).
  rewrite <- Hxs. unfold mr_size, ptr_size. destruct (mr_storage x) eqn:Ex; [|done].
  rewrite deref_resize_ne; [done|congruence].
Qed.

Lemma register_ok n s :
  pool_wf s -> counters_ok (ps_registry s) ->
  exists out s', pool_step (PRegister n) s = (Ok out, s') /\ step_ok (PRegister n) out s s'.
Proof.
  intros Hwf Hc. exists None. cbn [pool_step].
  destruct (Register_size n (ps_heap s) (ps_registry s)) as [[region h'] r'] eqn:E.
  unfold Register_size in E. eexists. split; [done|]. pose proof (pwf_registry _ Hwf) as Hr.
  destruct (Register_spec _ _ _ _ _ _ Hr Hc E) as (_ & _ & Hh & Hid & Hak & Hm & Hfresh & _).
  pose proof (registry_wf_Register _ _ _ _ _ _ Hr Hc E) as Hr'.
  constructor; simpl; try done; try lia; [|apply as_register|unfold pool_known; simpl; lia].
  destruct Hwf as [_ Hpos Hnd Hkn Hrg Hfs]. constructor; simpl; auto.
  - intros k Hk. destruct (Hrg k Hk) as [x Hx]. rewrite Hm, lookup_insert_ne by congruence. eauto.
  - intros k Hk. destruct (Hfs k Hk) as (x & Hx & Hxs). exists x. simpl.
    rewrite Hm, lookup_insert_ne by congruence. split; [done|].
    change (mr_size x h' = pool_buffer_size s). rewrite <- Hxs.
    apply (wf_regions _ _ Hr) in Hx as [_ _ _ _ _ Hlive]. subst h'. unfold mr_size, ptr_size.
    destruct (mr_storage x); [|done]. rewrite deref_make_shared_live; [done|apply Hr|done].
Qed.

Lemma pool_step_ok op s :
  pool_wf s -> counters_ok (ps_registry s) ->
  exists out s', pool_step op s = (Ok out, s') /\ step_ok op out s s'.
Proof.
  destruct op; [apply acquire_ok|intros; by apply release_ok|intros; by apply resize_ok|apply register_ok].
Qed.

(** A whole history. *)
Lemma pool_run_ok ops s :
  pool_wf s -> counters_room (ps_registry s) (Z.of_nat (length ops)) ->
  exists outs s', pool_run ops s = (outs, s') /\ pool_wf s' /\
    abs_run (pool_buffer_size s) ops outs (abstract s) (abstract s') /\
    pool_known s' = Nat.max (pool_known s) (pool_peak ops s).
Proof.
  revert s. induction ops as [|op ops IH]; intros s Hwf [Hr1 Hr2].
  { exists [], s. pose proof (pool_known_split s Hwf). split_and!; [done|done|constructor|]. simpl. lia. }
  cbn [length] in Hr1, Hr2. rewrite Nat2Z.inj_succ in Hr1, Hr2.
  destruct (pool_step_ok op s Hwf ltac:(split; lia)) as (out & s1 & E & [Hwf1 Hcfg Habs Hid Hak Hkn]).
  destruct (IH s1 Hwf1 ltac:(split; lia)) as (outs & s' & E' & Hwf' & Habs' & Hkn').
  exists (Ok out :: outs), s'. cbn [pool_run pool_peak]. rewrite E, E'. simpl. split_and!; [done|done| |].
  - econstructor; [exact Habs|]. replace (pool_buffer_size s) with (pool_buffer_size s1)
      by (unfold pool_buffer_size; by rewrite Hcfg). exact Habs'.
  - assert (size (outstanding s1) <= pool_peak ops s1) by (destruct ops; simpl; lia).
    pose proof (pool_known_split s Hwf). lia.
Qed.
End lemmas.

(** The new pool a history starts from. *)
Lemma new_pool_ready `{ArgOrder} config h r (n : nat) :
  registry_wf h r -> (0 <= bp_buffers config)%Z -> (0 <= bp_buffer_size config)%Z ->
  counters_room r (bp_buffers config + Z.of_nat n) ->
  let s := new_BufferPool config h r in
  pool_wf s /\ counters_room (ps_registry s) (Z.of_nat n) /\ outstanding s = ∅ /\
  length (bp_free_keys (ps_pool s)) = Z.to_nat (bp_buffers config) /\
  pool_buffer_size s = bp_buffer_size config.
Proof.
  intros Hr Hn Hsz [Hc1 Hc2] s.
  destruct (construct_buffers_spec (Z.to_nat (bp_buffers config))
    (mkPoolState h r (mkBufferPool config [] ∅)) (pool_wf_init _ _ _ Hr Hsz))
    as (H1 & H2 & H3 & _ & H5 & H6 & H7).
  { simpl. rewrite Z2Nat.id by done. split; lia. }
  rewrite Z2Nat.id in * by done. fold (new_BufferPool config h r) in *. fold s in H1, H2, H3, H5, H6, H7.
  simpl in *. split_and!; [done|split; lia|done| |unfold pool_buffer_size; by rewrite H5].
  unfold Available, sizeZ in H2. simpl in H2. lia.
Qed.

(** ** Properties *)

(** C9. Refinement: over any history of acquires and releases by the pool's users, with
    holders that resize their buffers and others that register regions in the same
    registry, a new pool behaves as the abstract pool.  No operation throws; an acquire
    hands out the buffer that has been available longest and a new one only when none is
    available, always one that nobody holds and always of the configured size; a release
    makes a held buffer available again and ignores every other key. *)
Theorem pool_refines `{ArgOrder} (config : BufferPoolConfig) (h : Heap) (r : MemoryRegistry)
    (ops : list pool_op) :
  registry_wf h r -> (0 <= bp_buffers config)%Z -> (0 <= bp_buffer_size config)%Z ->
  counters_room r (bp_buffers config + Z.of_nat (length ops)) ->
  let s := new_BufferPool config h r in
  exists outs s', pool_run ops s = (outs, s') /\
    abs_run (bp_buffer_size config) ops outs (mkAbsPool (bp_free_keys (ps_pool s)) ∅) (abstract s') /\
    length (bp_free_keys (ps_pool s)) = Z.to_nat (bp_buffers config).
Proof.
  intros Hr Hn Hsz Hc s. destruct (new_pool_ready config h r _ Hr Hn Hsz Hc) as (H1 & H2 & H3 & H4 & H5).
  fold s in H1, H2, H3, H4, H5. destruct (pool_run_ok ops s H1 H2) as (outs & s' & E & _ & Habs & _).
  exists outs, s'. split_and!; [done| |done]. unfold abstract in Habs at 1. by rewrite H3, H5 in Habs.
Qed.

(** C30. The pool grows only as far as it must: after any such history it has registered
    exactly as many buffers as the larger of the configured number and the largest number
    that were handed out at once. *)
Theorem pool_grows_to_peak `{ArgOrder} (config : BufferPoolConfig) (h : Heap)
    (r : MemoryRegistry) (ops : list pool_op) :
  registry_wf h r -> (0 <= bp_buffers config)%Z -> (0 <= bp_buffer_size config)%Z ->
  counters_room r (bp_buffers config + Z.of_nat (length ops)) ->
  let s := new_BufferPool config h r in
  size (bp_known_keys (ps_pool (pool_run ops s).2)) =
    Nat.max (Z.to_nat (bp_buffers config)) (pool_peak ops s).
Proof.
  intros Hr Hn Hsz Hc s. destruct (new_pool_ready config h r _ Hr Hn Hsz Hc) as (H1 & H2 & H3 & H4 & H5).
  fold s in H1, H2, H3, H4, H5. destruct (pool_run_ok ops s H1 H2) as (outs & s' & E & _ & _ & Hk).
  rewrite E. simpl. unfold pool_known in Hk at 1. rewrite Hk.
  by rewrite (pool_known_split s H1), H3, H4, size_empty, Nat.add_0_r.
Qed.

(** ** Witnesses *)

(** One buffer; two are acquired, the first is grown by its holder, released twice and
    acquired again. *)
Definition pool_history : list pool_op :=
  [PAcquire; PAcquire; PResize "mr-1" 9; PRegister 3; PRelease "mr-1"; PRelease "mr-1"; PAcquire].

Example pool_history_outs :
  (@pool_run true pool_history
     (@new_BufferPool true (mkBufferPoolConfig 1 4) empty_heap new_MemoryRegistry)).1 =
    [Ok (Some ("mr-1", 4%Z)); Ok (Some ("mr-2", 4%Z)); Ok None; Ok None; Ok None; Ok None;
     Ok (Some ("mr-1", 4%Z))].
Proof. vm_compute. reflexivity. Qed.

Lemma pool_refines_witness :
  exists outs s',
    @pool_run true pool_history
      (@new_BufferPool true (mkBufferPoolConfig 1 4) empty_heap new_MemoryRegistry) = (outs, s').
Proof.
  destruct (@pool_refines true (mkBufferPoolConfig 1 4) empty_heap new_MemoryRegistry pool_history
    (registry_wf_new _ heap_wf_empty)) as (outs & s' & H1 & _);
    [simpl; lia|simpl; lia|split; vm_compute; reflexivity|].
  exists outs, s'. exact H1.
Defined.

Lemma pool_grows_to_peak_witness :
  size (bp_known_keys (ps_pool (@pool_run true pool_history
    (@new_BufferPool true (mkBufferPoolConfig 1 4) empty_heap new_MemoryRegistry)).2)) =
  Nat.max 1 (@pool_peak true pool_history
    (@new_BufferPool true (mkBufferPoolConfig 1 4) empty_heap new_MemoryRegistry)).
Proof.
  apply (@pool_grows_to_peak true (mkBufferPoolConfig 1 4) empty_heap new_MemoryRegistry pool_history
    (registry_wf_new _ heap_wf_empty)); [simpl; lia|simpl; lia|split; vm_compute; reflexivity].
Defined.
