(* ===== verification/QueuePair.v ===== *)
(** * rdma/include/rdma/queue_pair.h, rdma/src/queue_pair.cpp

    The queue pair state machine, against the transitions documented in
    rdma/docs/qp_state_machine.md. *)

From S2P Require Import Prelude CppString Types.

Record QueuePairConfig := mkQueuePairConfig {
  qpc_local_node : string;
  qpc_remote_node : string;
  qpc_max_send_wr : Z;                (* std::uint32_t *)
  qpc_max_recv_wr : Z;                (* std::uint32_t *)
}.

Record QueuePair := mkQueuePair {
  qp_config : QueuePairConfig;
  qp_state : QueuePairState;
}.

Definition new_QueuePair (config : QueuePairConfig) : QueuePair := mkQueuePair config kReset.

(** The [switch] on the current state, then the check that lets every state go
    to [kError]; returns the function's result and the new object. *)
Definition TransitionTo (next_state : QueuePairState) (qp : QueuePair) : bool * QueuePair :=
  let moved := (true, mkQueuePair (qp_config qp) next_state) in
  let after_switch :=
    if decide (next_state = kError) then moved else (false, qp) in
  match qp_state qp with
  | kReset => if decide (next_state = kInit) then moved else after_switch
  | kInit => if decide (next_state = kReadyToReceive) then moved else after_switch
  | kReadyToReceive => if decide (next_state = kReadyToSend) then moved else after_switch
  | kReadyToSend => if decide (next_state = kError) then moved else after_switch
  | kError => after_switch
  end.

(** [if (state_ == from && !TransitionTo(to)) return false;]: whether to go on,
    and the object afterwards. *)
Definition advance (from to : QueuePairState) (qp : QueuePair) : bool * QueuePair :=
  if decide (qp_state qp = from) then TransitionTo to qp else (true, qp).

Definition BringUp (qp : QueuePair) : bool * QueuePair :=
  let '(ok1, qp1) := advance kReset kInit qp in
  if negb ok1 then (false, qp1) else
  let '(ok2, qp2) := advance kInit kReadyToReceive qp1 in
  if negb ok2 then (false, qp2) else
  let '(ok3, qp3) := advance kReadyToReceive kReadyToSend qp2 in
  if negb ok3 then (false, qp3) else
  (bool_decide (qp_state qp3 = kReadyToSend), qp3).

Definition IsReadyToSend (qp : QueuePair) : bool :=
  bool_decide (qp_state qp = kReadyToSend).

Definition IsReadyToReceive (qp : QueuePair) : bool :=
  bool_decide (qp_state qp = kReadyToReceive) || bool_decide (qp_state qp = kReadyToSend).

Definition Describe (qp : QueuePair) : string :=
  qpc_local_node (qp_config qp) +:+ "->" +:+ qpc_remote_node (qp_config qp) +:+ " (" +:+
  ToString_QueuePairState (qp_state qp) +:+ ")".

(** ** Specification *)

(** The transitions the documentation allows. *)
Inductive doc_transition : QueuePairState -> QueuePairState -> Prop :=
| doc_init : doc_transition kReset kInit
| doc_rtr : doc_transition kInit kReadyToReceive
| doc_rts : doc_transition kReadyToReceive kReadyToSend
| doc_error s : doc_transition s kError.

(** The calls a client can make on a queue pair. *)
Inductive qp_call :=
| call_TransitionTo (next_state : QueuePairState)
| call_BringUp.

Definition qp_run (c : qp_call) (qp : QueuePair) : bool * QueuePair :=
  match c with
  | call_TransitionTo next_state => TransitionTo next_state qp
  | call_BringUp => BringUp qp
  end.

Definition qp_runs (calls : list qp_call) (qp : QueuePair) : QueuePair :=
  fold_left (fun q c => (qp_run c q).2) calls qp.

(** The position of a state in the life of a queue pair. *)
Definition qp_rank (s : QueuePairState) : nat :=
  match s with
  | kReset => 0
  | kInit => 1
  | kReadyToReceive => 2
  | kReadyToSend => 3
  | kError => 4
  end.

(** ** Lemmas *)

Lemma TransitionTo_config next qp : qp_config (TransitionTo next qp).2 = qp_config qp.
Proof. destruct qp as [c []], next; done. Qed.

Lemma BringUp_spec qp :
  BringUp qp =
    if decide (qp_state qp = kError) then (false, qp)
    else (true, mkQueuePair (qp_config qp) kReadyToSend).
Proof. destruct qp as [c []]; done. Qed.

Lemma qp_run_config c qp : qp_config (qp_run c qp).2 = qp_config qp.
Proof. destruct c as [next|]; destruct qp as [cfg []]; try destruct next; done. Qed.

Lemma qp_run_rank c qp : qp_rank (qp_state qp) <= qp_rank (qp_state (qp_run c qp).2).
Proof. destruct c as [next|]; destruct qp as [cfg []]; try destruct next; simpl; lia. Qed.

Lemma qp_runs_rank calls qp : qp_rank (qp_state qp) <= qp_rank (qp_state (qp_runs calls qp)).
Proof.
  revert qp. induction calls as [|c calls IH]; intros qp; [done|].
  pose proof (qp_run_rank c qp). pose proof (IH (qp_run c qp).2). simpl in *. lia.
Qed.

Lemma qp_runs_config calls qp : qp_config (qp_runs calls qp) = qp_config qp.
Proof.
  revert qp. induction calls as [|c calls IH]; intros qp; [done|].
  simpl. unfold qp_runs in IH. by rewrite IH, qp_run_config.
Qed.

Lemma IsReadyToSend_spec qp : IsReadyToSend qp = true <-> qp_state qp = kReadyToSend.
Proof. apply bool_decide_eq_true. Qed.

(** ** Properties *)

(** C26. [TransitionTo] implements the documented state machine: it returns true
    exactly for the documented transitions, then the state is the requested one;
    otherwise the queue pair is unchanged.  The configuration never changes. *)
Theorem TransitionTo_refines_doc (next : QueuePairState) (qp : QueuePair) :
  ((TransitionTo next qp).1 = true <-> doc_transition (qp_state qp) next) /\
  (TransitionTo next qp).2 =
    (if (TransitionTo next qp).1 then mkQueuePair (qp_config qp) next else qp).
Proof.
  destruct qp as [c []], next; simpl; split; try done;
    split; intros H; try done; try constructor; inv H.
Qed.

(** Over any sequence of [TransitionTo] and [BringUp] calls the queue pair
    never goes back to an earlier state and keeps its configuration; once in
    [kError] it stays there and is never ready to send. *)
Theorem QueuePair_never_goes_back (before after : list qp_call) (qp : QueuePair) :
  let q1 := qp_runs before qp in
  let q2 := qp_runs (before ++ after) qp in
  qp_rank (qp_state q1) <= qp_rank (qp_state q2) /\
  qp_config q2 = qp_config qp /\
  (qp_state q1 = kError -> qp_state q2 = kError /\ IsReadyToSend q2 = false).
Proof.
  cbv zeta. rewrite qp_runs_config.
  assert (qp_runs (before ++ after) qp = qp_runs after (qp_runs before qp)) as ->
    by (unfold qp_runs; by rewrite fold_left_app).
  pose proof (qp_runs_rank after (qp_runs before qp)) as Hr.
  split_and!; [done|done|]. intros E. rewrite E in Hr.
  unfold IsReadyToSend. destruct (qp_state (qp_runs after _)); simpl in Hr; try lia. done.
Qed.

(** [BringUp] succeeds from every state but [kError], ending ready to send
    and ready to receive; from [kError] it fails and changes nothing. *)
Theorem BringUp_correct (qp : QueuePair) :
  (qp_state qp <> kError ->
     (BringUp qp).1 = true /\ IsReadyToSend (BringUp qp).2 = true /\
     IsReadyToReceive (BringUp qp).2 = true /\ qp_config (BringUp qp).2 = qp_config qp) /\
  (qp_state qp = kError -> BringUp qp = (false, qp)).
Proof.
  rewrite BringUp_spec. split; intros H; [rewrite decide_False by done|rewrite decide_True by done]; done.
Qed.

(** Witness: a queue pair that is brought up and then fails. *)
Lemma QueuePair_never_goes_back_witness :
  let qp := new_QueuePair (mkQueuePairConfig "a" "b" 128 128) in
  let calls := [call_BringUp; call_TransitionTo kError] in
  qp_state (qp_runs calls qp) = kError /\
  qp_state (qp_runs (calls ++ [call_BringUp]) qp) = kError.
Proof.
  split; [reflexivity|].
  apply (QueuePair_never_goes_back [call_BringUp; call_TransitionTo kError] [call_BringUp]
    (new_QueuePair (mkQueuePairConfig "a" "b" 128 128))). reflexivity.
Defined.

Lemma BringUp_correct_witness :
  (BringUp (new_QueuePair (mkQueuePairConfig "a" "b" 128 128))).1 = true.
Proof. apply (BringUp_correct (new_QueuePair (mkQueuePairConfig "a" "b" 128 128))). done. Defined.
