(* ===== verification/Connection.v ===== *)
(** * rdma/connection.h, rdma/src/connection.cpp, rdma/handshake.h, rdma/src/handshake.cpp

    A connection owns a queue pair and a flag; the handshake checks that both
    ends are named. *)

From S2P Require Import Prelude CppString Types QueuePair.

Record Connection := mkConnection {
  conn_queue_pair : QueuePair;
  conn_established : bool;
}.

Definition new_Connection (queue_pair : QueuePair) : Connection :=
  mkConnection queue_pair false.

Definition Establish (c : Connection) : bool * Connection :=
  if conn_established c then (true, c)
  else
    let '(up, qp) := BringUp (conn_queue_pair c) in
    (up, mkConnection qp up).

Definition Fail (c : Connection) : bool * Connection :=
  let '(moved, qp) := TransitionTo kError (conn_queue_pair c) in
  (moved, mkConnection qp false).

Definition channel_id (c : Connection) : string :=
  qpc_local_node (qp_config (conn_queue_pair c)) +:+ "->" +:+
  qpc_remote_node (qp_config (conn_queue_pair c)).

(** [queue_pair()] hands out a mutable reference: a call through it. *)
Definition through_queue_pair (call : qp_call) (c : Connection) : bool * Connection :=
  let '(ok, qp) := qp_run call (conn_queue_pair c) in
  (ok, mkConnection qp (conn_established c)).

(** ** Handshake *)

Record HandshakeRequest := mkHandshakeRequest {
  hs_initiator : string;
  hs_responder : string;
}.

Record HandshakeResponse := mkHandshakeResponse {
  hs_accepted : bool;
  hs_detail : string;
}.

Definition Build (config : QueuePairConfig) : HandshakeRequest :=
  mkHandshakeRequest (qpc_local_node config) (qpc_remote_node config).

Definition Validate (request : HandshakeRequest) : HandshakeResponse :=
  if decide (hs_initiator request = "") then
    mkHandshakeResponse false "handshake initiator is empty"
  else if decide (hs_responder request = "") then
    mkHandshakeResponse false "handshake responder is empty"
  else mkHandshakeResponse true "handshake accepted".

(** ** Invariant *)

(** The flag says that the queue pair is ready to send. *)
Definition conn_wf (c : Connection) : Prop :=
  conn_established c = IsReadyToSend (conn_queue_pair c).

(** The connection's own operations. *)
Inductive conn_call := call_Establish | call_Fail.

Definition conn_run (k : conn_call) (c : Connection) : bool * Connection :=
  match k with
  | call_Establish => Establish c
  | call_Fail => Fail c
  end.

Definition conn_runs (calls : list conn_call) (c : Connection) : Connection :=
  fold_left (fun c k => (conn_run k c).2) calls c.

(** ** Lemmas *)

Lemma conn_wf_new config : conn_wf (new_Connection (new_QueuePair config)).
Proof. done. Qed.

Lemma Establish_spec c :
  conn_wf c ->
  Establish c =
    if decide (qp_state (conn_queue_pair c) = kError) then (false, c)
    else (true, mkConnection (mkQueuePair (qp_config (conn_queue_pair c)) kReadyToSend) true).
Proof.
  unfold conn_wf. destruct c as [[cfg []] []]; intros H; try discriminate H; reflexivity.
Qed.

Lemma conn_wf_run k c : conn_wf c -> conn_wf (conn_run k c).2.
Proof.
  unfold conn_wf. destruct k; destruct c as [[cfg []] []]; intros H; try discriminate H; reflexivity.
Qed.

Lemma conn_run_config k c :
  qp_config (conn_queue_pair (conn_run k c).2) = qp_config (conn_queue_pair c).
Proof. destruct k; destruct c as [[cfg []] []]; reflexivity. Qed.

(** A connection freshly made and established is ready to send. *)
Lemma Establish_new config :
  Establish (new_Connection (new_QueuePair config)) =
    (true, mkConnection (mkQueuePair config kReadyToSend) true).
Proof. reflexivity. Qed.

Lemma Validate_accepted request :
  hs_accepted (Validate request) = true <->
  hs_initiator request <> "" /\ hs_responder request <> "".
Proof. unfold Validate. repeat case_decide; simpl; naive_solver. Qed.

(** ** Properties *)

(** C36. Over any sequence of [Establish] and [Fail] calls on a new connection,
    [established()] says exactly whether the queue pair is ready to send; after
    the last [Fail] no [Establish] succeeds. *)
Theorem Connection_flag_correct (config : QueuePairConfig) (calls : list conn_call) :
  let c := conn_runs calls (new_Connection (new_QueuePair config)) in
  conn_established c = IsReadyToSend (conn_queue_pair c) /\
  (call_Fail ∈ calls -> Establish c = (false, c)).
Proof.
  cbv zeta. assert (Hgen : forall calls c, conn_wf c ->
    conn_wf (conn_runs calls c) /\
    (call_Fail ∈ calls \/ qp_state (conn_queue_pair c) = kError ->
     qp_state (conn_queue_pair (conn_runs calls c)) = kError)).
  { clear. induction calls as [|k calls IH]; intros c Hc; simpl.
    - split; [done|]. intros [?%not_elem_of_nil|?]; done.
    - destruct (IH (conn_run k c).2 (conn_wf_run k c Hc)) as [H1 H2]. split; [done|].
      intros H. apply H2. destruct k.
      + destruct H as [H|H]; [left; by apply elem_of_cons in H as [?|?]|right].
        simpl. rewrite Establish_spec by done. by rewrite decide_True.
      + right. destruct c as [[cfg []] []]; reflexivity. }
  destruct (Hgen calls _ (conn_wf_new config)) as [H1 H2]. split; [done|].
  intros Hin. rewrite Establish_spec by done. by rewrite decide_True by auto.
Qed.

(** The reference [queue_pair()] bypasses the flag: once a ready connection's
    queue pair is put into [kError] through it, [established()] still answers
    true, and [Establish] keeps answering true without repairing anything. *)
Theorem Connection_flag_stale (c : Connection) :
  conn_established c = true ->
  let c' := (through_queue_pair (call_TransitionTo kError) c).2 in
  conn_established c' = true /\ IsReadyToSend (conn_queue_pair c') = false /\
  Establish c' = (true, c').
Proof. destruct c as [[cfg []] []]; intros H; try discriminate H; done. Qed.

(** Witnesses. *)
Lemma Connection_flag_correct_witness :
  let c := conn_runs [call_Establish; call_Fail]
             (new_Connection (new_QueuePair (mkQueuePairConfig "a" "b" 1 1))) in
  Establish c = (false, c).
Proof.
  apply (Connection_flag_correct (mkQueuePairConfig "a" "b" 1 1) [call_Establish; call_Fail]).
  apply elem_of_cons. right. apply elem_of_cons. by left.
Defined.

Lemma Connection_flag_stale_witness :
  let c := (Establish (new_Connection (new_QueuePair (mkQueuePairConfig "a" "b" 1 1)))).2 in
  IsReadyToSend (conn_queue_pair (through_queue_pair (call_TransitionTo kError) c).2) = false.
Proof.
  apply (Connection_flag_stale
    (Establish (new_Connection (new_QueuePair (mkQueuePairConfig "a" "b" 1 1)))).2).
  reflexivity.
Defined.
