(* ===== verification/Completion.v ===== *)
(** * rdma/src/event_channel.cpp, rdma/src/completion_queue.cpp and their headers

    A completion queue keeps the latest [depth] events and notifies the event
    channels bound to it.  Channels are shared objects: the queue holds their
    addresses, and a store maps addresses to channels.

    A blocking call ([Wait], [Poll]) returns when its predicate holds or when the
    timeout expires; [wait_for] with a predicate returns the predicate's value at
    that moment, so the return is one atomic step on the state it finds. *)

From S2P Require Import Prelude CppString Types BoundedFifo.

(** ** EventChannel *)

Record EventChannel := mkEventChannel { ec_signaled : bool }.

Definition new_EventChannel : EventChannel := mkEventChannel false.

Definition Notify (c : EventChannel) : EventChannel := mkEventChannel true.

Definition Wait (c : EventChannel) : bool * EventChannel :=
  if ec_signaled c then (true, mkEventChannel false) else (false, c).

Definition Reset (c : EventChannel) : EventChannel := mkEventChannel false.

(** The channels of the program by address. *)
Abbreviation Channels := (gmap nat EventChannel).

(** ** CompletionQueue *)

Record CompletionEvent := mkCompletionEvent {
  ce_work_request_id : WorkRequestId;
  ce_status : CompletionStatus;
  ce_operation : OperationType;
  ce_source : string;
  ce_destination : string;
  ce_detail : string;
  ce_completed_at : TimePoint;
  ce_bytes : Z;
}.

Record CompletionQueue := mkCompletionQueue {
  cq_config : CompletionQueueConfig;
  cq_queue : list CompletionEvent;    (* front first *)
  cq_channels : list nat;             (* EventChannel*, never null *)
}.

Definition new_CompletionQueue (config : CompletionQueueConfig) : CompletionQueue :=
  mkCompletionQueue config [] [].

Definition Bind (channel : nat) (cq : CompletionQueue) : CompletionQueue :=
  if bool_decide (channel ∈ cq_channels cq) then cq
  else mkCompletionQueue (cq_config cq) (cq_queue cq) (cq_channels cq ++ [channel]).

(** The critical section of [Push]. *)
Definition Push_locked (event : CompletionEvent) (cq : CompletionQueue) : CompletionQueue :=
  let depth := cq_depth (cq_config cq) in
  let queue1 :=
    if (0 <? depth)%Z && (depth <=? sizeZ (cq_queue cq))%Z
    then tail (cq_queue cq) else cq_queue cq in
  mkCompletionQueue (cq_config cq) (queue1 ++ [event]) (cq_channels cq).

(** [for (EventChannel* channel : channels) channel->Notify();]. *)
Definition notify_all (channels : list nat) (store : Channels) : Channels :=
  fold_left (fun m channel => alter Notify channel m) channels store.

Definition Push (event : CompletionEvent) (cq : CompletionQueue) (store : Channels)
    : CompletionQueue * Channels :=
  (Push_locked event cq, notify_all (cq_channels cq) store).

Definition Poll (cq : CompletionQueue) : option CompletionEvent * CompletionQueue :=
  match cq_queue cq with
  | [] => (None, cq)
  | event :: rest => (Some event, mkCompletionQueue (cq_config cq) rest (cq_channels cq))
  end.

Definition Depth (cq : CompletionQueue) : Z := sizeZ (cq_queue cq).

Definition Capacity (cq : CompletionQueue) : Z := cq_depth (cq_config cq).

(** ** Lemmas *)

Lemma notify_all_lookup channels store a :
  notify_all channels store !! a =
    if bool_decide (a ∈ channels) then Notify <$> store !! a else store !! a.
Proof.
  unfold notify_all. revert store. induction channels as [|c channels IH]; intros store; [done|].
  simpl. rewrite IH. destruct (decide (a = c)) as [->|Hne].
  - rewrite lookup_alter_eq, (bool_decide_eq_true_2 (c ∈ c :: channels)) by set_solver.
    case_bool_decide; [|done]. by destruct (store !! c).
  - rewrite lookup_alter_ne by done. by rewrite (bool_decide_ext (a ∈ c :: channels) (a ∈ channels)) by set_solver.
Qed.

#[refine, export] Instance CompletionQueue_fifo : DropOldestFifo CompletionQueue CompletionEvent := {
  df_capacity := Capacity;
  df_contents := cq_queue;
  df_put := Push_locked;
  df_take := Poll;
}.
Proof.
  - done.
  - done.
  - intros [c [|] ch]; done.
  - intros [c [|] ch]; done.
  - intros [c [|] ch]; done.
Defined.

Lemma Push_locked_config event cq :
  cq_config (Push_locked event cq) = cq_config cq /\
  cq_channels (Push_locked event cq) = cq_channels cq.
Proof. done. Qed.

Lemma NoDup_Bind channel cq : NoDup (cq_channels cq) -> NoDup (cq_channels (Bind channel cq)).
Proof.
  intros H. unfold Bind. case_bool_decide; [done|]. simpl. apply NoDup_app.
  split_and!; [done| |apply NoDup_singleton]. intros x Hx ->%list_elem_of_singleton. done.
Qed.

(** ** Properties *)

(** Over any interleaving of [Push] and [Poll] on a new completion queue the
    events leave in the order they were pushed, the polled ones among them; the
    queue holds what was pushed last and never more than a positive [depth]
    events; with [depth] 0, or while no more than [depth] events are pushed,
    polling misses none. *)
Theorem CompletionQueue_history (config : CompletionQueueConfig)
    (ops : list (fifo_op CompletionEvent)) :
  let polled := (fifo_run ops (new_CompletionQueue config)).1 in
  let held := cq_queue (fifo_run ops (new_CompletionQueue config)).2 in
  (exists gone, fifo_puts ops = gone ++ held /\ polled `sublist_of` gone) /\
  ((0 < cq_depth config)%Z -> (sizeZ held <= cq_depth config)%Z) /\
  (cq_depth config = 0%Z \/ (sizeZ (fifo_puts ops) <= cq_depth config)%Z ->
   fifo_puts ops = polled ++ held).
Proof.
  cbv zeta. split_and!.
  - exact (fifo_run_order ops (new_CompletionQueue config)).
  - intros Hd. exact (fifo_run_bound ops (new_CompletionQueue config) Hd (Z.lt_le_incl _ _ Hd)).
  - intros Hd. exact (fifo_run_lossless ops (new_CompletionQueue config) Hd).
Qed.

(** After [Push] a [Wait] on any bound channel returns true at once and
    consumes the signal; channels that are not bound are untouched, and [Bind]
    never binds a channel twice. *)
Theorem Push_signals_bound_channels (event : CompletionEvent) (cq : CompletionQueue)
    (store : Channels) (a : nat) (c : EventChannel) :
  NoDup (cq_channels cq) -> store !! a = Some c ->
  NoDup (cq_channels (Bind a cq)) /\
  (let '(_, store') := Push event (Bind a cq) store in
   exists c', store' !! a = Some c' /\ Wait c' = (true, new_EventChannel)) /\
  (forall b, b ∉ cq_channels cq -> b <> a -> (Push event (Bind a cq) store).2 !! b = store !! b).
Proof.
  intros Hnd Ha. split_and!; [by apply NoDup_Bind| |].
  - simpl. rewrite notify_all_lookup. rewrite bool_decide_eq_true_2.
    + rewrite Ha. simpl. by eexists.
    + unfold Bind. case_bool_decide; simpl; set_solver.
  - intros b Hb Hne. simpl. rewrite notify_all_lookup, bool_decide_eq_false_2; [done|].
    unfold Bind. case_bool_decide; simpl; set_solver.
Qed.

(** Witnesses. *)
Definition sample_event (n : Z) : CompletionEvent :=
  mkCompletionEvent n cs_kSuccess op_kSend "a" "b" "" 0 0.

(** Three events through a queue of depth two: the first one is lost. *)
Lemma CompletionQueue_history_witness :
  let ops := [FPut (sample_event 1); FPut (sample_event 2); FPut (sample_event 3); FTake] in
  (sizeZ (cq_queue (fifo_run ops (new_CompletionQueue (mkCompletionQueueConfig 2))).2) <= 2)%Z.
Proof.
  apply (CompletionQueue_history (mkCompletionQueueConfig 2)
    [FPut (sample_event 1); FPut (sample_event 2); FPut (sample_event 3); FTake]). done.
Defined.

Lemma Push_signals_bound_channels_witness :
  let cq := new_CompletionQueue (mkCompletionQueueConfig 4) in
  NoDup (cq_channels (Bind 7 cq)).
Proof.
  apply (Push_signals_bound_channels (sample_event 1) (new_CompletionQueue (mkCompletionQueueConfig 4))
    {[7 := new_EventChannel]} 7 new_EventChannel); [constructor | reflexivity].
Defined.
