(* ===== verification/Metrics.v ===== *)
(** * rdma/include/rdma/metrics.h, rdma/src/metrics.cpp

    Seven atomic 64-bit counters.  Each [fetch_add] is one atomic addition modulo
    2^64, so a history of records has one result whatever its interleaving. *)

From S2P Require Import Prelude CppString Types Completion.

(** [Metrics] and [MetricsSnapshot] have the same seven fields. *)
Record MetricsSnapshot := mkMetricsSnapshot {
  mt_sends : Z;
  mt_writes : Z;
  mt_receives : Z;
  mt_completions : Z;
  mt_failed_completions : Z;
  mt_sent_bytes : Z;
  mt_received_bytes : Z;
}.

Definition new_Metrics : MetricsSnapshot := mkMetricsSnapshot 0 0 0 0 0 0 0.

Definition RecordSend (bytes : Z) (m : MetricsSnapshot) : MetricsSnapshot :=
  let '(mkMetricsSnapshot sends writes receives completions failed sent received) := m in
  mkMetricsSnapshot (u64 (sends + 1)) writes receives completions failed
    (u64 (sent + bytes)) received.

Definition RecordWrite (bytes : Z) (m : MetricsSnapshot) : MetricsSnapshot :=
  let '(mkMetricsSnapshot sends writes receives completions failed sent received) := m in
  mkMetricsSnapshot sends (u64 (writes + 1)) receives completions failed
    (u64 (sent + bytes)) received.

Definition RecordReceive (bytes : Z) (m : MetricsSnapshot) : MetricsSnapshot :=
  let '(mkMetricsSnapshot sends writes receives completions failed sent received) := m in
  mkMetricsSnapshot sends writes (u64 (receives + 1)) completions failed sent
    (u64 (received + bytes)).

Definition RecordCompletion (event : CompletionEvent) (m : MetricsSnapshot) : MetricsSnapshot :=
  let '(mkMetricsSnapshot sends writes receives completions failed sent received) := m in
  mkMetricsSnapshot sends writes receives (u64 (completions + 1))
    (if decide (ce_status event = cs_kSuccess) then failed else u64 (failed + 1))
    sent received.

Definition Snapshot (m : MetricsSnapshot) : MetricsSnapshot :=
  mkMetricsSnapshot (mt_sends m) (mt_writes m) (mt_receives m) (mt_completions m)
    (mt_failed_completions m) (mt_sent_bytes m) (mt_received_bytes m).

(** ** Histories *)

Inductive metrics_op :=
| MSend (bytes : Z)
| MWrite (bytes : Z)
| MReceive (bytes : Z)
| MCompletion (event : CompletionEvent).

Definition metrics_step (m : MetricsSnapshot) (op : metrics_op) : MetricsSnapshot :=
  match op with
  | MSend bytes => RecordSend bytes m
  | MWrite bytes => RecordWrite bytes m
  | MReceive bytes => RecordReceive bytes m
  | MCompletion event => RecordCompletion event m
  end.

(** The exact totals of a history. *)
Fixpoint total (f : metrics_op -> Z) (ops : list metrics_op) : Z :=
  match ops with
  | [] => 0
  | op :: ops' => f op + total f ops'
  end.

Definition op_send (op : metrics_op) : Z := match op with MSend _ => 1 | _ => 0 end.
Definition op_write (op : metrics_op) : Z := match op with MWrite _ => 1 | _ => 0 end.
Definition op_receive (op : metrics_op) : Z := match op with MReceive _ => 1 | _ => 0 end.
Definition op_completion (op : metrics_op) : Z := match op with MCompletion _ => 1 | _ => 0 end.
Definition op_failed (op : metrics_op) : Z :=
  match op with
  | MCompletion e => if decide (ce_status e = cs_kSuccess) then 0 else 1
  | _ => 0
  end.
Definition op_sent_bytes (op : metrics_op) : Z :=
  match op with MSend b | MWrite b => b | _ => 0 end.
Definition op_received_bytes (op : metrics_op) : Z :=
  match op with MReceive b => b | _ => 0 end.

(** ** Lemmas *)

Lemma metrics_run_from ops sends writes receives completions failed sent received :
  fold_left metrics_step ops
    (mkMetricsSnapshot (u64 sends) (u64 writes) (u64 receives) (u64 completions) (u64 failed)
       (u64 sent) (u64 received))
  = mkMetricsSnapshot (u64 (sends + total op_send ops)) (u64 (writes + total op_write ops))
      (u64 (receives + total op_receive ops)) (u64 (completions + total op_completion ops))
      (u64 (failed + total op_failed ops)) (u64 (sent + total op_sent_bytes ops))
      (u64 (received + total op_received_bytes ops)).
Proof.
  revert sends writes receives completions failed sent received.
  induction ops as [|op ops IH]; intros; simpl.
  - by rewrite !Z.add_0_r.
  - destruct op as [b|b|b|e]; simpl; rewrite ?u64_add_l.
    all: try (case_decide; rewrite ?decide_True, ?decide_False by done).
    all: rewrite IH; f_equal; f_equal; lia.
Qed.

(** ** Properties *)

(** After any history of records the snapshot holds the exact totals modulo
    2^64: sends, writes, receives and completions counted once each, failures
    only for completions that are not successes, and the bytes of sends and
    writes added up separately from those of receives. *)
Theorem metrics_totals (ops : list metrics_op) :
  Snapshot (fold_left metrics_step ops new_Metrics) =
    mkMetricsSnapshot (u64 (total op_send ops)) (u64 (total op_write ops))
      (u64 (total op_receive ops)) (u64 (total op_completion ops))
      (u64 (total op_failed ops)) (u64 (total op_sent_bytes ops))
      (u64 (total op_received_bytes ops)).
Proof.
  change new_Metrics with
    (mkMetricsSnapshot (u64 0) (u64 0) (u64 0) (u64 0) (u64 0) (u64 0) (u64 0)).
  rewrite metrics_run_from. reflexivity.
Qed.
