(* ===== verification/Resources.v ===== *)
(** * The remaining resources of the rdma library: Device, Context,
    ProtectionDomain and Logger

    A [std::shared_ptr] that may be null is an [option]; the pointee is immutable
    in all four classes' users, so its value stands for it. *)

From S2P Require Import Prelude CppString Types.

(** ** Device (device.h, device.cpp) *)

Record Device := mkDevice { device_config : DeviceConfig }.

Definition Name (d : Device) : string := dev_name (device_config d).

Definition Port (d : Device) : Z := dev_port (device_config d).

Definition IsLoopback (d : Device) : bool := bool_decide (Name d = "loopback0").

(** ** Context (context.h, context.cpp) *)

Record Context_ := mkContext { ctx_device : Device }.

(** The constructor: a null device becomes a default one. *)
Definition new_Context (device : option Device) : Context_ :=
  mkContext (match device with None => mkDevice default_DeviceConfig | Some d => d end).

Definition MakeDefaultContext (config : DeviceConfig) : Context_ :=
  new_Context (Some (mkDevice config)).

(** ** ProtectionDomain (protection_domain.h, protection_domain.cpp) *)

Record ProtectionDomain := mkProtectionDomain { pd_context : Context_ }.

Definition new_ProtectionDomain (context : option Context_) : ProtectionDomain :=
  mkProtectionDomain
    (match context with None => MakeDefaultContext default_DeviceConfig | Some c => c end).

(** ** Logger (logger.h, logger.cpp)

    The process-wide logger's level, and the lines written to [std::clog]. *)

Record Logger := mkLogger { lg_level : LogLevel; lg_written : list string }.

Definition new_Logger : Logger := mkLogger lv_kInfo [].

Definition SetLevel (level : LogLevel) (l : Logger) : Logger := mkLogger level (lg_written l).

(** [Logger::level]. *)
Definition logger_level (l : Logger) : LogLevel := lg_level l.

Definition Log (level : LogLevel) (message : string) (l : Logger) : Logger :=
  if (LogLevel_to_int level <? LogLevel_to_int (lg_level l))%Z then l
  else mkLogger (lg_level l)
         (lg_written l ++ ["[rdma][" +:+ ToString_LogLevel level +:+ "] " +:+ message +:+ nl]).

(** The process-wide logger behind [Logger::Instance], and the two free functions that
    act on it; the rest of the process is [A]. *)
Record Process (A : Type) := mkProcess { instance : Logger; rest_of_process : A }.
Arguments mkProcess {A}.
Arguments instance {A}.
Arguments rest_of_process {A}.

Definition SetLogLevel {A} (level : LogLevel) (p : Process A) : Process A :=
  mkProcess (SetLevel level (instance p)) (rest_of_process p).

Definition global_Log {A} (level : LogLevel) (message : string) (p : Process A) : Process A :=
  mkProcess (Log level message (instance p)) (rest_of_process p).

(** ** Lemmas *)

(** A default protection domain sits on a loopback device. *)
Lemma default_domain_loopback :
  IsLoopback (ctx_device (pd_context (new_ProtectionDomain None))) = true.
Proof. reflexivity. Qed.

(** Raising the level only removes lines: whatever is written at a stricter level
    is written at a laxer one. *)
Lemma Log_monotone strict lax level message written :
  (LogLevel_to_int lax <= LogLevel_to_int strict)%Z ->
  lg_written (Log level message (mkLogger strict written)) <> written ->
  lg_written (Log level message (mkLogger lax written))
    = lg_written (Log level message (mkLogger strict written)).
Proof.
  intros Hle. unfold Log. simpl. split_tests; bool_to_prop; simpl; try done. lia.
Qed.

(** A sequence of calls at a fixed level writes exactly the messages of at least that
    level, in order, and nothing else of the process changes. *)
Lemma global_Log_filter {A} (calls : list (LogLevel * string)) (p : Process A) :
  let p' := foldl (fun p '(level, message) => global_Log level message p) p calls in
  rest_of_process p' = rest_of_process p /\ logger_level (instance p') = logger_level (instance p) /\
  lg_written (instance p') = lg_written (instance p) ++
    ((fun '(level, message) => "[rdma][" +:+ ToString_LogLevel level +:+ "] " +:+ message +:+ nl) <$>
     filter (fun c => (LogLevel_to_int (logger_level (instance p)) <= LogLevel_to_int c.1)%Z) calls).
Proof.
  revert p. induction calls as [|[level message] calls IH]; intros p; simpl.
  { by rewrite app_nil_r. }
  destruct (IH (global_Log level message p)) as (H1 & H2 & H3). rewrite H1, H2, H3.
  unfold global_Log, Log, logger_level. rewrite filter_cons. simpl.
  destruct (Z.ltb_spec (LogLevel_to_int level) (LogLevel_to_int (lg_level (instance p))));
    case_decide; try lia; simpl; [done|]. by rewrite <- app_assoc.
Qed.
