(* ===== verification/Transport.v ===== *)
(** * rdma/include/rdma/transport_rdma.h, rdma/src/transport_rdma.cpp

    The in-memory broker: one inbox per node, guarded by one mutex.  Every
    critical section is one step; [PollReceive] has two, since it creates the
    inbox, waits with the mutex released, and returns on the state it finds when
    the wait ends.  Histories of steps are the interleavings of the threads. *)

From S2P Require Import Prelude CppString Types BoundedFifo Memory QueuePair Completion.

Record Message := mkMessage {
  msg_source : string;
  msg_destination : string;
  msg_topic : string;
  msg_description : string;
  msg_payload : ByteBufferPtr;
  msg_work_request_id : WorkRequestId;
  msg_operation : OperationType;
}.

Definition msg_size (m : Message) (h : Heap) : Z := ptr_size (msg_payload m) h.

Record TransportRdma := mkTransportRdma {
  tr_config : TransportConfig;
  tr_inboxes : gmap string (list Message);      (* std::deque, front first *)
}.

Definition new_TransportRdma (config : TransportConfig) : TransportRdma :=
  mkTransportRdma config ∅.

(** [inboxes.try_emplace(node)]: an existing inbox is kept. *)
Definition try_emplace (node : string) (t : TransportRdma) : TransportRdma :=
  match tr_inboxes t !! node with
  | Some _ => t
  | None => mkTransportRdma (tr_config t) (<[node := []]> (tr_inboxes t))
  end.

Definition Connect (qp : QueuePair) (t : TransportRdma) : TransportRdma :=
  try_emplace (qpc_remote_node (qp_config qp))
    (try_emplace (qpc_local_node (qp_config qp)) t).

(** [inboxes[node]], which creates a missing inbox. *)
Definition inbox (node : string) (t : TransportRdma) : list Message :=
  default [] (tr_inboxes t !! node).

(** The two assignments before the critical section. *)
Definition stamp (qp : QueuePair) (message : Message) : Message :=
  mkMessage
    (if decide (msg_source message = "") then qpc_local_node (qp_config qp)
     else msg_source message)
    (qpc_remote_node (qp_config qp))
    (msg_topic message) (msg_description message) (msg_payload message)
    (msg_work_request_id message) (msg_operation message).

(** The critical section of [PostSend]. *)
Definition deliver (node : string) (message : Message) (t : TransportRdma) : TransportRdma :=
  let capacity := tc_mailbox_capacity (tr_config t) in
  let inbox0 := inbox node t in
  let inbox1 :=
    if (0 <? capacity)%Z && (capacity <=? sizeZ inbox0)%Z then tail inbox0 else inbox0 in
  mkTransportRdma (tr_config t) (<[node := inbox1 ++ [message]]> (tr_inboxes t)).

(** [now] is the reading of [Clock::now()]; the heap gives the payload's size. *)
Definition PostSend (now : TimePoint) (h : Heap) (qp : QueuePair) (message : Message)
    (t : TransportRdma) (cq : CompletionQueue) (store : Channels)
    : TransportRdma * CompletionQueue * Channels :=
  let work_request_id := msg_work_request_id message in
  let operation := msg_operation message in
  let bytes := msg_size message h in
  if negb (IsReadyToSend qp) then
    let '(cq', store') :=
      Push (mkCompletionEvent work_request_id cs_kFailed operation
              (qpc_local_node (qp_config qp)) (qpc_remote_node (qp_config qp))
              "queue pair is not ready to send" now 0) cq store in
    (t, cq', store')
  else
    let t' := deliver (qpc_remote_node (qp_config qp)) (stamp qp message) t in
    let '(cq', store') :=
      Push (mkCompletionEvent work_request_id cs_kSuccess operation
              (qpc_local_node (qp_config qp)) (qpc_remote_node (qp_config qp))
              "send completed through in-memory RDMA backend" now bytes) cq store in
    (t', cq', store').

Definition PostWrite (now : TimePoint) (h : Heap) (qp : QueuePair) (region : MemoryRegion)
    (topic : string) (work_request_id : WorkRequestId)
    (t : TransportRdma) (cq : CompletionQueue) (store : Channels)
    : TransportRdma * CompletionQueue * Channels :=
  PostSend now h qp
    (mkMessage (qpc_local_node (qp_config qp)) (qpc_remote_node (qp_config qp)) topic
       (mr_key region) (mr_storage region) work_request_id op_kWrite)
    t cq store.

(** [PollReceive] up to the wait. *)
Definition PollReceive_enter (node_id : string) (t : TransportRdma) : TransportRdma :=
  try_emplace node_id t.

(** [PollReceive] once the wait has ended: the predicate's value decides. *)
Definition PollReceive_return (node_id : string) (t : TransportRdma)
    : option Message * TransportRdma :=
  match tr_inboxes t !! node_id with
  | Some (message :: rest) =>
      (Some message, mkTransportRdma (tr_config t) (<[node_id := rest]> (tr_inboxes t)))
  | _ => (None, t)
  end.

(** A call during which no other thread runs. *)
Definition PollReceive (node_id : string) (t : TransportRdma) : option Message * TransportRdma :=
  PollReceive_return node_id (PollReceive_enter node_id t).

Definition BackendName (t : TransportRdma) : string := tc_backend_name (tr_config t).

(** ** Histories *)

Inductive transport_op :=
| TConnect (qp : QueuePair)
| TPostSend (now : TimePoint) (h : Heap) (qp : QueuePair) (message : Message)
    (cq : CompletionQueue) (store : Channels)
| TEnter (node_id : string)
| TReturn (node_id : string).

Definition transport_step (op : transport_op) (t : TransportRdma)
    : option (string * Message) * TransportRdma :=
  match op with
  | TConnect qp => (None, Connect qp t)
  | TPostSend now h qp message cq store =>
      (None, (PostSend now h qp message t cq store).1.1)
  | TEnter node_id => (None, PollReceive_enter node_id t)
  | TReturn node_id =>
      let '(m, t') := PollReceive_return node_id t in (pair node_id <$> m, t')
  end.

(** The messages handed out, each with the node it was handed to. *)
Fixpoint transport_run (ops : list transport_op) (t : TransportRdma)
    : list (string * Message) * TransportRdma :=
  match ops with
  | [] => ([], t)
  | op :: ops' =>
      let '(out, t1) := transport_step op t in
      let '(outs, t2) := transport_run ops' t1 in
      (option_list out ++ outs, t2)
  end.

(** What a history does to one node's inbox. *)
Definition project (node : string) (op : transport_op) : list (fifo_op Message) :=
  match op with
  | TPostSend _ _ qp message _ _ =>
      if IsReadyToSend qp && bool_decide (qpc_remote_node (qp_config qp) = node)
      then [FPut (stamp qp message)] else []
  | TReturn node_id => if decide (node_id = node) then [FTake] else []
  | _ => []
  end.

Definition received_by (node : string) (outs : list (string * Message)) : list Message :=
  snd <$> filter (fun o => o.1 = node) outs.

(** The reference queue a node's inbox implements. *)
Definition mailbox (node : string) (t : TransportRdma) : Mailbox Message :=
  mkMailbox (tc_mailbox_capacity (tr_config t)) (inbox node t).

(** ** Lemmas *)

Lemma try_emplace_config node t : tr_config (try_emplace node t) = tr_config t.
Proof. unfold try_emplace. by destruct (tr_inboxes t !! node). Qed.

Lemma try_emplace_inbox node n t : inbox n (try_emplace node t) = inbox n t.
Proof.
  unfold try_emplace, inbox. destruct (tr_inboxes t !! node) eqn:E; [done|]. simpl.
  rewrite lookup_insert. case_decide; [|done]. subst. by rewrite E.
Qed.

Lemma Connect_inbox qp n t : inbox n (Connect qp t) = inbox n t.
Proof. unfold Connect. by rewrite !try_emplace_inbox. Qed.

Lemma Connect_config qp t : tr_config (Connect qp t) = tr_config t.
Proof. unfold Connect. by rewrite !try_emplace_config. Qed.

Lemma deliver_inbox node m n t :
  inbox n (deliver node m t) =
    if decide (n = node)
    then push_bounded (tc_mailbox_capacity (tr_config t)) (inbox node t) m
    else inbox n t.
Proof.
  unfold inbox at 1, deliver. simpl. rewrite lookup_insert. repeat case_decide; subst; try done.
Qed.

Lemma PostSend_transport now h qp message t cq store :
  (PostSend now h qp message t cq store).1.1 =
    if IsReadyToSend qp
    then deliver (qpc_remote_node (qp_config qp)) (stamp qp message) t else t.
Proof. unfold PostSend, Push. by destruct (IsReadyToSend qp). Qed.

Lemma PostSend_config now h qp message t cq store :
  tr_config (PostSend now h qp message t cq store).1.1 = tr_config t.
Proof. rewrite PostSend_transport. by destruct (IsReadyToSend qp). Qed.

Lemma PollReceive_return_inbox node n t :
  (PollReceive_return node t).1 = head (inbox node t) /\
  inbox n (PollReceive_return node t).2 =
    (if decide (n = node) then tail (inbox n t) else inbox n t) /\
  tr_config (PollReceive_return node t).2 = tr_config t.
Proof.
  unfold PollReceive_return, inbox.
  destruct (tr_inboxes t !! node) as [[|m rest]|] eqn:E; simpl; split_and!; try done.
  - case_decide; subst; by rewrite ?E.
  - rewrite lookup_insert. repeat case_decide; subst; rewrite ?E; done.
  - case_decide; subst; by rewrite ?E.
Qed.

Lemma PollReceive_spec node t :
  PollReceive node t =
    match inbox node t with
    | [] => (None, try_emplace node t)
    | m :: rest =>
        (Some m, mkTransportRdma (tr_config t) (<[node := rest]> (tr_inboxes t)))
    end.
Proof.
  unfold PollReceive, PollReceive_enter, PollReceive_return, inbox, try_emplace.
  destruct (tr_inboxes t !! node) as [[|m rest]|] eqn:E; simpl; rewrite ?E; try done.
  by rewrite lookup_insert_eq.
Qed.

Lemma transport_step_config op t : tr_config (transport_step op t).2 = tr_config t.
Proof.
  destruct op as [qp|now h qp message cq store|n|n]; simpl.
  - apply Connect_config.
  - apply PostSend_config.
  - apply try_emplace_config.
  - pose proof (PollReceive_return_inbox n n t) as (_ & _ & H).
    by destruct (PollReceive_return n t).
Qed.

(** One step, seen from one node. *)
Lemma transport_step_mailbox node op t :
  (received_by node (option_list (transport_step op t).1),
   mailbox node (transport_step op t).2)
  = fifo_run (project node op) (mailbox node t).
Proof.
  destruct op as [qp|now h qp message cq store|n|n]; unfold mailbox;
    rewrite transport_step_config; simpl.
  - by rewrite Connect_inbox.
  - rewrite PostSend_transport. destruct (IsReadyToSend qp); simpl; [|done].
    rewrite deliver_inbox. case_bool_decide as E.
    + by rewrite decide_True, E by done.
    + by rewrite decide_False by done.
  - unfold PollReceive_enter. by rewrite try_emplace_inbox.
  - destruct (PollReceive_return_inbox n node t) as (H1 & H2 & _).
    destruct (PollReceive_return n t) as [m t']. simpl in *. subst m. rewrite H2.
    destruct (decide (n = node)) as [->|Hne].
    + rewrite decide_True by done. simpl. destruct (inbox node t) as [|m rest]; simpl; [done|].
      unfold received_by. by rewrite filter_cons_True.
    + rewrite decide_False by done. simpl. destruct (inbox n t) as [|m rest]; simpl; [done|].
      unfold received_by. by rewrite filter_cons_False.
Qed.

Lemma received_by_app node a b :
  received_by node (a ++ b) = received_by node a ++ received_by node b.
Proof. unfold received_by. by rewrite filter_app, fmap_app. Qed.

Lemma transport_run_mailbox node ops t :
  (received_by node (transport_run ops t).1, mailbox node (transport_run ops t).2)
  = fifo_run (ops ≫= project node) (mailbox node t).
Proof.
  revert t. induction ops as [|op ops IH]; intros t; [done|].
  cbn [transport_run mbind list_bind].
  pose proof (transport_step_mailbox node op t) as Hs.
  destruct (transport_step op t) as [out t1]. specialize (IH t1).
  destruct (transport_run ops t1) as [outs t2]. simpl in *.
  rewrite fifo_run_app, <- Hs. simpl. rewrite <- IH. simpl. by rewrite received_by_app.
Qed.

(** ** Properties *)

(** [PostSend] on both branches.  Queue pair not ready: no inbox changes and
    the completion reports the failure with 0 bytes.  Ready: exactly the remote
    node's inbox gains the message, stamped with the queue pair's nodes and still
    pointing at the same payload (the oldest message makes room at capacity), and
    the completion reports success with the payload's size. *)
Theorem PostSend_correct (now : TimePoint) (h : Heap) (qp : QueuePair) (message : Message)
    (t : TransportRdma) (cq : CompletionQueue) (store : Channels) :
  let '(t', cq', store') := PostSend now h qp message t cq store in
  let completion status detail bytes :=
    mkCompletionEvent (msg_work_request_id message) status (msg_operation message)
      (qpc_local_node (qp_config qp)) (qpc_remote_node (qp_config qp)) detail now bytes in
  if IsReadyToSend qp then
    (forall node, inbox node t' =
       if decide (node = qpc_remote_node (qp_config qp))
       then push_bounded (tc_mailbox_capacity (tr_config t)) (inbox node t) (stamp qp message)
       else inbox node t) /\
    msg_payload (stamp qp message) = msg_payload message /\
    cq_queue cq' = push_bounded (Capacity cq) (cq_queue cq)
      (completion cs_kSuccess "send completed through in-memory RDMA backend"
         (msg_size message h))
  else
    t' = t /\
    cq_queue cq' = push_bounded (Capacity cq) (cq_queue cq)
      (completion cs_kFailed "queue pair is not ready to send" 0%Z).
Proof.
  unfold PostSend, Push. destruct (IsReadyToSend qp); simpl; [|done].
  split_and!; [|done|done]. intros node. rewrite deliver_inbox. by repeat case_decide; subst.
Qed.

(** C7. Every node's inbox behaves as a drop-oldest queue of its own: for every
    interleaving of connects, sends and receives, what a node receives and what
    its inbox holds are those of the reference queue run on the ready sends to
    that node and the receives of that node, in the same order. *)
Theorem transport_refines_mailboxes (node : string) (ops : list transport_op)
    (t : TransportRdma) :
  let spec := fifo_run (ops ≫= project node) (mailbox node t) in
  received_by node (transport_run ops t).1 = spec.1 /\
  inbox node (transport_run ops t).2 = mb_items spec.2.
Proof. cbv zeta. by rewrite <- transport_run_mailbox. Qed.

(** Delivery.  From a new transport and for every interleaving, the messages
    a node receives form a subsequence, in order, of those sent to it; at most
    [mailbox_capacity] messages wait per node; and when the capacity is 0 or no
    more messages than that are sent to the node, none is lost: received and
    waiting messages together are exactly the sent ones. *)
Theorem transport_delivery (config : TransportConfig) (node : string)
    (ops : list transport_op) :
  let sent := fifo_puts (ops ≫= project node) in
  let got := received_by node (transport_run ops (new_TransportRdma config)).1 in
  let waiting := inbox node (transport_run ops (new_TransportRdma config)).2 in
  (exists gone, sent = gone ++ waiting /\ got `sublist_of` gone) /\
  ((0 < tc_mailbox_capacity config)%Z -> (sizeZ waiting <= tc_mailbox_capacity config)%Z) /\
  (tc_mailbox_capacity config = 0%Z \/ (sizeZ sent <= tc_mailbox_capacity config)%Z ->
   sent = got ++ waiting).
Proof.
  cbv zeta. pose proof (transport_run_mailbox node ops (new_TransportRdma config)) as E.
  set (s0 := mailbox node (new_TransportRdma config)) in E.
  assert (E1 : received_by node (transport_run ops (new_TransportRdma config)).1
    = (fifo_run (ops ≫= project node) s0).1) by (by rewrite <- E).
  assert (E2 : inbox node (transport_run ops (new_TransportRdma config)).2
    = mb_items (fifo_run (ops ≫= project node) s0).2) by (by rewrite <- E).
  rewrite E1, E2. split_and!.
  - exact (fifo_run_order (ops ≫= project node) s0).
  - intros Hd. exact (fifo_run_bound (ops ≫= project node) s0 Hd (Z.lt_le_incl _ _ Hd)).
  - intros Hd. exact (fifo_run_lossless (ops ≫= project node) s0 Hd).
Qed.

(** Zero copy: what [PostWrite] sends to a node with an empty inbox, the next
    [PollReceive] of that node returns as a write of the region's key whose
    payload is the region's own storage, so its size is the region's. *)
Theorem PostWrite_PollReceive (now : TimePoint) (h : Heap) (qp : QueuePair)
    (region : MemoryRegion) (topic : string) (id : WorkRequestId)
    (t : TransportRdma) (cq : CompletionQueue) (store : Channels) :
  IsReadyToSend qp = true ->
  inbox (qpc_remote_node (qp_config qp)) t = [] ->
  exists message,
    (PollReceive (qpc_remote_node (qp_config qp))
       (PostWrite now h qp region topic id t cq store).1.1).1 = Some message /\
    msg_payload message = mr_storage region /\
    msg_size message h = mr_size region h /\
    msg_description message = mr_key region /\ msg_operation message = op_kWrite /\
    msg_source message = qpc_local_node (qp_config qp) /\
    msg_work_request_id message = id.
Proof.
  intros Hr He. unfold PostWrite. rewrite PollReceive_spec, PostSend_transport, Hr.
  rewrite deliver_inbox, decide_True, He by done.
  destruct (push_bounded_cases (tc_mailbox_capacity (tr_config t)) []
    (stamp qp (mkMessage (qpc_local_node (qp_config qp)) (qpc_remote_node (qp_config qp)) topic
       (mr_key region) (mr_storage region) id op_kWrite))) as [->|(y & q & ? & _)]; [|done].
  simpl. eexists. split; [done|]. unfold stamp. simpl. by case_decide as E; rewrite ?E.
Qed.

(** ** Witnesses *)

Definition ready_qp : QueuePair :=
  mkQueuePair (mkQueuePairConfig "a" "b" 256 256) kReadyToSend.

Definition sample_message (n : Z) : Message :=
  mkMessage "a" "b" "t" "" None n op_kSend.

(** Three sends to a node with room for two, then a receive. *)
Definition sample_history : list transport_op :=
  let send n := TPostSend 0 empty_heap ready_qp (sample_message n)
                  (new_CompletionQueue (mkCompletionQueueConfig 4)) ∅ in
  [TConnect ready_qp; send 1%Z; TEnter "b"; send 2%Z; send 3%Z; TReturn "b"].

Lemma transport_delivery_witness :
  let t := new_TransportRdma (mkTransportConfig "m" 2) in
  (sizeZ (inbox "b" (transport_run sample_history t).2) <= 2)%Z /\
  received_by "b" (transport_run sample_history t).1 = [sample_message 2].
Proof.
  split; [|vm_compute; reflexivity].
  apply (transport_delivery (mkTransportConfig "m" 2) "b" sample_history). done.
Defined.

Lemma PostWrite_PollReceive_witness :
  exists message,
    (PollReceive "b" (PostWrite 0 empty_heap ready_qp (mkMemoryRegion "mr-1" 1024 1025 (Some 3))
       "w" 1 (new_TransportRdma default_TransportConfig)
       (new_CompletionQueue default_CompletionQueueConfig) ∅).1.1).1 = Some message /\
    msg_payload message = Some 3.
Proof.
  destruct (PostWrite_PollReceive 0 empty_heap ready_qp
    (mkMemoryRegion "mr-1" 1024 1025 (Some 3)) "w" 1 (new_TransportRdma default_TransportConfig)
    (new_CompletionQueue default_CompletionQueueConfig) ∅ eq_refl eq_refl)
    as (m & H1 & H2 & _).
  exists m. split; [exact H1 | exact H2].
Defined.
