(* ===== verification/RdmaWaiters.v ===== *)
(** * The waits of the RDMA library

    [CompletionQueue::Poll], [EventChannel::Wait] and [TransportRdma::PollReceive] as
    monitors, so that their threads sleep, are notified and time out as those of
    [Monitor] do; and [CompletionQueue::Push] with its calls of [Notify] as separate
    steps of a thread. *)

From S2P Require Import Prelude CppString Types BoundedFifo Monitor Memory QueuePair Completion Transport.

(** ** CompletionQueue: Poll waits, Push notifies one *)

Inductive cq_op := CqPush (event : CompletionEvent) | CqBind (channel : nat).

(** The predicate of [Poll]. *)
Definition cq_ready (cq : CompletionQueue) : bool :=
  match cq_queue cq with [] => false | _ => true end.

Definition cq_do (op : cq_op) (cq : CompletionQueue) : CompletionQueue * notification :=
  match op with
  | CqPush event => (Push_locked event cq, NotifyOne)
  | CqBind channel => (Bind channel cq, NotifyNone)
  end.

#[export] Instance CompletionQueue_monitor :
    Monitor CompletionQueue unit (option CompletionEvent) cq_op := {
  mon_enter _ cq := cq;
  mon_ready _ := cq_ready;
  mon_leave _ := Poll;
  mon_timeout _ := Some None;
  mon_op := cq_do;
}.

Abbreviation CqRun := (MonitorRun CompletionQueue unit (option CompletionEvent) cq_op).

Definition cq_pushed (ops : list cq_op) : list CompletionEvent :=
  omap (fun op => match op with CqPush e => Some e | _ => None end) ops.

(** ** EventChannel: Wait waits, Notify notifies all *)

Inductive channel_op := EcNotify | EcReset.

Instance channel_op_eq_dec : EqDecision channel_op.
Proof. solve_decision. Defined.

Definition channel_do (op : channel_op) (c : EventChannel) : EventChannel * notification :=
  match op with
  | EcNotify => (Notify c, NotifyAll)
  | EcReset => (Reset c, NotifyNone)
  end.

#[export] Instance EventChannel_monitor : Monitor EventChannel unit bool channel_op := {
  mon_enter _ c := c;
  mon_ready _ := ec_signaled;
  mon_leave _ := Wait;
  mon_timeout _ := Some false;
  mon_op := channel_do;
}.

Abbreviation ChannelRun := (MonitorRun EventChannel unit bool channel_op).

Definition notify_count (ops : list channel_op) : nat :=
  length (filter (fun op => op = EcNotify) ops).

Definition success_count (returned : list (unit * bool)) : nat :=
  length (filter (fun r => r.2 = true) returned).

(** ** TransportRdma: PollReceive waits, PostSend notifies all

    The broker's mutex; a send on a queue pair that is not ready does not reach it. *)

Inductive broker_op := BrConnect (qp : QueuePair) | BrSend (qp : QueuePair) (message : Message).

(** The predicate of [PollReceive]. *)
Definition receive_ready (node_id : string) (t : TransportRdma) : bool :=
  match tr_inboxes t !! node_id with Some (_ :: _) => true | _ => false end.

Definition broker_do (op : broker_op) (t : TransportRdma) : TransportRdma * notification :=
  match op with
  | BrConnect qp => (Connect qp t, NotifyNone)
  | BrSend qp message =>
      if IsReadyToSend qp
      then (deliver (qpc_remote_node (qp_config qp)) (stamp qp message) t, NotifyAll)
      else (t, NotifyNone)
  end.

#[export] Instance Transport_monitor :
    Monitor TransportRdma string (option Message) broker_op := {
  mon_enter := PollReceive_enter;
  mon_ready := receive_ready;
  mon_leave := PollReceive_return;
  mon_timeout _ := Some None;
  mon_op := broker_do;
}.

Abbreviation BrokerRun := (MonitorRun TransportRdma string (option Message) broker_op).

(** What was sent to a node, and what calls for a node returned. *)
Definition sent_to (node : string) (ops : list broker_op) : list Message :=
  omap (fun op =>
    match op with
    | BrSend qp message =>
        if IsReadyToSend qp && bool_decide (qpc_remote_node (qp_config qp) = node)
        then Some (stamp qp message) else None
    | BrConnect _ => None
    end) ops.

Definition received_at (node : string) (returned : list (string * option Message)) : list Message :=
  omap (fun r => if decide (r.1 = node) then r.2 else None) returned.

(** ** Lemmas: the disciplines *)

Lemma push_bounded_length {A} cap (q : list A) x :
  length (push_bounded cap q x) <= S (length q).
Proof.
  destruct (push_bounded_cases cap q x) as [->|(y & q' & -> & _ & ->)];
    rewrite length_app; simpl; lia.
Qed.

#[refine, export] Instance CompletionQueue_demand :
    Demand CompletionQueue unit (option CompletionEvent) cq_op := {
  dm_demand cq := Some (length (cq_queue cq));
}.
Proof.
  - intros [] cq. simpl. unfold cq_ready. by destruct (cq_queue cq).
  - done.
  - intros [] cq Hlt. simpl. unfold Poll. destruct (cq_queue cq) as [|e rest] eqn:E; [simpl in Hlt; lia|].
    exists (length rest). simpl. split; [done|lia].
  - intros [event|channel] cq; simpl.
    + pose proof (push_bounded_length (cq_depth (cq_config cq)) (cq_queue cq) event) as Hl.
      unfold push_bounded in Hl. set (l := length (_ ++ [event])) in *.
      destruct (decide (l <= length (cq_queue cq))); [by left|right]. split; [lia|done].
    + left. unfold Bind. by case_bool_decide.
Defined.

#[refine, export] Instance EventChannel_broadcast : Broadcast EventChannel unit bool channel_op := {}.
Proof.
  - intros [] [c] []; done.
  - done.
  - intros [] [] [[]]; done.
Defined.

Lemma receive_ready_inbox node t :
  receive_ready node t = match inbox node t with [] => false | _ => true end.
Proof. unfold receive_ready, inbox. by destruct (tr_inboxes t !! node) as [[|m l]|]. Qed.

Lemma receive_ready_false node t : receive_ready node t = false <-> inbox node t = [].
Proof. rewrite receive_ready_inbox. by destruct (inbox node t). Qed.

#[refine, export] Instance Transport_broadcast :
    Broadcast TransportRdma string (option Message) broker_op := {}.
Proof.
  - intros [qp|qp message] t node; simpl.
    + rewrite !receive_ready_inbox, Connect_inbox. congruence.
    + destruct (IsReadyToSend qp); simpl; [done|congruence].
  - intros node node' t. simpl. rewrite !receive_ready_inbox. unfold PollReceive_enter.
    by rewrite try_emplace_inbox.
  - intros node node' t _. simpl. rewrite !receive_ready_false.
    destruct (PollReceive_return_inbox node' node t) as (_ & -> & _). intros E.
    case_decide; by rewrite E.
Defined.

(** ** CompletionQueue::Push as the steps of its thread

    [Push] copies the list of channels under its mutex and notifies each of them
    afterwards, one after the other.  Between these steps any thread may push, bind or
    poll, and wait for or reset any channel. *)

Record PushRun := mkPushRun {
  pu_cq : CompletionQueue;
  pu_store : Channels;
  pu_pending : list (list nat);       (* per Push under way, the channels to notify *)
}.

Inductive push_step : PushRun -> PushRun -> Prop :=
(** The critical section of [Push]. *)
| pu_push event cq store pending :
    push_step (mkPushRun cq store pending)
      (mkPushRun (Push_locked event cq) store (pending ++ [cq_channels cq]))
(** [channel->Notify()] of some [Push]. *)
| pu_notify cq store p1 a rest p2 :
    push_step (mkPushRun cq store (p1 ++ (a :: rest) :: p2))
      (mkPushRun cq (alter Notify a store) (p1 ++ rest :: p2))
(** A [Push] returns. *)
| pu_return cq store p1 p2 :
    push_step (mkPushRun cq store (p1 ++ [] :: p2)) (mkPushRun cq store (p1 ++ p2))
| pu_bind a cq store pending :
    push_step (mkPushRun cq store pending) (mkPushRun (Bind a cq) store pending)
| pu_poll event cq cq' store pending :
    Poll cq = (event, cq') -> push_step (mkPushRun cq store pending) (mkPushRun cq' store pending)
(** A [Wait] that succeeds or times out. *)
| pu_wait a c ok c' cq store pending :
    store !! a = Some c -> Wait c = (ok, c') ->
    push_step (mkPushRun cq store pending) (mkPushRun cq (<[a := c']> store) pending)
| pu_reset a cq store pending :
    push_step (mkPushRun cq store pending) (mkPushRun cq (alter Reset a store) pending).

Definition signaled (channel : nat) (s : PushRun) : Prop :=
  pu_store s !! channel = Some (mkEventChannel true).

(** A step after which a channel that was signaled is not: a [Wait] that returned true, or
    [Reset]. *)
Definition consumes (channel : nat) (s s' : PushRun) : Prop := signaled channel s /\ ~ signaled channel s'.

(** Steps of any thread that leave the signal of the channel alone. *)
Definition keeps_signal (channel : nat) (s s' : PushRun) : Prop :=
  push_step s s' /\ ~ consumes channel s s'.

(** The signal is there or a [Push] under way has it still to set. *)
Record signal_due (channel : nat) (s : PushRun) : Prop := {
  sd_there : is_Some (pu_store s !! channel);
  sd_due : signaled channel s \/ exists channels, channels ∈ pu_pending s /\ channel ∈ channels;
}.

Instance EventChannel_eq_dec : EqDecision EventChannel.
Proof. solve_decision. Defined.

Instance signaled_dec channel s : Decision (signaled channel s).
Proof. unfold signaled. apply _. Defined.

(** The channel is still there after any step, and the pending signals with it unless one
    of them has just been set. *)
Lemma push_step_due channel s s' :
  push_step s s' -> is_Some (pu_store s !! channel) ->
  is_Some (pu_store s' !! channel) /\
  ((exists channels, channels ∈ pu_pending s /\ channel ∈ channels) ->
   signaled channel s' \/ exists channels, channels ∈ pu_pending s' /\ channel ∈ channels).
Proof.
  unfold signaled. destruct 1 as [| cq store p1 a rest p2| | | |a c ok c'|a]; simpl; intros [c0 Hc]; split; eauto.
  - intros (l & Hl & Hin). right. exists l. set_solver.
  - rewrite lookup_alter. case_decide; subst; rewrite Hc; by eexists.
  - intros (l & Hl & Hin). destruct (decide (a = channel)) as [->|Hne];
      [left; by rewrite lookup_alter_eq, Hc|right].
    apply elem_of_app in Hl as [Hl|[->|Hl]%elem_of_cons]; [exists l; set_solver| |exists l; set_solver].
    exists rest. set_solver.
  - intros (l & Hl & Hin). right.
    apply elem_of_app in Hl as [Hl|[->|Hl]%elem_of_cons]; [exists l; set_solver| |exists l; set_solver].
    by apply elem_of_nil in Hin.
  - rewrite lookup_insert. case_decide; eauto.
  - rewrite lookup_alter. case_decide; subst; rewrite Hc; by eexists.
Qed.

Lemma signal_due_step channel s s' : keeps_signal channel s s' -> signal_due channel s -> signal_due channel s'.
Proof.
  intros [Hstep Hk] [Ht Hd]. destruct (push_step_due channel s s' Hstep Ht) as [Ht' Hp].
  constructor; [done|]. destruct Hd as [Hs|Hd]; [|by apply Hp].
  left. destruct (decide (signaled channel s')); [done|]. by destruct Hk.
Qed.

(** [Push] alone is its critical section and its notifications in a row. *)
Lemma Push_steps event cq store :
  rtc push_step (mkPushRun cq store [])
    (let '(cq', store') := Push event cq store in mkPushRun cq' store' []).
Proof.
  eapply rtc_l; [apply (pu_push event)|]. simpl. unfold notify_all.
  generalize (cq_channels cq) as channels. generalize (Push_locked event cq) as cq'. intros cq' channels.
  revert store. induction channels as [|a channels IH]; intros store.
  - apply rtc_once. apply (pu_return cq' store [] []).
  - eapply rtc_l; [apply (pu_notify cq' store [] a channels [])|]. apply IH.
Qed.

(** ** Properties *)

(** C16. Polling a completion queue from any number of threads, for every interleaving
    of [Push], [Bind], [Poll], notifications, timeouts and spurious wake-ups.  The
    events leave in order: what the polls returned and what is queued account for what
    was pushed, as for a drop-oldest queue of the configured depth.  And no wake-up is
    lost: the notifications and the waiters they woke come to rest, and then a poll is
    still asleep only if the queue is empty. *)
Theorem CompletionQueue_serves (config : CompletionQueueConfig) (s : CqRun) :
  mon_reached (new_CompletionQueue config) s ->
  fifo_account (cq_depth config) (cq_pushed (mo_ops s)) (omap snd (mo_returned s))
    (cq_queue (mo_state s)) /\
  sn mon_progress s /\
  (forall s', rtc mon_progress s s' -> nf mon_progress s' ->
     mo_sleeping s' <> [] -> cq_queue (mo_state s') = []).
Proof.
  intros Hr. split_and!.
  - apply ledger_spec.
    apply (mon_invariant (fun cq os rs => cq_config cq = config /\
      fifo_ledger (cq_depth config) (cq_pushed os) (omap snd rs) (cq_queue cq)))
      in Hr as [_ Hr]; [done|split; [done|apply ledger_nil]|..].
    + intros [event|channel] cq os rs [Hc HL]; unfold cq_pushed; rewrite omap_app; simpl.
      * split; [done|]. rewrite <- Hc. apply ledger_put. by rewrite Hc.
      * rewrite app_nil_r. unfold Bind. by case_bool_decide.
    + done.
    + intros [] cq os rs Hready [Hc HL]. rewrite omap_app. simpl in *. unfold cq_ready, Poll in *.
      destruct (cq_queue cq) as [|e rest] eqn:E; [done|]. simpl. split; [done|]. by apply ledger_take.
    + intros [] r cq os rs _ [= <-] [Hc HL]. rewrite omap_app. simpl. by rewrite app_nil_r.
  - by apply (monitor_serves _ s Hr).
  - intros s' Hs' Hnf Hne. destruct (monitor_serves _ s Hr) as [_ HS].
    destruct (HS s' Hs' Hnf) as [_ HW]. destruct (mo_sleeping s') as [|w l]; [done|].
    specialize (HW w (list_elem_of_here _ _)). simpl in HW. unfold cq_ready in HW.
    by destruct (cq_queue (mo_state s')).
Qed.

(** C8. Receiving from the transport, for every interleaving of [Connect], [PostSend],
    [PollReceive] for any nodes, notifications, timeouts and spurious wake-ups.  What
    the calls for a node returned and what waits in its inbox account for what was sent
    to it, as for a drop-oldest queue of the mailbox capacity.  And although all nodes
    share one condition variable, no wake-up is lost: the notifications and the waiters
    they woke come to rest, and then a call is still asleep only if its node's inbox is
    empty. *)
Theorem transport_serves (config : TransportConfig) (s : BrokerRun) (node : string) :
  mon_reached (new_TransportRdma config) s ->
  fifo_account (tc_mailbox_capacity config) (sent_to node (mo_ops s))
    (received_at node (mo_returned s)) (inbox node (mo_state s)) /\
  sn mon_progress s /\
  (forall s', rtc mon_progress s s' -> nf mon_progress s' ->
     node ∈ mo_sleeping s' -> inbox node (mo_state s') = []).
Proof.
  intros Hr. split_and!.
  - apply ledger_spec.
    apply (mon_invariant (fun t os rs => tr_config t = config /\
      fifo_ledger (tc_mailbox_capacity config) (sent_to node os) (received_at node rs) (inbox node t)))
      in Hr as [_ Hr]; [done|split; [done|apply ledger_nil]|..].
    + intros [qp|qp message] t os rs [Hc HL]; unfold sent_to; rewrite omap_app; simpl.
      * rewrite Connect_config, Connect_inbox, app_nil_r. done.
      * destruct (IsReadyToSend qp); simpl; [|by rewrite app_nil_r].
        split; [done|]. rewrite deliver_inbox. case_bool_decide as E.
        -- rewrite decide_True, E, Hc by done. by apply ledger_put.
        -- rewrite decide_False, app_nil_r by done. done.
    + intros n t os rs [Hc HL]. simpl. unfold PollReceive_enter.
      by rewrite try_emplace_config, try_emplace_inbox.
    + intros n t os rs Hready [Hc HL]. simpl in *. unfold received_at. rewrite omap_app. simpl.
      destruct (PollReceive_return_inbox n node t) as (-> & -> & ->). split; [done|].
      rewrite receive_ready_inbox in Hready. destruct (inbox n t) as [|m rest] eqn:E; [done|].
      destruct (decide (n = node)) as [->|Hne].
      * rewrite decide_True by done. rewrite E in *. simpl. by apply ledger_take.
      * rewrite decide_False by done. by rewrite app_nil_r.
    + intros n r t os rs _ [= <-] [Hc HL]. unfold received_at. rewrite omap_app. simpl.
      case_decide; by rewrite app_nil_r.
  - by apply (monitor_serves _ s Hr).
  - intros s' Hs' Hnf Hin. destruct (monitor_serves _ s Hr) as [_ HS].
    destruct (HS s' Hs' Hnf) as [_ HW]. apply receive_ready_false. exact (HW node Hin).
Qed.

(** Waiting for an event channel, for every interleaving of [Notify], [Reset], [Wait],
    notifications, timeouts and spurious wake-ups: no more waits succeed than there were
    notifies, a set flag being one of them that is left; and no wake-up is lost: when
    the notifications have come to rest, a wait is still asleep only if the channel is
    not signaled. *)
Theorem EventChannel_serves (s : ChannelRun) :
  mon_reached new_EventChannel s ->
  success_count (mo_returned s) + (if ec_signaled (mo_state s) then 1 else 0) <=
    notify_count (mo_ops s) /\
  sn mon_progress s /\
  (forall s', rtc mon_progress s s' -> nf mon_progress s' ->
     mo_sleeping s' <> [] -> ec_signaled (mo_state s') = false).
Proof.
  intros Hr. split_and!.
  - apply (mon_invariant (fun c os rs =>
      success_count rs + (if ec_signaled c then 1 else 0) <= notify_count os)) in Hr; [done|done|..].
    + intros [] [[]] os rs; unfold notify_count; rewrite filter_app, length_app; simpl; lia.
    + done.
    + intros [] [[]] os rs; [|done]. unfold success_count. rewrite filter_app, length_app. simpl. lia.
    + intros [] r [[]] os rs; [done|]. intros _ [= <-]. unfold success_count. rewrite filter_app, length_app. simpl. lia.
  - by apply (monitor_serves _ s Hr).
  - intros s' Hs' Hnf Hne. destruct (monitor_serves _ s Hr) as [_ HS].
    destruct (HS s' Hs' Hnf) as [_ HW]. destruct (mo_sleeping s') as [|w l]; [done|].
    exact (HW w (list_elem_of_here _ _)).
Qed.


(** ** Witnesses *)

(** A poll falls asleep, an event is pushed, the poll is notified and returns it. *)
Definition cq_served : CqRun :=
  mkMonitorRun (new_CompletionQueue (mkCompletionQueueConfig 2)) [] [] 0 0
    [CqPush (sample_event 1)] [(tt, Some (sample_event 1))].

Lemma cq_served_reached :
  mon_reached (new_CompletionQueue (mkCompletionQueueConfig 2)) cq_served.
Proof.
  eapply rtc_l; [right; apply (mx_arrive _ tt)|].
  eapply rtc_l; [right; apply (mx_op _ (CqPush (sample_event 1)))|].
  eapply rtc_l; [left; apply (mp_notify_one _ 0 [] tt []); reflexivity|].
  eapply rtc_l; [left; apply (mp_retry _ [] tt []); reflexivity|]. apply rtc_refl.
Qed.

Lemma CompletionQueue_serves_witness :
  fifo_account 2 [sample_event 1] [sample_event 1] (@nil CompletionEvent).
Proof.
  exact (proj1 (CompletionQueue_serves (mkCompletionQueueConfig 2) cq_served cq_served_reached)).
Defined.

(** Calls for two nodes sleep, a message for one of them wakes both; that one returns
    it, the other goes back to sleep. *)
Definition two_receivers : BrokerRun :=
  mkMonitorRun
    (mkTransportRdma default_TransportConfig (<["b" := []]> (<["c" := []]> ∅))) ["c"] [] 0 0
    [BrSend ready_qp (sample_message 1)] [("b", Some (stamp ready_qp (sample_message 1)))].

Lemma two_receivers_reached :
  mon_reached (new_TransportRdma default_TransportConfig) two_receivers.
Proof.
  eapply rtc_l; [right; apply (mx_arrive _ "c")|].
  eapply rtc_l; [right; apply (mx_arrive _ "b")|].
  eapply rtc_l; [right; apply (mx_op _ (BrSend ready_qp (sample_message 1)))|].
  eapply rtc_l; [left; apply (mp_notify_all _ 0); reflexivity|].
  eapply rtc_l; [left; apply (mp_retry _ ["b"] "c" []); reflexivity|].
  eapply rtc_l; [left; apply (mp_retry _ [] "b" []); reflexivity|]. vm_compute. apply rtc_refl.
Qed.

Lemma transport_serves_witness :
  fifo_account 4096 [stamp ready_qp (sample_message 1)] [stamp ready_qp (sample_message 1)] [].
Proof.
  exact (proj1 (transport_serves default_TransportConfig two_receivers "b" two_receivers_reached)).
Defined.

Lemma EventChannel_serves_witness :
  success_count [(tt, true)] <= notify_count [EcNotify; EcNotify].
Proof.
  refine (proj1 (EventChannel_serves
    (mkMonitorRun (mkEventChannel false) [] [] 0 2 [EcNotify; EcNotify] [(tt, true)]) _)).
  eapply rtc_l; [right; apply (mx_op _ EcNotify)|].
  eapply rtc_l; [right; apply (mx_op _ EcNotify)|].
  eapply rtc_l; [right; apply (mx_arrive _ tt)|]. apply rtc_refl.
Defined.

