(* ===== verification/World.v ===== *)
(** * What the endpoints share

    A client, a server and the worker sessions of a process share the heap of byte
    buffers, the event channels, and the transport they were constructed with
    ([std::shared_ptr<TransportRdma>]; [None] is [nullptr]).  Their operations
    thread this [World] beside their own state, so two endpoints that were given
    the same transport see each other's messages. *)

From S2P Require Import Prelude CppString Types BoundedFifo Memory QueuePair Connection.
From S2P Require Import Completion Transport.

Record World := mkWorld {
  w_heap : Heap;
  w_channels : Channels;
  w_transport : option TransportRdma;
}.

Definition set_heap (h : Heap) (w : World) : World :=
  mkWorld h (w_channels w) (w_transport w).

Definition set_transport (t : option TransportRdma) (w : World) : World :=
  mkWorld (w_heap w) (w_channels w) t.

(** [transport_->Connect(qp)]. *)
Definition connect_transport (qp : QueuePair) (w : World) : World :=
  set_transport (Connect qp <$> w_transport w) w.

(** [transport_->PostSend(qp, message, cq)]. *)
Definition post_send (now : TimePoint) (qp : QueuePair) (message : Message) (w : World)
    (cq : CompletionQueue) : World * CompletionQueue :=
  match w_transport w with
  | None => (w, cq)
  | Some t =>
      let '(t', cq', channels') := PostSend now (w_heap w) qp message t cq (w_channels w) in
      (mkWorld (w_heap w) channels' (Some t'), cq')
  end.

(** [transport_->PollReceive(node_id, timeout)]. *)
Definition poll_receive (node_id : string) (w : World) : option Message * World :=
  match w_transport w with
  | None => (None, w)
  | Some t => let '(m, t') := PollReceive node_id t in (m, set_transport (Some t') w)
  end.

(** [EnsurePeer] of WorkerSession and RdmaServer, which are the same code: find
    the peer's connection or bring a new one up, announce it to the transport and
    file it. *)
Definition ensure_peer (node_id peer : string) (w : World) (peers : gmap string Connection)
    : Connection * World * gmap string Connection :=
  match peers !! peer with
  | Some connection => (connection, w, peers)
  | None =>
      let connection0 :=
        new_Connection (new_QueuePair (mkQueuePairConfig node_id peer 256 256)) in
      let connection := (Establish connection0).2 in
      let w' :=
        match w_transport w with
        | None => w
        | Some _ => connect_transport (conn_queue_pair connection) w
        end in
      (connection, w', emplace peer connection peers)
  end.

(** ** Invariant *)

(** The connection [EnsurePeer] files for a peer: established, and its queue pair
    ready to send from this node to that peer. *)
Definition ready_connection (node_id peer : string) : Connection :=
  mkConnection (mkQueuePair (mkQueuePairConfig node_id peer 256 256) kReadyToSend) true.

Definition peers_wf (node_id : string) (peers : gmap string Connection) : Prop :=
  map_Forall (fun peer c => c = ready_connection node_id peer) peers.

(** The inbox of a node in the shared transport. *)
Definition world_inbox (node : string) (w : World) : list Message :=
  match w_transport w with
  | None => []
  | Some t => inbox node t
  end.

(** The shared transport's mailbox capacity; 0, no bound, without a transport. *)
Definition world_capacity (w : World) : Z :=
  match w_transport w with
  | None => 0
  | Some t => tc_mailbox_capacity (tr_config t)
  end.

(** One more message for [node] fits without dropping an older one. *)
Definition has_room (node : string) (w : World) : Prop :=
  world_capacity w = 0%Z \/ (sizeZ (world_inbox node w) < world_capacity w)%Z.

(** ** Lemmas *)

Lemma peers_wf_empty node_id : peers_wf node_id ∅.
Proof. apply map_Forall_empty. Qed.

Lemma connect_transport_inbox qp n w : world_inbox n (connect_transport qp w) = world_inbox n w.
Proof.
  unfold world_inbox, connect_transport. simpl. destruct (w_transport w); simpl; [|done].
  apply Connect_inbox.
Qed.

Lemma connect_transport_capacity qp w : world_capacity (connect_transport qp w) = world_capacity w.
Proof.
  unfold world_capacity, connect_transport. simpl. destruct (w_transport w); simpl; [|done].
  by rewrite Connect_config.
Qed.

(** [EnsurePeer] always ends with a ready connection; messages, heap and channels
    are untouched. *)
Lemma ensure_peer_spec node_id peer w peers :
  peers_wf node_id peers ->
  let '(c, w', peers') := ensure_peer node_id peer w peers in
  c = ready_connection node_id peer /\ peers_wf node_id peers' /\
  (forall n, world_inbox n w' = world_inbox n w) /\
  world_capacity w' = world_capacity w /\
  w_heap w' = w_heap w /\ w_channels w' = w_channels w /\
  (is_Some (w_transport w) -> is_Some (w_transport w')).
Proof.
  intros Hp. unfold ensure_peer. destruct (peers !! peer) as [c|] eqn:E.
  - split_and!; auto.
  - assert (Hp' : peers_wf node_id (emplace peer (ready_connection node_id peer) peers))
      by (unfold emplace; rewrite E; by apply map_Forall_insert_2).
    change (Establish _).2 with (ready_connection node_id peer).
    destruct (w_transport w) as [t|] eqn:Et; split_and!; auto.
    + intros n. apply connect_transport_inbox.
    + apply connect_transport_capacity.
    + intros _. unfold connect_transport. simpl. rewrite Et. by eexists.
    + by rewrite Et.
Qed.

(** Sending on a ready queue pair: the peer's inbox takes the message as a drop-oldest
    queue does. *)
Lemma post_send_bounded now node_id peer message w cq :
  is_Some (w_transport w) ->
  let qp := conn_queue_pair (ready_connection node_id peer) in
  let '(w', cq') := post_send now qp message w cq in
  (forall n, world_inbox n w' =
     if decide (n = peer) then push_bounded (world_capacity w) (world_inbox n w) (stamp qp message)
     else world_inbox n w) /\
  w_heap w' = w_heap w /\ world_capacity w' = world_capacity w /\ is_Some (w_transport w').
Proof.
  intros [t Ht]. unfold post_send, world_inbox, world_capacity. rewrite Ht. simpl.
  split_and!; [|done|done|by eexists].
  intros n. rewrite deliver_inbox. case_decide as E; [|done]. by subst n.
Qed.

(** Sending on a ready queue pair, where the message fits. *)
Lemma post_send_ready now node_id peer message w cq :
  is_Some (w_transport w) -> has_room peer w ->
  let qp := conn_queue_pair (ready_connection node_id peer) in
  let '(w', cq') := post_send now qp message w cq in
  (forall n, world_inbox n w' =
     if decide (n = peer) then world_inbox n w ++ [stamp qp message] else world_inbox n w) /\
  cq' = Push_locked (mkCompletionEvent (msg_work_request_id message) cs_kSuccess
          (msg_operation message) node_id peer
          "send completed through in-memory RDMA backend" now (msg_size message (w_heap w))) cq /\
  w_heap w' = w_heap w /\ world_capacity w' = world_capacity w /\
  is_Some (w_transport w').
Proof.
  intros [t Ht] Hroom. unfold post_send, has_room, world_inbox, world_capacity in *.
  rewrite Ht in *. simpl. split_and!; [|done|done|done|by eexists].
  intros n. rewrite deliver_inbox. case_decide as E; [|done]. subst n.
  destruct Hroom as [->|Hr]; [done|]. by rewrite push_bounded_room.
Qed.

Lemma poll_receive_head node w m rest :
  world_inbox node w = m :: rest ->
  exists w', poll_receive node w = (Some m, w') /\
    (forall n, world_inbox n w' = if decide (n = node) then rest else world_inbox n w) /\
    w_heap w' = w_heap w /\ world_capacity w' = world_capacity w /\
    is_Some (w_transport w').
Proof.
  unfold world_inbox, poll_receive, world_capacity. destruct (w_transport w) as [t|]; [|done].
  intros E. rewrite PollReceive_spec, E. eexists. split; [done|]. simpl.
  split_and!; [|done|done|by eexists].
  intros n. unfold inbox. simpl. rewrite lookup_insert. repeat case_decide; by subst.
Qed.

Lemma poll_receive_empty node w :
  world_inbox node w = [] ->
  exists w', poll_receive node w = (None, w') /\
    (forall n, world_inbox n w' = world_inbox n w) /\ w_heap w' = w_heap w.
Proof.
  unfold world_inbox, poll_receive. destruct (w_transport w) as [t|] eqn:Et.
  - intros E. rewrite PollReceive_spec, E. eexists. split; [done|]. simpl.
    split; [|done]. intros n. apply try_emplace_inbox.
  - intros _. exists w. split_and!; [done| |done]. intros n. by rewrite Et.
Qed.
