(* ===== verification/Poller.v ===== *)
(** * rdma/src/poller.cpp: the polling thread

    [Start] and [Stop] on the poller's flag and thread, and one round of the loop as
    a function on the world: what the two handlers are called with. *)

From S2P Require Import Prelude CppString Types BoundedFifo Completion Transport World.

Record Poller := mkPoller {
  po_node_id : string;
  po_running : bool;
  po_joinable : bool;                 (* thread_.joinable() *)
}.

Definition new_Poller (node_id : string) : Poller := mkPoller node_id false false.

Definition poller_Start (p : Poller) : bool * Poller :=
  if po_running p then (false, p) else (true, mkPoller (po_node_id p) true true).

(** [Stop], after its join. *)
Definition poller_Stop (p : Poller) : Poller := mkPoller (po_node_id p) false false.

(** One round of the loop.  The completion queue is [None] for the null pointer;
    [on_message] and [on_completion] say which handlers are set.  The values are
    the message and the event the handlers are called with. *)
Definition poll_round (node_id : string) (on_message on_completion : bool) (w : World)
    (completions : option CompletionQueue)
    : option Message * option CompletionEvent * World * option CompletionQueue :=
  let '(message, w1) :=
    match w_transport w with
    | Some _ => if on_message then poll_receive node_id w else (None, w)
    | None => (None, w)
    end in
  let '(event, completions1) :=
    match completions with
    | Some cq => if on_completion then let '(e, cq') := Poll cq in (e, Some cq') else (None, completions)
    | None => (None, None)
    end in
  (message, event, w1, completions1).

(** [rounds] rounds; the calls of the handlers in order. *)
Fixpoint poll_rounds (rounds : nat) (node_id : string) (on_message on_completion : bool)
    (w : World) (completions : option CompletionQueue)
    : list Message * list CompletionEvent * World * option CompletionQueue :=
  match rounds with
  | O => ([], [], w, completions)
  | S rounds' =>
      let '(m, e, w1, c1) := poll_round node_id on_message on_completion w completions in
      let '(ms, es, w2, c2) := poll_rounds rounds' node_id on_message on_completion w1 c1 in
      (option_list m ++ ms, option_list e ++ es, w2, c2)
  end.

(** ** Lemmas *)

Lemma poll_receive_any node_id w :
  is_Some (w_transport w) ->
  exists w1, poll_receive node_id w = (head (world_inbox node_id w), w1) /\
    (forall n, world_inbox n w1 =
       if decide (n = node_id) then tail (world_inbox n w) else world_inbox n w) /\
    is_Some (w_transport w1).
Proof.
  intros Ht. destruct (world_inbox node_id w) as [|m rest] eqn:E.
  - destruct (poll_receive_empty _ _ E) as (w1 & E1 & Hin & _). exists w1. rewrite E1.
    split_and!; [done| |].
    + intros n. rewrite Hin. case_decide; [|done]. subst. by rewrite E.
    + unfold poll_receive in E1. destruct Ht as [t Ht]. rewrite Ht in E1.
      destruct (PollReceive node_id t) as [m t']. injection E1 as _ <-. by eexists.
  - destruct (poll_receive_head _ _ _ _ E) as (w1 & E1 & Hin & _ & _ & Ht1). exists w1.
    rewrite E1. split_and!; [done| |done].
    intros n. rewrite Hin. case_decide; [|done]. subst. by rewrite E.
Qed.

Lemma poll_round_spec node_id w cq :
  is_Some (w_transport w) ->
  exists w1 cq1,
    poll_round node_id true true w (Some cq) =
      (head (world_inbox node_id w), head (cq_queue cq), w1, Some cq1) /\
    (forall n, world_inbox n w1 =
       if decide (n = node_id) then tail (world_inbox n w) else world_inbox n w) /\
    cq_queue cq1 = tail (cq_queue cq) /\ is_Some (w_transport w1).
Proof.
  intros Ht. unfold poll_round. destruct (poll_receive_any node_id w Ht) as (w1 & E & Hin & Ht1).
  destruct (w_transport w); [|by destruct Ht]. rewrite E.
  destruct cq as [config [|event rest] channels]; eexists w1, _; by split_and!.
Qed.

(** What [rounds] rounds hand to the handlers is the front of the two queues. *)
Lemma poll_rounds_spec rounds node_id w cq :
  is_Some (w_transport w) ->
  exists w' cq',
    poll_rounds rounds node_id true true w (Some cq) =
      (take rounds (world_inbox node_id w), take rounds (cq_queue cq), w', Some cq') /\
    (forall n, world_inbox n w' =
       if decide (n = node_id) then drop rounds (world_inbox n w) else world_inbox n w) /\
    cq_queue cq' = drop rounds (cq_queue cq).
Proof.
  revert w cq. induction rounds as [|rounds IH]; intros w cq Ht.
  - exists w, cq. split_and!; [done| |done]. intros n. by case_decide.
  - destruct (poll_round_spec node_id w cq Ht) as (w1 & cq1 & E & Hin & Hcq & Ht1).
    destruct (IH w1 cq1 Ht1) as (w' & cq' & E' & Hin' & Hcq'). simpl. rewrite E, E'.
    exists w', cq'. rewrite Hin, decide_True, Hcq by done. split_and!.
    + destruct (world_inbox node_id w), (cq_queue cq); simpl; by rewrite ?take_nil.
    + intros n. rewrite Hin', Hin. case_decide; [|done].
      destruct (world_inbox n w); simpl; by rewrite ?drop_nil.
    + rewrite Hcq', Hcq. destruct (cq_queue cq); simpl; by rewrite ?drop_nil.
Qed.

(** ** Properties *)

(** The poller delivers: once its loop has made as many rounds as there are
    messages and events waiting, the message handler has been called with exactly
    the node's messages and the completion handler with exactly the queue's events,
    each once and in order; both queues are then empty and no other node's inbox has
    changed. *)
Theorem Poller_delivers (rounds : nat) (node_id : string) (w : World) (cq : CompletionQueue) :
  is_Some (w_transport w) ->
  length (world_inbox node_id w) <= rounds -> length (cq_queue cq) <= rounds ->
  exists w' cq',
    poll_rounds rounds node_id true true w (Some cq) =
      (world_inbox node_id w, cq_queue cq, w', Some cq') /\
    world_inbox node_id w' = [] /\ cq_queue cq' = [] /\
    forall n, n <> node_id -> world_inbox n w' = world_inbox n w.
Proof.
  intros Ht Hm He. destruct (poll_rounds_spec rounds node_id w cq Ht) as (w' & cq' & E & Hin & Hcq).
  exists w', cq'. rewrite E, !take_ge by done. split_and!; [done| | |].
  - by rewrite Hin, decide_True, drop_ge.
  - by rewrite Hcq, drop_ge.
  - intros n Hn. by rewrite Hin, decide_False.
Qed.

(** ** Witnesses *)

(** A node with one message, and a queue with one completion. *)
Definition poller_world : World :=
  mkWorld Memory.empty_heap ∅
    (Some (deliver "a" (mkMessage "b" "a" "t" "d" None 1 op_kSend)
             (new_TransportRdma default_TransportConfig))).

Definition poller_cq : CompletionQueue :=
  Push_locked (sample_event 1) (new_CompletionQueue default_CompletionQueueConfig).

Lemma Poller_delivers_witness :
  exists w' cq', poll_rounds 1 "a" true true poller_world (Some poller_cq) =
    (world_inbox "a" poller_world, [sample_event 1], w', Some cq').
Proof.
  destruct (Poller_delivers 1 "a" poller_world poller_cq) as (w' & cq' & E & _);
    [eexists; reflexivity | apply le_n | apply le_n |].
  exists w', cq'. exact E.
Defined.
