(* ===== verification/PollerThread.v ===== *)
(** * rdma/src/poller.cpp: the polling thread beside the other threads

    The loop of [Poller::Start] one call at a time, between which other threads send,
    push, start and stop.  The thread's own next step is a function; everything else is
    a relation.  Messages for the poller's node and events of its completion queue are
    taken by the poller only.  Any number of threads may call [Start] and [Stop] at once:
    each call is cut at its accesses to the flag and to [thread_]. *)

From S2P Require Import Prelude CppString Types BoundedFifo Memory QueuePair Completion Transport World Poller.

(** The accesses of [Start]: [running_.exchange(true)], and the assignment of the new thread
    to [thread_]. *)
Definition poller_set (p : Poller) : Poller := mkPoller (po_node_id p) true (po_joinable p).

Definition poller_spawn (p : Poller) : Poller := mkPoller (po_node_id p) (po_running p) true.

(** [Stop] up to its join, and the join. *)
Definition poller_clear (p : Poller) : Poller := mkPoller (po_node_id p) false (po_joinable p).

Definition poller_join (p : Poller) : Poller := mkPoller (po_node_id p) (po_running p) false.

(** Where the thread is: gone, at the loop's test, in [PollReceive], in the message
    handler, at the second [if], in [Poll], in the completion handler, at the third
    [if], asleep. *)
Inductive poller_pc :=
| PgGone | PgTest | PgReceive | PgMessage (message : Message) | PgSecond | PgPoll
| PgEvent (event : CompletionEvent) | PgThird | PgSleep.

Record PollerRun := mkPollerRun {
  pl_poller : Poller;
  pl_pc : poller_pc;
  pl_on_message : bool;               (* the handlers of the last [Start] are set *)
  pl_on_completion : bool;
  pl_transport : option TransportRdma;            (* transport_, or the null pointer *)
  pl_completions : option CompletionQueue;        (* completions_, or the null pointer *)
  pl_starting : list (bool * bool);   (* the Starts that have set the flag and not yet a
                                         thread, with their handlers *)
  pl_stored : nat;                    (* the Stops that have cleared the flag and not yet
                                         looked at thread_ *)
  pl_joining : nat;                   (* the Stops in join() *)
  pl_broken : bool;                   (* std::terminate, or two joins of one thread *)
  pl_messages : list Message;         (* calls of the message handler, in order *)
  pl_events : list CompletionEvent;   (* calls of the completion handler, in order *)
  pl_sent : list Message;             (* messages delivered to the node, in order *)
  pl_pushed : list CompletionEvent;   (* events pushed to the queue, in order *)
}.

Definition fresh_poller (node_id : string) (transport : option TransportConfig)
    (completions : option CompletionQueueConfig) : PollerRun :=
  mkPollerRun (new_Poller node_id) PgGone false false (new_TransportRdma <$> transport)
    (new_CompletionQueue <$> completions) [] 0 0 false [] [] [] [].

Definition at_pc (pc : poller_pc) (r : PollerRun) : PollerRun :=
  mkPollerRun (pl_poller r) pc (pl_on_message r) (pl_on_completion r) (pl_transport r)
    (pl_completions r) (pl_starting r) (pl_stored r) (pl_joining r) (pl_broken r)
    (pl_messages r) (pl_events r) (pl_sent r) (pl_pushed r).

Definition with_transport (t : TransportRdma) (r : PollerRun) : PollerRun :=
  mkPollerRun (pl_poller r) (pl_pc r) (pl_on_message r) (pl_on_completion r) (Some t)
    (pl_completions r) (pl_starting r) (pl_stored r) (pl_joining r) (pl_broken r)
    (pl_messages r) (pl_events r) (pl_sent r) (pl_pushed r).

Definition with_completions (cq : CompletionQueue) (r : PollerRun) : PollerRun :=
  mkPollerRun (pl_poller r) (pl_pc r) (pl_on_message r) (pl_on_completion r) (pl_transport r)
    (Some cq) (pl_starting r) (pl_stored r) (pl_joining r) (pl_broken r)
    (pl_messages r) (pl_events r) (pl_sent r) (pl_pushed r).

Definition handled (ms : list Message) (es : list CompletionEvent) (r : PollerRun) : PollerRun :=
  mkPollerRun (pl_poller r) (pl_pc r) (pl_on_message r) (pl_on_completion r) (pl_transport r)
    (pl_completions r) (pl_starting r) (pl_stored r) (pl_joining r) (pl_broken r)
    (pl_messages r ++ ms) (pl_events r ++ es) (pl_sent r) (pl_pushed r).

Definition arrives (ms : list Message) (es : list CompletionEvent) (r : PollerRun) : PollerRun :=
  mkPollerRun (pl_poller r) (pl_pc r) (pl_on_message r) (pl_on_completion r) (pl_transport r)
    (pl_completions r) (pl_starting r) (pl_stored r) (pl_joining r) (pl_broken r)
    (pl_messages r) (pl_events r) (pl_sent r ++ ms) (pl_pushed r ++ es).

(** The poller and the calls under way. *)
Definition with_calls (p : Poller) (starting : list (bool * bool)) (stored joining : nat)
    (r : PollerRun) : PollerRun :=
  mkPollerRun p (pl_pc r) (pl_on_message r) (pl_on_completion r) (pl_transport r)
    (pl_completions r) starting stored joining (pl_broken r)
    (pl_messages r) (pl_events r) (pl_sent r) (pl_pushed r).

Definition with_handlers (h : bool * bool) (r : PollerRun) : PollerRun :=
  mkPollerRun (pl_poller r) (pl_pc r) h.1 h.2 (pl_transport r)
    (pl_completions r) (pl_starting r) (pl_stored r) (pl_joining r) (pl_broken r)
    (pl_messages r) (pl_events r) (pl_sent r) (pl_pushed r).

Definition broken (r : PollerRun) : PollerRun :=
  mkPollerRun (pl_poller r) (pl_pc r) (pl_on_message r) (pl_on_completion r) (pl_transport r)
    (pl_completions r) (pl_starting r) (pl_stored r) (pl_joining r) true
    (pl_messages r) (pl_events r) (pl_sent r) (pl_pushed r).

(** The tests of the three [if]s. *)
Definition receives (r : PollerRun) : bool := bool_decide (is_Some (pl_transport r)) && pl_on_message r.

Definition polls (r : PollerRun) : bool :=
  bool_decide (is_Some (pl_completions r)) && pl_on_completion r.

Definition sleeps (r : PollerRun) : bool :=
  negb (bool_decide (is_Some (pl_transport r))) && negb (bool_decide (is_Some (pl_completions r))).

(** The thread's next step; [None] when it is gone.  A timed wait returns at any moment,
    with the value of its predicate. *)
Definition poller_next (r : PollerRun) : option PollerRun :=
  match pl_pc r with
  | PgGone => None
  | PgTest =>
      Some (if po_running (pl_poller r) then
              match pl_transport r with
              | Some t =>
                  if pl_on_message r
                  then at_pc PgReceive (with_transport (PollReceive_enter (po_node_id (pl_poller r)) t) r)
                  else at_pc PgSecond r
              | None => at_pc PgSecond r
              end
            else at_pc PgGone r)
  | PgReceive =>
      match pl_transport r with
      | Some t =>
          let '(message, t') := PollReceive_return (po_node_id (pl_poller r)) t in
          Some (at_pc (match message with Some m => PgMessage m | None => PgSecond end)
                  (with_transport t' r))
      | None => Some (at_pc PgSecond r)
      end
  | PgMessage m => Some (at_pc PgSecond (handled [m] [] r))
  | PgSecond => Some (at_pc (if polls r then PgPoll else PgThird) r)
  | PgPoll =>
      match pl_completions r with
      | Some cq =>
          let '(event, cq') := Poll cq in
          Some (at_pc (match event with Some e => PgEvent e | None => PgThird end)
                  (with_completions cq' r))
      | None => Some (at_pc PgThird r)
      end
  | PgEvent e => Some (at_pc PgThird (handled [] [e] r))
  | PgThird => Some (at_pc (if sleeps r then PgSleep else PgTest) r)
  | PgSleep => Some (at_pc PgTest r)
  end.

Definition poller_own (r r' : PollerRun) : Prop :=
  pl_broken r = false /\ poller_next r = Some r'.

(** ** Start and Stop, one access at a time *)

(** [running_.exchange(true)] of a [Start] that finds the flag clear.  One that finds it set
    returns false. *)
Definition start_set (h : bool * bool) (r : PollerRun) : PollerRun :=
  with_calls (poller_set (pl_poller r)) (h :: pl_starting r) (pl_stored r) (pl_joining r) r.

(** The assignment to [thread_]: on a joinable thread it ends the process. *)
Definition start_create (h : bool * bool) (others : list (bool * bool)) (r : PollerRun) : PollerRun :=
  if po_joinable (pl_poller r) then broken r
  else with_calls (poller_spawn (pl_poller r)) others (pl_stored r) (pl_joining r)
         (with_handlers h (at_pc PgTest r)).

(** [running_.store(false)]. *)
Definition stop_store (r : PollerRun) : PollerRun :=
  with_calls (poller_clear (pl_poller r)) (pl_starting r) (S (pl_stored r)) (pl_joining r) r.

(** [thread_.joinable()]: the call returns or joins; to join a thread that another call is
    joining is undefined. *)
Definition stop_test (left : nat) (r : PollerRun) : PollerRun :=
  if po_joinable (pl_poller r) then
    match pl_joining r with
    | O => with_calls (pl_poller r) (pl_starting r) left 1 r
    | S _ => broken r
    end
  else with_calls (pl_poller r) (pl_starting r) left (pl_joining r) r.

(** The join returns. *)
Definition stop_joined (left : nat) (r : PollerRun) : PollerRun :=
  with_calls (poller_join (pl_poller r)) (pl_starting r) (pl_stored r) left r.

(** The other threads. *)
Inductive poller_outside : PollerRun -> PollerRun -> Prop :=
(** A message is delivered to the poller's node. *)
| po_send m t r :
    pl_transport r = Some t ->
    poller_outside r (arrives [m] [] (with_transport (deliver (po_node_id (pl_poller r)) m t) r))
(** Anything that leaves the poller's inbox alone: messages for other nodes, their
    receives, new connections. *)
| po_elsewhere t t' r :
    pl_transport r = Some t -> tr_config t' = tr_config t ->
    inbox (po_node_id (pl_poller r)) t' = inbox (po_node_id (pl_poller r)) t ->
    poller_outside r (with_transport t' r)
| po_push e cq r :
    pl_completions r = Some cq ->
    poller_outside r (arrives [] [e] (with_completions (Push_locked e cq) r))
| po_start h r : po_running (pl_poller r) = false -> poller_outside r (start_set h r)
| po_create h s1 s2 r :
    pl_starting r = s1 ++ h :: s2 -> poller_outside r (start_create h (s1 ++ s2) r)
| po_stop r : poller_outside r (stop_store r)
| po_test left r : pl_stored r = S left -> poller_outside r (stop_test left r)
| po_joined left r :
    pl_joining r = S left -> pl_pc r = PgGone -> poller_outside r (stop_joined left r).

Definition poller_any (r r' : PollerRun) : Prop :=
  poller_own r r' \/ pl_broken r = false /\ poller_outside r r'.

(** The calls of [Start] and [Stop] that have not returned. *)
Definition calls (r : PollerRun) : nat := length (pl_starting r) + pl_stored r + pl_joining r.

(** Runs in which no two calls overlap. *)
Definition poller_calm (r r' : PollerRun) : Prop := poller_any r r' /\ calls r' <= 1.

(** ** Invariants *)

(** What the thread has taken and not yet handed to a handler. *)
Definition in_hand (pc : poller_pc) : list Message :=
  match pc with PgMessage m => [m] | _ => [] end.

Definition in_hand_event (pc : poller_pc) : list CompletionEvent :=
  match pc with PgEvent e => [e] | _ => [] end.

Definition messages_account (config : TransportConfig) (r : PollerRun) : Prop :=
  exists t, pl_transport r = Some t /\ tr_config t = config /\
    fifo_ledger (tc_mailbox_capacity config) (pl_sent r) (pl_messages r ++ in_hand (pl_pc r))
      (inbox (po_node_id (pl_poller r)) t).

Definition events_account (config : CompletionQueueConfig) (r : PollerRun) : Prop :=
  exists cq, pl_completions r = Some cq /\ cq_config cq = config /\
    fifo_ledger (cq_depth config) (pl_pushed r) (pl_events r ++ in_hand_event (pl_pc r)) (cq_queue cq).

(** There is a thread only while [thread_] is joinable, and at most one call joins it. *)
Record poller_inv (r : PollerRun) : Prop := {
  pv_thread : po_joinable (pl_poller r) = false -> pl_pc r = PgGone;
  pv_one : pl_joining r <= 1;
  pv_joining : pl_joining r = 1 -> po_joinable (pl_poller r) = true;
}.

(** What calls that do not overlap find. *)
Record calm_inv (r : PollerRun) : Prop := {
  ca_broken : pl_broken r = false;
  ca_calls : calls r <= 1;
  ca_idle : calls r = 0 -> po_joinable (pl_poller r) = po_running (pl_poller r);
  ca_starting : pl_starting r <> [] ->
    po_joinable (pl_poller r) = false /\ po_running (pl_poller r) = true;
  ca_stopping : pl_stored r + pl_joining r <> 0 -> po_running (pl_poller r) = false;
}.

(** ** Lemmas *)

(** The accesses in a row. *)
Lemma poller_Start_parts p :
  poller_Start p = if po_running p then (false, p) else (true, poller_spawn (poller_set p)).
Proof. done. Qed.

Lemma poller_Stop_parts p : poller_join (poller_clear p) = poller_Stop p.
Proof. done. Qed.

Lemma poller_next_frame r r' :
  poller_next r = Some r' ->
  pl_poller r' = pl_poller r /\ pl_sent r' = pl_sent r /\
  pl_pushed r' = pl_pushed r /\ pl_on_message r' = pl_on_message r /\
  pl_on_completion r' = pl_on_completion r /\ pl_starting r' = pl_starting r /\
  pl_stored r' = pl_stored r /\ pl_joining r' = pl_joining r /\ pl_broken r' = pl_broken r.
Proof.
  unfold poller_next. intros E.
  repeat (case_match || (case_decide)); simplify_eq/=; done.
Qed.

Ltac case_outside Hstep :=
  destruct Hstep as [m t0 r Ht0|t0 t' r Ht0 Hc0 Hi|e cq r Hq|h r Hrun|h s1 s2 r Hst|r|left r Hsd|left r Hjo Hg].

Lemma poller_inv_step r r' : poller_any r r' -> poller_inv r -> poller_inv r'.
Proof.
  intros [[_ E]|[_ Hstep]] [H1 H2 H3].
  - destruct (poller_next_frame r r' E) as (E1 & _ & _ & _ & _ & _ & _ & E2 & _).
    constructor; rewrite ?E1, ?E2; try done. intros Hj. specialize (H1 Hj).
    unfold poller_next in E. by rewrite H1 in E.
  - case_outside Hstep; try (by constructor).
    + unfold start_create. destruct (po_joinable (pl_poller r)) eqn:Ej; constructor; simpl; auto; congruence.
    + unfold stop_test. destruct (po_joinable (pl_poller r)) eqn:Ej;
        [destruct (pl_joining r) eqn:Eo|]; constructor; simpl; rewrite ?Ej, ?Eo in *; auto; lia.
    + constructor; simpl; [done|lia|lia].
Qed.

Lemma calm_inv_step r r' : poller_calm r r' -> calm_inv r -> calm_inv r'.
Proof.
  intros [[[_ E]|[_ Hstep]] Hc'] [H1 H2 H3 H4 H5].
  - destruct (poller_next_frame r r' E) as (E1 & _ & _ & _ & _ & E2 & E3 & E4 & E5).
    unfold calls in *. constructor; unfold calls; rewrite ?E1, ?E2, ?E3, ?E4, ?E5; done.
  - unfold calls in *. case_outside Hstep; try (by constructor).
    + simpl in Hc'. constructor; unfold calls; simpl; [done|lia|lia|by rewrite H3 by lia|lia].
    + assert (Hne : pl_starting r <> []) by (rewrite Hst; by destruct s1).
      destruct (H4 Hne) as [Hj Hr]. rewrite Hst, length_app in H2. simpl in H2.
      destruct s1; [|simpl in H2; lia]. destruct s2; [|simpl in H2; lia].
      unfold start_create in *. rewrite Hj in *. constructor; unfold calls; simpl; try done; lia.
    + simpl in Hc'. destruct (pl_starting r) eqn:Es; [|simpl in Hc'; lia].
      constructor; unfold calls; simpl; rewrite ?Es; simpl; try done; lia.
    + assert (Hr : po_running (pl_poller r) = false) by (apply H5; lia).
      destruct (pl_starting r) eqn:Es; [|simpl in H2; lia].
      unfold stop_test in *. destruct (po_joinable (pl_poller r)) eqn:Ej; [destruct (pl_joining r); [|lia]|];
        constructor; unfold calls; simpl; rewrite ?Es; simpl; try done; try lia; congruence.
    + assert (Hr : po_running (pl_poller r) = false) by (apply H5; lia).
      destruct (pl_starting r) eqn:Es; [|simpl in H2; lia].
      constructor; unfold calls; simpl; rewrite ?Es; simpl; try done; lia.
Qed.

(** One step of the thread moves at most the front of the inbox into its hand, and what
    is in its hand to the handler. *)
Lemma messages_account_own config r r' :
  poller_next r = Some r' -> messages_account config r -> messages_account config r'.
Proof.
  intros E (t & Ht & Hc & HL). pose proof (poller_next_frame r r' E) as (Ep & Es & _).
  unfold messages_account. rewrite Ep, Es. unfold poller_next in E.
  destruct (pl_pc r) eqn:Epc; simpl in HL; rewrite ?Ht in E; try done.
  - destruct (po_running (pl_poller r)); [destruct (pl_on_message r)|]; injection E as <-; simpl.
    + eexists. split; [done|]. unfold PollReceive_enter.
      by rewrite try_emplace_config, try_emplace_inbox.
    + by exists t.
    + by exists t.
  - destruct (PollReceive_return_inbox (po_node_id (pl_poller r)) (po_node_id (pl_poller r)) t)
      as (E1 & E2 & E3).
    destruct (PollReceive_return _ t) as [m t']. injection E as <-. simpl in *.
    exists t'. rewrite E2, E3, decide_True by done. split_and!; [done..|].
    rewrite app_nil_r in HL. destruct (inbox _ t) as [|m0 rest]; simpl in E1; subst m; simpl;
      rewrite ?app_nil_r; eauto with cpp.
  - injection E as <-. simpl. exists t. by rewrite app_nil_r.
  - injection E as <-. simpl. exists t. by destruct (polls r).
  - destruct (pl_completions r) as [cq|]; [destruct (Poll cq) as [[e|] cq']|]; injection E as <-; by exists t.
  - injection E as <-. simpl. exists t. by rewrite !app_nil_r in *.
  - injection E as <-. simpl. exists t. by destruct (sleeps r).
  - injection E as <-. by exists t.
Qed.

Lemma events_account_own config r r' :
  poller_next r = Some r' -> events_account config r -> events_account config r'.
Proof.
  intros E (cq & Hq & Hc & HL). pose proof (poller_next_frame r r' E) as (_ & _ & Es & _).
  unfold events_account. rewrite Es. unfold poller_next in E.
  destruct (pl_pc r) eqn:Epc; simpl in HL; rewrite ?Hq in E; try done.
  - destruct (po_running (pl_poller r)); [destruct (pl_transport r); [destruct (pl_on_message r)|]|];
      injection E as <-; by exists cq.
  - destruct (pl_transport r) as [t|]; [destruct (PollReceive_return _ t) as [[m|] t']|];
      injection E as <-; by exists cq.
  - injection E as <-. simpl. exists cq. by rewrite !app_nil_r in *.
  - injection E as <-. simpl. exists cq. by destruct (polls r).
  - unfold Poll in E. rewrite app_nil_r in HL.
    destruct (cq_queue cq) as [|e rest] eqn:El; injection E as <-; simpl; eexists; (split; [done|]).
    + by rewrite app_nil_r, El.
    + split; [done|]. simpl. eauto with cpp.
  - injection E as <-. simpl. exists cq. by rewrite app_nil_r.
  - injection E as <-. simpl. exists cq. by destruct (sleeps r).
  - injection E as <-. by exists cq.
Qed.

(** The calls of [Start] and [Stop] take and hand over nothing. *)
Lemma calls_frame r r' :
  poller_outside r r' -> poller_inv r ->
  (exists ms es, pl_sent r' = pl_sent r ++ ms /\ pl_pushed r' = pl_pushed r ++ es) /\
  pl_messages r' = pl_messages r /\ pl_events r' = pl_events r /\
  in_hand (pl_pc r') = in_hand (pl_pc r) /\ in_hand_event (pl_pc r') = in_hand_event (pl_pc r) /\
  po_node_id (pl_poller r') = po_node_id (pl_poller r).
Proof.
  intros Hstep HV.
  assert (H0 : forall l : list Message, forall k : list CompletionEvent,
    exists ms es, l = l ++ ms /\ k = k ++ es) by (intros l k; exists [], []; by rewrite !app_nil_r).
  case_outside Hstep; unfold start_create, stop_test; try (split_and!; by eauto).
  - destruct (po_joinable (pl_poller r)) eqn:Ej; [split_and!; by eauto|].
    rewrite (pv_thread _ HV Ej). split_and!; by eauto.
  - destruct (po_joinable (pl_poller r)); [destruct (pl_joining r)|]; split_and!; by eauto.
Qed.

Lemma messages_account_step config r r' :
  poller_any r r' -> poller_inv r -> messages_account config r -> messages_account config r'.
Proof.
  intros [[_ Hstep]|[_ Hstep]] HV HA; [by eapply messages_account_own|].
  destruct HA as (t & Ht & Hc & HL). destruct (calls_frame _ _ Hstep HV) as (_ & E1 & _ & E2 & _ & E3).
  unfold messages_account. rewrite E1, E2, E3.
  case_outside Hstep; unfold start_create, stop_test; simpl; rewrite ?Ht in *; simplify_eq.
  - eexists. split_and!; [done|done|]. rewrite deliver_inbox, decide_True by done. by apply ledger_put.
  - eexists. split_and!; [done|by rewrite Hc0|]. by rewrite Hi.
  - exists t. by rewrite app_nil_r.
  - by exists t.
  - destruct (po_joinable (pl_poller r)); by exists t.
  - by exists t.
  - destruct (po_joinable (pl_poller r)); [destruct (pl_joining r)|]; by exists t.
  - by exists t.
Qed.

Lemma events_account_step config r r' :
  poller_any r r' -> poller_inv r -> events_account config r -> events_account config r'.
Proof.
  intros [[_ Hstep]|[_ Hstep]] HV HA; [by eapply events_account_own|].
  destruct HA as (cq0 & Hq0 & Hc & HL). destruct (calls_frame _ _ Hstep HV) as (_ & _ & E1 & _ & E2 & _).
  unfold events_account. rewrite E1, E2.
  case_outside Hstep; unfold start_create, stop_test; simpl; rewrite ?Hq0 in *; simplify_eq.
  - exists cq0. by rewrite app_nil_r.
  - by exists cq0.
  - eexists. split_and!; [done|done|]. by apply ledger_put.
  - by exists cq0.
  - destruct (po_joinable (pl_poller r)); by exists cq0.
  - by exists cq0.
  - destruct (po_joinable (pl_poller r)); [destruct (pl_joining r)|]; by exists cq0.
  - by exists cq0.
Qed.

Lemma poller_reachable node_id transport completions r :
  rtc poller_any (fresh_poller node_id transport completions) r -> poller_inv r.
Proof. intros Hrtc. apply (rtc_invariant _ _ poller_inv_step _ _ Hrtc). constructor; simpl; [done|lia|lia]. Qed.

(** ** Lemmas: the thread after the flag has been cleared *)

(** How far the thread is from the loop's test. *)
Definition pc_left (pc : poller_pc) : nat :=
  match pc with
  | PgGone => 0 | PgTest => 1 | PgSleep => 2 | PgThird => 3 | PgEvent _ => 4 | PgPoll => 5
  | PgSecond => 6 | PgMessage _ => 7 | PgReceive => 8
  end.

(** The calls of the two handlers that are still possible on the way there. *)
Definition messages_left (pc : poller_pc) : nat :=
  match pc with PgReceive | PgMessage _ => 1 | _ => 0 end.

Definition events_left (pc : poller_pc) : nat :=
  match pc with
  | PgReceive | PgMessage _ | PgSecond | PgPoll | PgEvent _ => 1 | _ => 0
  end.

(** Runs of all threads in which the flag stays clear; the number counts the steps of the
    polling thread. *)
Inductive quiet_run : nat -> PollerRun -> PollerRun -> Prop :=
| quiet_none r : quiet_run 0 r r
| quiet_own k r r1 r' :
    poller_own r r1 -> quiet_run k r1 r' -> quiet_run (S k) r r'
| quiet_other k r r1 r' :
    pl_broken r = false -> poller_outside r r1 -> po_running (pl_poller r1) = false ->
    quiet_run k r1 r' -> quiet_run k r r'.

Lemma pc_left_own r r' :
  poller_next r = Some r' -> po_running (pl_poller r) = false ->
  pc_left (pl_pc r') < pc_left (pl_pc r) /\
  (exists ms, pl_messages r' = pl_messages r ++ ms /\
     length ms + messages_left (pl_pc r') <= messages_left (pl_pc r)) /\
  (exists es, pl_events r' = pl_events r ++ es /\
     length es + events_left (pl_pc r') <= events_left (pl_pc r)).
Proof.
  intros E Hr.
  assert (HR : forall (A : Type) (l : list A) a b, a <= b -> exists ms, l = l ++ ms /\ length ms + a <= b)
    by (intros A l a b Hab; exists []; rewrite app_nil_r; simpl; split; [done|lia]).
  unfold poller_next in E. rewrite Hr in E. destruct (pl_pc r) as [| | |m| | |e| |]; try done;
    repeat case_match; simplify_eq/=; split_and!; try lia; try (apply HR; lia); try (by eexists);
    eexists; (split; [reflexivity|]); simpl; lia.
Qed.

Lemma quiet_bound k r r' :
  quiet_run k r r' -> poller_inv r -> po_running (pl_poller r) = false -> pl_starting r = [] ->
  po_running (pl_poller r') = false /\ pl_starting r' = [] /\ poller_inv r' /\
  k + pc_left (pl_pc r') <= pc_left (pl_pc r) /\
  (exists ms, pl_messages r' = pl_messages r ++ ms /\
     length ms + messages_left (pl_pc r') <= messages_left (pl_pc r)) /\
  (exists es, pl_events r' = pl_events r ++ es /\
     length es + events_left (pl_pc r') <= events_left (pl_pc r)).
Proof.
  induction 1 as [r|k r r1 r' [Hb E] _ IH|k r r1 r' Hb Hstep Hr1 _ IH]; intros HV Hr Hnone.
  - split_and!; try done; exists []; rewrite app_nil_r; simpl; (split; [done|lia]).
  - destruct (poller_next_frame r r1 E) as (E1 & _ & _ & _ & _ & E2 & _).
    destruct (pc_left_own r r1 E Hr) as (L & (ms & M1 & M2) & (es & V1 & V2)).
    destruct IH as (I1 & I2 & I3 & I4 & (ms' & M1' & M2') & (es' & V1' & V2'));
      [by eapply poller_inv_step; [left|]|by rewrite E1|by rewrite E2|].
    split_and!; try done; [lia| |].
    + exists (ms ++ ms'). rewrite M1', M1, app_assoc, length_app. split; [done|lia].
    + exists (es ++ es'). rewrite V1', V1, app_assoc, length_app. split; [done|lia].
  - assert (Hs1 : pl_starting r1 = [] /\ pl_pc r1 = pl_pc r).
    { case_outside Hstep; simpl in *; try done; [rewrite Hnone in Hst; by destruct s1|].
      unfold stop_test. by repeat case_match. }
    destruct Hs1 as [Hs1 Hpc]. destruct (calls_frame _ _ Hstep HV) as (_ & E1 & E2 & _).
    rewrite <- Hpc, <- E1, <- E2. apply IH; [|done|done]. by eapply poller_inv_step; [right|].
Qed.

(** The calls in which a round can wait. *)
Definition blocking (pc : poller_pc) : bool :=
  match pc with PgReceive | PgPoll | PgSleep => true | _ => false end.

(** ** One round, as a function and as steps *)

Lemma poller_own_receive r t :
  pl_broken r = false -> pl_pc r = PgTest -> po_running (pl_poller r) = true -> pl_transport r = Some t ->
  pl_on_message r = true ->
  let '(message, t') := PollReceive (po_node_id (pl_poller r)) t in
  rtc poller_own r (at_pc PgSecond (handled (option_list message) [] (with_transport t' r))).
Proof.
  intros Hb Hpc Hr Ht Hm. unfold PollReceive.
  set (t1 := PollReceive_enter _ t). destruct (PollReceive_return _ t1) as [message t'] eqn:E.
  eapply rtc_l with (at_pc PgReceive (with_transport t1 r)).
  { split; [done|]. unfold poller_next. by rewrite Hpc, Hr, Ht, Hm. }
  eapply rtc_l with (at_pc (match message with Some m => PgMessage m | None => PgSecond end)
    (with_transport t' r)).
  { split; [done|]. unfold poller_next. simpl. by rewrite E. }
  destruct message as [m|]; [by apply rtc_once|]. unfold handled. simpl. rewrite !app_nil_r. apply rtc_refl.
Qed.

Lemma poller_own_poll r cq :
  pl_broken r = false -> pl_pc r = PgSecond -> pl_completions r = Some cq -> pl_on_completion r = true ->
  let '(event, cq') := Poll cq in
  rtc poller_own r (at_pc PgThird (handled [] (option_list event) (with_completions cq' r))).
Proof.
  intros Hb Hpc Hq Hc. destruct (Poll cq) as [event cq'] eqn:E.
  eapply rtc_l with (at_pc PgPoll r).
  { split; [done|]. unfold poller_next, polls. by rewrite Hpc, Hq, Hc. }
  eapply rtc_l with (at_pc (match event with Some e => PgEvent e | None => PgThird end)
    (with_completions cq' r)).
  { split; [done|]. unfold poller_next. simpl. by rewrite Hq, E. }
  destruct event as [e|]; [by apply rtc_once|]. unfold handled. simpl. rewrite !app_nil_r. apply rtc_refl.
Qed.

Lemma poller_own_rest r : pl_broken r = false -> pl_pc r = PgThird -> rtc poller_own r (at_pc PgTest r).
Proof.
  intros Hb Hpc. destruct (sleeps r) eqn:E.
  - eapply rtc_l with (at_pc PgSleep r); [split; [done|]; unfold poller_next; by rewrite Hpc, E|].
    by apply rtc_once.
  - apply rtc_once. split; [done|]. unfold poller_next. by rewrite Hpc, E.
Qed.

(** The two polling parts of a round, whether they are skipped or not. *)
Lemma poller_own_first r w :
  pl_broken r = false -> pl_pc r = PgTest -> po_running (pl_poller r) = true -> w_transport w = pl_transport r ->
  let '(message, w1) :=
    match w_transport w with
    | Some _ => if pl_on_message r then poll_receive (po_node_id (pl_poller r)) w else (None, w)
    | None => (None, w)
    end in
  exists r', rtc poller_own r r' /\ pl_broken r' = false /\ pl_pc r' = PgSecond /\ pl_transport r' = w_transport w1 /\
    pl_completions r' = pl_completions r /\ pl_on_completion r' = pl_on_completion r /\
    pl_messages r' = pl_messages r ++ option_list message /\ pl_events r' = pl_events r.
Proof.
  intros Hb Hpc Hr Hw. destruct (pl_transport r) as [t|] eqn:Ht; rewrite Hw.
  - destruct (pl_on_message r) eqn:Hm.
    + pose proof (poller_own_receive r t Hb Hpc Hr Ht Hm) as H. unfold poll_receive. rewrite Hw.
      destruct (PollReceive _ t) as [message t']. eexists. split; [exact H|].
      unfold handled. simpl. by rewrite app_nil_r.
    + exists (at_pc PgSecond r). simpl. rewrite app_nil_r, Hw. split_and!; try done.
      apply rtc_once. split; [done|]. unfold poller_next. by rewrite Hpc, Hr, Ht, Hm.
  - exists (at_pc PgSecond r). simpl. rewrite app_nil_r, Hw. split_and!; try done.
    apply rtc_once. split; [done|]. unfold poller_next. by rewrite Hpc, Hr, Ht.
Qed.

Lemma poller_own_second r :
  pl_broken r = false -> pl_pc r = PgSecond ->
  let '(event, completions1) :=
    match pl_completions r with
    | Some cq =>
        if pl_on_completion r then let '(e, cq') := Poll cq in (e, Some cq')
        else (None, pl_completions r)
    | None => (None, None)
    end in
  exists r', rtc poller_own r r' /\ pl_pc r' = PgTest /\ pl_transport r' = pl_transport r /\
    pl_completions r' = completions1 /\ pl_messages r' = pl_messages r /\
    pl_events r' = pl_events r ++ option_list event.
Proof.
  intros Hb Hpc.
  assert (Hskip : polls r = false -> rtc poller_own r (at_pc PgTest r)).
  { intros Hp. eapply rtc_l with (at_pc PgThird r);
      [split; [done|]; unfold poller_next; by rewrite Hpc, Hp|]. by apply (poller_own_rest (at_pc PgThird r)). }
  destruct (pl_completions r) as [cq|] eqn:Hq; [destruct (pl_on_completion r) eqn:Hc|].
  - pose proof (poller_own_poll r cq Hb Hpc Hq Hc) as H. destruct (Poll cq) as [event cq'].
    eexists. split; [etrans; [exact H|]; by apply poller_own_rest|]. simpl. by rewrite app_nil_r.
  - exists (at_pc PgTest r). simpl. rewrite app_nil_r. split_and!; try done.
    apply Hskip. unfold polls. by rewrite Hc, andb_false_r.
  - exists (at_pc PgTest r). simpl. rewrite app_nil_r. split_and!; try done.
    apply Hskip. unfold polls. by rewrite Hq.
Qed.

(** The flags of the three tests do not change along the thread's steps. *)
Lemma poller_own_tests r r' :
  poller_own r r' -> receives r' = receives r /\ polls r' = polls r /\ sleeps r' = sleeps r.
Proof.
  intros [_ E]. unfold poller_next, receives, polls, sleeps in *.
  repeat case_match; simplify_eq/=; repeat match goal with H : pl_transport _ = _ |- _ => rewrite ?H in * end;
    repeat match goal with H : pl_completions _ = _ |- _ => rewrite ?H in * end; done.
Qed.

(** ** Properties *)

(** C18. The poller beside any other threads.  Over every interleaving of its loop with
    sends, pushes and any number of [Start]s and [Stop]s at once, up to the point where
    the process ends: the messages the handler was called with, then the one in the
    thread's hand, and what waits in the inbox account for what was sent to the node, as
    for a drop-oldest queue, and the same holds of completions; and there is a thread
    only while [thread_] is joinable, so never two.  If no two calls of [Start] and [Stop]
    overlap, the process is never ended by an assignment over a joinable thread, and
    between calls the thread object is joinable exactly while the flag is set, and without
    the flag there is no thread. *)
Theorem poller_account (node_id : string) (tconfig : TransportConfig)
    (cconfig : CompletionQueueConfig) (r : PollerRun) :
  let r0 := fresh_poller node_id (Some tconfig) (Some cconfig) in
  (rtc poller_any r0 r ->
   (exists t, pl_transport r = Some t /\
      fifo_account (tc_mailbox_capacity tconfig) (pl_sent r)
        (pl_messages r ++ in_hand (pl_pc r)) (inbox (po_node_id (pl_poller r)) t)) /\
   (exists cq, pl_completions r = Some cq /\
      fifo_account (cq_depth cconfig) (pl_pushed r)
        (pl_events r ++ in_hand_event (pl_pc r)) (cq_queue cq)) /\
   (pl_pc r <> PgGone -> po_joinable (pl_poller r) = true)) /\
  (rtc poller_calm r0 r ->
   pl_broken r = false /\
   (calls r = 0 ->
      po_joinable (pl_poller r) = po_running (pl_poller r) /\
      (po_running (pl_poller r) = false -> pl_pc r = PgGone))).
Proof.
  cbv zeta. split.
  - intros Hrtc.
    assert (HI : poller_inv r /\ messages_account tconfig r /\ events_account cconfig r).
    { apply (rtc_invariant poller_any (fun r => poller_inv r /\ messages_account tconfig r /\
        events_account cconfig r)) in Hrtc; [done| |].
      - intros a b Hab (H1 & H2 & H3). split_and!;
          [by eapply poller_inv_step|by eapply messages_account_step|by eapply events_account_step].
      - split_and!; [constructor; simpl; [done|lia|lia]|..]; eexists; (split_and!; [done|done|apply ledger_nil]). }
    destruct HI as ([H1 _ _] & (t & Ht & _ & HL) & (cq & Hq & _ & HL')). split_and!.
    + exists t. split; [done|]. by apply ledger_spec.
    + exists cq. split; [done|]. by apply ledger_spec.
    + intros Hpc. destruct (po_joinable (pl_poller r)); [done|]. by destruct Hpc; apply H1.
  - intros Hrtc.
    assert (HV : poller_inv r) by (eapply poller_reachable, rtc_subrel; [|exact Hrtc]; by intros ?? [? _]).
    assert (HC : calm_inv r) by (apply (rtc_invariant _ _ calm_inv_step _ _ Hrtc);
      constructor; unfold calls; simpl; [done|lia|done|done|lia]).
    destruct HC as [H1 _ H3 _ _]. split; [done|]. intros Hz. split; [by apply H3|].
    intros Hr. apply (pv_thread _ HV). by rewrite H3.
Qed.

(** C19. [Stop] ends: from the moment the flag has been cleared, with no [Start] half-way,
    and as long as no [Start] sets it again, the polling thread takes at most eight more
    steps and calls each handler at most once (it finishes the round it is in), whatever
    the other threads send, push and call meanwhile; until it is gone it can always take
    its next step; once it is gone no handler is called any more and a [Stop] that joins
    it can return. *)
Theorem poller_stop_ends (node_id : string) (transport : option TransportConfig)
    (completions : option CompletionQueueConfig) (r r' : PollerRun) (steps : nat) :
  rtc poller_any (fresh_poller node_id transport completions) r ->
  po_running (pl_poller r) = false -> pl_starting r = [] -> quiet_run steps r r' ->
  steps <= 8 /\
  (exists ms es, pl_messages r' = pl_messages r ++ ms /\ pl_events r' = pl_events r ++ es /\
     length ms <= 1 /\ length es <= 1 /\ (pl_pc r = PgGone -> ms = [] /\ es = [])) /\
  (pl_broken r' = false -> pl_pc r' <> PgGone -> red poller_own r') /\
  (pl_broken r' = false -> pl_pc r' = PgGone -> pl_joining r' <> 0 ->
     exists r'', poller_any r' r'' /\ pl_joining r'' = 0).
Proof.
  intros Hrtc Hr Hst Hq. pose proof (poller_reachable _ _ _ _ Hrtc) as HV.
  destruct (quiet_bound _ _ _ Hq HV Hr Hst) as (_ & _ & HV' & Hk & (ms & M1 & M2) & (es & V1 & V2)).
  assert (B : pc_left (pl_pc r) <= 8 /\ messages_left (pl_pc r) <= 1 /\ events_left (pl_pc r) <= 1)
    by (destruct (pl_pc r); simpl; lia).
  split_and!; [lia| | |].
  - exists ms, es. split_and!; try done; try lia. intros Hg. rewrite Hg in *. simpl in *.
    destruct ms, es; simpl in *; [done|lia..].
  - intros Hb Hpc. assert (is_Some (poller_next r')) as [r'' E]; [|by exists r''].
    unfold poller_next. destruct (pl_pc r'); try done; repeat case_match; eauto.
  - intros Hb Hpc Hj. pose proof (pv_one _ HV'). assert (E : pl_joining r' = 1) by lia.
    exists (stop_joined 0 r'). split; [|done]. right. split; [done|]. by apply po_joined.
Qed.

(** A [Start] now, its two accesses in a row. *)
Definition start_now (h : bool * bool) (r : PollerRun) : PollerRun :=
  start_create h (pl_starting r) (start_set h r).

Lemma start_now_run h r :
  pl_broken r = false -> po_running (pl_poller r) = false -> rtc poller_any r (start_now h r).
Proof.
  intros Hb Hr. apply rtc_l with (start_set h r); [right; split; [done|by apply po_start]|].
  apply rtc_once. right. split; [done|]. by apply (po_create h []).
Qed.

(** A poller that has handled nothing. *)
Definition calls_state (node_id : string) (transport : option TransportConfig)
    (completions : option CompletionQueueConfig) (running joinable : bool) (pc : poller_pc)
    (h : bool * bool) (starting : list (bool * bool)) (stored joining : nat) : PollerRun :=
  mkPollerRun (mkPoller node_id running joinable) pc h.1 h.2 (new_TransportRdma <$> transport)
    (new_CompletionQueue <$> completions) starting stored joining false [] [] [] [].

(** C20. [Start] and [Stop] must not overlap.  While a [Stop] waits in its join, a [Start] that finds
    the flag clear ends the process, since it assigns to a joinable thread.  And
    a [Stop] that comes between the two accesses of a [Start] returns without having
    stopped anything; it leaves a joinable thread behind a cleared flag, so that a later
    [Start] ends the process although no other call is under way then. *)
Theorem poller_start_races_stop (node_id : string) (transport : option TransportConfig)
    (completions : option CompletionQueueConfig) (h : bool * bool) :
  let r0 := fresh_poller node_id transport completions in
  (exists r, rtc poller_any r0 r /\ pl_joining r = 1 /\ po_running (pl_poller r) = false) /\
  (forall r, rtc poller_any r0 r -> pl_broken r = false -> pl_joining r = 1 ->
     po_running (pl_poller r) = false ->
     rtc poller_any r (start_now h r) /\ pl_broken (start_now h r) = true) /\
  (exists r, rtc poller_any r0 r /\ calls r = 0 /\ po_running (pl_poller r) = false /\
     pl_pc r = PgGone /\ rtc poller_any r (start_now h r) /\ pl_broken (start_now h r) = true).
Proof.
  cbv zeta. split_and!.
  - exists (calls_state node_id transport completions false true PgTest h [] 0 1). split; [|done].
    apply rtc_l with (calls_state node_id transport completions true false PgGone (false, false) [h] 0 0);
      [right; split; [done|]; by apply (po_start h)|].
    apply rtc_l with (calls_state node_id transport completions true true PgTest h [] 0 0);
      [right; split; [done|]; by apply (po_create h [] [])|].
    apply rtc_l with (calls_state node_id transport completions false true PgTest h [] 1 0);
      [right; split; [done|]; by apply po_stop|].
    apply rtc_once. right. split; [done|]. by apply (po_test 0).
  - intros r Hrtc Hb Hj Hr. pose proof (poller_reachable _ _ _ _ Hrtc) as HV.
    split; [by apply start_now_run|]. unfold start_now, start_create. simpl. by rewrite (pv_joining _ HV Hj).
  - exists (calls_state node_id transport completions false true PgGone h [] 0 0).
    split; [|split_and!; try done; by apply start_now_run].
    apply rtc_l with (calls_state node_id transport completions true false PgGone (false, false) [h] 0 0);
      [right; split; [done|]; by apply (po_start h)|].
    apply rtc_l with (calls_state node_id transport completions false false PgGone (false, false) [h] 1 0);
      [right; split; [done|]; by apply po_stop|].
    apply rtc_l with (calls_state node_id transport completions false false PgGone (false, false) [h] 0 0);
      [right; split; [done|]; by apply (po_test 0)|].
    apply rtc_l with (calls_state node_id transport completions false true PgTest h [] 0 0);
      [right; split; [done|]; by apply (po_create h [] [])|].
    apply rtc_once. left. by split.
Qed.

(** Alone, the loop is its function: from the loop's test with the flag set, the
    thread's steps go through one round and hand to the handlers exactly what
    [poll_round] computes on the same transport and queue. *)
Theorem poller_round_steps (r : PollerRun) (w : World) :
  pl_broken r = false -> pl_pc r = PgTest -> po_running (pl_poller r) = true -> w_transport w = pl_transport r ->
  let '(message, event, w', completions') :=
    poll_round (po_node_id (pl_poller r)) (pl_on_message r) (pl_on_completion r) w
      (pl_completions r) in
  exists r', rtc poller_own r r' /\ pl_pc r' = PgTest /\
    pl_transport r' = w_transport w' /\ pl_completions r' = completions' /\
    pl_messages r' = pl_messages r ++ option_list message /\
    pl_events r' = pl_events r ++ option_list event.
Proof.
  intros Hb Hpc Hr Hw. pose proof (poller_own_first r w Hb Hpc Hr Hw) as H1. unfold poll_round.
  destruct (match w_transport w with Some _ => _ | None => _ end) as [message w1].
  destruct H1 as (r1 & Hs1 & Hb1 & Hpc1 & Ht1 & Hq1 & Hc1 & Hm1 & He1).
  pose proof (poller_own_second r1 Hb1 Hpc1) as H2. rewrite Hq1, Hc1 in H2.
  destruct (match pl_completions r with Some _ => _ | None => _ end) as [event c1].
  destruct H2 as (r2 & Hs2 & Hpc2 & Ht2 & Hq2 & Hm2 & He2).
  exists r2. split_and!; [by etrans|done|congruence|done|congruence|congruence].
Qed.

(** When the loop spins: the rounds of a poller contain a call that waits (a receive, a
    poll or the sleep) exactly if it has a transport with a message handler, a queue
    with a completion handler, or neither a transport nor a queue.  A poller with a
    transport and without a handler, say, never waits while it runs. *)
Theorem poller_spins_iff (r : PollerRun) :
  pl_broken r = false -> pl_pc r = PgTest -> po_running (pl_poller r) = true ->
  (exists r', rtc poller_own r r' /\ blocking (pl_pc r') = true) <->
  receives r || polls r || sleeps r = true.
Proof.
  intros Hb0 Hpc Hr. split.
  - intros (r' & Hrtc & Hb). destruct (receives r || polls r || sleeps r) eqn:E; [done|exfalso].
    apply orb_false_iff in E as [E E3]. apply orb_false_iff in E as [E1 E2].
    assert (HI : (receives r' = false /\ polls r' = false /\ sleeps r' = false) /\
      blocking (pl_pc r') = false).
    { apply (rtc_invariant poller_own (fun r => (receives r = false /\ polls r = false /\ sleeps r = false)
        /\ blocking (pl_pc r) = false)) in Hrtc; [done| |by rewrite Hpc].
      intros a b Hab ((Ha1 & Ha2 & Ha3) & Ha4). destruct (poller_own_tests a b Hab) as (-> & -> & ->).
      split; [done|]. destruct Hab as [_ Hab]; unfold poller_next in Hab. rewrite Ha2, Ha3 in Hab.
      unfold receives in Ha1. destruct (pl_pc a); simpl in *; simplify_eq/=; try done.
      destruct (po_running (pl_poller a)); simplify_eq/=; [|done].
      destruct (pl_transport a); simplify_eq/=; [|done]. by rewrite Ha1 in *; simplify_eq/=. }
    destruct HI as [_ HI]. congruence.
  - intros E. destruct (receives r) eqn:E1.
    + unfold receives in E1. destruct (pl_transport r) as [t|] eqn:Ht; [|done].
      eexists (at_pc PgReceive _). split; [|done]. apply rtc_once. split; [done|]. unfold poller_next.
      simpl in E1. by rewrite Hpc, Hr, Ht, E1.
    + assert (H1 : rtc poller_own r (at_pc PgSecond r)).
      { apply rtc_once. split; [done|]. unfold poller_next. rewrite Hpc, Hr. unfold receives in E1.
        destruct (pl_transport r); [|done]. simpl in E1. by rewrite E1. }
      destruct (polls r) eqn:E2.
      * exists (at_pc PgPoll r). split; [|done]. eapply rtc_r; [exact H1|].
        split; [done|]. unfold poller_next. simpl. change (polls (at_pc PgSecond r)) with (polls r). by rewrite E2.
      * simpl in E. exists (at_pc PgSleep r). split; [|done]. etrans; [exact H1|].
        eapply rtc_l with (at_pc PgThird r);
          [split; [done|]; unfold poller_next; simpl; change (polls (at_pc PgSecond r)) with (polls r); by rewrite E2|].
        apply rtc_once. split; [done|]. unfold poller_next. simpl.
        change (sleeps (at_pc PgThird r)) with (sleeps r). by rewrite E.
Qed.

(** ** Witnesses *)

Definition poller_message : Message := mkMessage "b" "a" "t" "d" None 1 op_kSend.

(** Started with a message handler; a message arrives, is received and handled; then the
    flag is cleared. *)
Definition poller_served (stored : nat) : PollerRun :=
  mkPollerRun (mkPoller "a" (stored =? 0) true) PgSecond true false
    (Some (mkTransportRdma default_TransportConfig {["a" := []]}))
    (Some (new_CompletionQueue default_CompletionQueueConfig)) [] stored 0 false
    [poller_message] [] [poller_message] [].

Lemma poller_served_reached :
  rtc poller_any
    (fresh_poller "a" (Some default_TransportConfig) (Some default_CompletionQueueConfig))
    (poller_served 0).
Proof.
  eapply rtc_l; [right; split; [done|]; by apply (po_start (true, false))|].
  eapply rtc_l; [right; split; [done|]; by apply (po_create (true, false) [] [])|].
  eapply rtc_l; [left; by split|].
  eapply rtc_l; [right; split; [done|]; by eapply (po_send poller_message)|].
  eapply rtc_l; [left; by split|]. eapply rtc_l; [left; by split|]. apply rtc_refl.
Qed.

Lemma poller_stopped_reached :
  rtc poller_any
    (fresh_poller "a" (Some default_TransportConfig) (Some default_CompletionQueueConfig))
    (poller_served 1).
Proof.
  eapply rtc_r; [exact poller_served_reached|]. right. split; [done|]. by apply (po_stop (poller_served 0)).
Qed.

Lemma poller_account_witness :
  exists t, pl_transport (poller_served 0) = Some t /\
    fifo_account 4096 [poller_message] [poller_message] (inbox "a" t).
Proof.
  exact (proj1 (proj1 (poller_account "a" default_TransportConfig default_CompletionQueueConfig
    (poller_served 0)) poller_served_reached)).
Defined.

(** The thread goes on to the loop's third test. *)
Lemma poller_stop_ends_witness : red poller_own (at_pc PgThird (poller_served 1)).
Proof.
  refine (proj1 (proj2 (proj2 (poller_stop_ends "a" (Some default_TransportConfig)
    (Some default_CompletionQueueConfig) (poller_served 1) (at_pc PgThird (poller_served 1)) 1
    poller_stopped_reached eq_refl eq_refl _))) eq_refl _); [|discriminate].
  eapply quiet_own; [split; reflexivity | apply quiet_none].
Defined.

(** A round that receives the waiting message and finds no completion. *)
Lemma poller_round_steps_witness :
  exists r', rtc poller_own
    (mkPollerRun (mkPoller "a" true true) PgTest true true (w_transport poller_world)
       (Some poller_cq) [] 0 0 false [] [] [] []) r' /\ pl_events r' = [sample_event 1].
Proof.
  pose proof (poller_round_steps
    (mkPollerRun (mkPoller "a" true true) PgTest true true (w_transport poller_world)
       (Some poller_cq) [] 0 0 false [] [] [] []) poller_world eq_refl eq_refl eq_refl eq_refl) as H.
  destruct H as (r' & H1 & _ & _ & _ & _ & H2). exists r'. split; [exact H1 | exact H2].
Defined.

Lemma poller_spins_iff_witness :
  let r := mkPollerRun (mkPoller "a" true true) PgTest false false
             (Some (new_TransportRdma default_TransportConfig)) None [] 0 0 false [] [] [] [] in
  ~ exists r', rtc poller_own r r' /\ blocking (pl_pc r') = true.
Proof.
  intros r H.
  assert (E : receives r || polls r || sleeps r = true)
    by exact (proj1 (poller_spins_iff r eq_refl eq_refl eq_refl) H).
  vm_compute in E. discriminate.
Defined.
