(* ===== verification/WorkerSession.v ===== *)
(** * rdma/include/rdma/worker_session.h, rdma/src/worker_session.cpp

    A worker's endpoint: it submits tasks to peers, receives tasks, sends results
    and polls its completions. *)

From S2P Require Import Prelude CppString Types BoundedFifo WireLine TaskMessage ResultMessage.
From S2P Require Import Memory BufferPool QueuePair Connection Completion Metrics Transport.
From S2P Require Import World.

Record SubmissionResult := mkSubmissionResult {
  sr_task_id : string;
  sr_success : bool;
  sr_detail : string;
  sr_work_request_id : WorkRequestId;
}.

Record WorkerSession := mkWorkerSession {
  ws_config : WorkerSessionConfig;
  ws_registry : MemoryRegistry;
  ws_buffer_pool : BufferPool;
  ws_completions : CompletionQueue;
  ws_metrics : MetricsSnapshot;
  ws_peers : gmap string Connection;
  ws_next_work_request_id : WorkRequestId;
}.

Definition ws_node_id (s : WorkerSession) : string := wsc_node_id (ws_config s).

Definition set_peers (peers : gmap string Connection) (s : WorkerSession) : WorkerSession :=
  mkWorkerSession (ws_config s) (ws_registry s) (ws_buffer_pool s) (ws_completions s)
    (ws_metrics s) peers (ws_next_work_request_id s).

Definition set_registry (r : MemoryRegistry) (s : WorkerSession) : WorkerSession :=
  mkWorkerSession (ws_config s) r (ws_buffer_pool s) (ws_completions s)
    (ws_metrics s) (ws_peers s) (ws_next_work_request_id s).

Definition set_completions (cq : CompletionQueue) (s : WorkerSession) : WorkerSession :=
  mkWorkerSession (ws_config s) (ws_registry s) (ws_buffer_pool s) cq
    (ws_metrics s) (ws_peers s) (ws_next_work_request_id s).

Definition set_metrics (m : MetricsSnapshot) (s : WorkerSession) : WorkerSession :=
  mkWorkerSession (ws_config s) (ws_registry s) (ws_buffer_pool s) (ws_completions s)
    m (ws_peers s) (ws_next_work_request_id s).

(** [next_work_request_id_++]. *)
Definition next_id (s : WorkerSession) : WorkRequestId * WorkerSession :=
  (ws_next_work_request_id s,
   mkWorkerSession (ws_config s) (ws_registry s) (ws_buffer_pool s) (ws_completions s)
     (ws_metrics s) (ws_peers s) (u64 (ws_next_work_request_id s + 1))).

Definition EnsurePeer (peer : string) (w : World) (s : WorkerSession)
    : Connection * World * WorkerSession :=
  let '(connection, w', peers) := ensure_peer (ws_node_id s) peer w (ws_peers s) in
  (connection, w', set_peers peers s).

(** [target.empty() ? config_.node_id : target]. *)
Definition peer_of (target : string) (s : WorkerSession) : string :=
  if decide (target = "") then ws_node_id s else target.

Section session.
Context {AO : ArgOrder}.

(** The constructor builds the buffer pool on the session's own registry. *)
Definition new_WorkerSession (config : WorkerSessionConfig) (w : World)
    : World * WorkerSession :=
  let ps := new_BufferPool (wsc_buffer_pool config) (w_heap w) new_MemoryRegistry in
  (set_heap (ps_heap ps) w,
   mkWorkerSession config (ps_registry ps) (ps_pool ps)
     (new_CompletionQueue (wsc_completion_queue config)) new_Metrics ∅ 1).

Definition Submit (now : TimePoint) (task : TaskMessage) (w : World) (s : WorkerSession)
    : SubmissionResult * World * WorkerSession :=
  match w_transport w with
  | None =>
      (mkSubmissionResult (tm_task_id task) false "transport is not configured" 0, w, s)
  | Some _ =>
      let peer := peer_of (tm_target_node task) s in
      let '(connection, w1, s1) := EnsurePeer peer w s in
      let '(region, h2, r2) :=
        Register (TaskMessage.Serialize task) (w_heap w1) (ws_registry s1) in
      let w2 := set_heap h2 w1 in
      let s2 := set_registry r2 s1 in
      let '(work_request_id, s3) := next_id s2 in
      let '(w4, cq) :=
        post_send now (conn_queue_pair connection)
          (mkMessage (ws_node_id s3) peer "task" (tm_description task) (mr_storage region)
             work_request_id op_kSend) w2 (ws_completions s3) in
      let s4 := set_completions cq s3 in
      let s5 := set_metrics (RecordSend (mr_size region (w_heap w4)) (ws_metrics s4)) s4 in
      (mkSubmissionResult (tm_task_id task) true "task submitted through rdma session"
         work_request_id, w4, s5)
  end.

End session.

Definition PollTask (w : World) (s : WorkerSession) : option TaskMessage * World * WorkerSession :=
  match w_transport w with
  | None => (None, w, s)
  | Some _ =>
      let '(message, w1) := poll_receive (ws_node_id s) w in
      match message with
      | None => (None, w1, s)
      | Some m =>
          match msg_payload m with
          | None => (None, w1, s)
          | Some _ =>
              let s1 := set_metrics (RecordReceive (msg_size m (w_heap w1)) (ws_metrics s)) s in
              (Some (TaskMessage.Deserialize (deref (msg_payload m) (w_heap w1))), w1, s1)
          end
      end
  end.

Definition SendResult (now : TimePoint) (result : ResultMessage) (w : World) (s : WorkerSession)
    : bool * World * WorkerSession :=
  match w_transport w with
  | None => (false, w, s)
  | Some _ =>
      let peer := peer_of (rm_target_node result) s in
      let '(connection, w1, s1) := EnsurePeer peer w s in
      let bytes := ResultMessage.Serialize result in
      let '(payload, h2) := make_shared bytes (w_heap w1) in
      let w2 := set_heap h2 w1 in
      let '(work_request_id, s3) := next_id s1 in
      let '(w4, cq) :=
        post_send now (conn_queue_pair connection)
          (mkMessage (ws_node_id s3) peer "result" (rm_detail result) payload
             work_request_id op_kResult) w2 (ws_completions s3) in
      let s4 := set_completions cq s3 in
      let s5 := set_metrics (RecordSend (sizeZ bytes) (ws_metrics s4)) s4 in
      (true, w4, s5)
  end.

Definition PollCompletion (s : WorkerSession) : option CompletionEvent * WorkerSession :=
  let '(event, cq) := Poll (ws_completions s) in
  let s1 := set_completions cq s in
  match event with
  | Some e => (event, set_metrics (RecordCompletion e (ws_metrics s1)) s1)
  | None => (event, s1)
  end.

(** ** Invariant *)

Record session_wf (w : World) (s : WorkerSession) : Prop := {
  swf_peers : peers_wf (ws_node_id s) (ws_peers s);
  swf_registry : registry_wf (w_heap w) (ws_registry s);
}.

(** The message [Submit] sends, and the one [SendResult] sends. *)
Definition task_envelope (s : WorkerSession) (task : TaskMessage) (payload : ByteBufferPtr)
    (id : WorkRequestId) : Message :=
  let peer := peer_of (tm_target_node task) s in
  stamp (conn_queue_pair (ready_connection (ws_node_id s) peer))
    (mkMessage (ws_node_id s) peer "task" (tm_description task) payload id op_kSend).

Definition result_envelope (s : WorkerSession) (result : ResultMessage)
    (payload : ByteBufferPtr) (id : WorkRequestId) : Message :=
  let peer := peer_of (rm_target_node result) s in
  stamp (conn_queue_pair (ready_connection (ws_node_id s) peer))
    (mkMessage (ws_node_id s) peer "result" (rm_detail result) payload id op_kResult).

(** ** Histories *)

(** The operations of a session. *)
Inductive session_op :=
| SSubmit (now : TimePoint) (task : TaskMessage)
| SPollTask
| SSendResult (now : TimePoint) (result : ResultMessage)
| SPollCompletion.

Definition session_step `{ArgOrder} (op : session_op) (w : World) (s : WorkerSession)
    : WorkerSession :=
  match op with
  | SSubmit now task => (Submit now task w s).2
  | SPollTask => (PollTask w s).2
  | SSendResult now result => (SendResult now result w s).2
  | SPollCompletion => (PollCompletion s).2
  end.

(** A history of one session.  The world each operation meets is arbitrary, as
    other endpoints act in between. *)
Definition session_run `{ArgOrder} (history : list (session_op * World)) (s : WorkerSession)
    : WorkerSession :=
  fold_left (fun s e => session_step e.1 e.2 s) history s.

(** Submitting several tasks, and polling several times. *)
Fixpoint submit_all `{ArgOrder} (now : TimePoint) (tasks : list TaskMessage) (w : World)
    (s : WorkerSession) : World * WorkerSession :=
  match tasks with
  | [] => (w, s)
  | task :: rest => let '(_, w1, s1) := Submit now task w s in submit_all now rest w1 s1
  end.

Fixpoint poll_tasks (n : nat) (w : World) (s : WorkerSession)
    : list (option TaskMessage) * World * WorkerSession :=
  match n with
  | O => ([], w, s)
  | S n' =>
      let '(task, w1, s1) := PollTask w s in
      let '(tasks, w2, s2) := poll_tasks n' w1 s1 in
      (task :: tasks, w2, s2)
  end.

(** A session none of whose sends can fail: every peer connection is ready, and
    no failed completion was queued or counted. *)
Definition session_healthy (s : WorkerSession) : Prop :=
  peers_wf (ws_node_id s) (ws_peers s) /\
  Forall (fun e => ce_status e = cs_kSuccess) (cq_queue (ws_completions s)) /\
  mt_failed_completions (ws_metrics s) = 0%Z.

(** The message points at a live buffer holding the serialised task. *)
Definition carries (h : Heap) (m : Message) (task : TaskMessage) : Prop :=
  exists l, msg_payload m = Some l /\ hp_cells h !! l = Some (TaskMessage.Serialize task).

(** ** Lemmas *)

(** [Submit] with a transport, where the message fits: what it returns, sends,
    stores and counts. *)
Lemma Submit_spec `{ArgOrder} now task w s :
  session_wf w s -> is_Some (w_transport w) -> counters_ok (ws_registry s) ->
  has_room (peer_of (tm_target_node task) s) w ->
  exists payload w' s',
    Submit now task w s =
      (mkSubmissionResult (tm_task_id task) true "task submitted through rdma session"
         (ws_next_work_request_id s), w', s') /\
    live (w_heap w') payload /\
    deref payload (w_heap w') = TaskMessage.Serialize task /\
    w_heap w' = (make_shared (TaskMessage.Serialize task) (w_heap w)).2 /\
    (forall n, world_inbox n w' =
       if decide (n = peer_of (tm_target_node task) s)
       then world_inbox n w ++ [task_envelope s task payload (ws_next_work_request_id s)]
       else world_inbox n w) /\
    world_capacity w' = world_capacity w /\ is_Some (w_transport w') /\
    session_wf w' s' /\ ws_config s' = ws_config s /\
    Size (ws_registry s') = (Size (ws_registry s) + 1)%Z /\
    reg_next_region_id (ws_registry s') = (reg_next_region_id (ws_registry s) + 1)%Z /\
    reg_next_access_key (ws_registry s') = (reg_next_access_key (ws_registry s) + 2)%Z /\
    ws_next_work_request_id s' = u64 (ws_next_work_request_id s + 1) /\
    ws_completions s' = Push_locked
      (mkCompletionEvent (ws_next_work_request_id s) cs_kSuccess op_kSend (ws_node_id s)
         (peer_of (tm_target_node task) s) "send completed through in-memory RDMA backend" now
         (sizeZ (TaskMessage.Serialize task))) (ws_completions s) /\
    ws_metrics s' = RecordSend (sizeZ (TaskMessage.Serialize task)) (ws_metrics s).
Proof.
  intros [Hp Hr] Ht Hc Hroom. unfold Submit.
  destruct (w_transport w) as [t|] eqn:Et; [|by destruct Ht].
  set (peer := peer_of (tm_target_node task) s) in *.
  pose proof (ensure_peer_spec (ws_node_id s) peer w (ws_peers s) Hp) as HE.
  unfold EnsurePeer. destruct (ensure_peer _ _ _ _) as [[c w1] peers1].
  destruct HE as (-> & Hp1 & Hin1 & Hcap1 & Hh1 & _ & Htr1).
  simpl ws_registry. rewrite Hh1.
  destruct (Register _ _ _) as [[region h2] r2] eqn:ER.
  destruct (Register_spec _ _ _ _ _ _ Hr Hc ER) as (_ & Hst & Hh2 & Hid & Hak & Hm & Hfresh & _).
  pose proof (registry_wf_Register _ _ _ _ _ _ Hr Hc ER) as Hr2.
  destruct (Lookup_Register _ _ _ _ _ _ Hr Hc ER) as [_ HD].
  unfold next_id. cbv zeta.
  set (msg := mkMessage _ _ _ _ _ _ _).
  assert (Hroom2 : has_room peer (set_heap h2 w1)).
  { unfold has_room in *. change (world_capacity (set_heap h2 w1)) with (world_capacity w1).
    change (world_inbox peer (set_heap h2 w1)) with (world_inbox peer w1).
    by rewrite Hcap1, Hin1. }
  assert (Ht2 : is_Some (w_transport (set_heap h2 w1))) by (apply Htr1; rewrite Et; by eexists).
  pose proof (post_send_ready now (ws_node_id s) peer msg (set_heap h2 w1) (ws_completions s)
    Ht2 Hroom2) as HP.
  cbv zeta in HP. simpl ws_completions. destruct (post_send _ _ _ _ _) as [w4 cq].
  destruct HP as (Hin4 & -> & Hh4 & Hcap4 & Ht4).
  assert (Hlen : mr_size region h2 = sizeZ (TaskMessage.Serialize task))
    by (unfold mr_size, ptr_size; rewrite Hst in *; by rewrite HD).
  exists (mr_storage region), w4. eexists. simpl in Hh4.
  split; [reflexivity|]. rewrite Hh4. simpl.
  split_and!; auto.
  - exists (hp_next (w_heap w)), (TaskMessage.Serialize task). rewrite Hst, Hh2. simpl.
    by rewrite lookup_insert_eq.
  - intros n. rewrite Hin4. change (world_inbox n (set_heap h2 w1)) with (world_inbox n w1).
    by rewrite Hin1.
  - rewrite Hcap4. exact Hcap1.
  - constructor; simpl; [exact Hp1|]. by rewrite Hh4.
  - unfold Size. rewrite Hm, map_size_insert_None by done. lia.
  - f_equal. f_equal. exact Hlen.
  - by rewrite Hlen.
Qed.

(** [PollTask] when a message with a payload is first in the inbox. *)
Lemma PollTask_spec w s m l rest :
  world_inbox (ws_node_id s) w = m :: rest -> msg_payload m = Some l ->
  exists w',
    PollTask w s =
      (Some (TaskMessage.Deserialize (deref (msg_payload m) (w_heap w))), w',
       set_metrics (RecordReceive (msg_size m (w_heap w)) (ws_metrics s)) s) /\
    (forall n, world_inbox n w' = if decide (n = ws_node_id s) then rest else world_inbox n w) /\
    w_heap w' = w_heap w /\ world_capacity w' = world_capacity w /\ is_Some (w_transport w').
Proof.
  intros Hin Hpay. destruct (poll_receive_head _ _ _ _ Hin) as (w' & E & H1 & H2 & H3 & H4).
  exists w'. unfold PollTask. rewrite E, Hpay, H2.
  destruct (w_transport w) eqn:Et; [|unfold world_inbox in Hin; by rewrite Et in Hin].
  split_and!; auto.
Qed.

Lemma session_wf_set_metrics w s m : session_wf w s -> session_wf w (set_metrics m s).
Proof. intros []. by constructor. Qed.

Lemma carries_make_shared h bytes m task :
  heap_wf h -> carries h m task -> carries (make_shared bytes h).2 m task.
Proof.
  intros Hh (l & Hp & Hl). exists l. split; [done|]. simpl.
  rewrite lookup_insert_ne; [done|]. intros <-. by rewrite Hh in Hl by lia.
Qed.

(** Submitting tasks to one peer: its inbox gains one message per task, in order. *)
Lemma submit_all_spec `{ArgOrder} now tasks peer w s :
  session_wf w s -> is_Some (w_transport w) ->
  counters_room (ws_registry s) (sizeZ tasks) ->
  Forall (fun task => peer_of (tm_target_node task) s = peer) tasks ->
  (world_capacity w = 0 \/ sizeZ (world_inbox peer w) + sizeZ tasks <= world_capacity w)%Z ->
  let '(w', s') := submit_all now tasks w s in
  exists msgs,
    world_inbox peer w' = world_inbox peer w ++ msgs /\
    Forall2 (carries (w_heap w')) msgs tasks /\
    (forall m task, carries (w_heap w) m task -> carries (w_heap w') m task) /\
    session_wf w' s' /\ ws_config s' = ws_config s /\ is_Some (w_transport w') /\
    Size (ws_registry s') = (Size (ws_registry s) + sizeZ tasks)%Z.
Proof.
  revert w s. induction tasks as [|task tasks IH]; intros w s Hwf Ht [Hc1 Hc2] Hpeer Hcap.
  - simpl. exists []. rewrite app_nil_r, sizeZ_nil. split_and!; auto. lia.
  - rewrite sizeZ_cons in *. apply Forall_cons in Hpeer as [Hp1 Hp2].
    pose proof (sizeZ_nonneg tasks) as Hnn.
    destruct (Submit_spec now task w s Hwf Ht) as
      (payload & w1 & s1 & E & Hlive & Hd & Hh & Hin & Hcp & Ht1 & Hwf1 & Hcfg & Hsz & Hid & Hak & _).
    { split; lia. }
    { rewrite Hp1. unfold has_room. destruct Hcap; [by left|right; lia]. }
    cbn [submit_all]. rewrite E.
    assert (Hpo : forall x, peer_of x s1 = peer_of x s)
      by (intros; unfold peer_of, ws_node_id; by rewrite Hcfg).
    specialize (IH w1 s1 Hwf1 Ht1). destruct (submit_all now tasks w1 s1) as [w' s'].
    rewrite Hp1 in Hin. pose proof (Hin peer) as Hinp. rewrite decide_True in Hinp by done.
    destruct IH as (msgs & H1 & H2 & H3 & H4 & H5 & H6 & H7).
    { split; lia. }
    { eapply Forall_impl; [exact Hp2|]. simpl. intros x <-. apply Hpo. }
    { rewrite Hcp, Hinp. autorewrite with size. destruct Hcap; [by left|right; lia]. }
    eexists (_ :: msgs). rewrite H1, Hinp, <- app_assoc. split_and!; [reflexivity|..]; auto.
    + constructor; [|done]. apply H3. destruct Hlive as (l & b & -> & Hl). exists l.
      simpl in Hd. rewrite Hl in Hd. simpl in Hd. by subst b.
    + intros m x Hx. apply H3. rewrite Hh. apply carries_make_shared; [|done].
      apply (swf_registry _ _ Hwf).
    + congruence.
    + lia.
Qed.

(** Polling an inbox that starts with messages carrying safe tasks. *)
Lemma poll_tasks_spec msgs tasks rest w s :
  world_inbox (ws_node_id s) w = msgs ++ rest ->
  Forall2 (carries (w_heap w)) msgs tasks -> Forall task_safe tasks ->
  (poll_tasks (length tasks) w s).1.1 = Some <$> tasks.
Proof.
  intros Hin HF. revert w s Hin HF. revert msgs.
  induction tasks as [|task tasks IH]; intros msgs w s Hin HF Hs; [done|].
  apply Forall2_cons_inv_r in HF as (m & msgs' & (l & Hp & Hl) & HF & ->).
  apply Forall_cons in Hs as [Hs1 Hs2]. simpl in Hin.
  destruct (PollTask_spec w s m l _ Hin Hp) as (w1 & E & H1 & H2 & _).
  cbn [length poll_tasks]. rewrite E.
  set (s1 := set_metrics _ s).
  specialize (IH msgs' w1 s1). destruct (poll_tasks (length tasks) w1 s1) as [[ts w2] s2].
  simpl in *. rewrite IH; [|by rewrite H1, decide_True by done|by rewrite H2|done].
  rewrite Hp. simpl. rewrite Hl. simpl. by rewrite task_roundtrip.
Qed.

(** ** Lemmas: health *)

Lemma Forall_push_bounded {A} (P : A -> Prop) cap q x :
  Forall P q -> P x -> Forall P (push_bounded cap q x).
Proof.
  intros Hq Hx. unfold push_bounded. apply Forall_app. split; [|by constructor].
  case_match; [|done]. by destruct Hq.
Qed.

Lemma healthy_EnsurePeer peer w s :
  session_healthy s ->
  let '(c, w', s') := EnsurePeer peer w s in
  c = ready_connection (ws_node_id s) peer /\ session_healthy s' /\
  ws_config s' = ws_config s /\ ws_registry s' = ws_registry s.
Proof.
  intros (Hp & Hq & Hf). unfold EnsurePeer.
  pose proof (ensure_peer_spec (ws_node_id s) peer w (ws_peers s) Hp) as HE.
  destruct (ensure_peer _ _ _ _) as [[c w1] peers1]. destruct HE as (-> & Hp1 & _).
  split_and!; [done|..|done|done]; by split_and!.
Qed.

(** A send on a ready connection queues a success. *)
Lemma healthy_post_send now node peer msg w cq w' cq' :
  Forall (fun e => ce_status e = cs_kSuccess) (cq_queue cq) ->
  post_send now (conn_queue_pair (ready_connection node peer)) msg w cq = (w', cq') ->
  Forall (fun e => ce_status e = cs_kSuccess) (cq_queue cq').
Proof.
  intros Hq. unfold post_send. destruct (w_transport w); [|by intros [= <- <-]].
  unfold PostSend. simpl. intros [= <- <-]. by apply (Forall_push_bounded _ (Capacity cq)).
Qed.

Lemma RecordSend_failed b m : mt_failed_completions (RecordSend b m) = mt_failed_completions m.
Proof. by destruct m. Qed.

Lemma RecordReceive_failed b m :
  mt_failed_completions (RecordReceive b m) = mt_failed_completions m.
Proof. by destruct m. Qed.

Lemma healthy_Submit `{ArgOrder} now task w s :
  session_healthy s -> session_healthy (Submit now task w s).2.
Proof.
  intros Hs. unfold Submit. destruct (w_transport w); [|done].
  pose proof (healthy_EnsurePeer (peer_of (tm_target_node task) s) w s Hs) as HE.
  destruct (EnsurePeer _ w s) as [[c w1] s1]. destruct HE as (-> & (Hp & Hq & Hf) & Hc & _).
  destruct (Register _ _ _) as [[region h2] r2]. simpl.
  destruct (post_send _ _ _ _ _) as [w4 cq] eqn:E. apply healthy_post_send in E; [|done].
  split_and!; [done|done|]. simpl. by rewrite RecordSend_failed.
Qed.

Lemma healthy_SendResult now result w s :
  session_healthy s -> session_healthy (SendResult now result w s).2.
Proof.
  intros Hs. unfold SendResult. destruct (w_transport w); [|done].
  pose proof (healthy_EnsurePeer (peer_of (rm_target_node result) s) w s Hs) as HE.
  destruct (EnsurePeer _ w s) as [[c w1] s1]. destruct HE as (-> & (Hp & Hq & Hf) & Hc & _).
  simpl. destruct (post_send _ _ _ _ _) as [w4 cq] eqn:E. apply healthy_post_send in E; [|done].
  split_and!; [done|done|]. simpl. by rewrite RecordSend_failed.
Qed.

Lemma healthy_PollTask w s : session_healthy s -> session_healthy (PollTask w s).2.
Proof.
  intros (Hp & Hq & Hf). unfold PollTask.
  destruct (w_transport w), (poll_receive (ws_node_id s) w) as [[m|] w1]; try by split_and!.
  destruct (msg_payload m); split_and!; try done. simpl. by rewrite RecordReceive_failed.
Qed.

Lemma healthy_PollCompletion s : session_healthy s -> session_healthy (PollCompletion s).2.
Proof.
  intros (Hp & Hq & Hf). unfold PollCompletion, Poll.
  destruct (cq_queue (ws_completions s)) as [|e q] eqn:Eq; simpl.
  - split_and!; simpl; [done| |done]. by rewrite Eq.
  - apply Forall_cons in Hq as [He Hq]. split_and!; [done|done|]. simpl.
    destruct (ws_metrics s). simpl in *. by rewrite decide_True.
Qed.

Lemma healthy_step `{ArgOrder} op w s : session_healthy s -> session_healthy (session_step op w s).
Proof.
  destruct op; simpl; auto using healthy_Submit, healthy_SendResult, healthy_PollTask,
    healthy_PollCompletion.
Qed.

(** ** Lemmas: results and the registry *)

Lemma SendResult_spec now result w s :
  peers_wf (ws_node_id s) (ws_peers s) -> is_Some (w_transport w) ->
  has_room (peer_of (rm_target_node result) s) w ->
  exists payload w' s',
    SendResult now result w s = (true, w', s') /\
    payload = Some (hp_next (w_heap w)) /\
    deref payload (w_heap w') = ResultMessage.Serialize result /\
    (forall n, world_inbox n w' =
       if decide (n = peer_of (rm_target_node result) s)
       then world_inbox n w ++ [result_envelope s result payload (ws_next_work_request_id s)]
       else world_inbox n w) /\
    ws_config s' = ws_config s /\
    ws_next_work_request_id s' = u64 (ws_next_work_request_id s + 1) /\
    ws_registry s' = ws_registry s /\
    ws_metrics s' = RecordSend (sizeZ (ResultMessage.Serialize result)) (ws_metrics s).
Proof.
  intros Hp Ht Hroom. unfold SendResult.
  destruct (w_transport w) as [t|] eqn:Et; [|by destruct Ht].
  set (peer := peer_of (rm_target_node result) s) in *.
  pose proof (ensure_peer_spec (ws_node_id s) peer w (ws_peers s) Hp) as HE.
  unfold EnsurePeer. destruct (ensure_peer _ _ _ _) as [[c w1] peers1].
  destruct HE as (-> & Hp1 & Hin1 & Hcap1 & Hh1 & _ & Htr1).
  unfold make_shared, next_id. rewrite Hh1. cbv zeta.
  set (msg := mkMessage _ _ _ _ _ _ _). set (h2 := mkHeap _ _).
  assert (Hroom2 : has_room peer (set_heap h2 w1)).
  { unfold has_room in *. change (world_capacity (set_heap h2 w1)) with (world_capacity w1).
    change (world_inbox peer (set_heap h2 w1)) with (world_inbox peer w1).
    by rewrite Hcap1, Hin1. }
  pose proof (post_send_ready now (ws_node_id s) peer msg (set_heap h2 w1) (ws_completions s)
    (Htr1 ltac:(rewrite Et; by eexists)) Hroom2) as HP.
  cbv zeta in HP. simpl ws_completions. destruct (post_send _ _ _ _ _) as [w4 cq].
  destruct HP as (Hin4 & -> & Hh4 & _).
  eexists _, w4, _. split; [reflexivity|]. split; [reflexivity|]. rewrite Hh4. simpl.
  split_and!; auto.
  - by rewrite lookup_insert_eq.
  - intros n. rewrite Hin4. change (world_inbox n (set_heap h2 w1)) with (world_inbox n w1).
    by rewrite Hin1.
Qed.

Lemma new_WorkerSession_wf `{ArgOrder} config w :
  heap_wf (w_heap w) ->
  (0 <= bp_buffers (wsc_buffer_pool config))%Z ->
  (0 <= bp_buffer_size (wsc_buffer_pool config))%Z ->
  counters_room new_MemoryRegistry (bp_buffers (wsc_buffer_pool config)) ->
  let '(w', s) := new_WorkerSession config w in session_wf w' s.
Proof.
  intros Hh Hn Hsz Hroom. constructor; [apply peers_wf_empty|].
  unfold new_WorkerSession, new_BufferPool. cbn [w_heap set_heap ws_registry].
  apply pwf_registry. apply construct_buffers_spec.
  - apply pool_wf_init; [by apply registry_wf_new|done].
  - simpl. by rewrite Z2Nat.id.
Qed.

(** What else a new session starts from; another endpoint's regions stay intact. *)
Lemma new_WorkerSession_spec `{ArgOrder} config w :
  heap_wf (w_heap w) ->
  (0 <= bp_buffers (wsc_buffer_pool config))%Z ->
  (0 <= bp_buffer_size (wsc_buffer_pool config))%Z ->
  counters_room new_MemoryRegistry (bp_buffers (wsc_buffer_pool config)) ->
  let '(w', s) := new_WorkerSession config w in
  session_wf w' s /\ ws_config s = config /\ ws_metrics s = new_Metrics /\
  ws_completions s = new_CompletionQueue (wsc_completion_queue config) /\
  ws_next_work_request_id s = 1%Z /\ w_transport w' = w_transport w /\
  reg_next_region_id (ws_registry s) = bp_buffers (wsc_buffer_pool config) /\
  reg_next_access_key (ws_registry s) = (1024 + 2 * bp_buffers (wsc_buffer_pool config))%Z /\
  (forall r, registry_wf (w_heap w) r -> registry_wf (w_heap w') r).
Proof.
  intros Hh Hn Hsz Hroom. pose proof (new_WorkerSession_wf config w Hh Hn Hsz Hroom) as Hwf.
  destruct (new_WorkerSession config w) as [w' s] eqn:E. split; [done|].
  injection E as <- <-. simpl. unfold new_BufferPool.
  destruct (construct_buffers_spec (Z.to_nat (bp_buffers (wsc_buffer_pool config)))
    (mkPoolState (w_heap w) new_MemoryRegistry (mkBufferPool (wsc_buffer_pool config) [] ∅)))
    as (_ & _ & _ & _ & _ & Hid & Hak).
  { apply pool_wf_init; [by apply registry_wf_new|done]. }
  { simpl. by rewrite Z2Nat.id. }
  rewrite Hid, Hak, Z2Nat.id by done. simpl. split_and!; try done.
  intros r Hr. by apply construct_buffers_keeps.
Qed.

Lemma emplace_subseteq {V} key (v : V) (m : gmap string V) : m ⊆ emplace key v m.
Proof. unfold emplace. destruct (m !! key) eqn:E; [done|]. by apply insert_subseteq. Qed.

Lemma Register_keeps `{ArgOrder} bytes h r :
  reg_regions r ⊆ reg_regions (Register bytes h r).2.
Proof. unfold Register. simpl. destruct args_left_to_right; apply emplace_subseteq. Qed.

Lemma EnsurePeer_registry peer w s : ws_registry (EnsurePeer peer w s).2 = ws_registry s.
Proof. unfold EnsurePeer. by destruct (ensure_peer _ _ _ _) as [[? ?] ?]. Qed.

Lemma session_step_keeps `{ArgOrder} op w s :
  reg_regions (ws_registry s) ⊆ reg_regions (ws_registry (session_step op w s)).
Proof.
  destruct op as [now task| |now result|]; simpl.
  - unfold Submit. destruct (w_transport w); [|done].
    pose proof (EnsurePeer_registry (peer_of (tm_target_node task) s) w s) as E.
    destruct (EnsurePeer _ w s) as [[c w1] s1]. simpl in E.
    pose proof (Register_keeps (TaskMessage.Serialize task) (w_heap w1) (ws_registry s1)) as HR.
    destruct (Register _ _ _) as [[region h2] r2]. simpl.
    destruct (post_send _ _ _ _ _). simpl in *. by rewrite <- E.
  - unfold PollTask. destruct (w_transport w), (poll_receive (ws_node_id s) w) as [[m|] w1]; try done.
    by destruct (msg_payload m).
  - unfold SendResult. destruct (w_transport w); [|done].
    pose proof (EnsurePeer_registry (peer_of (rm_target_node result) s) w s) as E.
    destruct (EnsurePeer _ w s) as [[c w1] s1]. simpl in *.
    destruct (post_send _ _ _ _ _). simpl in *. by rewrite E.
  - unfold PollCompletion, Poll. by destruct (cq_queue (ws_completions s)).
Qed.

(** ** Properties *)

(** End to end: tasks a session submits to another session on the same
    transport are what that session's [PollTask] returns, each once, unchanged and
    in the order of submission, as long as the mailbox can hold them and the text
    format can carry them. *)
Theorem session_delivers_in_order `{ArgOrder} (now : TimePoint) (tasks : list TaskMessage)
    (w : World) (sender receiver : WorkerSession) :
  session_wf w sender -> is_Some (w_transport w) ->
  counters_room (ws_registry sender) (sizeZ tasks) ->
  Forall (fun task => peer_of (tm_target_node task) sender = ws_node_id receiver) tasks ->
  Forall task_safe tasks ->
  world_inbox (ws_node_id receiver) w = [] ->
  (world_capacity w = 0 \/ sizeZ tasks <= world_capacity w)%Z ->
  let '(w', sender') := submit_all now tasks w sender in
  (poll_tasks (length tasks) w' receiver).1.1 = Some <$> tasks /\
  Size (ws_registry sender') = (Size (ws_registry sender) + sizeZ tasks)%Z.
Proof.
  intros Hwf Ht Hc Hpeer Hsafe Hin Hcap.
  pose proof (submit_all_spec now tasks (ws_node_id receiver) w sender Hwf Ht Hc Hpeer) as HS.
  rewrite Hin in HS. specialize (HS ltac:(autorewrite with size; done)).
  destruct (submit_all now tasks w sender) as [w' sender'].
  destruct HS as (msgs & H1 & H2 & _ & _ & _ & _ & H7). split; [|done].
  apply (poll_tasks_spec msgs tasks []); [by rewrite H1, app_nil_r|done|done].
Qed.

(** C33. No send of a session with a transport can fail: over any history of its operations,
    whatever the other endpoints do to the shared transport in between, every peer
    connection is ready, every queued completion is a success and the count of
    failed completions stays 0. *)
Theorem session_always_healthy `{ArgOrder} (config : WorkerSessionConfig) (w : World)
    (history : list (session_op * World)) :
  session_healthy (session_run history (new_WorkerSession config w).2).
Proof.
  unfold session_run. apply fold_left_ind.
  - split_and!; [apply peers_wf_empty | constructor | done].
  - intros s [op w1] _ Hs. by apply healthy_step.
Qed.

(** A session never releases registered memory: every region registered
    before a history of operations is still registered after it. *)
Theorem session_never_releases `{ArgOrder} (history : list (session_op * World))
    (s : WorkerSession) :
  reg_regions (ws_registry s) ⊆ reg_regions (ws_registry (session_run history s)).
Proof.
  unfold session_run. revert s. induction history as [|[op w] history IH]; intros s; [done|].
  simpl. etrans; [apply (session_step_keeps op w)|]. apply IH.
Qed.

(** [PollTask] does not look at the topic: a result sent to a session comes
    out of its [PollTask] as a task with the result's task id, target and metadata
    and with empty kind, source and description. *)
Theorem PollTask_returns_results (now : TimePoint) (result : ResultMessage) (w : World)
    (sender receiver : WorkerSession) :
  peers_wf (ws_node_id sender) (ws_peers sender) -> is_Some (w_transport w) ->
  has_room (ws_node_id receiver) w ->
  peer_of (rm_target_node result) sender = ws_node_id receiver ->
  world_inbox (ws_node_id receiver) w = [] ->
  result_safe result ->
  let '(_, w', _) := SendResult now result w sender in
  (PollTask w' receiver).1.1 =
    Some (mkTaskMessage (rm_task_id result) "" "" (rm_target_node result) "" (rm_metadata result)).
Proof.
  intros Hp Ht Hroom Hpeer Hin Hs.
  destruct (SendResult_spec now result w sender Hp Ht) as
    (payload & w' & s' & E & Hpay & Hd & Hin' & _); [by rewrite Hpeer|].
  rewrite E. pose proof (Hin' (ws_node_id receiver)) as H1.
  rewrite decide_True, Hin in H1 by done. simpl in H1.
  destruct (PollTask_spec w' receiver _ (hp_next (w_heap w)) [] H1) as (w2 & E2 & _);
    [by rewrite Hpay|].
  rewrite E2. cbn [fst msg_payload result_envelope stamp]. rewrite Hd.
  by rewrite task_of_result.
Qed.

(** ** Witnesses *)

(** Two sessions with small pools on one transport. *)
Definition sample_session_config (node : string) : WorkerSessionConfig :=
  mkWorkerSessionConfig node (mkBufferPoolConfig 1 4) default_CompletionQueueConfig.

Definition sample_world : World :=
  mkWorld empty_heap ∅ (Some (new_TransportRdma default_TransportConfig)).

Definition sample_task : TaskMessage :=
  mkTaskMessage "job-42" "broadcast" "controller" "worker-a" "ship one tensor shard"
    {["tensor" := "layer-12"; "dtype" := "fp16"]}.

Definition sample_result : ResultMessage :=
  mkResultMessage "job-42" "worker-a" "controller" true "done" {["status" := "done"]}.

Definition controller : World * WorkerSession :=
  @new_WorkerSession true (sample_session_config "controller") sample_world.

Definition worker_a : World * WorkerSession :=
  @new_WorkerSession true (sample_session_config "worker-a") controller.1.

Lemma sample_session_wf node w :
  heap_wf (w_heap w) ->
  let '(w', s) := @new_WorkerSession true (sample_session_config node) w in session_wf w' s.
Proof. intros Hh. apply new_WorkerSession_wf; simpl; [done|lia|lia|split; simpl; lia]. Qed.

Lemma sample_task_safe : task_safe sample_task.
Proof. apply (bool_decide_eq_true_1 (task_safe sample_task)). vm_compute. reflexivity. Qed.

Lemma sample_result_safe : result_safe sample_result.
Proof. apply (bool_decide_eq_true_1 (result_safe sample_result)). vm_compute. reflexivity. Qed.

Lemma session_delivers_in_order_witness :
  let '(w', _) := @submit_all true 0%Z [sample_task] controller.1 controller.2 in
  (poll_tasks 1 w' worker_a.2).1.1 = [Some sample_task].
Proof.
  pose proof (@session_delivers_in_order true 0%Z [sample_task] controller.1 controller.2 worker_a.2
    (sample_session_wf "controller" sample_world heap_wf_empty)
    ltac:(eexists; reflexivity) ltac:(split; vm_compute; reflexivity)
    ltac:(repeat constructor) ltac:(constructor; [exact sample_task_safe | constructor])
    ltac:(reflexivity) ltac:(right; vm_compute; discriminate)) as H.
  destruct (@submit_all true 0%Z [sample_task] controller.1 controller.2) as [w' s'].
  exact (proj1 H).
Defined.

Lemma PollTask_returns_results_witness :
  let '(_, w', _) := SendResult 0 sample_result controller.1 worker_a.2 in
  (PollTask w' controller.2).1.1 =
    Some (mkTaskMessage "job-42" "" "" "controller" "" {["status" := "done"]}).
Proof.
  apply (PollTask_returns_results 0 sample_result controller.1 worker_a.2 controller.2);
    [apply peers_wf_empty | eexists; reflexivity | right; vm_compute; reflexivity | reflexivity
    | reflexivity | exact sample_result_safe].
Defined.
