(* ===== verification/ClientServer.v ===== *)
(** * rdma/src/rdma_client.cpp, rdma/src/rdma_server.cpp and their headers

    The two ends of a request/response pair over a shared transport. *)

From S2P Require Import Prelude CppString Types BoundedFifo WireLine TaskMessage ResultMessage.
From S2P Require Import Memory BufferPool QueuePair Connection Completion Transport World.

(** ** RdmaClient *)

Record RdmaClient := mkRdmaClient {
  cl_config : ClientConfig;
  cl_connection : Connection;
  cl_registry : MemoryRegistry;
  cl_completions : CompletionQueue;
  cl_next_work_request_id : WorkRequestId;
}.

Definition new_RdmaClient (config : ClientConfig) : RdmaClient :=
  mkRdmaClient config
    (new_Connection (new_QueuePair
       (mkQueuePairConfig (cc_node_id config) (cc_server_node config) 256 256)))
    new_MemoryRegistry (new_CompletionQueue default_CompletionQueueConfig) 1.

Definition set_connection (connection : Connection) (c : RdmaClient) : RdmaClient :=
  mkRdmaClient (cl_config c) connection (cl_registry c) (cl_completions c)
    (cl_next_work_request_id c).

Definition client_Connect (w : World) (c : RdmaClient) : bool * World * RdmaClient :=
  match w_transport w with
  | None => (false, w, c)
  | Some _ =>
      let request := Build (qp_config (conn_queue_pair (cl_connection c))) in
      let response := Validate request in
      if negb (hs_accepted response) then (false, w, c)
      else
        let '(up, connection) := Establish (cl_connection c) in
        let c' := set_connection connection c in
        if negb up then (false, w, c')
        else (true, connect_transport (conn_queue_pair connection) w, c')
  end.

Definition SubmitTask `{ArgOrder} (now : TimePoint) (task : TaskMessage) (w : World)
    (c : RdmaClient) : WorkRequestId * World * RdmaClient :=
  match w_transport w with
  | Some _ =>
      if negb (conn_established (cl_connection c)) then (0%Z, w, c)
      else
        let '(region, h1, r1) :=
          Register (TaskMessage.Serialize task) (w_heap w) (cl_registry c) in
        let work_request_id := cl_next_work_request_id c in
        let '(w2, cq) :=
          post_send now (conn_queue_pair (cl_connection c))
            (mkMessage (cc_node_id (cl_config c)) (cc_server_node (cl_config c)) "task"
               (tm_description task) (mr_storage region) work_request_id op_kSend)
            (set_heap h1 w) (cl_completions c) in
        (work_request_id, w2,
         mkRdmaClient (cl_config c) (cl_connection c) r1 cq (u64 (work_request_id + 1)))
  | None => (0%Z, w, c)
  end.

(** What follows [PollReceive] in [PollResult] and in [PollTask]: nothing without
    a message or a payload, else the parsed payload. *)
Definition decode_payload {A} (decode : ByteBuffer -> A) (message : option Message) (h : Heap)
    : option A :=
  match message with
  | None => None
  | Some m =>
      match msg_payload m with
      | None => None
      | Some _ => Some (decode (deref (msg_payload m) h))
      end
  end.

Definition PollResult (w : World) (c : RdmaClient) : option ResultMessage * World :=
  match w_transport w with
  | None => (None, w)
  | Some _ =>
      let '(message, w1) := poll_receive (cc_node_id (cl_config c)) w in
      (decode_payload ResultMessage.Deserialize message (w_heap w1), w1)
  end.

Definition client_PollCompletion (c : RdmaClient) : option CompletionEvent * RdmaClient :=
  let '(event, cq) := Poll (cl_completions c) in
  (event, mkRdmaClient (cl_config c) (cl_connection c) (cl_registry c) cq
            (cl_next_work_request_id c)).

(** ** RdmaServer *)

Record RdmaServer := mkRdmaServer {
  sv_config : ServerConfig;
  sv_completions : CompletionQueue;
  sv_peers : gmap string Connection;
}.

Definition new_RdmaServer (config : ServerConfig) : RdmaServer :=
  mkRdmaServer config (new_CompletionQueue default_CompletionQueueConfig) ∅.

Definition sv_node_id (s : RdmaServer) : string := sc_node_id (sv_config s).

Definition server_EnsurePeer (client_node : string) (w : World) (s : RdmaServer)
    : Connection * World * RdmaServer :=
  let '(connection, w', peers) := ensure_peer (sv_node_id s) client_node w (sv_peers s) in
  (connection, w', mkRdmaServer (sv_config s) (sv_completions s) peers).

Definition Accept (client_node : string) (w : World) (s : RdmaServer)
    : bool * World * RdmaServer :=
  match w_transport w with
  | None => (false, w, s)
  | Some _ => let '(_, w', s') := server_EnsurePeer client_node w s in (true, w', s')
  end.

Definition server_PollTask (w : World) (s : RdmaServer) : option TaskMessage * World :=
  match w_transport w with
  | None => (None, w)
  | Some _ =>
      let '(message, w1) := poll_receive (sv_node_id s) w in
      (decode_payload TaskMessage.Deserialize message (w_heap w1), w1)
  end.

Definition server_SendResult (now : TimePoint) (client_node : string) (result : ResultMessage)
    (w : World) (s : RdmaServer) : bool * World * RdmaServer :=
  match w_transport w with
  | None => (false, w, s)
  | Some _ =>
      let '(connection, w1, s1) := server_EnsurePeer client_node w s in
      let '(payload, h2) := make_shared (ResultMessage.Serialize result) (w_heap w1) in
      let '(w3, cq) :=
        post_send now (conn_queue_pair connection)
          (mkMessage (sv_node_id s1) client_node "result" (rm_detail result) payload 0 op_kResult)
          (set_heap h2 w1) (sv_completions s1) in
      (true, w3, mkRdmaServer (sv_config s1) cq (sv_peers s1))
  end.

Definition server_PollCompletion (s : RdmaServer) : option CompletionEvent * RdmaServer :=
  let '(event, cq) := Poll (sv_completions s) in
  (event, mkRdmaServer (sv_config s) cq (sv_peers s)).

(** ** Invariants *)

(** A client after a successful [Connect]. *)
Record client_ready (w : World) (c : RdmaClient) : Prop := {
  clr_connection : cl_connection c =
    ready_connection (cc_node_id (cl_config c)) (cc_server_node (cl_config c));
  clr_registry : registry_wf (w_heap w) (cl_registry c);
  clr_transport : is_Some (w_transport w);
}.

(** A client that has not been connected or has been connected: the connection is
    the configured one, in one of the two states. *)
Definition client_fresh (c : RdmaClient) : Prop :=
  cl_connection c = new_Connection (new_QueuePair
    (mkQueuePairConfig (cc_node_id (cl_config c)) (cc_server_node (cl_config c)) 256 256)).

(** ** Request/response rounds *)

(** One iteration of the two loops of the pingpong example: the client submits and
    stops on id 0, the server polls the task and answers it, the client polls the
    answer.  Each poll blocks until the message before it is there, so the steps of
    a round have no other order. *)
Definition round_trip `{ArgOrder} (now : TimePoint) (task : TaskMessage)
    (answer : TaskMessage -> ResultMessage) (w : World) (c : RdmaClient) (s : RdmaServer)
    : option ResultMessage * World * RdmaClient * RdmaServer :=
  let '(id, w1, c1) := SubmitTask now task w c in
  if (id =? 0)%Z then (None, w1, c1, s)
  else
    let '(received, w2) := server_PollTask w1 s in
    match received with
    | None => (None, w2, c1, s)
    | Some t =>
        let '(_, w3, s1) := server_SendResult now (cc_node_id (cl_config c)) (answer t) w2 s in
        let '(result, w4) := PollResult w3 c1 in
        (result, w4, c1, s1)
    end.

(** The loops: a round without an answer ends them.  The list holds what the client
    received. *)
Fixpoint round_trips `{ArgOrder} (now : TimePoint)
    (rounds : list (TaskMessage * (TaskMessage -> ResultMessage)))
    (w : World) (c : RdmaClient) (s : RdmaServer) : list ResultMessage :=
  match rounds with
  | [] => []
  | (task, answer) :: rest =>
      let '(result, w', c', s') := round_trip now task answer w c s in
      match result with
      | None => []
      | Some r => r :: round_trips now rest w' c' s'
      end
  end.

(** A client and a server that can start a round: connected, all mailboxes they use
    empty and able to hold a message. *)
Record pair_ready (w : World) (c : RdmaClient) (s : RdmaServer) : Prop := {
  pr_client : client_ready w c;
  pr_peers : peers_wf (sv_node_id s) (sv_peers s);
  pr_names : cc_server_node (cl_config c) = sv_node_id s;
  pr_apart : cc_node_id (cl_config c) <> sv_node_id s;
  pr_to_server : world_inbox (sv_node_id s) w = [];
  pr_to_client : world_inbox (cc_node_id (cl_config c)) w = [];
  pr_capacity : (0 <= world_capacity w)%Z;
}.

(** Setting a pair up as the example does: accept, then connect. *)
Definition set_up (sconfig : ServerConfig) (cconfig : ClientConfig) (w : World)
    : bool * World * RdmaClient * RdmaServer :=
  let '(accepted, w1, s) := Accept (cc_node_id cconfig) w (new_RdmaServer sconfig) in
  let '(connected, w2, c) := client_Connect w1 (new_RdmaClient cconfig) in
  (accepted && connected, w2, c, s).

(** ** Lemmas *)

Lemma client_Connect_ready w c :
  client_fresh c -> heap_wf (w_heap w) -> cl_registry c = new_MemoryRegistry ->
  is_Some (w_transport w) ->
  cc_node_id (cl_config c) <> "" -> cc_server_node (cl_config c) <> "" ->
  exists w' c', client_Connect w c = (true, w', c') /\ client_ready w' c' /\
    cl_config c' = cl_config c /\ w_heap w' = w_heap w /\ cl_registry c' = cl_registry c /\
    cl_next_work_request_id c' = cl_next_work_request_id c /\
    (forall n, world_inbox n w' = world_inbox n w) /\ world_capacity w' = world_capacity w.
Proof.
  intros Hf Hh Hreg Ht Hn Hs. unfold client_Connect. rewrite Hf.
  destruct (w_transport w) as [t|] eqn:Et; [|by destruct Ht].
  rewrite (proj2 (Validate_accepted _)) by done. rewrite Establish_new.
  cbn [negb]. eexists _, _. split; [reflexivity|].
  split_and!; auto using connect_transport_capacity.
  - constructor; simpl; [done| |unfold connect_transport; simpl; rewrite Et; by eexists].
    rewrite Hreg. by apply registry_wf_new.
  - intros n. apply connect_transport_inbox.
Qed.

Lemma SubmitTask_spec `{ArgOrder} now task w c :
  client_ready w c -> counters_ok (cl_registry c) ->
  has_room (cc_server_node (cl_config c)) w ->
  exists payload w' c',
    SubmitTask now task w c = (cl_next_work_request_id c, w', c') /\
    (exists m, msg_payload m = Some payload /\
       forall n, world_inbox n w' =
         if decide (n = cc_server_node (cl_config c)) then world_inbox n w ++ [m]
         else world_inbox n w) /\
    hp_cells (w_heap w') !! payload = Some (TaskMessage.Serialize task) /\
    heap_wf (w_heap w') /\
    client_ready w' c' /\ cl_config c' = cl_config c /\ world_capacity w' = world_capacity w /\
    cl_next_work_request_id c' = u64 (cl_next_work_request_id c + 1) /\
    Size (cl_registry c') = (Size (cl_registry c) + 1)%Z /\
    reg_next_region_id (cl_registry c') = (reg_next_region_id (cl_registry c) + 1)%Z /\
    reg_next_access_key (cl_registry c') = (reg_next_access_key (cl_registry c) + 2)%Z.
Proof.
  intros [Hcn Hr Ht] Hc Hroom. unfold SubmitTask.
  destruct (w_transport w) as [t|] eqn:Et; [|by destruct Ht].
  rewrite Hcn. cbn [conn_established ready_connection negb].
  destruct (Register _ _ _) as [[region h1] r1] eqn:ER.
  destruct (Register_spec _ _ _ _ _ _ Hr Hc ER) as (_ & Hst & Hh1 & Hid & Hak & Hm & Hfresh & _).
  pose proof (registry_wf_Register _ _ _ _ _ _ Hr Hc ER) as Hr1.
  set (msg := mkMessage _ _ _ _ _ _ _).
  pose proof (post_send_ready now (cc_node_id (cl_config c)) (cc_server_node (cl_config c)) msg
    (set_heap h1 w) (cl_completions c) ltac:(simpl; rewrite Et; by eexists) Hroom) as HP.
  cbv zeta in HP. unfold ready_connection in HP.
  cbn [conn_queue_pair ready_connection] in *.
  destruct (post_send _ _ _ _ _) as [w2 cq]. destruct HP as (Hin & _ & Hh & Hcap & Ht2).
  exists (hp_next (w_heap w)), w2. eexists. split; [reflexivity|]. simpl in Hh.
  split_and!; auto.
  - eexists. split; [|exact Hin]. exact Hst.
  - rewrite Hh, Hh1. simpl. by rewrite lookup_insert_eq.
  - rewrite Hh. apply Hr1.
  - constructor; simpl; [done| |done]. by rewrite Hh.
  - simpl. unfold Size. rewrite Hm, map_size_insert_None by done. lia.
Qed.

(** Receiving the only message of an inbox. *)
Lemma poll_decode {A} (decode : ByteBuffer -> A) node w m l bytes :
  world_inbox node w = [m] -> msg_payload m = Some l ->
  hp_cells (w_heap w) !! l = Some bytes ->
  exists w',
    (let '(message, w1) := poll_receive node w in
     (decode_payload decode message (w_heap w1), w1)) = (Some (decode bytes), w') /\
    (forall n, world_inbox n w' = if decide (n = node) then [] else world_inbox n w) /\
    w_heap w' = w_heap w /\ world_capacity w' = world_capacity w /\ is_Some (w_transport w').
Proof.
  intros Hin Hp Hl. destruct (poll_receive_head _ _ _ _ Hin) as (w' & E & H1 & H2 & H3 & H4).
  exists w'. rewrite E. unfold decode_payload. rewrite Hp, H2. simpl. rewrite Hl. by split_and!.
Qed.

Lemma server_SendResult_spec now client_node result w s :
  peers_wf (sv_node_id s) (sv_peers s) -> is_Some (w_transport w) -> heap_wf (w_heap w) ->
  has_room client_node w ->
  exists w' s',
    server_SendResult now client_node result w s = (true, w', s') /\
    (exists m, msg_payload m = Some (hp_next (w_heap w)) /\
       forall n, world_inbox n w' =
         if decide (n = client_node) then world_inbox n w ++ [m] else world_inbox n w) /\
    w_heap w' = (make_shared (ResultMessage.Serialize result) (w_heap w)).2 /\
    world_capacity w' = world_capacity w /\ is_Some (w_transport w') /\
    peers_wf (sv_node_id s') (sv_peers s') /\ sv_config s' = sv_config s.
Proof.
  intros Hp Ht Hh Hroom. unfold server_SendResult.
  destruct (w_transport w) as [t|] eqn:Et; [|by destruct Ht].
  pose proof (ensure_peer_spec (sv_node_id s) client_node w (sv_peers s) Hp) as HE.
  unfold server_EnsurePeer. destruct (ensure_peer _ _ _ _) as [[c w1] peers1].
  destruct HE as (-> & Hp1 & Hin1 & Hcap1 & Hh1 & _ & Htr1).
  unfold make_shared. rewrite Hh1. cbv zeta.
  set (msg := mkMessage _ _ _ _ _ _ _). set (h2 := mkHeap _ _).
  assert (Hroom2 : has_room client_node (set_heap h2 w1)).
  { unfold has_room in *. change (world_capacity (set_heap h2 w1)) with (world_capacity w1).
    change (world_inbox client_node (set_heap h2 w1)) with (world_inbox client_node w1).
    by rewrite Hcap1, Hin1. }
  pose proof (post_send_ready now (sv_node_id s) client_node msg (set_heap h2 w1)
    (sv_completions s) (Htr1 ltac:(rewrite Et; by eexists)) Hroom2) as HP.
  cbv zeta in HP. simpl sv_completions. destruct (post_send _ _ _ _ _) as [w4 cq].
  destruct HP as (Hin4 & _ & Hh4 & Hcap4 & Ht4).
  exists w4. eexists. split; [reflexivity|]. split_and!; auto.
  - exists (stamp (conn_queue_pair (ready_connection (sv_node_id s) client_node)) msg).
    split; [reflexivity|]. intros n. rewrite Hin4.
    change (world_inbox n (set_heap h2 w1)) with (world_inbox n w1). by rewrite Hin1.
  - rewrite Hcap4. exact Hcap1.
Qed.

Lemma has_room_empty node w : (0 <= world_capacity w)%Z -> world_inbox node w = [] -> has_room node w.
Proof. intros Hc E. unfold has_room. rewrite E. change (sizeZ []) with 0%Z. lia. Qed.

(** One round delivers the answer and leaves the pair ready for the next one. *)
Lemma round_trip_spec `{ArgOrder} now task answer w c s :
  pair_ready w c s -> counters_ok (cl_registry c) -> (0 < cl_next_work_request_id c)%Z ->
  task_safe task -> result_safe (answer task) ->
  exists w' c' s',
    round_trip now task answer w c s = (Some (answer task), w', c', s') /\
    pair_ready w' c' s' /\
    cl_next_work_request_id c' = u64 (cl_next_work_request_id c + 1) /\
    reg_next_region_id (cl_registry c') = (reg_next_region_id (cl_registry c) + 1)%Z /\
    reg_next_access_key (cl_registry c') = (reg_next_access_key (cl_registry c) + 2)%Z.
Proof.
  intros [Hc Hp Hnames Hapart Hsrv Hcl Hcap] Hk Hid Hts Hrs. unfold round_trip.
  destruct (SubmitTask_spec now task w c Hc Hk) as
    (l & w1 & c1 & E1 & (m & Hm & Hin1) & Hl & Hh1 & Hc1 & Hcf & Hcap1 & Hnid & _ & Hr1 & Hr2).
  { rewrite Hnames. by apply has_room_empty. }
  rewrite E1. destruct (Z.eqb_spec (cl_next_work_request_id c) 0) as [|_]; [lia|].
  rewrite Hnames in Hin1.
  destruct (poll_decode TaskMessage.Deserialize (sv_node_id s) w1 m l (TaskMessage.Serialize task))
    as (w2 & E2 & Hin2 & Hh2 & Hcap2 & Ht2); [by rewrite Hin1, decide_True, Hsrv|done|done|].
  unfold server_PollTask. pose proof (clr_transport _ _ Hc1) as [t1 Ht1]. rewrite Ht1, E2.
  rewrite TaskMessage.task_roundtrip by done.
  assert (Hin2c : world_inbox (cc_node_id (cl_config c)) w2 = []).
  { by rewrite Hin2, decide_False, Hin1, decide_False by done. }
  destruct (server_SendResult_spec now (cc_node_id (cl_config c)) (answer task) w2 s Hp Ht2)
    as (w3 & s1 & E3 & (m3 & Hm3 & Hin3) & Hh3 & Hcap3 & Ht3 & Hp1 & Hs1).
  { by rewrite Hh2. }
  { apply has_room_empty; [lia|done]. }
  rewrite E3.
  destruct (poll_decode ResultMessage.Deserialize (cc_node_id (cl_config c)) w3 m3
    (hp_next (w_heap w2)) (ResultMessage.Serialize (answer task)))
    as (w4 & E4 & Hin4 & Hh4 & Hcap4 & Ht4).
  { by rewrite Hin3, decide_True, Hin2c. }
  { done. }
  { rewrite Hh3. simpl. by rewrite lookup_insert_eq. }
  unfold PollResult. destruct Ht3 as [t3 Ht3]. rewrite Ht3, Hcf, E4.
  rewrite ResultMessage.result_roundtrip by done.
  exists w4, c1, s1. split; [done|]. split; [|done].
  assert (Hnode : sv_node_id s1 = sv_node_id s) by (unfold sv_node_id; by rewrite Hs1).
  constructor; rewrite ?Hcf, ?Hnode; auto.
  - destruct Hc1 as [Hcn1 Hreg1 _]. constructor; [done| |done].
    rewrite Hh4, Hh3. apply registry_wf_make_shared. by rewrite Hh2.
  - by rewrite <- Hnode.
  - by rewrite Hin4, decide_False, Hin3, decide_False, Hin2, decide_True by done.
  - by rewrite Hin4, decide_True.
  - lia.
Qed.

Lemma round_trips_spec `{ArgOrder} now rounds w c s :
  pair_ready w c s -> counters_room (cl_registry c) (sizeZ rounds) ->
  (0 < cl_next_work_request_id c)%Z ->
  (cl_next_work_request_id c + sizeZ rounds < 2 ^ 64)%Z ->
  Forall (fun '(task, answer) => task_safe task /\ result_safe (answer task)) rounds ->
  round_trips now rounds w c s = (fun '(task, answer) => answer task) <$> rounds.
Proof.
  revert w c s. induction rounds as [|[task answer] rounds IH]; intros w c s Hr Hk Hid Hmax Hs;
    [done|].
  apply Forall_cons in Hs as [[Hts Hrs] Hs]. autorewrite with size in *.
  pose proof (Zle_0_nat (length rounds)) as Hlen. fold (sizeZ rounds) in Hlen.
  destruct Hk as [Hk1 Hk2].
  destruct (round_trip_spec now task answer w c s Hr) as (w' & c' & s' & E & Hr' & Hi & H1 & H2);
    [split; lia|done|done|done|].
  simpl. rewrite E. f_equal. rewrite u64_small in Hi by lia.
  apply IH; [done|split; lia|lia|lia|done].
Qed.

(** What a server keeps through a new connection and a client's connection. *)
Lemma Accept_spec client_node w s :
  peers_wf (sv_node_id s) (sv_peers s) -> is_Some (w_transport w) ->
  exists w' s', Accept client_node w s = (true, w', s') /\
    peers_wf (sv_node_id s') (sv_peers s') /\ sv_config s' = sv_config s /\
    (forall n, world_inbox n w' = world_inbox n w) /\
    world_capacity w' = world_capacity w /\ w_heap w' = w_heap w /\ is_Some (w_transport w').
Proof.
  intros Hp Ht. unfold Accept. destruct (w_transport w) as [t|] eqn:Et; [|by destruct Ht].
  pose proof (ensure_peer_spec (sv_node_id s) client_node w (sv_peers s) Hp) as HE.
  unfold server_EnsurePeer. destruct (ensure_peer _ _ _ _) as [[c w1] peers1].
  destruct HE as (-> & Hp1 & Hin1 & Hcap1 & Hh1 & _ & Htr1).
  eexists _, _. split; [done|]. split_and!; auto.
Qed.

Lemma set_up_ready sconfig cconfig w :
  heap_wf (w_heap w) -> is_Some (w_transport w) -> (0 <= world_capacity w)%Z ->
  (forall n, world_inbox n w = []) ->
  cc_server_node cconfig = sc_node_id sconfig -> cc_node_id cconfig <> sc_node_id sconfig ->
  cc_node_id cconfig <> "" -> sc_node_id sconfig <> "" ->
  exists w' c s, set_up sconfig cconfig w = (true, w', c, s) /\ pair_ready w' c s /\
    cl_registry c = new_MemoryRegistry /\ cl_next_work_request_id c = 1%Z /\
    cl_config c = cconfig /\ sv_config s = sconfig.
Proof.
  intros Hh Ht Hcap Hin Hnames Hapart Hn1 Hn2. unfold set_up.
  destruct (Accept_spec (cc_node_id cconfig) w (new_RdmaServer sconfig) (peers_wf_empty _) Ht)
    as (w1 & s & E & Hp & Hs & Hin1 & Hcap1 & Hh1 & Ht1).
  rewrite E.
  destruct (client_Connect_ready w1 (new_RdmaClient cconfig)) as
    (w2 & c & E2 & Hc & Hcf & Hh2 & Hreg & Hid & Hin2 & Hcap2); try done.
  { by rewrite Hh1. }
  { simpl. by rewrite Hnames. }
  rewrite E2. exists w2, c, s. split; [done|].
  assert (Hnode : sv_node_id s = sc_node_id sconfig) by (unfold sv_node_id; by rewrite Hs).
  split; [|done].
  constructor; rewrite ?Hnode, ?Hcf, ?Hin2, ?Hin1; auto; [by rewrite <- Hnode|lia].
Qed.

(** ** Properties *)

(** C3. Request and response, from construction on: over any number of rounds on
    an idle transport, a client and a server with different non-empty names connect
    and the client receives exactly the server's answer to each task it submitted,
    in order; no round is lost and none is answered twice.  This is for tasks and answers
    the text formats can carry (no newline in a field or a
    metadata entry, and no '=' in a metadata key); the bound on the
    rounds is the number of access keys. *)
Theorem round_trips_answered `{ArgOrder} (now : TimePoint)
    (sconfig : ServerConfig) (cconfig : ClientConfig)
    (rounds : list (TaskMessage * (TaskMessage -> ResultMessage))) (w : World) :
  heap_wf (w_heap w) -> is_Some (w_transport w) -> (0 <= world_capacity w)%Z ->
  (forall n, world_inbox n w = []) ->
  cc_server_node cconfig = sc_node_id sconfig -> cc_node_id cconfig <> sc_node_id sconfig ->
  cc_node_id cconfig <> "" -> sc_node_id sconfig <> "" ->
  (sizeZ rounds < 2 ^ 31 - 512)%Z ->
  Forall (fun '(task, answer) => task_safe task /\ result_safe (answer task)) rounds ->
  let '(ok, w', c, s) := set_up sconfig cconfig w in
  ok = true /\
  round_trips now rounds w' c s = (fun '(task, answer) => answer task) <$> rounds.
Proof.
  intros Hh Ht Hcap Hin Hnames Hapart Hn1 Hn2 Hsize Hsafe.
  destruct (set_up_ready sconfig cconfig w) as (w' & c & s & E & Hr & Hreg & Hid & _); try done.
  rewrite E. split; [done|].
  apply round_trips_spec; rewrite ?Hreg, ?Hid; auto; [split; simpl; lia|lia|lia].
Qed.

(** [RdmaClient::Connect] on a new client succeeds exactly when there is a
    transport and both node names are non-empty.  A success leaves the client ready
    to submit and the messages in transit as they were; a refusal changes nothing. *)
Theorem client_Connect_correct (config : ClientConfig) (w : World) :
  heap_wf (w_heap w) ->
  let '(ok, w', c') := client_Connect w (new_RdmaClient config) in
  (ok = true <-> is_Some (w_transport w) /\ cc_node_id config <> "" /\ cc_server_node config <> "") /\
  (ok = true -> client_ready w' c' /\ cl_config c' = config /\
     forall n, world_inbox n w' = world_inbox n w) /\
  (ok = false -> w' = w /\ c' = new_RdmaClient config).
Proof.
  intros Hh. destruct (decide (is_Some (w_transport w))) as [Ht|Ht].
  - destruct (decide (cc_node_id config <> "" /\ cc_server_node config <> "")) as [[Hn Hs]|Hns].
    + destruct (client_Connect_ready w (new_RdmaClient config)) as
        (w' & c' & E & Hr & Hcf & _ & _ & _ & Hin & _); try done.
      by rewrite E.
    + unfold client_Connect. destruct (w_transport w) as [t|]; [|by destruct Ht].
      destruct (hs_accepted _) eqn:E; [by apply Validate_accepted in E|]. simpl.
      split_and!; [|done|done]. split; [done|]. tauto.
  - unfold client_Connect. destruct (w_transport w) as [t|]; [by destruct Ht; eexists|].
    split_and!; [|done|done]. split; [done|]. intros [[? [=]] _].
Qed.


(** [RdmaClient::SubmitTask] answers 0 exactly without a transport or before a
    successful [Connect]; it then registers nothing, sends nothing and uses no id.
    Otherwise it answers the next id and registers the serialised task. *)
Theorem SubmitTask_refuses `{ArgOrder} (now : TimePoint) (task : TaskMessage) (w : World)
    (c : RdmaClient) :
  (0 < cl_next_work_request_id c)%Z ->
  let '(id, w', c') := SubmitTask now task w c in
  (id = 0%Z <-> w_transport w = None \/ conn_established (cl_connection c) = false) /\
  (id = 0%Z -> w' = w /\ c' = c) /\
  (id <> 0%Z -> id = cl_next_work_request_id c /\
     cl_next_work_request_id c' = u64 (id + 1) /\
     cl_registry c' = (Register (TaskMessage.Serialize task) (w_heap w) (cl_registry c)).2).
Proof.
  intros Hid. unfold SubmitTask. destruct (w_transport w) as [t|]; [|naive_solver].
  destruct (conn_established _); cbn [negb]; [|naive_solver].
  destruct (Register _ _ _) as [[region h1] r1]. destruct (post_send _ _ _ _ _) as [w2 cq].
  simpl. split_and!; [|lia|done]. split; [lia|naive_solver].
Qed.

(** ** Witnesses *)

Definition sample_server : ServerConfig := mkServerConfig "pingpong-server" (sc_listen_address default_ServerConfig).

Definition sample_client : ClientConfig := mkClientConfig "pingpong-client" "pingpong-server".

Definition idle_world : World :=
  mkWorld empty_heap ∅ (Some (new_TransportRdma default_TransportConfig)).

Definition ping : TaskMessage :=
  mkTaskMessage "ping-1" "pingpong" "pingpong-client" "pingpong-server" "ping" {["round" := "1"]}.

Definition pong (task : TaskMessage) : ResultMessage :=
  mkResultMessage (tm_task_id task) "pingpong-server" "pingpong-client" true "pong"
    {["round" := "1"]}.

Lemma ping_safe : task_safe ping.
Proof. apply (bool_decide_eq_true_1 (task_safe ping)). vm_compute. reflexivity. Qed.

Lemma pong_safe : result_safe (pong ping).
Proof. apply (bool_decide_eq_true_1 (result_safe (pong ping))). vm_compute. reflexivity. Qed.

Lemma round_trips_answered_witness :
  let '(ok, w', c, s) := set_up sample_server sample_client idle_world in
  ok = true /\ @round_trips true 0%Z [(ping, pong)] w' c s = [pong ping].
Proof.
  apply (@round_trips_answered true 0%Z sample_server sample_client [(ping, pong)] idle_world).
  - exact heap_wf_empty.
  - eexists. reflexivity.
  - discriminate.
  - reflexivity.
  - reflexivity.
  - discriminate.
  - discriminate.
  - discriminate.
  - reflexivity.
  - constructor; [exact (conj ping_safe pong_safe) | constructor].
Defined.

Lemma client_Connect_correct_witness :
  (client_Connect idle_world (new_RdmaClient sample_client)).1.1 = true.
Proof.
  pose proof (client_Connect_correct sample_client idle_world heap_wf_empty) as H.
  destruct (client_Connect idle_world (new_RdmaClient sample_client)) as [[ok w'] c'].
  apply H. split; [eexists; reflexivity | split; discriminate].
Defined.

Lemma SubmitTask_refuses_witness :
  (@SubmitTask true 0%Z ping idle_world (new_RdmaClient sample_client)).1.1 = 0%Z.
Proof.
  pose proof (@SubmitTask_refuses true 0%Z ping idle_world (new_RdmaClient sample_client)
    ltac:(reflexivity)) as H.
  destruct (@SubmitTask true 0%Z ping idle_world (new_RdmaClient sample_client)) as [[id w'] c'].
  apply H. right. reflexivity.
Defined.
