(* ===== verification/Pingpong.v ===== *)
(** * rdma/examples/pingpong.cpp

    The example program with its two threads: the main thread submits a task and
    waits for its answer, the server thread waits for a task and answers it, 128
    times.  Every call of an endpoint is one step; what such a call does after its
    critical section in the transport is local to its thread. *)

From S2P Require Import Prelude CppString CppNumber Types BoundedFifo WireLine TaskMessage.
From S2P Require Import ResultMessage Memory QueuePair Connection Completion Transport World.
From S2P Require Import ClientServer.

Definition kRounds : nat := 128.

Definition pingpong_server : ServerConfig :=
  mkServerConfig "pingpong-server" (sc_listen_address default_ServerConfig).

Definition pingpong_client : ClientConfig := mkClientConfig "pingpong-client" "pingpong-server".

(** [std::to_string(i + 1)]. *)
Definition round_text (i : nat) : string := to_string (Z.of_nat i + 1).

Definition ping_task (i : nat) : TaskMessage :=
  mkTaskMessage ("ping-" +:+ round_text i) "pingpong" "pingpong-client" "pingpong-server" "ping"
    {["round" := round_text i]}.

Definition pong_result (node_id : string) (i : nat) (task : TaskMessage) : ResultMessage :=
  mkResultMessage (tm_task_id task) node_id "pingpong-client" true "pong"
    {["round" := round_text i]}.

(** Where the threads are: before the call of round [i], or past their loop. *)
Inductive client_pc := ClSubmit (i : nat) | ClPoll (i : nat) | ClDone.

Inductive server_pc := SvPoll (i : nat) | SvAnswer (i : nat) (task : TaskMessage) | SvDone.

Record Pingpong := mkPingpong {
  pp_world : World;
  pp_client : RdmaClient;
  pp_server : RdmaServer;
  pp_client_pc : client_pc;
  pp_server_pc : server_pc;
  pp_results : list ResultMessage;    (* [received] is their number *)
}.

(** The loop conditions [i < kRounds]. *)
Definition client_next (i : nat) : client_pc := if i <? kRounds then ClSubmit i else ClDone.

Definition server_next (i : nat) : server_pc := if i <? kRounds then SvPoll i else SvDone.

(** The program up to the start of the server thread; [inl] is a return. *)
Definition pingpong_begin : Z + Pingpong :=
  let w := mkWorld empty_heap ∅ (Some (new_TransportRdma default_TransportConfig)) in
  let '(ok, w', c, s) := set_up pingpong_server pingpong_client w in
  if ok then inr (mkPingpong w' c s (client_next 0) (server_next 0) []) else inl 1%Z.

(** [timeouts] is whether a poll may end without a message at its timeout of two
    seconds.  A poll that finds a message can also answer nothing, if the message
    has no payload. *)
Inductive pp_step `{ArgOrder} (timeouts : bool) : Pingpong -> Pingpong -> Prop :=
| pp_submit now i w c s spc results id w' c' :
    SubmitTask now (ping_task i) w c = (id, w', c') ->
    pp_step timeouts (mkPingpong w c s (ClSubmit i) spc results)
      (mkPingpong w' c' s (if (id =? 0)%Z then ClDone else ClPoll i) spc results)
| pp_result i w c s spc results result w' :
    PollResult w c = (Some result, w') ->
    pp_step timeouts (mkPingpong w c s (ClPoll i) spc results)
      (mkPingpong w' c s (client_next (S i)) spc (results ++ [result]))
| pp_no_result i w c s spc results w' :
    timeouts = true \/ world_inbox (cc_node_id (cl_config c)) w <> [] ->
    PollResult w c = (None, w') ->
    pp_step timeouts (mkPingpong w c s (ClPoll i) spc results)
      (mkPingpong w' c s ClDone spc results)
| pp_task i w c s cpc results task w' :
    server_PollTask w s = (Some task, w') ->
    pp_step timeouts (mkPingpong w c s cpc (SvPoll i) results)
      (mkPingpong w' c s cpc (SvAnswer i task) results)
| pp_no_task i w c s cpc results w' :
    timeouts = true \/ world_inbox (sv_node_id s) w <> [] ->
    server_PollTask w s = (None, w') ->
    pp_step timeouts (mkPingpong w c s cpc (SvPoll i) results)
      (mkPingpong w' c s cpc SvDone results)
| pp_answer now i task w c s cpc results ok w' s' :
    server_SendResult now "pingpong-client" (pong_result (sv_node_id s) i task) w s = (ok, w', s') ->
    pp_step timeouts (mkPingpong w c s cpc (SvAnswer i task) results)
      (mkPingpong w' c s' cpc (server_next (S i)) results).

(** What [main] returns, once the server thread has been joined. *)
Definition pp_exit (p : Pingpong) : option Z :=
  match pp_client_pc p, pp_server_pc p with
  | ClDone, SvDone =>
      Some (if (sizeZ (pp_results p) =? Z.of_nat kRounds)%Z then 0 else 1)%Z
  | _, _ => None
  end.

(** ** Termination measure *)

Definition client_left (pc : client_pc) : nat :=
  match pc with
  | ClSubmit i => 2 * (kRounds - i) + 2
  | ClPoll i => 2 * (kRounds - i) + 1
  | ClDone => 0
  end.

Definition server_left (pc : server_pc) : nat :=
  match pc with
  | SvPoll i => 2 * (kRounds - i) + 2
  | SvAnswer i _ => 2 * (kRounds - i) + 1
  | SvDone => 0
  end.

Definition calls_left (p : Pingpong) : nat :=
  client_left (pp_client_pc p) + server_left (pp_server_pc p).

(** ** Invariant of the runs without timeouts *)

(** The results of the first [n] rounds. *)
Definition answers (n : nat) : list ResultMessage :=
  (fun i => pong_result "pingpong-server" i (ping_task i)) <$> seq 0 n.

(** After [sent] submissions and [got] results. *)
Record pp_common (sent got : nat) (p : Pingpong) : Prop := {
  pc_client : client_ready (pp_world p) (pp_client p);
  pc_peers : peers_wf "pingpong-server" (sv_peers (pp_server p));
  pc_cconfig : cl_config (pp_client p) = pingpong_client;
  pc_sconfig : sv_config (pp_server p) = pingpong_server;
  pc_capacity : (0 <= world_capacity (pp_world p))%Z;
  pc_id : cl_next_work_request_id (pp_client p) = (Z.of_nat sent + 1)%Z;
  pc_region : reg_next_region_id (cl_registry (pp_client p)) = Z.of_nat sent;
  pc_access : reg_next_access_key (cl_registry (pp_client p)) = (2 * Z.of_nat sent + 1024)%Z;
  pc_results : pp_results p = answers got;
}.

(** The inbox of a node holds one message with this text. *)
Definition holds_one (node : string) (bytes : ByteBuffer) (w : World) : Prop :=
  exists m l, world_inbox node w = [m] /\ msg_payload m = Some l /\
    hp_cells (w_heap w) !! l = Some bytes.

Inductive pp_phase (p : Pingpong) : Prop :=
| phase_submit i :
    pp_common i i p -> i <= kRounds ->
    pp_client_pc p = client_next i -> pp_server_pc p = server_next i ->
    world_inbox "pingpong-server" (pp_world p) = [] ->
    world_inbox "pingpong-client" (pp_world p) = [] -> pp_phase p
| phase_task i :
    pp_common (S i) i p -> i < kRounds ->
    pp_client_pc p = ClPoll i -> pp_server_pc p = SvPoll i ->
    holds_one "pingpong-server" (TaskMessage.Serialize (ping_task i)) (pp_world p) ->
    world_inbox "pingpong-client" (pp_world p) = [] -> pp_phase p
| phase_answer i :
    pp_common (S i) i p -> i < kRounds ->
    pp_client_pc p = ClPoll i -> pp_server_pc p = SvAnswer i (ping_task i) ->
    world_inbox "pingpong-server" (pp_world p) = [] ->
    world_inbox "pingpong-client" (pp_world p) = [] -> pp_phase p
| phase_result i :
    pp_common (S i) i p -> i < kRounds ->
    pp_client_pc p = ClPoll i -> pp_server_pc p = server_next (S i) ->
    world_inbox "pingpong-server" (pp_world p) = [] ->
    holds_one "pingpong-client"
      (ResultMessage.Serialize (pong_result "pingpong-server" i (ping_task i))) (pp_world p) ->
    pp_phase p.

(** ** Lemmas *)

Lemma client_next_left i : client_left (client_next (S i)) < 2 * (kRounds - i) + 1.
Proof. unfold client_next. destruct (Nat.ltb_spec (S i) kRounds); cbn [client_left server_left]; lia. Qed.

Lemma server_next_left i : server_left (server_next (S i)) < 2 * (kRounds - i) + 1.
Proof. unfold server_next. destruct (Nat.ltb_spec (S i) kRounds); cbn [client_left server_left]; lia. Qed.

(** Every step uses up one of the calls that are left. *)
Lemma pp_step_left `{ArgOrder} timeouts p p' : pp_step timeouts p p' -> calls_left p' < calls_left p.
Proof.
  destruct 1; unfold calls_left; cbn [pp_client_pc pp_server_pc client_left server_left];
    try case_match; cbn [client_left server_left];
    try pose proof (client_next_left i); try pose proof (server_next_left i); lia.
Qed.

Lemma client_next_lt i : i < kRounds -> client_next i = ClSubmit i.
Proof. intros Hi. unfold client_next. by destruct (Nat.ltb_spec i kRounds); [|lia]. Qed.

Lemma server_next_lt i : i < kRounds -> server_next i = SvPoll i.
Proof. intros Hi. unfold server_next. by destruct (Nat.ltb_spec i kRounds); [|lia]. Qed.

(** Both next positions tell whether the loop goes on. *)
Lemma next_inv i :
  i <= kRounds ->
  (i < kRounds /\ client_next i = ClSubmit i /\ server_next i = SvPoll i) \/
  (i = kRounds /\ client_next i = ClDone /\ server_next i = SvDone).
Proof.
  intros Hi. destruct (decide (i < kRounds)) as [Hlt|Hge].
  - left. auto using client_next_lt, server_next_lt.
  - right. assert (i = kRounds) as -> by lia. done.
Qed.

Lemma ping_pong_safe i :
  i < kRounds -> task_safe (ping_task i) /\ result_safe (pong_result "pingpong-server" i (ping_task i)).
Proof.
  intros Hi.
  assert (H : forallb (fun i => bool_decide (task_safe (ping_task i)) &&
    bool_decide (result_safe (pong_result "pingpong-server" i (ping_task i)))) (seq 0 kRounds) = true)
    by (vm_compute; reflexivity).
  rewrite forallb_forall in H. specialize (H i).
  rewrite andb_true_iff, !bool_decide_eq_true in H. apply H, in_seq. lia.
Qed.

Lemma answers_S n :
  answers (S n) = answers n ++ [pong_result "pingpong-server" n (ping_task n)].
Proof. unfold answers. by rewrite seq_S, fmap_app. Qed.

(** A poll of the only message of an inbox. *)
Lemma PollResult_one w c bytes :
  is_Some (w_transport w) -> holds_one (cc_node_id (cl_config c)) bytes w ->
  exists w', PollResult w c = (Some (ResultMessage.Deserialize bytes), w') /\
    (forall n, world_inbox n w' =
       if decide (n = cc_node_id (cl_config c)) then [] else world_inbox n w) /\
    w_heap w' = w_heap w /\ world_capacity w' = world_capacity w /\ is_Some (w_transport w').
Proof.
  intros [t Ht] (m & l & Hin & Hp & Hl).
  destruct (poll_decode ResultMessage.Deserialize _ _ _ _ _ Hin Hp Hl) as (w' & E & H').
  exists w'. unfold PollResult. by rewrite Ht, E.
Qed.

Lemma server_PollTask_one w s bytes :
  is_Some (w_transport w) -> holds_one (sv_node_id s) bytes w ->
  exists w', server_PollTask w s = (Some (TaskMessage.Deserialize bytes), w') /\
    (forall n, world_inbox n w' = if decide (n = sv_node_id s) then [] else world_inbox n w) /\
    w_heap w' = w_heap w /\ world_capacity w' = world_capacity w /\ is_Some (w_transport w').
Proof.
  intros [t Ht] (m & l & Hin & Hp & Hl).
  destruct (poll_decode TaskMessage.Deserialize _ _ _ _ _ Hin Hp Hl) as (w' & E & H').
  exists w'. unfold server_PollTask. by rewrite Ht, E.
Qed.

(** A poll of an empty inbox. *)
Lemma poll_none {A} (decode : ByteBuffer -> A) node w :
  world_inbox node w = [] ->
  (let '(message, w1) := poll_receive node w in
   (decode_payload decode message (w_heap w1), w1)).1 = None.
Proof. intros E. destruct (poll_receive_empty _ _ E) as (w' & -> & _). done. Qed.

Lemma PollResult_none w c : world_inbox (cc_node_id (cl_config c)) w = [] -> (PollResult w c).1 = None.
Proof. intros E. unfold PollResult. destruct (w_transport w); [|done]. by apply poll_none. Qed.

Lemma server_PollTask_none w s : world_inbox (sv_node_id s) w = [] -> (server_PollTask w s).1 = None.
Proof. intros E. unfold server_PollTask. destruct (w_transport w); [|done]. by apply poll_none. Qed.

(** The common part survives a step that only takes a message. *)
Lemma pp_common_poll sent got w c s cpc spc results w' cpc' spc' :
  pp_common sent got (mkPingpong w c s cpc spc results) ->
  w_heap w' = w_heap w -> world_capacity w' = world_capacity w -> is_Some (w_transport w') ->
  pp_common sent got (mkPingpong w' c s cpc' spc' results).
Proof.
  intros [[H1 H2 H3] ????????] Hh Hcap Ht. simpl in *. constructor; simpl; auto; [|lia].
  constructor; [done| |done]. by rewrite Hh.
Qed.

(** ** Lemmas: one per kind of step *)

Section phases.
Context {AO : ArgOrder}.

Lemma phase_step_submit now i w c s spc results id w' c' :
  SubmitTask now (ping_task i) w c = (id, w', c') ->
  pp_phase (mkPingpong w c s (ClSubmit i) spc results) ->
  pp_phase (mkPingpong w' c' s (if (id =? 0)%Z then ClDone else ClPoll i) spc results).
Proof.
  intros E [j HC Hj Hc Hs Hin1 Hin2|j HC Hj Hc|j HC Hj Hc|j HC Hj Hc]; simpl in *; try done.
  destruct (next_inv j Hj) as [(Hlt & Ec & Es)|(-> & Ec & Es)]; rewrite Ec in Hc; [|done].
  injection Hc as <-. destruct HC as [H1 H2 H3 H4 H5 H6 H7 H8 H9]. simpl in *. subst spc.
  destruct (SubmitTask_spec now (ping_task i) w c H1) as
    (l & w1 & c1 & E1 & (m & Hm & Hin) & Hl & _ & Hr & Hcf & Hcap & Hid & _ & Hreg & Hacc).
  { unfold counters_ok, kRounds in *. lia. }
  { apply has_room_empty; [done|]. by rewrite H3. }
  rewrite E1 in E. injection E as <- <- <-. rewrite H3 in *. rewrite H6 in *.
  destruct (Z.eqb_spec (Z.of_nat i + 1) 0); [lia|].
  rewrite u64_small in Hid by (unfold kRounds in *; lia).
  apply (phase_task _ i); simpl; auto.
  - constructor; simpl; auto; try lia; congruence.
  - exists m, l. split_and!; [|done|done]. by rewrite Hin, decide_True, Hin1.
  - by rewrite Hin, decide_False, Hin2.
Qed.

Lemma phase_step_result i w c s spc results result w' :
  PollResult w c = (Some result, w') ->
  pp_phase (mkPingpong w c s (ClPoll i) spc results) ->
  pp_phase (mkPingpong w' c s (client_next (S i)) spc (results ++ [result])).
Proof.
  intros E HP.
  assert (Hnone : world_inbox "pingpong-client" w = [] -> cl_config c = pingpong_client -> False).
  { intros Hin Hc. pose proof (PollResult_none w c ltac:(by rewrite Hc)) as H. by rewrite E in H. }
  destruct HP as [j HC Hj Hc|j HC Hj Hc Hs _ Hin|j HC Hj Hc Hs _ Hin|j HC Hj Hc Hs Hin1 Hin2];
    simpl in *; try (destruct (Hnone Hin (pc_cconfig _ _ _ HC))).
  { destruct (next_inv j Hj) as [(_ & Ec & _)|(_ & Ec & _)]; rewrite Ec in Hc; done. }
  injection Hc as <-. pose proof (pc_cconfig _ _ _ HC) as Hcf. simpl in Hcf.
  destruct (PollResult_one w c (ResultMessage.Serialize (pong_result "pingpong-server" i (ping_task i)))
    (clr_transport _ _ (pc_client _ _ _ HC))) as (w1 & E1 & Hin & Hh & Hcap & Ht);
    [by rewrite Hcf|].
  rewrite E1, ResultMessage.result_roundtrip in E by (by apply ping_pong_safe).
  injection E as <- <-. rewrite Hcf in Hin. simpl in Hin.
  apply (phase_submit _ (S i)); simpl; auto.
  - eapply (pp_common_poll _ _ _ _ _ _ _ _ w1 (client_next (S i)) spc) in HC; [|done..].
    destruct HC as [H1 H2 H3 H4 H5 H6 H7 H8 H9]. simpl in *.
    constructor; simpl; auto. by rewrite answers_S, H9.
  - by rewrite Hin, decide_False.
Qed.

Lemma phase_step_task i w c s cpc results task w' :
  server_PollTask w s = (Some task, w') ->
  pp_phase (mkPingpong w c s cpc (SvPoll i) results) ->
  pp_phase (mkPingpong w' c s cpc (SvAnswer i task) results).
Proof.
  intros E HP.
  assert (Hnone : world_inbox "pingpong-server" w = [] -> sv_config s = pingpong_server -> False).
  { intros Hin Hc. pose proof (server_PollTask_none w s) as H.
    unfold sv_node_id in H. rewrite Hc in H. specialize (H Hin). by rewrite E in H. }
  destruct HP as [j HC Hj Hc Hs Hin|j HC Hj Hc Hs Hin1 Hin2|j HC Hj Hc Hs Hin|j HC Hj Hc Hs Hin];
    simpl in *; try (destruct (Hnone Hin (pc_sconfig _ _ _ HC))).
  injection Hs as <-. pose proof (pc_sconfig _ _ _ HC) as Hsf. simpl in Hsf.
  destruct (server_PollTask_one w s (TaskMessage.Serialize (ping_task i))
    (clr_transport _ _ (pc_client _ _ _ HC))) as (w1 & E1 & Hin & Hh & Hcap & Ht);
    [unfold sv_node_id; by rewrite Hsf|].
  rewrite E1, TaskMessage.task_roundtrip in E by (by apply ping_pong_safe).
  injection E as <- <-. unfold sv_node_id in Hin. rewrite Hsf in Hin. simpl in Hin.
  apply (phase_answer _ i); simpl; auto.
  - by eapply (pp_common_poll _ _ w).
  - by rewrite Hin, decide_False.
Qed.

Lemma phase_step_answer now i task w c s cpc results ok w' s' :
  server_SendResult now "pingpong-client" (pong_result (sv_node_id s) i task) w s = (ok, w', s') ->
  pp_phase (mkPingpong w c s cpc (SvAnswer i task) results) ->
  pp_phase (mkPingpong w' c s' cpc (server_next (S i)) results).
Proof.
  intros E HP.
  destruct HP as [j HC Hj Hc Hs|j HC Hj Hc Hs|j HC Hj Hc Hs Hin1 Hin2|j HC Hj Hc Hs]; simpl in *; try done.
  { destruct (next_inv j Hj) as [(_ & _ & Es)|(_ & _ & Es)]; by rewrite Es in Hs. }
  2:{ destruct (next_inv (S j) Hj) as [(_ & _ & Es)|(_ & _ & Es)]; by rewrite Es in Hs. }
  injection Hs as <- ->. destruct HC as [H1 H2 H3 H4 H5 H6 H7 H8 H9]. simpl in *.
  assert (Hnode : sv_node_id s = "pingpong-server") by (unfold sv_node_id; by rewrite H4).
  rewrite Hnode in E. destruct H1 as [Hr1 Hr2 Hr3].
  destruct (server_SendResult_spec now "pingpong-client"
    (pong_result "pingpong-server" i (ping_task i)) w s) as
    (w1 & s1 & E1 & (m & Hm & Hin) & Hh & Hcap & Ht & Hp & Hsf); auto.
  { by rewrite Hnode. }
  { apply Hr2. }
  { by apply has_room_empty. }
  rewrite E1 in E. injection E as <- <- <-.
  assert (Hnode1 : sv_node_id s1 = "pingpong-server") by (unfold sv_node_id; by rewrite Hsf, H4).
  apply (phase_result _ i); simpl; auto.
  - constructor; simpl; auto; [|by rewrite <- Hnode1|congruence|lia].
    constructor; [done| |done]. rewrite Hh. by apply registry_wf_make_shared.
  - by rewrite Hin, decide_False.
  - exists m, (hp_next (w_heap w)). split_and!; [by rewrite Hin, decide_True, Hin2|done|].
    rewrite Hh. simpl. by rewrite lookup_insert_eq.
Qed.

End phases.

(** Without timeouts, no poll ends empty-handed. *)
Lemma phase_no_result i w c s spc results w' :
  world_inbox (cc_node_id (cl_config c)) w <> [] -> PollResult w c = (None, w') ->
  pp_phase (mkPingpong w c s (ClPoll i) spc results) -> False.
Proof.
  intros Hne E [j HC Hj Hc|j HC Hj Hc Hs _ Hin|j HC Hj Hc Hs _ Hin|j HC Hj Hc Hs Hin1 Hin2];
    pose proof (pc_cconfig _ _ _ HC) as Hcf; simpl in *; rewrite Hcf in Hne; try done.
  edestruct (PollResult_one w c) as (w1 & E1 & _);
    [apply (clr_transport _ _ (pc_client _ _ _ HC))|rewrite Hcf; exact Hin2|congruence].
Qed.

Lemma phase_no_task i w c s cpc results w' :
  world_inbox (sv_node_id s) w <> [] -> server_PollTask w s = (None, w') ->
  pp_phase (mkPingpong w c s cpc (SvPoll i) results) -> False.
Proof.
  intros Hne E [j HC Hj Hc Hs Hin|j HC Hj Hc Hs Hin1 _|j HC Hj Hc Hs Hin|j HC Hj Hc Hs Hin];
    pose proof (pc_sconfig _ _ _ HC) as Hsf; simpl in *;
    assert (sv_node_id s = "pingpong-server") as Hnode by (unfold sv_node_id; by rewrite Hsf);
    rewrite Hnode in Hne; try done.
  edestruct (server_PollTask_one w s) as (w1 & E1 & _);
    [apply (clr_transport _ _ (pc_client _ _ _ HC))|rewrite Hnode; exact Hin1|congruence].
Qed.

Lemma phase_step `{ArgOrder} p p' : pp_step false p p' -> pp_phase p -> pp_phase p'.
Proof.
  destruct 1 as [| |? ? ? ? ? ? ? [?|Hne] E| |? ? ? ? ? ? ? [?|Hne] E|]; try done; intros HP.
  - by eapply phase_step_submit.
  - by eapply phase_step_result.
  - by destruct (phase_no_result _ _ _ _ _ _ _ Hne E HP).
  - by eapply phase_step_task.
  - by destruct (phase_no_task _ _ _ _ _ _ _ Hne E HP).
  - by eapply phase_step_answer.
Qed.

(** A pair of threads that cannot step has finished: with timeouts always, without
    them in every phase. *)
Lemma pp_stuck_timeouts `{ArgOrder} p : nf (pp_step true) p -> is_Some (pp_exit p).
Proof.
  intros Hnf. destruct p as [w c s cpc spc results]. destruct cpc as [i|i|].
  - destruct (SubmitTask 0 (ping_task i) w c) as [[id w'] c'] eqn:E.
    destruct Hnf. eexists. by eapply pp_submit.
  - destruct (PollResult w c) as [[r|] w'] eqn:E; destruct Hnf; eexists;
      [by eapply pp_result|eapply pp_no_result; [by left|done]].
  - destruct spc as [i|i task|]; [..|by eexists].
    + destruct (server_PollTask w s) as [[t|] w'] eqn:E; destruct Hnf; eexists;
        [by eapply pp_task|eapply pp_no_task; [by left|done]].
    + destruct (server_SendResult 0 "pingpong-client" (pong_result (sv_node_id s) i task) w s)
        as [[ok w'] s'] eqn:E. destruct Hnf. eexists. by eapply pp_answer.
Qed.

Lemma pp_stuck_phase `{ArgOrder} p :
  pp_phase p -> nf (pp_step false) p -> pp_exit p = Some 0%Z /\ pp_results p = answers kRounds.
Proof.
  intros HP Hnf. destruct p as [w c s cpc spc results].
  destruct HP as [j HC Hj Hc Hs|j HC Hj Hc Hs Hin|j HC Hj Hc Hs|j HC Hj Hc Hs _ Hin]; simpl in *; subst.
  - pose proof (pc_results _ _ _ HC) as Hr. simpl in Hr. subst results.
    destruct (next_inv j Hj) as [(_ & Ec & _)|(-> & _)]; [|done].
    destruct (SubmitTask 0 (ping_task j) w c) as [[id w'] c'] eqn:E. destruct Hnf.
    rewrite Ec. eexists. by eapply pp_submit.
  - destruct Hnf. pose proof (pc_sconfig _ _ _ HC) as Hsf. simpl in Hsf.
    edestruct (server_PollTask_one w s) as (w1 & E1 & _); [apply (clr_transport _ _ (pc_client _ _ _ HC))
      |unfold sv_node_id; rewrite Hsf; exact Hin|]. eexists. by eapply pp_task.
  - destruct (server_SendResult 0 "pingpong-client" (pong_result (sv_node_id s) j (ping_task j)) w s)
      as [[ok w'] s'] eqn:E. destruct Hnf. eexists. by eapply pp_answer.
  - destruct Hnf. pose proof (pc_cconfig _ _ _ HC) as Hcf. simpl in Hcf.
    edestruct (PollResult_one w c) as (w1 & E1 & _); [apply (clr_transport _ _ (pc_client _ _ _ HC))
      |rewrite Hcf; exact Hin|]. eexists. by eapply pp_result.
Qed.

(** The set-up succeeds and starts the first phase. *)
Lemma pingpong_begin_phase : exists p, pingpong_begin = inr p /\ pp_phase p.
Proof.
  destruct (set_up_ready pingpong_server pingpong_client
    (mkWorld empty_heap ∅ (Some (new_TransportRdma default_TransportConfig)))) as
    (w' & c & s & E & [Hc Hp Hnames _ Hin1 Hin2 Hcap] & Hreg & Hid & Hcf & Hsf); try done.
  unfold pingpong_begin. rewrite E. eexists. split; [done|].
  assert (Hnode : sv_node_id s = "pingpong-server") by (unfold sv_node_id; by rewrite Hsf).
  rewrite Hnode in *. rewrite Hcf in *.
  apply (phase_submit _ 0); simpl; auto; [|unfold kRounds; lia].
  constructor; simpl; auto; by rewrite Hreg.
Qed.

(** ** Properties *)

(** The pingpong program ends, and it ends well: the set-up succeeds; every
    interleaving of the two threads, with timeouts or without, is finite and the
    join at its end is never stuck; and if no poll times out, every interleaving
    runs to the end with exit code 0, the client having received the answer to
    each of its 128 tasks, in order. *)
Theorem pingpong_terminates `{ArgOrder} :
  exists p0, pingpong_begin = inr p0 /\
    sn (pp_step true) p0 /\
    (forall p, rtc (pp_step true) p0 p -> nf (pp_step true) p -> is_Some (pp_exit p)) /\
    sn (pp_step false) p0 /\
    (forall p, rtc (pp_step false) p0 p -> nf (pp_step false) p ->
       pp_exit p = Some 0%Z /\ pp_results p = answers kRounds).
Proof.
  destruct pingpong_begin_phase as (p0 & E & HP). exists p0. split_and!; [done| | | |].
  - apply (sn_measure _ calls_left). apply pp_step_left.
  - intros p _. apply pp_stuck_timeouts.
  - apply (sn_measure _ calls_left). apply pp_step_left.
  - intros p Hrtc. apply pp_stuck_phase. exact (rtc_invariant _ _ phase_step _ _ Hrtc HP).
Qed.
