(* ===== verification/Demos.v ===== *)
(** * rdma/examples/send_recv_demo.cpp, worker_transport_demo.cpp, write_demo.cpp

    The three demonstration programs as functions: the value is what [main] returns
    and the lines it writes to [std::cout].  The first two have one thread; the
    third starts a receiver thread, whose schedule is an argument. *)

From S2P Require Import Prelude CppString CppNumber Types BoundedFifo WireLine TaskMessage.
From S2P Require Import ResultMessage Memory BufferPool QueuePair Connection Completion Metrics.
From S2P Require Import Transport World WorkerSession.
From Stdlib Require Import Strings.Byte.

(** [std::make_shared<rdma::TransportRdma>()] in a fresh process. *)
Definition fresh_world : World :=
  mkWorld empty_heap ∅ (Some (new_TransportRdma default_TransportConfig)).

(** [{.node_id = node}]: the other members keep their defaults. *)
Definition session_config (node : string) : WorkerSessionConfig :=
  mkWorkerSessionConfig node default_BufferPoolConfig default_CompletionQueueConfig.

(** ** send_recv_demo.cpp *)

Definition send_recv_task : TaskMessage :=
  mkTaskMessage "task-1" "send_recv" "demo-sender" "demo-receiver" "hello from sender"
    {["payload_bytes" := "18"]}.

Definition send_recv_lines (message : TaskMessage) (completion : CompletionEvent) : list string :=
  ["send/recv demo";
   "task_id: " +:+ tm_task_id message;
   "kind: " +:+ tm_kind message;
   "from: " +:+ tm_source_node message;
   "to: " +:+ tm_target_node message;
   "detail: " +:+ tm_description message;
   "completion_status: " +:+ ToString_CompletionStatus (ce_status completion)].

Definition send_recv_demo `{ArgOrder} (now : TimePoint) : Z * list string :=
  let '(w1, sender) := new_WorkerSession (session_config "demo-sender") fresh_world in
  let '(w2, receiver) := new_WorkerSession (session_config "demo-receiver") w1 in
  let '(submitted, w3, sender1) := Submit now send_recv_task w2 sender in
  let '(completion, _) := PollCompletion sender1 in
  let '(message, _, _) := PollTask w3 receiver in
  match sr_success submitted, completion, message with
  | true, Some c, Some m => (0%Z, send_recv_lines m c)
  | _, _, _ => (1%Z, [])
  end.

(** ** worker_transport_demo.cpp *)

Definition demo_job : TaskMessage :=
  mkTaskMessage "job-42" "broadcast" "controller" "worker-a" "ship one tensor shard"
    {["tensor" := "layer-12"; "dtype" := "fp16"]}.

Definition demo_result (task : TaskMessage) (node : string) : ResultMessage :=
  mkResultMessage (tm_task_id task) node "controller" true "task executed by worker session"
    {["status" := "done"]}.

Definition worker_transport_lines (task : TaskMessage) (result : ResultMessage)
    (worker_metrics : MetricsSnapshot) : list string :=
  ["worker transport demo";
   "task_id: " +:+ tm_task_id task;
   "worker: " +:+ rm_worker_node result;
   "detail: " +:+ rm_detail result;
   "worker_receives: " +:+ to_string (mt_receives worker_metrics);
   "worker_sends: " +:+ to_string (mt_sends worker_metrics)].

Definition worker_transport_demo `{ArgOrder} (now : TimePoint) : Z * list string :=
  let '(w1, controller) := new_WorkerSession (session_config "controller") fresh_world in
  let '(w2, worker) := new_WorkerSession (session_config "worker-a") w1 in
  let '(submitted, w3, controller1) := Submit now demo_job w2 controller in
  let '(completion, _) := PollCompletion controller1 in
  let '(task, w4, worker1) := PollTask w3 worker in
  match sr_success submitted, completion, task with
  | true, Some _, Some t =>
      let '(_, w5, worker2) := SendResult now (demo_result t (ws_node_id worker1)) w4 worker1 in
      let '(raw_result, w6) := poll_receive "controller" w5 in
      match raw_result with
      | None => (1%Z, [])
      | Some message =>
          match msg_payload message with
          | None => (1%Z, [])
          | Some _ =>
              let result := ResultMessage.Deserialize (deref (msg_payload message) (w_heap w6)) in
              ((if rm_success result then 0 else 1)%Z,
               worker_transport_lines t result (Snapshot (ws_metrics worker2)))
          end
      end
  | _, _, _ => (1%Z, [])
  end.

(** ** write_demo.cpp *)

Definition ReadyQueuePair (local remote : string) : QueuePair :=
  (BringUp (new_QueuePair (mkQueuePairConfig local remote 64 64))).2.

(** [std::fill(storage->begin(), storage->end(), value)]. *)
Definition fill_storage (p : ByteBufferPtr) (value : byte) (h : Heap) : Heap :=
  match p with
  | None => h
  | Some l => mkHeap (hp_next h) (alter (fmap (fun _ => value)) l (hp_cells h))
  end.

(** How the receiver thread's [PollReceive] falls around the main thread's
    [PostWrite]: it waits before the write and returns after it, it is called after
    the write, or its one second is over before the write. *)
Inductive receiver_schedule := WaitsFirst | CalledAfter | TimesOutFirst.

(** What the receiver stores in [received]. *)
Definition write_received (message : option Message) (region : MemoryRegion) (h : Heap) : bool :=
  match message with
  | None => false
  | Some m =>
      bool_decide (msg_operation m = op_kWrite) && (msg_size m h =? mr_size region h)%Z
  end.

Definition write_demo `{ArgOrder} (schedule : receiver_schedule) (now : TimePoint)
    : Z * list string :=
  let transport := new_TransportRdma default_TransportConfig in
  let completions := new_CompletionQueue default_CompletionQueueConfig in
  let qp := ReadyQueuePair "write-src" "write-dst" in
  let t1 := Connect qp transport in
  let '(region, h1, _) := Register_size 4096 empty_heap new_MemoryRegistry in
  let h2 := fill_storage (mr_storage region) x3c h1 in
  let t2 := match schedule with
            | WaitsFirst => PollReceive_enter "write-dst" t1
            | CalledAfter => t1
            | TimesOutFirst => (PollReceive "write-dst" t1).2
            end in
  let '(t3, cq, _) := PostWrite now h2 qp region "tensor-write" 1 t2 completions ∅ in
  let message :=
    match schedule with
    | WaitsFirst => (PollReceive_return "write-dst" t3).1
    | CalledAfter => (PollReceive "write-dst" t3).1
    | TimesOutFirst => (PollReceive "write-dst" t1).1
    end in
  let '(completion, _) := Poll cq in
  match write_received message region h2, completion with
  | true, Some c =>
      (0%Z, ["write demo";
             "backend: " +:+ BackendName t3;
             "bytes: " +:+ to_string (mr_size region h2);
             "completion_status: " +:+ ToString_CompletionStatus (ce_status c)])
  | _, _ => (1%Z, [])
  end.

(** ** Lemmas *)

(** A session as the demos construct it, on a world with these messages. *)
Lemma demo_session `{ArgOrder} node w :
  heap_wf (w_heap w) ->
  exists w' s, new_WorkerSession (session_config node) w = (w', s) /\
    session_wf w' s /\ ws_node_id s = node /\ ws_metrics s = new_Metrics /\
    ws_completions s = new_CompletionQueue default_CompletionQueueConfig /\
    ws_peers s = ∅ /\ w_transport w' = w_transport w /\ counters_ok (ws_registry s) /\
    (forall r, registry_wf (w_heap w) r -> registry_wf (w_heap w') r).
Proof.
  intros Hh. pose proof (new_WorkerSession_spec (session_config node) w Hh) as HS.
  cbv beta in HS. specialize (HS ltac:(simpl; lia) ltac:(simpl; lia) ltac:(split; simpl; lia)).
  assert (Hp : ws_peers (new_WorkerSession (session_config node) w).2 = ∅) by done.
  destruct (new_WorkerSession (session_config node) w) as [w' s]. exists w', s.
  destruct HS as (H1 & H2 & H3 & H4 & H5 & H6 & H7 & H8 & H9). split; [done|].
  split_and!; auto; [unfold ws_node_id; by rewrite H2|].
  unfold counters_ok. rewrite H7, H8. simpl. lia.
Qed.

Lemma Poll_one e config channels :
  Poll (mkCompletionQueue config [e] channels) = (Some e, mkCompletionQueue config [] channels).
Proof. done. Qed.

(** The first half of both session demos: a task goes from one new session to
    another. *)
Lemma sessions_exchange `{ArgOrder} now a b task :
  b <> "" -> tm_target_node task = b -> task_safe task ->
  exists w1 sender w2 receiver result w3 sender1 event sender2 w4 receiver1,
    new_WorkerSession (session_config a) fresh_world = (w1, sender) /\
    new_WorkerSession (session_config b) w1 = (w2, receiver) /\
    Submit now task w2 sender = (result, w3, sender1) /\ sr_success result = true /\
    PollCompletion sender1 = (Some event, sender2) /\ ce_status event = cs_kSuccess /\
    PollTask w3 receiver = (Some task, w4, receiver1) /\
    (forall n, world_inbox n w4 = []) /\ is_Some (w_transport w4) /\
    world_capacity w4 = 4096%Z /\ peers_wf b (ws_peers receiver1) /\
    ws_node_id receiver1 = b /\ mt_receives (ws_metrics receiver1) = 1%Z /\
    mt_sends (ws_metrics receiver1) = 0%Z.
Proof.
  intros Hb Htarget Hsafe.
  destruct (demo_session a fresh_world heap_wf_empty) as
    (w1 & sender & E1 & [Hp1 Hr1] & Hn1 & _ & Hcq & _ & Ht1 & Hc1 & _).
  destruct (demo_session b w1 (wf_heap _ _ Hr1)) as
    (w2 & receiver & E2 & _ & Hn2 & Hm2 & _ & Hpe2 & Ht2 & _ & Hk2).
  rewrite Ht1 in Ht2.
  assert (Hin2 : forall n, world_inbox n w2 = []) by (intros n; unfold world_inbox; by rewrite Ht2).
  assert (Hcap2 : world_capacity w2 = 4096%Z) by (unfold world_capacity; by rewrite Ht2).
  assert (Hpeer : peer_of (tm_target_node task) sender = b)
    by (unfold peer_of; by rewrite Htarget, decide_False).
  destruct (Submit_spec now task w2 sender) as
    (payload & w3 & sender1 & E3 & (l & bytes & -> & Hl) & Hd & _ & Hin3 & Hcap3 & Ht3 & _ & _ & _ & _ & _ & _ & Hcq1 & _).
  { constructor; auto. }
  { rewrite Ht2. by eexists. }
  { done. }
  { right. rewrite Hpeer, Hin2, Hcap2. done. }
  rewrite Hcq in Hcq1. cbn in Hcq1.
  destruct (PollTask_spec w3 receiver (task_envelope sender task (Some l) (ws_next_work_request_id sender))
    l []) as (w4 & E4 & Hin4 & Hh4 & Hcap4 & Ht4).
  { by rewrite Hin3, Hn2, Hpeer, decide_True, Hin2. }
  { done. }
  cbn [msg_payload task_envelope stamp] in E4. rewrite Hd, TaskMessage.task_roundtrip in E4 by done.
  do 5 eexists. exists w3, sender1. do 2 eexists. exists w4. eexists.
  split; [exact E1|]. split; [exact E2|]. split; [exact E3|]. split; [done|].
  split; [unfold PollCompletion; rewrite Hcq1; reflexivity|]. split; [done|]. split; [exact E4|].
  split_and!; auto; try lia.
  - intros n. rewrite Hin4, Hin3, Hn2, Hpeer, Hin2. by repeat case_decide.
  - simpl. rewrite Hpe2. apply peers_wf_empty.
  - simpl. by rewrite Hm2.
  - simpl. by rewrite Hm2.
Qed.

(** ** Properties *)

(** The session demos succeed: for every clock reading and every order of
    argument evaluation, send_recv_demo and worker_transport_demo return 0 and print
    the task as it was submitted, the successful completion, the worker's result
    and its counters of one receive and one send. *)
Theorem session_demos_succeed `{ArgOrder} (now : TimePoint) :
  send_recv_demo now =
    (0%Z, ["send/recv demo"; "task_id: task-1"; "kind: send_recv"; "from: demo-sender";
           "to: demo-receiver"; "detail: hello from sender"; "completion_status: success"]) /\
  worker_transport_demo now =
    (0%Z, ["worker transport demo"; "task_id: job-42"; "worker: worker-a";
           "detail: task executed by worker session"; "worker_receives: 1"; "worker_sends: 1"]).
Proof.
  split.
  - destruct (sessions_exchange now "demo-sender" "demo-receiver" send_recv_task) as
      (w1 & sd & w2 & rc & res & w3 & sd1 & ev & sd2 & w4 & rc1 & E1 & E2 & E3 & Hok & E4 & Hst & E5 & _);
      [done|done|exact (bool_decide_eq_true_1 (task_safe send_recv_task) eq_refl)|].
    unfold send_recv_demo. rewrite E1, E2, E3, E4, E5, Hok. unfold send_recv_lines. by rewrite Hst.
  - destruct (sessions_exchange now "controller" "worker-a" demo_job) as
      (w1 & sd & w2 & rc & res & w3 & sd1 & ev & sd2 & w4 & rc1 & E1 & E2 & E3 & Hok & E4 & Hst & E5 &
       Hin & Ht & Hcap & Hp & Hn & Hmr & Hms);
      [done|done|exact (bool_decide_eq_true_1 (task_safe demo_job) eq_refl)|].
    unfold worker_transport_demo. rewrite E1, E2, E3, E4, E5, Hok, Hn.
    destruct (SendResult_spec now (demo_result demo_job "worker-a") w4 rc1) as
      (payload & w5 & rc2 & E6 & -> & Hd & Hin5 & _ & _ & _ & Hm).
    { by rewrite Hn. }
    { done. }
    { right. by rewrite Hin, Hcap. }
    rewrite E6. pose proof (Hin5 "controller") as Hc. rewrite decide_True, Hin in Hc by done.
    destruct (poll_receive_head _ _ _ _ Hc) as (w6 & E7 & _ & Hh & _).
    rewrite E7. cbn [msg_payload result_envelope stamp]. rewrite Hh, Hd.
    rewrite ResultMessage.result_roundtrip
      by (exact (bool_decide_eq_true_1 (result_safe (demo_result demo_job "worker-a")) eq_refl)).
    unfold worker_transport_lines. rewrite Hm.
    destruct (ws_metrics rc1) as [sends ? receives ? ? ? ?]. simpl in Hmr, Hms. by subst.
Qed.

(** The write demo succeeds exactly when the receiver does not time out before
    the write: for every schedule, clock reading and argument order it returns 0 with
    the size of the region, or 1 in that one case. *)
Theorem write_demo_correct `{ArgOrder} (schedule : receiver_schedule) (now : TimePoint) :
  write_demo schedule now =
    match schedule with
    | TimesOutFirst => (1%Z, [])
    | _ => (0%Z, ["write demo"; "backend: in-memory-rdma"; "bytes: 4096";
                  "completion_status: success"])
    end.
Proof.
  unfold write_demo, Register_size, Register. 
  destruct schedule, args_left_to_right; vm_compute; reflexivity.
Qed.
