(* ===== verification/Benchmarks.v ===== *)
(** * rdma/benchmark/*.cpp and benchmark/*.cpp

    The benchmark programs that drive the transport: one thread sends a fixed
    number of messages over one or several queue pairs, one receiver thread per
    remote node counts what it receives, and [main] returns 0 exactly if the count
    is the number of messages sent.  Every critical section of the transport is a
    step of the thread that enters it.  The TCP program is its two transfer loops and
    its exit code.  What the programs print is in Reports.v. *)

From S2P Require Import Prelude CppString CppNumber Types BoundedFifo Memory QueuePair.
From S2P Require Import Completion Transport Demos.
From Stdlib Require Import Strings.Byte.

(** ** Set-up *)

(** [ReadyQueuePair] of the programs in rdma/benchmark. *)
Definition bench_ReadyQueuePair (local remote : string) (max_wr : Z) : QueuePair :=
  (BringUp (new_QueuePair (mkQueuePairConfig local remote max_wr max_wr))).2.

(** [ReadyQueuePair] of the programs in benchmark. *)
Definition test_ReadyQueuePair (local remote : string) (max_wr : Z) : QueuePair :=
  let qp0 := new_QueuePair (mkQueuePairConfig local remote max_wr max_wr) in
  let qp1 := (TransitionTo kInit qp0).2 in
  let qp2 := (TransitionTo kReadyToReceive qp1).2 in
  (TransitionTo kReadyToSend qp2).2.

Record BenchRun := mkBenchRun {
  br_heap : Heap;
  br_transport : TransportRdma;
  br_completions : CompletionQueue;
  br_sends : list (QueuePair * Message);      (* sends to come *)
  br_receivers : list (string * nat);         (* a receiver's node and the rounds it has left *)
  br_received : nat;
}.

(** The message of a send: the payload is the one registered region. *)
Definition bench_message (topic description : string) (payload : ByteBufferPtr)
    (pair : string * string) (id : Z) : Message :=
  mkMessage pair.1 pair.2 topic description payload id op_kSend.

(** The sends of one connection. *)
Definition single_sends (qp : QueuePair) (message : Z -> Message) (rounds : nat)
    : list (QueuePair * Message) :=
  (fun i => (qp, message (Z.of_nat i + 1)%Z)) <$> seq 0 rounds.

(** The programs with one connection, up to the start of their loops. *)
Definition single_bench `{ArgOrder} (qp : QueuePair) (topic description : string)
    (payload_bytes : Z) (value : byte) (rounds : nat) : BenchRun :=
  let pair := (qpc_local_node (qp_config qp), qpc_remote_node (qp_config qp)) in
  let transport := Connect qp (new_TransportRdma default_TransportConfig) in
  let '(region, h, _) := Register_size payload_bytes empty_heap new_MemoryRegistry in
  mkBenchRun (fill_storage (mr_storage region) value h) transport
    (new_CompletionQueue default_CompletionQueueConfig)
    (single_sends qp (bench_message topic description (mr_storage region) pair) rounds)
    [(qpc_remote_node (qp_config qp), rounds)] 0.

Definition latency_bench `{ArgOrder} : BenchRun :=
  single_bench (bench_ReadyQueuePair "latency-src" "latency-dst" 512) "latency" "4KB ping"
    (4 * 1024) x2a 5000.

Definition throughput_bench `{ArgOrder} : BenchRun :=
  single_bench (bench_ReadyQueuePair "throughput-src" "throughput-dst" 512) "throughput"
    "1MB block" (1 * 1024 * 1024) x5a 1024.

Definition latency_test `{ArgOrder} : BenchRun :=
  single_bench (test_ReadyQueuePair "latency-src" "latency-dst" 512) "latency" "4KB ping"
    (4 * 1024) x2a 5000.

Definition throughput_test `{ArgOrder} : BenchRun :=
  single_bench (test_ReadyQueuePair "throughput-src" "throughput-dst" 512) "throughput"
    "1MB block" (1 * 1024 * 1024) x5a 1024.

(** multi_conn_bench.cpp. *)
Definition kConnections : nat := 8.

Definition kRoundsPerConnection : nat := 512.

Definition multi_pair (i : nat) : string * string :=
  ("multi-src-" +:+ to_string (Z.of_nat i), "multi-dst-" +:+ to_string (Z.of_nat i)).

Definition multi_qp (i : nat) : QueuePair :=
  bench_ReadyQueuePair (multi_pair i).1 (multi_pair i).2 256.

Definition multi_sends (payload : ByteBufferPtr) : list (QueuePair * Message) :=
  seq 0 kRoundsPerConnection ≫= fun round =>
    (fun i => (multi_qp i, bench_message "multi-conn" "64KB fanout" payload (multi_pair i)
                (Z.of_nat (round * kConnections + i + 1)))) <$> seq 0 kConnections.

Definition multi_conn_bench `{ArgOrder} : BenchRun :=
  let '(region, h, _) := Register_size (64 * 1024) empty_heap new_MemoryRegistry in
  let transport :=
    fold_left (fun t i => Connect (multi_qp i) t) (seq 0 kConnections)
      (new_TransportRdma default_TransportConfig) in
  mkBenchRun (fill_storage (mr_storage region) x11 h) transport
    (new_CompletionQueue default_CompletionQueueConfig) (multi_sends (mr_storage region))
    ((fun i => ((multi_pair i).2, kRoundsPerConnection)) <$> seq 0 kConnections) 0.

(** ** The threads *)

(** A receiver gives up after five seconds without a message.  [patient] is that
    the sender is done by then. *)
Inductive bench_step (patient : bool) : BenchRun -> BenchRun -> Prop :=
| bs_send now h t cq qp message sends receivers received t' cq' store' :
    PostSend now h qp message t cq ∅ = (t', cq', store') ->
    bench_step patient (mkBenchRun h t cq ((qp, message) :: sends) receivers received)
      (mkBenchRun h t' cq' sends receivers received)
| bs_receive h t cq sends r1 node left r2 received message t' :
    PollReceive node t = (Some message, t') ->
    bench_step patient (mkBenchRun h t cq sends (r1 ++ (node, S left) :: r2) received)
      (mkBenchRun h t' cq sends (r1 ++ (node, left) :: r2) (S received))
| bs_timeout h t cq sends r1 node left r2 received t' :
    PollReceive node t = (None, t') -> (patient = true -> sends = []) ->
    bench_step patient (mkBenchRun h t cq sends (r1 ++ (node, S left) :: r2) received)
      (mkBenchRun h t' cq sends (r1 ++ (node, 0) :: r2) received).

(** What [main] returns once all threads are done, for [total] messages. *)
Definition bench_exit (total : nat) (b : BenchRun) : option Z :=
  match br_sends b with
  | [] =>
      if bool_decide (Forall (fun r => r.2 = 0) (br_receivers b))
      then Some (if bool_decide (br_received b = total) then 0 else 1)%Z
      else None
  | _ => None
  end.

Definition bench_left (b : BenchRun) : nat :=
  length (br_sends b) + sum_list_with snd (br_receivers b).

(** The sends to come for a node. *)
Definition sends_to (node : string) (sends : list (QueuePair * Message)) : nat :=
  length (filter (fun s => qpc_remote_node (qp_config s.1) = node) sends).

(** Every receiver has as many rounds left as messages wait for it or are to come. *)
Record bench_inv (total : nat) (b : BenchRun) : Prop := {
  bi_nodes : NoDup (br_receivers b).*1;
  bi_ready : Forall (fun s => IsReadyToSend s.1 = true) (br_sends b);
  bi_balance : Forall (fun r => length (inbox r.1 (br_transport b)) + sends_to r.1 (br_sends b) = r.2)
    (br_receivers b);
  bi_capacity : Forall (fun r =>
    (Z.of_nat r.2 <= tc_mailbox_capacity (tr_config (br_transport b)))%Z) (br_receivers b);
  bi_positive : (0 < tc_mailbox_capacity (tr_config (br_transport b)))%Z;
  bi_total : br_received b + sum_list_with snd (br_receivers b) = total;
}.

(** ** Lemmas *)

(** The two ways to bring a queue pair up agree. *)
Lemma ReadyQueuePair_same local remote max_wr :
  test_ReadyQueuePair local remote max_wr = bench_ReadyQueuePair local remote max_wr.
Proof. done. Qed.

Lemma bench_step_left patient b b' : bench_step patient b b' -> bench_left b' < bench_left b.
Proof.
  destruct 1; unfold bench_left; simpl; rewrite ?sum_list_with_app; simpl; lia.
Qed.

Lemma PollReceive_some node t message t' :
  PollReceive node t = (Some message, t') ->
  exists rest, inbox node t = message :: rest /\ tr_config t' = tr_config t /\
    forall n, inbox n t' = if decide (n = node) then rest else inbox n t.
Proof.
  rewrite PollReceive_spec. destruct (inbox node t) as [|m rest] eqn:E; [done|]. intros [= -> <-].
  exists rest. split_and!; try done. intros n. unfold inbox at 1. simpl. rewrite lookup_insert.
  repeat case_decide; by subst.
Qed.

Lemma PollReceive_none node t t' : PollReceive node t = (None, t') -> inbox node t = [].
Proof. rewrite PollReceive_spec. by destruct (inbox node t). Qed.

(** Changing one entry of a list of receivers with distinct nodes. *)
Lemma receivers_update (P Q : string * nat -> Prop) r1 node k k' r2 :
  NoDup (r1 ++ (node, k) :: r2).*1 -> Forall P (r1 ++ (node, k) :: r2) ->
  (forall n j, n <> node -> P (n, j) -> Q (n, j)) -> Q (node, k') ->
  Forall Q (r1 ++ (node, k') :: r2).
Proof.
  rewrite fmap_app, fmap_cons. simpl. intros Hnd HP Hother Hnode.
  assert (Hne : forall n j, (n, j) ∈ r1 \/ (n, j) ∈ r2 -> n <> node).
  { intros n j Hin ->. apply NoDup_app in Hnd as (_ & Hd & [Hn _]%NoDup_cons).
    destruct Hin as [Hin|Hin].
    - apply (Hd node); [apply list_elem_of_fmap; by exists (node, j)|constructor].
    - apply Hn, list_elem_of_fmap. by exists (node, j). }
  apply Forall_app in HP as [H1 H2]. apply Forall_cons in H2 as [_ H2].
  rewrite Forall_forall in H1, H2. apply Forall_app. split; [|constructor; [done|]];
    apply Forall_forall; intros [n j] Hin; apply Hother; eauto.
Qed.

Lemma NoDup_update r1 (node : string) (k k' : nat) r2 :
  NoDup (r1 ++ (node, k) :: r2).*1 -> NoDup (r1 ++ (node, k') :: r2).*1.
Proof. by rewrite !fmap_app, !fmap_cons. Qed.

Lemma bench_inv_send total now h t cq qp message sends receivers received t' cq' store' :
  PostSend now h qp message t cq ∅ = (t', cq', store') ->
  bench_inv total (mkBenchRun h t cq ((qp, message) :: sends) receivers received) ->
  bench_inv total (mkBenchRun h t' cq' sends receivers received).
Proof.
  intros E [H1 H2 H3 H4 H5 H6]. simpl in *. apply Forall_cons in H2 as [Hr H2]. simpl in Hr.
  assert (Et : t' = deliver (qpc_remote_node (qp_config qp)) (stamp qp message) t).
  { pose proof (PostSend_transport now h qp message t cq ∅) as Ht. rewrite E, Hr in Ht. done. }
  subst t'. constructor; simpl; auto. apply Forall_forall. intros [node k] Hin. simpl.
  rewrite Forall_forall in H3, H4. specialize (H3 _ Hin). specialize (H4 _ Hin). simpl in *.
  unfold sends_to in *. rewrite filter_cons in H3. simpl in H3. rewrite deliver_inbox.
  destruct (decide (qpc_remote_node (qp_config qp) = node)) as [->|Hne].
  - rewrite decide_True by done. simpl in H3. rewrite push_bounded_room, length_app by (unfold sizeZ; lia).
    simpl. lia.
  - by rewrite decide_False by done.
Qed.

Lemma bench_inv_receive total h t cq sends r1 node left r2 received message t' :
  PollReceive node t = (Some message, t') ->
  bench_inv total (mkBenchRun h t cq sends (r1 ++ (node, S left) :: r2) received) ->
  bench_inv total (mkBenchRun h t' cq sends (r1 ++ (node, left) :: r2) (S received)).
Proof.
  intros E [H1 H2 H3 H4 H5 H6]. simpl in *.
  destruct (PollReceive_some _ _ _ _ E) as (rest & Hin & Hcfg & Hn).
  assert (Hb : length (inbox node t) + sends_to node sends = S left)
    by (apply Forall_app in H3 as [_ [Hb _]%Forall_cons]; done).
  assert (Hc : (Z.of_nat (S left) <= tc_mailbox_capacity (tr_config t))%Z)
    by (apply Forall_app in H4 as [_ [Hb' _]%Forall_cons]; done).
  constructor; simpl; rewrite ?Hcfg; auto.
  - by eapply NoDup_update.
  - eapply receivers_update; [exact H1|exact H3| |]; simpl.
    + intros n j Hne. by rewrite Hn, decide_False.
    + rewrite Hn, decide_True by done. rewrite Hin in Hb. simpl in Hb. lia.
  - eapply receivers_update; [exact H1|exact H4|done|]. simpl. lia.
  - rewrite sum_list_with_app in *. simpl in *. lia.
Qed.

Lemma bench_inv_step total b b' : bench_step true b b' -> bench_inv total b -> bench_inv total b'.
Proof.
  destruct 1 as [| |h t cq sends r1 node left r2 received t' E Hp]; intros HI.
  - by eapply bench_inv_send.
  - by eapply bench_inv_receive.
  - exfalso. destruct HI as [_ _ H3 _ _ _]. simpl in H3. rewrite (Hp eq_refl) in H3.
    apply Forall_app in H3 as [_ [Hb _]%Forall_cons]. simpl in Hb.
    by rewrite (PollReceive_none _ _ _ E) in Hb.
Qed.

(** A receiver that is not done, if there is one. *)
Lemma receivers_split (l : list (string * nat)) :
  Forall (fun r => r.2 = 0) l \/ exists r1 node left r2, l = r1 ++ (node, S left) :: r2.
Proof.
  induction l as [|[node [|left]] l [IH|(r1 & n & k & r2 & ->)]].
  - by left.
  - left. by constructor.
  - right. by exists ((node, 0) :: r1), n, k, r2.
  - right. by exists [], node, left, l.
  - right. by exists [], node, left, (r1 ++ (n, S k) :: r2).
Qed.

(** A program goes on or is done, so it can be run to its end. *)
Lemma bench_progress b : red (bench_step true) b \/ nf (bench_step true) b.
Proof.
  destruct b as [h t cq [|[qp message] sends] receivers received].
  - destruct (receivers_split receivers) as [Hd|(r1 & node & left & r2 & ->)].
    + right. intros [b' Hstep]. rewrite Forall_forall in Hd.
      inversion Hstep as [|? ? ? ? r1 node left r2|? ? ? ? r1 node left r2]; subst;
        specialize (Hd (node, S left)); simpl in Hd; set_solver.
    + left. destruct (PollReceive node t) as [[message|] t'] eqn:E; eexists;
        [by eapply bs_receive|by eapply bs_timeout].
  - left. destruct (PostSend 0 h qp message t cq ∅) as [[t' cq'] store'] eqn:E.
    eexists. by eapply bs_send.
Qed.

Lemma bench_runs_out b : exists b', rtc (bench_step true) b b' /\ nf (bench_step true) b'.
Proof.
  remember (bench_left b) as n eqn:En. revert b En. induction (lt_wf n) as [n _ IH]. intros b ->.
  destruct (bench_progress b) as [[b1 H1]|Hnf]; [|by exists b].
  destruct (IH _ (bench_step_left _ _ _ H1) b1 eq_refl) as (b' & Hrtc & Hnf).
  exists b'. split; [by eapply rtc_l|done].
Qed.

(** A program that cannot go on has ended. *)
Lemma bench_stuck total b : nf (bench_step true) b -> is_Some (bench_exit total b).
Proof.
  intros Hnf. unfold bench_exit. destruct b as [h t cq [|[qp message] sends] receivers received]; simpl.
  - destruct (receivers_split receivers) as [Hd|(r1 & node & left & r2 & ->)].
    + rewrite bool_decide_eq_true_2 by done. by eexists.
    + destruct Hnf. destruct (PollReceive node t) as [[message|] t'] eqn:E; eexists;
        [by eapply bs_receive|by eapply bs_timeout].
  - destruct Hnf. destruct (PostSend 0 h qp message t cq ∅) as [[t' cq'] store'] eqn:E.
    eexists. by eapply bs_send.
Qed.

Lemma sum_done (l : list (string * nat)) : Forall (fun r => r.2 = 0) l -> sum_list_with snd l = 0.
Proof. induction 1 as [|[? ?] l E _ IH]; simpl in *; lia. Qed.

Lemma bench_inv_exit total b :
  bench_inv total b -> nf (bench_step true) b -> bench_exit total b = Some 0%Z.
Proof.
  intros HI Hnf. destruct (bench_stuck total b Hnf) as [code E]. rewrite E. unfold bench_exit in E.
  destruct (br_sends b) eqn:Es; [|done]. case_bool_decide as Hd; [|done]. injection E as <-.
  rewrite bool_decide_eq_true_2; [done|]. pose proof (bi_total _ _ HI) as Ht.
  rewrite sum_done in Ht by done. lia.
Qed.

(** ** Lemmas: the programs *)

Lemma sends_to_single qp message rounds :
  sends_to (qpc_remote_node (qp_config qp)) (single_sends qp message rounds) = rounds.
Proof.
  unfold sends_to, single_sends. generalize 0. induction rounds as [|rounds IH]; intros k; [done|].
  cbn [seq fmap list_fmap]. rewrite filter_cons_True by done. simpl. by rewrite IH.
Qed.

Lemma single_bench_inv `{ArgOrder} qp topic description payload_bytes value rounds :
  IsReadyToSend qp = true -> (Z.of_nat rounds <= 4096)%Z ->
  bench_inv rounds (single_bench qp topic description payload_bytes value rounds).
Proof.
  intros Hr Hc. unfold single_bench.
  destruct (Register_size payload_bytes empty_heap new_MemoryRegistry) as [[region h] r].
  constructor; simpl; rewrite ?Connect_config; simpl; try done.
  - apply NoDup_singleton.
  - unfold single_sends. apply Forall_fmap, Forall_forall. intros i _. exact Hr.
  - constructor; [|done]. simpl. by rewrite Connect_inbox, sends_to_single.
  - by constructor.
Qed.

(** One round of the sending loop. *)
Definition multi_round (payload : ByteBufferPtr) (round : nat) : list (QueuePair * Message) :=
  (fun i => (multi_qp i, bench_message "multi-conn" "64KB fanout" payload (multi_pair i)
              (Z.of_nat (round * kConnections + i + 1)))) <$> seq 0 kConnections.

Lemma multi_round_count p round i :
  i < kConnections -> sends_to (multi_pair i).2 (multi_round p round) = 1.
Proof. intros Hi. unfold kConnections in Hi. do 8 (destruct i as [|i]; [reflexivity|]). lia. Qed.

Lemma multi_counts p i :
  i < kConnections -> sends_to (multi_pair i).2 (multi_sends p) = kRoundsPerConnection.
Proof.
  intros Hi. unfold multi_sends. change (fun round : nat => _ <$> _) with (multi_round p).
  rewrite <- (length_seq kRoundsPerConnection 0) at 2.
  induction (seq 0 kRoundsPerConnection) as [|round l IH]; [done|]. rewrite bind_cons.
  pose proof (multi_round_count p round i Hi) as H1. unfold sends_to in *.
  by rewrite filter_app, length_app, H1, IH.
Qed.

Lemma fold_Connect_inbox (l : list nat) t n :
  inbox n (fold_left (fun t i => Connect (multi_qp i) t) l t) = inbox n t /\
  tr_config (fold_left (fun t i => Connect (multi_qp i) t) l t) = tr_config t.
Proof.
  revert t. induction l as [|i l IH]; intros t; [done|]. simpl.
  destruct (IH (Connect (multi_qp i) t)) as [-> ->]. by rewrite Connect_inbox, Connect_config.
Qed.

Lemma multi_bench_inv `{ArgOrder} :
  bench_inv (kConnections * kRoundsPerConnection) multi_conn_bench.
Proof.
  unfold multi_conn_bench.
  destruct (Register_size (64 * 1024) empty_heap new_MemoryRegistry) as [[region h] r].
  set (t := fold_left _ _ _).
  assert (Hin : forall n, inbox n t = []) by (intros n; by apply fold_Connect_inbox).
  assert (Hcfg : tr_config t = default_TransportConfig)
    by (by destruct (fold_Connect_inbox (seq 0 kConnections) (new_TransportRdma default_TransportConfig) "")).
  clearbody t. constructor; cbn [br_receivers br_sends br_transport br_received]; rewrite ?Hcfg.
  - apply (bool_decide_eq_true_1 (NoDup ((fun i => ((multi_pair i).2, kRoundsPerConnection)) <$>
      seq 0 kConnections).*1)). vm_compute. reflexivity.
  - unfold multi_sends. apply Forall_bind, Forall_forall. intros round _.
    apply Forall_fmap, Forall_forall. intros i _. done.
  - apply Forall_fmap, Forall_forall. intros i Hi. simpl. rewrite Hin. simpl.
    apply multi_counts. apply elem_of_seq in Hi. lia.
  - apply Forall_fmap, Forall_forall. intros i _. simpl. unfold kRoundsPerConnection. lia.
  - simpl. lia.
  - vm_compute. reflexivity.
Qed.

(** ** Lemmas: a slow receiver *)

(** All sends before the first receive: the mailbox keeps the latest ones. *)
Lemma send_everything patient h t cq sends receivers received node :
  Forall (fun s => IsReadyToSend s.1 = true /\ qpc_remote_node (qp_config s.1) = node) sends ->
  (0 < tc_mailbox_capacity (tr_config t))%Z ->
  (sizeZ (inbox node t) <= tc_mailbox_capacity (tr_config t))%Z ->
  exists t' cq', rtc (bench_step patient) (mkBenchRun h t cq sends receivers received)
      (mkBenchRun h t' cq' [] receivers received) /\
    tr_config t' = tr_config t /\
    sizeZ (inbox node t') =
      Z.min (sizeZ (inbox node t) + sizeZ sends) (tc_mailbox_capacity (tr_config t)).
Proof.
  revert t cq. induction sends as [|[qp message] sends IH]; intros t cq HF Hpos Hle.
  - exists t, cq. autorewrite with size. split_and!; [apply rtc_refl|done|lia].
  - apply Forall_cons in HF as [[Hr <-] HF]. simpl in Hr, HF, Hle, IH |- *.
    destruct (PostSend 0 h qp message t cq ∅) as [[t1 cq1] store1] eqn:E.
    pose proof (PostSend_transport 0 h qp message t cq ∅) as Ht. rewrite E, Hr in Ht. simpl in Ht.
    assert (Hlen : sizeZ (inbox (qpc_remote_node (qp_config qp)) t1) =
      Z.min (sizeZ (inbox (qpc_remote_node (qp_config qp)) t) + 1) (tc_mailbox_capacity (tr_config t))).
    { rewrite Ht, deliver_inbox, decide_True by done. unfold push_bounded.
      destruct (Z.ltb_spec 0 (tc_mailbox_capacity (tr_config t))); [|lia]. simpl andb.
      destruct (Z.leb_spec (tc_mailbox_capacity (tr_config t)) (sizeZ (inbox (qpc_remote_node (qp_config qp)) t)));
        [|autorewrite with size; lia].
      destruct (inbox (qpc_remote_node (qp_config qp)) t); simpl tail; autorewrite with size in *; lia. }
    assert (Hcfg : tr_config t1 = tr_config t) by (by rewrite Ht).
    destruct (IH t1 cq1 HF) as (t' & cq' & Hrtc & Hc' & Hl'); [by rewrite Hcfg|rewrite Hcfg, Hlen; lia|].
    exists t', cq'. split_and!; [|by rewrite Hc'|].
    + eapply rtc_l; [by eapply bs_send|exact Hrtc].
    + rewrite Hl', Hcfg, Hlen. autorewrite with size. pose proof (sizeZ_nonneg sends). lia.
Qed.

(** Then the receiver takes what is there. *)
Lemma receive_everything patient h t cq node left received :
  length (inbox node t) <= left ->
  exists t', rtc (bench_step patient) (mkBenchRun h t cq [] [(node, left)] received)
      (mkBenchRun h t' cq [] [(node, left - length (inbox node t))] (received + length (inbox node t))) /\
    inbox node t' = [].
Proof.
  remember (inbox node t) as l eqn:El. revert t left received El.
  induction l as [|m l IH]; intros t left received El Hle; simpl in *.
  - exists t. rewrite Nat.sub_0_r, Nat.add_0_r. split; [apply rtc_refl|done].
  - destruct left as [|left]; [lia|].
    destruct (PollReceive node t) as [[m'|] t1] eqn:E; [|apply PollReceive_none in E; congruence].
    destruct (PollReceive_some _ _ _ _ E) as (rest & Hin & _ & Hn).
    rewrite <- El in Hin. injection Hin as <- <-.
    destruct (IH t1 left (S received)) as (t' & Hrtc & He); [by rewrite Hn, decide_True|lia|].
    exists t'. split; [|done]. eapply rtc_l; [by apply (bs_receive _ h t cq [] [] node left [] received m t1)|].
    replace (received + S (length l)) with (S received + length l) by lia. exact Hrtc.
Qed.

Lemma receiver_done_nf patient h t cq node received :
  nf (bench_step patient) (mkBenchRun h t cq [] [(node, 0)] received).
Proof.
  intros [b' Hstep]. inversion Hstep as [|? ? ? ? r1 ? ? r2 ? ? ? ? Hr|? ? ? ? r1 ? ? r2 ? ? ? ? Hr];
    destruct r1 as [|? [|? ?]]; simplify_eq/=.
Qed.

(** A program with more rounds than the mailbox holds fails when its receiver is
    late. *)
Lemma single_bench_fails `{ArgOrder} qp topic description payload_bytes value rounds :
  IsReadyToSend qp = true -> 4096 < rounds ->
  exists b, rtc (bench_step true) (single_bench qp topic description payload_bytes value rounds) b /\
    nf (bench_step true) b /\ br_received b = 4096 /\ bench_exit rounds b = Some 1%Z.
Proof.
  intros Hr Hc. unfold single_bench.
  destruct (Register_size payload_bytes empty_heap new_MemoryRegistry) as [[region h] r].
  set (t0 := Connect qp (new_TransportRdma default_TransportConfig)).
  set (sends := single_sends qp _ rounds). set (node := qpc_remote_node (qp_config qp)).
  set (h0 := fill_storage _ _ _).
  assert (H0 : tc_mailbox_capacity (tr_config t0) = 4096%Z) by (unfold t0; by rewrite Connect_config).
  assert (Hin : inbox node t0 = []) by (unfold t0; by rewrite Connect_inbox).
  destruct (send_everything true h0 t0 (new_CompletionQueue default_CompletionQueueConfig) sends
    [(node, rounds)] 0 node) as (t1 & cq1 & Hrtc1 & Hcfg1 & Hl1).
  { unfold sends, single_sends. apply Forall_fmap, Forall_forall. intros i _. done. }
  { rewrite H0. lia. }
  { rewrite H0, Hin, sizeZ_nil. lia. }
  assert (Hlen : length (inbox node t1) = 4096).
  { assert (Hs : sizeZ sends = Z.of_nat rounds)
      by (unfold sizeZ, sends, single_sends; by rewrite length_fmap, length_seq).
    rewrite H0, Hin, Hs, sizeZ_nil in Hl1. unfold sizeZ in Hl1. lia. }
  destruct (receive_everything true h0 t1 cq1 node rounds 0) as (t2 & Hrtc2 & Hin2); [lia|].
  rewrite Hlen in Hrtc2. set (k := 4096) in *. clearbody k.
  destruct (PollReceive node t2) as [[m|] t3] eqn:E.
  { destruct (PollReceive_some _ _ _ _ E) as (? & ? & _). congruence. }
  exists (mkBenchRun h0 t3 cq1 [] [(node, 0)] (0 + k)). split_and!.
  - etrans; [exact Hrtc1|]. eapply rtc_r; [exact Hrtc2|].
    destruct (rounds - k) as [|left] eqn:El; [lia|].
    by apply (bs_timeout true h0 t2 cq1 [] [] node left [] (0 + k) t3).
  - apply receiver_done_nf.
  - done.
  - unfold bench_exit. cbn [br_sends br_receivers br_received].
    rewrite (bool_decide_eq_true_2 (Forall _ _)) by (by constructor).
    rewrite bool_decide_eq_false_2 by (simpl; lia). done.
Qed.

(** ** tcp_compare.cpp *)

(** The two transfer loops, over the results of the calls of [send] or [recv]: [None]
    while the last call has not returned. *)
Fixpoint transfer_all (done bytes : Z) (results : list Z) : option (bool * Z) :=
  if (done <? bytes)%Z then
    match results with
    | [] => None
    | rc :: rest => if (rc <=? 0)%Z then Some (false, done) else transfer_all (done + rc) bytes rest
    end
  else Some (true, done).

Definition SendAll (bytes : Z) (results : list Z) : option (bool * Z) := transfer_all 0 bytes results.

Definition RecvAll (bytes : Z) (results : list Z) : option (bool * Z) := transfer_all 0 bytes results.

(** The calls answer at most what they are asked for. *)
Fixpoint results_ok (left : Z) (results : list Z) : Prop :=
  match results with
  | [] => True
  | rc :: rest => (rc <= left)%Z /\ ((0 < rc)%Z -> results_ok (left - rc) rest)
  end.

(** What the system calls of the two threads answer: those of the server thread up to
    [listen]; whether its [accept] returns although no client connects; the client's
    [socket] and [connect]; and the [send] and [recv] calls of each of the client's
    rounds. *)
Record TcpCompareEnv := mkTcpCompareEnv {
  tce_server_socket : Z;
  tce_bind : Z;
  tce_listen : Z;
  tce_accept_returns : bool;
  tce_socket : Z;
  tce_connect : Z;
  tce_send : nat -> list Z;
  tce_recv : nat -> list Z;
}.

(** The value the server thread sets. *)
Definition tcp_server_ready (env : TcpCompareEnv) : bool :=
  if (tce_server_socket env <? 0)%Z then false
  else if ((tce_bind env <? 0) || (tce_listen env <? 0))%Z then false
  else true.

(** The client's loop from round [i] on: whether all rounds succeed, [None] while a
    call has not returned. *)
Fixpoint client_rounds (rounds i : nat) (env : TcpCompareEnv) : option bool :=
  match rounds with
  | 0 => Some true
  | S rounds' =>
      match SendAll (4 * 1024) (tce_send env i) with
      | None => None
      | Some (false, _) => Some false
      | Some (true, _) =>
          match RecvAll (4 * 1024) (tce_recv env i) with
          | None => None
          | Some (false, _) => Some false
          | Some (true, _) => client_rounds rounds' (S i) env
          end
      end
  end.

(** The value [main] returns; [None] where it waits for ever: in a call of its loop, or
    in [server.join()] while the server thread is still in [accept].  With a connection
    the server thread ends, at the latest when the client's socket is closed. *)
Definition tcp_compare (env : TcpCompareEnv) : option Z :=
  let join_unconnected code := if tce_accept_returns env then Some code else None in
  if negb (tcp_server_ready env) then Some 1%Z
  else if (tce_socket env <? 0)%Z then join_unconnected 1%Z
  else if (tce_connect env <? 0)%Z then join_unconnected 1%Z
  else (fun ok : bool => if ok then 0%Z else 1%Z) <$> client_rounds 2000 0 env.

(** ** Lemmas: the transfer loop *)

Lemma transfer_all_exact done bytes results n :
  (done <= bytes)%Z -> results_ok (bytes - done) results ->
  transfer_all done bytes results = Some (true, n) -> n = bytes.
Proof.
  revert done. induction results as [|rc results IH]; intros done Hle Hok; simpl;
    destruct (Z.ltb_spec done bytes); try done; try (intros [= <-]; lia).
  destruct Hok as [H1 H2]. destruct (Z.leb_spec rc 0); [done|].
  intros E. apply (IH (done + rc)%Z); [lia| |done]. replace (bytes - (done + rc))%Z with (bytes - done - rc)%Z by lia.
  apply H2. lia.
Qed.

Lemma client_rounds_true rounds i env :
  client_rounds rounds i env = Some true <->
  forall k, i <= k < i + rounds ->
    (exists n, SendAll (4 * 1024) (tce_send env k) = Some (true, n)) /\
    (exists n, RecvAll (4 * 1024) (tce_recv env k) = Some (true, n)).
Proof.
  revert i. induction rounds as [|rounds IH]; intros i; [split; [intros _ k ?; lia|done]|].
  cbn [client_rounds]. split.
  - destruct (SendAll _ (tce_send env i)) as [[[] n]|] eqn:E1; [|done..].
    destruct (RecvAll _ (tce_recv env i)) as [[[] n']|] eqn:E2; [|done..].
    intros H k Hk. destruct (decide (k = i)) as [->|]; [by eauto|]. apply (proj1 (IH (S i)) H). lia.
  - intros H. destruct (H i ltac:(lia)) as [(n & ->) (n' & ->)]. apply (IH (S i)). intros k ?. apply H. lia.
Qed.

(** ** Properties *)

(** The throughput and multi-connection benchmarks end, and with 0: every
    interleaving of the sender and the receivers is finite, whatever times out; and
    if no receiver gives up before the sender is done, no message is lost and the
    program returns 0.  Bringing the queue pair up in one call or in three steps
    makes no difference. *)
Theorem bench_programs_succeed `{ArgOrder} (total : nat) (b0 : BenchRun) :
  (total, b0) ∈ [(1024, throughput_bench); (1024, throughput_test);
                 (kConnections * kRoundsPerConnection, multi_conn_bench)] ->
  sn (bench_step false) b0 /\
  forall b, rtc (bench_step true) b0 b -> nf (bench_step true) b -> bench_exit total b = Some 0%Z.
Proof.
  intros Hin. split; [apply (sn_measure _ bench_left); apply bench_step_left|].
  assert (HI : bench_inv total b0).
  { apply elem_of_cons in Hin as [[= -> ->]|Hin]; [apply single_bench_inv; [done|lia]|].
    apply elem_of_cons in Hin as [[= -> ->]|Hin]; [apply single_bench_inv; [done|lia]|].
    apply elem_of_cons in Hin as [[= -> ->]|Hin]; [apply multi_bench_inv|]. by apply elem_of_nil in Hin. }
  intros b Hrtc. apply bench_inv_exit. exact (rtc_invariant _ _ (bench_inv_step total) _ _ Hrtc HI).
Qed.

(** The latency benchmark can fail without any fault: its 5000 messages exceed the
    mailbox capacity of 4096, so when the receiver starts late the oldest messages
    are dropped, the receiver waits in vain for the missing ones, and the program
    returns 1 after 4096 messages. *)
Theorem latency_bench_can_fail `{ArgOrder} (b0 : BenchRun) :
  b0 = latency_bench \/ b0 = latency_test ->
  exists b, rtc (bench_step true) b0 b /\ nf (bench_step true) b /\
    br_received b = 4096 /\ bench_exit 5000 b = Some 1%Z.
Proof. intros [->| ->]; apply single_bench_fails; [done|lia|done|lia]. Qed.

(** The TCP program returns 0 exactly if the server listens, the client connects and
    all its 2000 rounds succeed.  It never returns if the server listens but the client
    has no socket or cannot connect, since it then joins a thread that waits in
    [accept].  A transfer that succeeds has moved exactly the bytes it was asked for,
    if no call moves more than it was asked for. *)
Theorem tcp_compare_exit (env : TcpCompareEnv) (bytes n : Z) (results : list Z) :
  (tcp_compare env = Some 0%Z <->
   tcp_server_ready env = true /\ (0 <= tce_socket env)%Z /\ (0 <= tce_connect env)%Z /\
   forall k, k < 2000 ->
     (exists n, SendAll (4 * 1024) (tce_send env k) = Some (true, n)) /\
     (exists n, RecvAll (4 * 1024) (tce_recv env k) = Some (true, n))) /\
  (tcp_server_ready env = true /\ tce_accept_returns env = false /\
   (tce_socket env < 0 \/ tce_connect env < 0)%Z -> tcp_compare env = None) /\
  ((0 <= bytes)%Z -> results_ok bytes results -> SendAll bytes results = Some (true, n) -> n = bytes).
Proof.
  split_and!.
  - assert (HF : client_rounds 2000 0 env = Some true <-> forall k, k < 2000 ->
      (exists n, SendAll (4 * 1024) (tce_send env k) = Some (true, n)) /\
      (exists n, RecvAll (4 * 1024) (tce_recv env k) = Some (true, n))).
    { rewrite client_rounds_true. split; intros H k Hk; apply H; lia. }
    rewrite <- HF. clear HF. unfold tcp_compare. generalize (client_rounds 2000 0 env) as ok.
    intros ok. destruct (tcp_server_ready env); simpl; [|naive_solver].
    destruct (Z.ltb_spec (tce_socket env) 0); [destruct (tce_accept_returns env); naive_solver lia|].
    destruct (Z.ltb_spec (tce_connect env) 0); [destruct (tce_accept_returns env); naive_solver lia|].
    destruct ok as [[]|]; naive_solver lia.
  - intros (Hr & Ha & Hs). unfold tcp_compare. generalize (client_rounds 2000 0 env) as ok.
    intros ok. rewrite Hr, Ha. simpl.
    destruct (Z.ltb_spec (tce_socket env) 0); [done|].
    destruct (Z.ltb_spec (tce_connect env) 0); [done|lia].
  - intros Hb Hok. apply transfer_all_exact; [lia|]. by rewrite Z.sub_0_r.
Qed.

(** ** Witnesses *)

Lemma bench_programs_succeed_witness : sn (bench_step false) (@throughput_bench true).
Proof. apply (@bench_programs_succeed true 1024 (@throughput_bench true)). constructor. Defined.

Lemma latency_bench_can_fail_witness :
  exists b, rtc (bench_step true) (@latency_bench true) b /\ bench_exit 5000 b = Some 1%Z.
Proof.
  destruct (@latency_bench_can_fail true (@latency_bench true) (or_introl eq_refl)) as (b & H1 & _ & _ & H2).
  exists b. split; [exact H1 | exact H2].
Defined.
