(* ===== verification/Reports.v ===== *)
(** * What the benchmark programs print

    rdma/benchmark/*.cpp, benchmark/*.cpp and examples/pingpong.cpp end with a report: the
    sizes of the run, the number of messages received, and a figure computed in double
    precision from the time between two readings of the steady clock.  A report is the
    list of the lines written to [std::cout], as a function of the state at the end of the
    run and the time in nanoseconds. *)

From S2P Require Import Prelude CppString CppNumber CppDouble CppFormat Types Memory QueuePair.
From S2P Require Import Completion Transport Demos Pingpong Benchmarks.
From Stdlib Require Import SpecFloat QArith Qabs Qpower Lqa.

(** ** The figures *)

(** [total_us / rounds]. *)
Definition average_us (ns rounds : Z) : double := f64_div (duration_micros ns) (f64_of_Z rounds).

(** [messages * payload / (1024.0 * 1024.0 * 1024.0)]. *)
Definition gigabytes (messages payload : Z) : double :=
  f64_div (f64_mul (f64_of_Z messages) (f64_of_Z payload))
    (f64_mul (f64_mul (f64_of_Z 1024) (f64_of_Z 1024)) (f64_of_Z 1024)).

Definition gigabytes_per_second (messages payload ns : Z) : double :=
  f64_div (gigabytes messages payload) (duration_seconds ns).

(** [throughput_mb_s] of tcp_compare.cpp. *)
Definition megabytes_per_second (rounds payload ns : Z) : double :=
  f64_div (f64_mul (f64_mul (f64_of_Z 2) (f64_of_Z rounds)) (f64_of_Z payload))
    (f64_mul (f64_mul (f64_of_Z 1024) (f64_of_Z 1024)) (duration_seconds ns)).

(** ** The reports *)

(** The lines the reports of one connection begin with. *)
Definition report_head (title : string) (rounds payload : Z) (b : BenchRun) : list string :=
  [title; "backend: " +:+ BackendName (br_transport b); "rounds: " +:+ to_string rounds;
   "payload_bytes: " +:+ to_string payload;
   "received: " +:+ to_string (Z.of_nat (br_received b))].

Definition latency_bench_report (b : BenchRun) (ns : Z) : list string :=
  report_head "RDMA latency benchmark" 5000 (4 * 1024) b ++
  ["avg_one_way_latency_us: " +:+ put_double (average_us ns 5000)].

Definition latency_test_report (b : BenchRun) (ns : Z) : list string :=
  report_head "RDMA latency benchmark" 5000 (4 * 1024) b ++
  ["avg_one_way_latency_us: " +:+ put_double (average_us ns 5000)].

Definition throughput_bench_report (b : BenchRun) (ns : Z) : list string :=
  report_head "RDMA throughput benchmark" 1024 (1 * 1024 * 1024) b ++
  ["throughput_gbps: " +:+ put_double (gigabytes_per_second 1024 (1 * 1024 * 1024) ns)].

Definition throughput_test_report (b : BenchRun) (ns : Z) : list string :=
  report_head "RDMA throughput benchmark" 1024 (1 * 1024 * 1024) b ++
  ["throughput_gbps: " +:+ put_double (gigabytes_per_second 1024 (1 * 1024 * 1024) ns)].

Definition multi_conn_report (b : BenchRun) (ns : Z) : list string :=
  let total_messages := (Z.of_nat kConnections * Z.of_nat kRoundsPerConnection)%Z in
  ["RDMA multi-connection benchmark"; "connections: " +:+ to_string (Z.of_nat kConnections);
   "messages: " +:+ to_string total_messages; "payload_bytes: " +:+ to_string (64 * 1024);
   "received: " +:+ to_string (Z.of_nat (br_received b));
   "aggregate_gbps: " +:+ put_double (gigabytes_per_second total_messages (64 * 1024) ns)].

Definition tcp_compare_report (ns : Z) : list string :=
  ["TCP loopback comparison"; "rounds: " +:+ to_string 2000; "payload_bytes: " +:+ to_string (4 * 1024);
   "avg_rtt_us: " +:+ put_double (average_us ns 2000);
   "throughput_mb_s: " +:+ put_double (megabytes_per_second 2000 (4 * 1024) ns)].

Definition pingpong_report (p : Pingpong) (ns : Z) : list string :=
  ["pingpong demo"; "rounds: " +:+ to_string (Z.of_nat kRounds);
   "received: " +:+ to_string (sizeZ (pp_results p));
   "avg_rtt_us: " +:+ put_double (average_us ns (Z.of_nat kRounds))].

(** A benchmark's exit code and output, once its threads are done. *)
Definition bench_output (total : nat) (report : BenchRun -> Z -> list string) (b : BenchRun) (ns : Z)
    : option (Z * list string) :=
  (fun code => (code, report b ns)) <$> bench_exit total b.

Definition pingpong_output (p : Pingpong) (ns : Z) : option (Z * list string) :=
  (fun code => (code, pingpong_report p ns)) <$> pp_exit p.

(** What is written and returned on the way to [return 0]. *)
Definition tcp_compare_output (env : TcpCompareEnv) (ns : Z) : option (Z * list string) :=
  (fun code => (code, if (code =? 0)%Z then tcp_compare_report ns else [])) <$> tcp_compare env.

(** ** Lemmas: the figures *)

Local Open Scope Q_scope.

(** A time a run can take: a positive 64-bit count of nanoseconds. *)
Definition elapsed (ns : Z) : Prop := (0 < ns < 2 ^ 63)%Z.

Lemma elapsed_Q ns : elapsed ns -> 1 <= inject_Z ns /\ inject_Z ns <= 9223372036854775808.
Proof.
  intros [H1 H2]. split; [change 1 with (inject_Z 1)|change 9223372036854775808 with (inject_Z (2 ^ 63))];
    apply -> inject_Z_le; lia.
Qed.

Lemma tiny_800 : 2 ^ (-800) <= 1 # 1000000000000000000000000000000.
Proof. vm_compute. discriminate. Qed.

Lemma huge_800 : 1000000000000000000000000000000 <= 2 ^ 800.
Proof. vm_compute. discriminate. Qed.

(** Quotients and products of numbers of ordinary size. *)
Definition ordinary (q : Q) : Prop :=
  (1 # 1000000000000000000000000000000) <= q /\ q <= 1000000000000000000000000000000.

Lemma near_weaken eps eps' f q q' :
  near eps f q -> q == q' -> 0 <= q' -> eps <= eps' -> near eps' f q'.
Proof.
  intros (m & e & -> & Hm & Hx) Hq H0 He. exists m, e. split; [done|]. split; [done|].
  rewrite <- Hq in *. apply Qle_trans with (eps * q); [done|]. by apply Qmul_le_r.
Qed.

(** The errors of the reports: multiples of one rounding. *)
Abbreviation ulps k := (k * ulp).

Lemma div_ordinary a b x y p q c :
  near (ulps a) x p -> near (ulps b) y q -> 0 < p -> 0 < q -> 0 <= a -> a <= 1000 -> 0 <= b -> b <= 1000 ->
  p == c * q -> ordinary c -> near (ulps (a + 2 * b + 2)) (f64_div x y) c.
Proof.
  intros Hx Hy Hp Hq Ha Ha' Hb Hb' E [H1 H2]. pose proof tiny_800. pose proof huge_800.
  assert (Ec : p / q == c) by (by apply Qdiv_eq).
  assert (Hu : 0 < ulp) by done. assert (Hu' : ulp <= 1 # 10000000000) by done.
  eapply near_weaken; [apply (near_div _ _ _ _ _ _ Hx Hy Hp Hq)|exact Ec|lra|lra]; rewrite ?Ec; nra.
Qed.

Lemma mul_ordinary a b x y p q c :
  near (ulps a) x p -> near (ulps b) y q -> 0 < p -> 0 < q -> 0 <= a -> a <= 1000 -> 0 <= b -> b <= 1000 ->
  p * q == c -> ordinary c -> near (ulps (a + 2 * b + 2)) (f64_mul x y) c.
Proof.
  intros Hx Hy Hp Hq Ha Ha' Hb Hb' E [H1 H2]. pose proof tiny_800. pose proof huge_800.
  assert (Hu : 0 < ulp) by done. assert (Hu' : ulp <= 1 # 10000000000) by done.
  eapply near_weaken; [apply (near_mul _ _ _ _ _ _ Hx Hy Hp Hq)|exact E|lra|lra]; rewrite ?E; nra.
Qed.

Lemma of_Z_ordinary z : (0 < z < 2 ^ 64)%Z -> near (ulps 1) (f64_of_Z z) (inject_Z z).
Proof.
  intros Hz. eapply near_weaken; [apply f64_of_Z_near; lia|done|apply Qlt_le_weak, inject_Z_pos; lia|lra].
Qed.

(** A count of nanoseconds over a power of ten. *)
Lemma duration_near ns den :
  elapsed ns -> (1 <= den <= 1000000000)%Z ->
  near (ulps 5) (f64_div (f64_of_Z ns) (f64_of_Z den)) (inject_Z ns / inject_Z den).
Proof.
  intros Hns Hden. pose proof (elapsed_Q ns Hns) as [H1 H2]. unfold elapsed in Hns.
  assert (D1 : 1 <= inject_Z den) by (change 1 with (inject_Z 1); apply -> inject_Z_le; lia).
  assert (D2 : inject_Z den <= 1000000000)
    by (change 1000000000 with (inject_Z 1000000000); apply -> inject_Z_le; lia).
  set (c := inject_Z ns / inject_Z den). assert (Ec : inject_Z ns == c * inject_Z den) by (unfold c; field; lra).
  assert (Hc : ordinary c) by (split; nra).
  assert (H : near (ulps (1 + 2 * 1 + 2)) (f64_div (f64_of_Z ns) (f64_of_Z den)) c).
  { apply (div_ordinary 1 1 _ _ (inject_Z ns) (inject_Z den)); try lra; try done; apply of_Z_ordinary; lia. }
  eapply near_weaken; [exact H|done|destruct Hc; lra|lra].
Qed.

Lemma average_us_close ns rounds :
  elapsed ns -> (1 <= rounds <= 1000000)%Z ->
  reads_close (put_double (average_us ns rounds)) (inject_Z ns / 1000 / inject_Z rounds).
Proof.
  intros Hns Hr. pose proof (elapsed_Q ns Hns) as [H1 H2].
  pose proof (duration_near ns 1000 Hns ltac:(lia)) as HD. change (inject_Z 1000) with 1000 in HD.
  assert (D1 : 1 <= inject_Z rounds) by (change 1 with (inject_Z 1); apply -> inject_Z_le; lia).
  assert (D2 : inject_Z rounds <= 1000000)
    by (change 1000000 with (inject_Z 1000000); apply -> inject_Z_le; lia).
  set (t := inject_Z ns / 1000) in *. assert (Et : inject_Z ns == t * 1000) by (unfold t; field).
  set (c := t / inject_Z rounds). assert (Ec : t == c * inject_Z rounds) by (unfold c; field; lra).
  assert (Hc : ordinary c) by (split; nra).
  apply (put_double_near (ulps (5 + 2 * 1 + 2))); [|destruct Hc; lra|unfold ulp; lra|unfold ulp; lra].
  apply (div_ordinary 5 1 _ _ t (inject_Z rounds)); try lra; try done. apply of_Z_ordinary; lia.
Qed.

(** The gigabytes of the three programs, all exact. *)
Lemma gigabytes_near messages payload k :
  In (messages, payload, k) [(1024, 1024 * 1024, 1#1); (4096, 64 * 1024, 1 # 4)]%Z ->
  near (ulps 0) (gigabytes messages payload) k.
Proof.
  intros [[= <- <- <-]|[[= <- <- <-]|[]]]; (eexists _, _; split; [vm_compute; reflexivity|]);
    (split; [by split; vm_compute|]); vm_compute; discriminate.
Qed.

Lemma gigabytes_per_second_close messages payload k ns :
  In (messages, payload, k) [(1024, 1024 * 1024, 1#1); (4096, 64 * 1024, 1 # 4)]%Z ->
  elapsed ns ->
  reads_close (put_double (gigabytes_per_second messages payload ns)) (k / (inject_Z ns / 1000000000)).
Proof.
  intros Hk Hns. pose proof (elapsed_Q ns Hns) as [H1 H2].
  pose proof (duration_near ns 1000000000 Hns ltac:(lia)) as HD.
  change (inject_Z 1000000000) with 1000000000 in HD.
  assert (K : (1 # 4) <= k /\ k <= 1) by (destruct Hk as [[= <- <- <-]|[[= <- <- <-]|[]]]; lra).
  set (t := inject_Z ns / 1000000000) in *. assert (Et : inject_Z ns == t * 1000000000) by (unfold t; field).
  assert (Ht : 0 < t) by nra.
  set (c := k / t). assert (Ec : k == c * t) by (unfold c; field; lra).
  assert (Hc : ordinary c) by (split; nra).
  apply (put_double_near (ulps (0 + 2 * 5 + 2))); [|destruct Hc; lra|unfold ulp; lra|unfold ulp; lra].
  apply (div_ordinary 0 5 _ _ k t); try lra; try done. by apply gigabytes_near.
Qed.

Lemma megabytes_per_second_close ns :
  elapsed ns ->
  reads_close (put_double (megabytes_per_second 2000 (4 * 1024) ns)) ((125 # 8) / (inject_Z ns / 1000000000)).
Proof.
  intros Hns. pose proof (elapsed_Q ns Hns) as [H1 H2].
  pose proof (duration_near ns 1000000000 Hns ltac:(lia)) as HD.
  change (inject_Z 1000000000) with 1000000000 in HD.
  set (t := inject_Z ns / 1000000000) in *. assert (Et : inject_Z ns == t * 1000000000) by (unfold t; field).
  assert (Ht : (1 # 1000000000) <= t) by lra. assert (Ht' : t <= 10000000000) by lra.
  assert (HN : near (ulps 0) (f64_mul (f64_mul (f64_of_Z 2) (f64_of_Z 2000)) (f64_of_Z (4 * 1024))) 16384000).
  { eexists _, _; split; [vm_compute; reflexivity|]. split; [by split; vm_compute|]. vm_compute; discriminate. }
  assert (HM : near (ulps 0) (f64_mul (f64_of_Z 1024) (f64_of_Z 1024)) 1048576).
  { eexists _, _; split; [vm_compute; reflexivity|]. split; [by split; vm_compute|]. vm_compute; discriminate. }
  assert (HMt : near (ulps (0 + 2 * 5 + 2)) (f64_mul (f64_mul (f64_of_Z 1024) (f64_of_Z 1024)) (duration_seconds ns))
    (1048576 * t)).
  { apply (mul_ordinary 0 5 _ _ 1048576 t); try lra; try done. split; nra. }
  set (c := (125 # 8) / t). assert (Ec : (125 # 8) == c * t) by (unfold c; field; lra).
  assert (Hc : ordinary c) by (split; nra).
  apply (put_double_near (ulps (0 + 2 * (0 + 2 * 5 + 2) + 2))); [|destruct Hc; lra|unfold ulp; lra|unfold ulp; lra].
  apply (div_ordinary 0 (0 + 2 * 5 + 2) _ _ 16384000 (1048576 * t)); try lra; try done.
Qed.

(** ** Lemmas: the runs *)

Lemma bench_step_config patient b b' :
  bench_step patient b b' -> tr_config (br_transport b') = tr_config (br_transport b).
Proof.
  assert (Hp : forall node t m t', PollReceive node t = (m, t') -> tr_config t' = tr_config t).
  { intros node t m t'. rewrite PollReceive_spec. destruct (inbox node t); intros [= <- <-]; [|done].
    apply try_emplace_config. }
  destruct 1 as [now h t cq qp message sends receivers received t' cq' store' E| |]; simpl; eauto.
  pose proof (PostSend_config now h qp message t cq ∅) as H. by rewrite E in H.
Qed.

Lemma bench_run_config patient b b' :
  rtc (bench_step patient) b b' -> tr_config (br_transport b') = tr_config (br_transport b).
Proof.
  induction 1 as [|b b1 b2 H _ IH]; [done|]. rewrite IH. by eapply bench_step_config.
Qed.

Lemma single_bench_config `{ArgOrder} qp topic description payload value rounds :
  tr_config (br_transport (single_bench qp topic description payload value rounds)) =
    default_TransportConfig.
Proof.
  unfold single_bench. destruct (Register_size _ _ _) as [[region h] r]. apply Connect_config.
Qed.

Lemma single_bench_head `{ArgOrder} qp topic description bytes value count title rounds payload b :
  rtc (bench_step true) (single_bench qp topic description bytes value count) b ->
  report_head title rounds payload b =
    [title; "backend: in-memory-rdma"; "rounds: " +:+ to_string rounds;
     "payload_bytes: " +:+ to_string payload; "received: " +:+ to_string (Z.of_nat (br_received b))].
Proof.
  intros Hrun. unfold report_head, BackendName. by rewrite (bench_run_config _ _ _ Hrun), single_bench_config.
Qed.

Lemma bench_exit_received total b : bench_exit total b = Some 0%Z -> br_received b = total.
Proof.
  unfold bench_exit. destruct (br_sends b); [|done]. case_bool_decide; [|done]. by case_bool_decide.
Qed.

(** ** Properties *)

(** The lines are [before] and one line more: the label and a decimal text within six
    millionths of the exact figure. *)
Definition prints (before : list string) (label : string) (exact : Q) (lines : list string) : Prop :=
  exists text, lines = before ++ [label +:+ text] /\ reads_close text exact.

(** C32. The figure a benchmark reports is the figure it measures: for every time from
    one nanosecond to the largest 64-bit count, the last line of each report is the
    label and a decimal number that differs from the exact quotient by at most six
    parts in a million, all roundings of the conversions, products and quotients in
    double precision and the six digits of the output stream included.  The exact
    figures are microseconds per round, gibibytes per second and, for the TCP
    program, which prints two figures, mebibytes per second in both directions. *)
Theorem report_figures (b : BenchRun) (p : Pingpong) (env : TcpCompareEnv) (ns : Z) :
  elapsed ns -> tcp_compare env = Some 0%Z ->
  let us := inject_Z ns / 1000 in let seconds := inject_Z ns / 1000000000 in
  prints (report_head "RDMA latency benchmark" 5000 4096 b) "avg_one_way_latency_us: " (us / 5000)
    (latency_bench_report b ns) /\
  prints (report_head "RDMA latency benchmark" 5000 4096 b) "avg_one_way_latency_us: " (us / 5000)
    (latency_test_report b ns) /\
  prints (report_head "RDMA throughput benchmark" 1024 1048576 b) "throughput_gbps: " (1 / seconds)
    (throughput_bench_report b ns) /\
  prints (report_head "RDMA throughput benchmark" 1024 1048576 b) "throughput_gbps: " (1 / seconds)
    (throughput_test_report b ns) /\
  prints ["RDMA multi-connection benchmark"; "connections: 8"; "messages: 4096"; "payload_bytes: 65536";
          "received: " +:+ to_string (Z.of_nat (br_received b))] "aggregate_gbps: " ((1 # 4) / seconds)
    (multi_conn_report b ns) /\
  prints ["pingpong demo"; "rounds: 128"; "received: " +:+ to_string (sizeZ (pp_results p))]
    "avg_rtt_us: " (us / 128) (pingpong_report p ns) /\
  (exists line lines, tcp_compare_output env ns = Some (0%Z, lines ++ [line]) /\
     prints ["TCP loopback comparison"; "rounds: 2000"; "payload_bytes: 4096"]
       "avg_rtt_us: " (us / 2000) lines /\
     prints lines "throughput_mb_s: " ((125 # 8) / seconds) (lines ++ [line])).
Proof.
  intros Hns Henv us seconds. split_and!; [eexists; (split; [reflexivity|])..|].
  - by apply (average_us_close ns 5000).
  - by apply (average_us_close ns 5000).
  - apply gigabytes_per_second_close; [by left|done].
  - apply gigabytes_per_second_close; [by left|done].
  - apply gigabytes_per_second_close; [by right; left|done].
  - by apply (average_us_close ns 128).
  - unfold tcp_compare_output. rewrite Henv. eexists _, [_; _; _; _]. split; [reflexivity|].
    split; (eexists; split; [reflexivity|]).
    + by apply (average_us_close ns 2000).
    + by apply megabytes_per_second_close.
Qed.

(** C31. What the throughput and multi-connection benchmarks do from [main]'s first line to
    its last: every interleaving of the sender and the receivers is finite, whatever times
    out; and if no receiver gives up before the sender is done, every complete run
    returns 0, having written exactly these lines: a title, the backend (for one
    connection), the sizes of the run, as many messages received as were sent, and a rate
    within six millionths of the data moved over the time. *)
Theorem bench_outputs `{ArgOrder} (total : nat) (b0 : BenchRun) (report : BenchRun -> Z -> list string)
    (before : list string) (label : string) (gib : Q) (ns : Z) :
  In (total, b0, report, before, label, gib)
    [(1024, throughput_bench, throughput_bench_report,
      ["RDMA throughput benchmark"; "backend: in-memory-rdma"; "rounds: 1024"; "payload_bytes: 1048576";
       "received: 1024"], "throughput_gbps: ", 1 # 1);
     (1024, throughput_test, throughput_test_report,
      ["RDMA throughput benchmark"; "backend: in-memory-rdma"; "rounds: 1024"; "payload_bytes: 1048576";
       "received: 1024"], "throughput_gbps: ", 1 # 1);
     ((kConnections * kRoundsPerConnection)%nat, multi_conn_bench, multi_conn_report,
      ["RDMA multi-connection benchmark"; "connections: 8"; "messages: 4096"; "payload_bytes: 65536";
       "received: 4096"], "aggregate_gbps: ", 1 # 4)]%nat ->
  elapsed ns ->
  sn (bench_step false) b0 /\
  forall b, rtc (bench_step true) b0 b -> nf (bench_step true) b ->
    exists lines, bench_output total report b ns = Some (0%Z, lines) /\
      prints before label (gib / (inject_Z ns / 1000000000)) lines.
Proof.
  intros Hin Hns.
  assert (HB : sn (bench_step false) b0 /\
    forall b, rtc (bench_step true) b0 b -> nf (bench_step true) b -> bench_exit total b = Some 0%Z).
  { apply bench_programs_succeed. rewrite list_elem_of_In.
    destruct Hin as [[= <- <- _ _ _ _]|[[= <- <- _ _ _ _]|[[= <- <- _ _ _ _]|[]]]]; simpl; tauto. }
  destruct HB as [Hsn HB]. split; [exact Hsn|]. intros b Hrtc Hnf.
  pose proof (HB b Hrtc Hnf) as Hexit. pose proof (bench_exit_received _ _ Hexit) as Hr.
  unfold bench_output. rewrite Hexit. eexists. split; [reflexivity|].
  destruct Hin as [[= <- <- <- <- <- <-]|[[= <- <- <- <- <- <-]|[[= <- <- <- <- <- <-]|[]]]].
  - unfold throughput_bench_report. rewrite (single_bench_head _ _ _ _ _ _ _ _ _ _ Hrtc), Hr.
    eexists. split; [reflexivity|]. apply gigabytes_per_second_close; [by left|done].
  - unfold throughput_test_report. rewrite (single_bench_head _ _ _ _ _ _ _ _ _ _ Hrtc), Hr.
    eexists. split; [reflexivity|]. apply gigabytes_per_second_close; [by left|done].
  - unfold multi_conn_report. rewrite Hr.
    eexists. split; [reflexivity|]. apply gigabytes_per_second_close; [by right; left|done].
Qed.

(** C29. The pingpong program ends, and it ends well: the set-up succeeds; every
    interleaving of the two threads, with timeouts or without, is finite and ends with
    an exit code and a report; and if no poll times out, every complete run returns 0,
    the client having received the answer to each of its 128 tasks, in order, and the
    report says so, with an average within six millionths of the time per round. *)
Theorem pingpong_prints `{ArgOrder} (ns : Z) :
  elapsed ns ->
  exists p0, pingpong_begin = inr p0 /\
    sn (pp_step true) p0 /\
    (forall p, rtc (pp_step true) p0 p -> nf (pp_step true) p -> is_Some (pingpong_output p ns)) /\
    sn (pp_step false) p0 /\
    (forall p, rtc (pp_step false) p0 p -> nf (pp_step false) p ->
       pp_results p = answers kRounds /\
       exists lines, pingpong_output p ns = Some (0%Z, lines) /\
         prints ["pingpong demo"; "rounds: 128"; "received: 128"] "avg_rtt_us: "
           (inject_Z ns / 1000 / 128) lines).
Proof.
  intros Hns. destruct pingpong_terminates as (p0 & E & H1 & H2 & H3 & H4). exists p0.
  split_and!; try done; intros p Hrtc Hnf; unfold pingpong_output.
  - destruct (H2 p Hrtc Hnf) as [code ->]. by eexists.
  - destruct (H4 p Hrtc Hnf) as [-> Hr]. split; [done|]. eexists. split; [reflexivity|].
    unfold pingpong_report. rewrite Hr. eexists. split; [reflexivity|]. by apply (average_us_close ns 128).
Qed.

(** A benchmark that fails reports as if it had not: there are runs of the latency
    programs, without any fault, that receive 4096 of the 5000 messages and return 1,
    and their average is still the time over 5000, the five seconds the receiver waited
    in vain included. *)
Theorem failed_report `{ArgOrder} (b0 : BenchRun) (report : BenchRun -> Z -> list string) (ns : Z) :
  In (b0, report) [(latency_bench, latency_bench_report); (latency_test, latency_test_report)] ->
  elapsed ns ->
  exists b, rtc (bench_step true) b0 b /\ nf (bench_step true) b /\
    exists lines, bench_output 5000 report b ns = Some (1%Z, lines) /\
      prints ["RDMA latency benchmark"; "backend: in-memory-rdma"; "rounds: 5000"; "payload_bytes: 4096";
              "received: 4096"] "avg_one_way_latency_us: " (inject_Z ns / 1000 / 5000) lines.
Proof.
  intros Hin Hns.
  destruct (latency_bench_can_fail b0) as (b & Hrtc & Hnf & Hr & Hexit).
  { destruct Hin as [[= <- _]|[[= <- _]|[]]]; [by left|by right]. }
  exists b. split_and!; [done..|]. unfold bench_output. rewrite Hexit. eexists. split; [reflexivity|].
  destruct Hin as [[= <- <-]|[[= <- <-]|[]]]; unfold latency_bench_report, latency_test_report;
    rewrite (single_bench_head _ _ _ _ _ _ _ _ _ _ Hrtc), Hr; (eexists; split; [reflexivity|]);
    by apply (average_us_close ns 5000).
Qed.

(** ** Witnesses *)

(** A TCP run in which every call moves the whole block. *)
Definition smooth_env : TcpCompareEnv :=
  mkTcpCompareEnv 3 0 0 false 4 0 (fun _ => [4096%Z]) (fun _ => [4096%Z]).

Lemma report_figures_witness :
  last (throughput_bench_report (@throughput_bench true) 2345678901) = Some "throughput_gbps: 0.426316" /\
  prints (report_head "RDMA throughput benchmark" 1024 1048576 (@throughput_bench true)) "throughput_gbps: "
    (1 / (inject_Z 2345678901 / 1000000000)) (throughput_bench_report (@throughput_bench true) 2345678901).
Proof.
  split; [vm_compute; reflexivity|]. destruct pingpong_begin_phase as (p & _).
  apply (report_figures (@throughput_bench true) p smooth_env 2345678901); [done|vm_compute; reflexivity].
Defined.

Lemma bench_outputs_witness :
  exists b lines, rtc (bench_step true) (@throughput_bench true) b /\
    bench_output 1024 throughput_bench_report b 1000000 = Some (0%Z, lines) /\
    prints ["RDMA throughput benchmark"; "backend: in-memory-rdma"; "rounds: 1024"; "payload_bytes: 1048576";
            "received: 1024"] "throughput_gbps: " ((1 # 1) / (inject_Z 1000000 / 1000000000)) lines.
Proof.
  destruct (@bench_outputs true 1024 (@throughput_bench true) throughput_bench_report _ _ _ 1000000
    (or_introl eq_refl)) as [_ Hruns]; [done|].
  destruct (bench_runs_out (@throughput_bench true)) as (b & Hrtc & Hnf).
  destruct (Hruns b Hrtc Hnf) as (lines & Hout & Hprints). exists b, lines. split; [exact Hrtc|].
  split; [exact Hout | exact Hprints].
Defined.

Lemma failed_report_witness :
  exists b lines, rtc (bench_step true) (@latency_test true) b /\
    bench_output 5000 latency_test_report b 5000000000 = Some (1%Z, lines) /\
    prints ["RDMA latency benchmark"; "backend: in-memory-rdma"; "rounds: 5000"; "payload_bytes: 4096";
            "received: 4096"] "avg_one_way_latency_us: " (inject_Z 5000000000 / 1000 / 5000) lines.
Proof.
  destruct (@failed_report true (@latency_test true) latency_test_report 5000000000
    (or_intror (or_introl eq_refl))) as (b & H1 & _ & lines & H2 & H3); [done|].
  exists b, lines. split; [exact H1|]. split; [exact H2 | exact H3].
Defined.

Lemma pingpong_prints_witness : exists p0, pingpong_begin = inr p0 /\ sn (@pp_step true true) p0.
Proof.
  destruct (@pingpong_prints true 5000000 (conj eq_refl eq_refl)) as (p0 & H1 & H2 & _).
  exists p0. split; [exact H1 | exact H2].
Defined.
