(* ===== verification/WorkerConfig.v ===== *)
(** * The worker's configuration: worker/include/worker_node.h and the parser in
    worker/src/worker_node.cpp

    [loadConfig] reads [key: value] lines.  An error is the message the code logs
    before it returns false; the configuration of the node is then left alone. *)

From S2P Require Import Prelude CppString CppNumber.
From Stdlib Require Import Ascii.

Record WorkerConfig := mkWorkerConfig {
  wc_worker_id : string;
  wc_listen_port : Z;                 (* int *)
  wc_scheduler_addr : string;
  wc_heartbeat_interval : Z;          (* int *)
  wc_threads : Z;                     (* int *)
}.

Definition default_WorkerConfig : WorkerConfig :=
  mkWorkerConfig "worker-1" 9001 "127.0.0.1:8080" 5 4.

(** ** trim and parseInt *)

(** The characters of the argument of [find_first_not_of]: blank, tab, return and
    newline. *)
Definition blank (c : ascii) : bool :=
  bool_decide (c = " "%char) || bool_decide (c = "009"%char) ||
  bool_decide (c = "013"%char) || bool_decide (c = "010"%char).

Fixpoint find_first_not_blank (s : string) : option nat :=
  match s with
  | EmptyString => None
  | String c s' => if blank c then S <$> find_first_not_blank s' else Some 0
  end.

Fixpoint find_last_not_blank (s : string) : option nat :=
  match s with
  | EmptyString => None
  | String c s' =>
      match find_last_not_blank s' with
      | Some i => Some (S i)
      | None => if blank c then None else Some 0
      end
  end.

(** The second search finds something whenever the first does. *)
Definition trim (value : string) : string :=
  match find_first_not_blank value with
  | None => ""
  | Some first =>
      let last := default 0 (find_last_not_blank value) in
      substr_to (last - first + 1) (substr_from first value)
  end.

(** The parsed value, or [None] where the code returns false and leaves the
    variable alone. *)
Definition parseInt (text : string) : option Z :=
  match stoi text with
  | Throw _ => None
  | Ok (parsed, index) => if decide (index = String.length text) then Some parsed else None
  end.

(** ** loadConfig *)

Definition set_worker_id (v : string) (c : WorkerConfig) : WorkerConfig :=
  mkWorkerConfig v (wc_listen_port c) (wc_scheduler_addr c) (wc_heartbeat_interval c) (wc_threads c).
Definition set_listen_port (v : Z) (c : WorkerConfig) : WorkerConfig :=
  mkWorkerConfig (wc_worker_id c) v (wc_scheduler_addr c) (wc_heartbeat_interval c) (wc_threads c).
Definition set_scheduler_addr (v : string) (c : WorkerConfig) : WorkerConfig :=
  mkWorkerConfig (wc_worker_id c) (wc_listen_port c) v (wc_heartbeat_interval c) (wc_threads c).
Definition set_heartbeat_interval (v : Z) (c : WorkerConfig) : WorkerConfig :=
  mkWorkerConfig (wc_worker_id c) (wc_listen_port c) (wc_scheduler_addr c) v (wc_threads c).
Definition set_threads (v : Z) (c : WorkerConfig) : WorkerConfig :=
  mkWorkerConfig (wc_worker_id c) (wc_listen_port c) (wc_scheduler_addr c)
    (wc_heartbeat_interval c) v.

(** The chain of comparisons on the key; unknown keys are ignored. *)
Definition assign_key (loaded : WorkerConfig) (key value : string) : outcome WorkerConfig :=
  if decide (key = "worker_id") then Ok (set_worker_id value loaded)
  else if decide (key = "listen_port") then
    match parseInt value with
    | None => Throw ("invalid listen_port: " +:+ value)
    | Some v => Ok (set_listen_port v loaded)
    end
  else if decide (key = "scheduler_addr") then Ok (set_scheduler_addr value loaded)
  else if decide (key = "heartbeat_interval") then
    match parseInt value with
    | None => Throw ("invalid heartbeat_interval: " +:+ value)
    | Some v => Ok (set_heartbeat_interval v loaded)
    end
  else if decide (key = "threads") then
    match parseInt value with
    | None => Throw ("invalid threads: " +:+ value)
    | Some v => Ok (set_threads v loaded)
    end
  else Ok loaded.

(** One line of the file. *)
Definition config_line (loaded : WorkerConfig) (text : string) : outcome WorkerConfig :=
  let uncommented :=
    match find_char "#" text with
    | Some comment_pos => substr_to comment_pos text
    | None => text
    end in
  let line := trim uncommented in
  if decide (line = "") then Ok loaded
  else
    match find_char ":" line with
    | None => Throw ("invalid config line: " +:+ line)
    | Some separator =>
        assign_key loaded (trim (substr_to separator line))
          (trim (substr_from (S separator) line))
    end.

(** The loop's body; after an error the function has returned, so the later lines
    do nothing. *)
Definition load_line (loaded : outcome WorkerConfig) (line : string) : outcome WorkerConfig :=
  match loaded with
  | Throw what => Throw what
  | Ok c => config_line c line
  end.

(** The tests after the loop. *)
Definition check_config (loaded : WorkerConfig) : outcome WorkerConfig :=
  if decide (wc_worker_id loaded = "") then Throw "config worker_id is empty"
  else if (wc_listen_port loaded <=? 0)%Z then
    Throw "config listen_port must be greater than zero"
  else if decide (wc_scheduler_addr loaded = "") then Throw "config scheduler_addr is empty"
  else if (wc_heartbeat_interval loaded <=? 0)%Z then
    Throw "config heartbeat_interval must be greater than zero"
  else if (wc_threads loaded <=? 0)%Z then Throw "config threads must be greater than zero"
  else Ok loaded.

(** [file] is the content of the file at [config_path], [None] when it cannot be
    opened; [config] is the node's configuration so far. *)
Definition loadConfig (config_path : string) (file : option string) (config : WorkerConfig)
    : outcome WorkerConfig :=
  match file with
  | None => Throw ("open config failed: " +:+ config_path)
  | Some text =>
      match for_each_line load_line (Ok config) text with
      | Throw what => Throw what
      | Ok loaded => check_config loaded
      end
  end.

(** ** What the parser promises *)

(** A configuration the node can run with. *)
Record config_ok (c : WorkerConfig) : Prop := {
  co_id : wc_worker_id c <> "";
  co_port : (1 <= wc_listen_port c <= INT_MAX)%Z;
  co_addr : wc_scheduler_addr c <> "";
  co_interval : (1 <= wc_heartbeat_interval c <= INT_MAX)%Z;
  co_threads : (1 <= wc_threads c <= INT_MAX)%Z;
}.

(** The integers are [int]s. *)
Definition ints_ok (c : WorkerConfig) : Prop :=
  int_range (wc_listen_port c) /\ int_range (wc_heartbeat_interval c) /\ int_range (wc_threads c).

(** The file with one line per setting, as worker/config/worker.yaml has them. *)
Definition setting (key value : string) : string := key +:+ ": " +:+ value +:+ nl.

Definition config_text (c : WorkerConfig) : string :=
  setting "worker_id" (wc_worker_id c) +:+
  setting "listen_port" (to_string (wc_listen_port c)) +:+
  setting "scheduler_addr" (wc_scheduler_addr c) +:+
  setting "heartbeat_interval" (to_string (wc_heartbeat_interval c)) +:+
  setting "threads" (to_string (wc_threads c)).

(** Text that a setting can carry: on one line, without a comment mark and without
    blanks around it. *)
Definition setting_safe (v : string) : Prop :=
  v <> "" /\ trim v = v /\ has_char "#" v = false /\ has_char nl_char v = false.

Fixpoint all_blank (s : string) : bool :=
  match s with
  | EmptyString => true
  | String c s' => blank c && all_blank s'
  end.

(** Text that starts and ends with a character that is not blank. *)
Definition tight (t : string) : Prop :=
  (exists c r, t = String c r /\ blank c = false) /\
  (exists u c, t = u +:+ String c "" /\ blank c = false).

(** ** Lemmas: trim *)

Lemma find_first_not_blank_app l c r :
  all_blank l = true -> blank c = false ->
  find_first_not_blank (l +:+ String c r) = Some (String.length l).
Proof.
  intros Hl Hc. induction l as [|a l IH]; simpl in *; [by rewrite Hc|].
  apply andb_true_iff in Hl as [-> Hl]. by rewrite IH.
Qed.

Lemma find_last_not_blank_blank r : all_blank r = true -> find_last_not_blank r = None.
Proof.
  induction r as [|a r IH]; simpl; [done|]. intros [-> Hr]%andb_true_iff. by rewrite IH.
Qed.

Lemma find_last_not_blank_app u c r :
  all_blank r = true -> blank c = false ->
  find_last_not_blank (u +:+ String c r) = Some (String.length u).
Proof.
  intros Hr Hc. induction u as [|a u IH]; simpl.
  - by rewrite find_last_not_blank_blank, Hc.
  - by rewrite IH.
Qed.

(** [trim] removes the blanks on both sides and nothing else. *)
Lemma trim_app l t r :
  all_blank l = true -> all_blank r = true -> tight t -> trim (l +:+ t +:+ r) = t.
Proof.
  intros Hl Hr [(c & t1 & E1 & Hc) (u & d & E2 & Hd)]. unfold trim.
  assert (H1 : find_first_not_blank (l +:+ t +:+ r) = Some (String.length l)).
  { rewrite E1, sapp_cons. by apply find_first_not_blank_app. }
  assert (H2 : find_last_not_blank (l +:+ t +:+ r) = Some (String.length l + String.length u)).
  { rewrite E2, sapp_assoc, <- sapp_assoc, sapp_cons.
    change ("" +:+ r) with r. rewrite find_last_not_blank_app by done. by rewrite slength_app. }
  rewrite H1, H2. simpl default. rewrite substr_from_app.
  replace (String.length l + String.length u - String.length l + 1) with (String.length t)
    by (rewrite E2, slength_app; simpl; lia).
  apply substr_to_app.
Qed.

Lemma trim_blank s : all_blank s = true -> trim s = "".
Proof.
  intros H. unfold trim. assert (find_first_not_blank s = None) as ->; [|done].
  induction s as [|c s IH]; [done|]. simpl in *. apply andb_true_iff in H as [-> H].
  by rewrite IH.
Qed.

Lemma find_first_not_blank_Some s b :
  find_first_not_blank s = Some b ->
  exists l c r, s = l +:+ String c r /\ blank c = false /\ b = String.length l.
Proof.
  revert b. induction s as [|c s IH]; simpl; [done|]. intros b. destruct (blank c) eqn:Hc.
  - destruct (find_first_not_blank s) as [b'|]; [|done]. intros [= <-].
    destruct (IH b' eq_refl) as (l & d & r & -> & Hd & ->). by exists (String c l), d, r.
  - intros [= <-]. by exists "", c, s.
Qed.

Lemma find_last_not_blank_Some s e :
  find_last_not_blank s = Some e ->
  exists u c r, s = u +:+ String c r /\ blank c = false /\ e = String.length u.
Proof.
  revert e. induction s as [|c s IH]; simpl; [done|]. intros e.
  destruct (find_last_not_blank s) as [e'|] eqn:E.
  - intros [= <-]. destruct (IH e' eq_refl) as (l & d & r & -> & Hd & ->).
    by exists (String c l), d, r.
  - destruct (blank c) eqn:Hc; [done|]. intros [= <-]. by exists "", c, s.
Qed.

Lemma substr_to_length n s : String.length (substr_to n s) <= n.
Proof. revert s. induction n as [|n IH]; intros [|c s]; simpl; try lia. specialize (IH s). lia. Qed.

Lemma substr_to_length_le n s : String.length (substr_to n s) <= String.length s.
Proof. revert s. induction n as [|n IH]; intros [|c s]; simpl; try lia. specialize (IH s). lia. Qed.

Lemma substr_from_length n s : String.length (substr_from n s) = String.length s - n.
Proof. revert s. induction n as [|n IH]; intros [|c s]; [done|done|done|apply IH]. Qed.

Lemma slength_0 s : String.length s = 0 -> s = "".
Proof. by destruct s. Qed.

Lemma trim_fix_tight v : v <> "" -> trim v = v -> tight v.
Proof.
  intros Hne Ht. unfold trim in Ht. destruct (find_first_not_blank v) as [b|] eqn:Eb; [|done].
  destruct (find_first_not_blank_Some _ _ Eb) as (l & c & r & Ev & Hc & Hb).
  assert (Hlen : String.length v <> 0) by (intros ?%slength_0; done).
  pose proof (substr_to_length (default 0 (find_last_not_blank v) - b + 1) (substr_from b v)) as H1.
  pose proof (substr_to_length_le (default 0 (find_last_not_blank v) - b + 1) (substr_from b v))
    as H2.
  rewrite Ht, substr_from_length in H2. rewrite Ht in H1.
  assert (b = 0) as -> by lia. destruct l; [|done]. split; [by exists c, r|].
  destruct (find_last_not_blank v) as [e|] eqn:Ee.
  - destruct (find_last_not_blank_Some _ _ Ee) as (u & d & r' & Ev' & Hd & ->). simpl in H1.
    rewrite Ev' in H1 at 1. rewrite slength_app in H1. simpl in H1.
    assert (r' = "") as -> by (apply slength_0; lia). by exists u, d.
  - exfalso. rewrite Ev in Ee. simpl in Ee. destruct (find_last_not_blank r); [done|].
    by rewrite Hc in Ee.
Qed.

Lemma tight_join a m b : tight a -> tight b -> tight (a +:+ m +:+ b).
Proof.
  intros [(c & r & -> & Hc) _] [_ (u & d & -> & Hd)]. split.
  - exists c, (r +:+ m +:+ (u +:+ String d "")). by rewrite sapp_cons.
  - exists (String c r +:+ m +:+ u), d. by rewrite !sapp_assoc.
Qed.

(** ** Lemmas: the settings *)

Lemma parseInt_to_string z : int_range z -> parseInt (to_string z) = Some z.
Proof. intros Hz. unfold parseInt. rewrite stoi_to_string by done. by rewrite decide_True. Qed.

Lemma parseInt_range text z : parseInt text = Some z -> int_range z.
Proof.
  unfold parseInt, stoi. destruct (scan_int text) as [[v n]|]; [|done].
  repeat case_decide; naive_solver.
Qed.

(** A line [key: value] assigns the value to the key. *)
Lemma config_line_setting loaded key v :
  tight key -> has_char "#" key = false -> has_char ":" key = false -> setting_safe v ->
  config_line loaded (key +:+ ": " +:+ v) = assign_key loaded key v.
Proof.
  intros Hk Hk1 Hk2 (Hv & Ht & Hv1 & Hv2). pose proof (trim_fix_tight v Hv Ht) as Htv.
  unfold config_line.
  rewrite (proj2 (find_char_None "#" _)) by (by rewrite !has_char_app, Hk1, Hv1).
  assert (E : trim (key +:+ ": " +:+ v) = key +:+ ": " +:+ v).
  { pose proof (trim_app "" (key +:+ ": " +:+ v) "") as E. rewrite sapp_nil_r in E.
    apply E; [done|done|]. by apply tight_join. }
  rewrite E, decide_False.
  2:{ destruct Hk as [(c & r & -> & _) _]. by rewrite sapp_cons. }
  change (": " +:+ v) with (String ":" (" " +:+ v)).
  rewrite find_char_app by done. rewrite substr_to_app, substr_from_app_S.
  f_equal; [rewrite <- (sapp_nil_r key) at 1; by apply (trim_app "" key "")|].
  rewrite <- (sapp_nil_r v) at 1. by apply (trim_app " " v "").
Qed.

Lemma load_setting loaded key v rest :
  tight key -> has_char "#" key = false -> has_char ":" key = false ->
  has_char nl_char key = false -> setting_safe v ->
  for_each_line load_line (Ok loaded) (setting key v +:+ rest) =
  for_each_line load_line (assign_key loaded key v) rest.
Proof.
  intros Hk Hk1 Hk2 Hk3 Hv. unfold setting. rewrite !sapp_assoc.
  rewrite <- !(sapp_assoc _ _ (nl +:+ rest)).
  rewrite for_each_line_line by (rewrite !has_char_app, Hk3; apply Hv).
  simpl load_line. by rewrite config_line_setting.
Qed.

Lemma to_string_chars z c :
  has_char c (to_string z) = true -> c = "-"%char \/ exists d, digit_value c = Some d.
Proof.
  assert (Hgo : forall x t, has_char c (pretty_N_go x t) = true ->
    has_char c t = true \/ exists d, digit_value c = Some d).
  { intros x. induction (N.lt_wf_0 x) as [x _ IH]. intros t.
    destruct (decide (0 < x)%N) as [Hx|Hx].
    - rewrite pretty_N_go_step by done. intros [H|H]%IH; [|by right|by apply N.div_lt].
      simpl in H. apply orb_true_iff in H as [H|H]; [|by left].
      apply bool_decide_eq_true in H as <-. right. eexists. apply digit_value_pretty.
      by apply N.mod_lt.
    - assert (x = 0)%N as -> by lia. rewrite pretty_N_go_0. by left. }
  assert (HN : forall x : N, has_char c (pretty x) = true -> exists d, digit_value c = Some d).
  { intros x. unfold pretty, pretty_N. case_decide.
    - simpl. rewrite orb_false_r. intros Hb%bool_decide_eq_true. subst c. by eexists.
    - intros [H'|H']%Hgo; [done|done]. }
  unfold to_string. destruct z as [|p|p]; [intros H; right; by apply (HN 0%N)| |].
  - intros H. right. by apply (HN (Npos p)).
  - change (pretty (Z.neg p)) with (String "-" (pretty (Npos p))). simpl.
    intros [H%bool_decide_eq_true|H]%orb_true_iff; [by left|right; by apply (HN (Npos p))].
Qed.

Lemma to_string_without c z :
  c <> "-"%char -> digit_value c = None -> has_char c (to_string z) = false.
Proof.
  intros Hc Hd. destruct (has_char c (to_string z)) eqn:E; [|done].
  apply to_string_chars in E as [?|[d E]]; congruence.
Qed.

Lemma all_blank_tight s : s <> "" -> (forall c, has_char c s = true -> blank c = false) -> tight s.
Proof.
  intros Hne Hs. split.
  - destruct s as [|c r]; [done|]. exists c, r. split; [done|]. apply Hs. simpl.
    by rewrite bool_decide_eq_true_2.
  - assert (exists u d, s = u +:+ String d "") as (u & d & ->).
    { clear Hs. induction s as [|c [|c' s] IH]; [done|by exists "", c|].
      destruct IH as (u & d & ->); [done|]. by exists (String c u), d. }
    exists u, d. split; [done|]. apply Hs. rewrite has_char_app. simpl.
    rewrite bool_decide_eq_true_2 by done. by destruct (has_char d u).
Qed.

Lemma setting_safe_int z : setting_safe (to_string z).
Proof.
  assert (Hne : to_string z <> "").
  { intros E. pose proof (scan_int_to_string z "" I) as H. by rewrite E in H. }
  split_and!; [done| |by apply to_string_without|by apply to_string_without].
  rewrite <- (sapp_nil_r (to_string z)) at 1. apply (trim_app "" _ ""); [done|done|].
  apply all_blank_tight; [done|]. intros c H.
  apply to_string_chars in H as [->|[d Hd]]; [done|].
  by destruct c as [[] [] [] [] [] [] [] []].
Qed.

(** The side conditions of a line with a literal key. *)
Ltac config_side :=
  lazymatch goal with
  | |- tight _ => apply trim_fix_tight; [done | vm_compute; reflexivity]
  | |- setting_safe (to_string _) => apply setting_safe_int
  | |- int_range _ => unfold int_range, INT_MIN; lia
  | |- _ ∈ _ => by repeat constructor
  | _ => done
  end.

Lemma assign_worker_id loaded v : assign_key loaded "worker_id" v = Ok (set_worker_id v loaded).
Proof. done. Qed.

Lemma assign_scheduler_addr loaded v :
  assign_key loaded "scheduler_addr" v = Ok (set_scheduler_addr v loaded).
Proof. done. Qed.

(** The keys with an integer and their setters. *)
Definition int_keys : list (string * (Z -> WorkerConfig -> WorkerConfig)) :=
  [("listen_port", set_listen_port); ("heartbeat_interval", set_heartbeat_interval);
   ("threads", set_threads)].

Lemma assign_int key set loaded z :
  (key, set) ∈ int_keys -> int_range z ->
  assign_key loaded key (to_string z) = Ok (set z loaded).
Proof.
  unfold int_keys, assign_key. intros Hk Hz. rewrite parseInt_to_string by done.
  repeat (apply elem_of_cons in Hk as [[= -> ->]|Hk]; [done|]). by apply elem_of_nil in Hk.
Qed.

Lemma ints_ok_assign loaded key value loaded' :
  ints_ok loaded -> assign_key loaded key value = Ok loaded' -> ints_ok loaded'.
Proof.
  intros (H1 & H2 & H3). unfold assign_key.
  destruct (parseInt value) as [v|] eqn:Ep; [apply parseInt_range in Ep|];
    repeat case_decide; intros E; try done; injection E as <-; by split_and!.
Qed.

Lemma ints_ok_line loaded line loaded' :
  ints_ok loaded -> config_line loaded line = Ok loaded' -> ints_ok loaded'.
Proof.
  intros Hl. unfold config_line. case_decide; [by intros [= <-]|].
  destruct (find_char ":" _); [|done]. by apply ints_ok_assign.
Qed.

Lemma check_config_spec c c' :
  check_config c = Ok c' -> ints_ok c -> c' = c /\ config_ok c.
Proof.
  unfold check_config. intros H (H1 & H2 & H3). unfold int_range in *.
  destruct (decide (wc_worker_id c = "")); [done|].
  destruct (Z.leb_spec (wc_listen_port c) 0); [done|].
  destruct (decide (wc_scheduler_addr c = "")); [done|].
  destruct (Z.leb_spec (wc_heartbeat_interval c) 0); [done|].
  destruct (Z.leb_spec (wc_threads c) 0); [done|].
  injection H as <-. split; [done|]. constructor; auto; lia.
Qed.

Lemma check_config_ok c : config_ok c -> check_config c = Ok c.
Proof.
  intros [H1 H2 H3 H4 H5]. unfold check_config. rewrite !decide_False by done.
  split_tests; bool_to_prop; try done; lia.
Qed.

(** Induction over the lines of the file: what each accepted line keeps holds of the
    accepted configuration, which has also passed the tests. *)
Lemma loadConfig_ind (P : WorkerConfig -> Prop) config_path file config c :
  (forall loaded line loaded', has_char nl_char line = false -> P loaded ->
    config_line loaded line = Ok loaded' -> P loaded') ->
  P config -> loadConfig config_path file config = Ok c -> P c /\ check_config c = Ok c.
Proof.
  intros Hline Hc. unfold loadConfig. destruct file as [text|]; [|done].
  assert (Hloop : match for_each_line load_line (Ok config) text with
                  | Ok l => P l | Throw _ => True end).
  { apply (for_each_line_ind (fun st => match st with Ok l => P l | Throw _ => True end));
      [|done].
    intros [l|what] line Hnl Hl; simpl; [|done]. destruct (config_line l line) eqn:E; eauto. }
  destruct (for_each_line load_line (Ok config) text) as [l|]; [|done].
  intros E. assert (c = l) as ->; [|done]. unfold check_config in E. repeat case_match; congruence.
Qed.

(** What is loaded can be run with. *)
Lemma loadConfig_sound config_path file config c :
  ints_ok config -> loadConfig config_path file config = Ok c -> config_ok c.
Proof.
  intros Hc E. apply (loadConfig_ind ints_ok) in E as [Hi E]; [|eauto using ints_ok_line|done].
  by apply (check_config_spec c c).
Qed.

(** ** Lemmas: the strings of a loaded configuration *)

Lemma trim_split s :
  all_blank s = true \/
  exists l t r, s = l +:+ t +:+ r /\ all_blank l = true /\ tight t /\ all_blank r = true.
Proof.
  induction s as [|c s IH]; [by left|].
  destruct IH as [Hs|(l & t & r & -> & Hl & Ht & Hr)]; destruct (blank c) eqn:Hc.
  - left. simpl. by rewrite Hc.
  - right. exists "", (String c ""), s. split_and!; [done..| |done].
    split; [by exists c, ""|by exists "", c].
  - right. exists (String c l), t, r. simpl. by rewrite Hc.
  - right. exists "", (String c (l +:+ t)), r. split_and!; [|done| |done].
    + by rewrite !sapp_cons, sapp_assoc.
    + destruct Ht as [_ (u & d & -> & Hd)]. split; [by exists c, (l +:+ (u +:+ String d ""))|].
      exists (String c (l +:+ u)), d. by rewrite !sapp_cons, sapp_assoc.
Qed.

Lemma trim_idemp s : trim (trim s) = trim s.
Proof.
  destruct (trim_split s) as [Hs|(l & t & r & -> & Hl & Ht & Hr)]; [by rewrite (trim_blank s) by done|].
  rewrite (trim_app l t r) by done. rewrite <- (sapp_nil_r t) at 1.
  by apply (trim_app "" t "").
Qed.

Lemma has_char_trim c s : has_char c s = false -> has_char c (trim s) = false.
Proof. intros H. unfold trim. destruct (find_first_not_blank s); auto with cpp. Qed.

(** Text a setting can carry, or none at all. *)
Definition setting_text (v : string) : Prop :=
  trim v = v /\ has_char "#" v = false /\ has_char nl_char v = false.

Definition texts_ok (c : WorkerConfig) : Prop :=
  setting_text (wc_worker_id c) /\ setting_text (wc_scheduler_addr c).

Lemma setting_text_trim s :
  has_char "#" s = false -> has_char nl_char s = false -> setting_text (trim s).
Proof. intros H1 H2. split_and!; [apply trim_idemp|by apply has_char_trim..]. Qed.

Lemma texts_ok_assign loaded key value loaded' :
  texts_ok loaded -> setting_text value -> assign_key loaded key value = Ok loaded' ->
  texts_ok loaded'.
Proof.
  intros (H1 & H2) Hv. unfold assign_key.
  destruct (parseInt value) as [v|]; repeat case_decide; intros E; try done;
    injection E as <-; by split.
Qed.

(** The line a comment was cut off has no comment mark left. *)
Lemma uncommented_chars text :
  has_char nl_char text = false ->
  let line := trim match find_char "#" text with
                   | Some pos => substr_to pos text | None => text end in
  has_char "#" line = false /\ has_char nl_char line = false.
Proof.
  intros Hnl. destruct (find_char "#" text) as [pos|] eqn:E.
  - apply find_char_Some in E as (_ & E). split; apply has_char_trim; auto with cpp.
  - apply find_char_None in E. split; by apply has_char_trim.
Qed.

Lemma texts_ok_line loaded line loaded' :
  has_char nl_char line = false -> texts_ok loaded -> config_line loaded line = Ok loaded' ->
  texts_ok loaded'.
Proof.
  intros Hnl Hl. unfold config_line. destruct (uncommented_chars line Hnl) as [Hh Hn].
  case_decide; [by intros [= <-]|]. destruct (find_char ":" _); [|done].
  apply texts_ok_assign; [done|]. apply setting_text_trim; auto with cpp.
Qed.

Lemma loadConfig_texts config_path file config c :
  texts_ok config -> loadConfig config_path file config = Ok c -> texts_ok c.
Proof. intros Hc E. eapply (loadConfig_ind texts_ok); eauto using texts_ok_line. Qed.

(** ** Properties *)

(** C28. Type: whatever the file says, a configuration that [loadConfig] accepts is
    well formed: its integers are positive [int]s and its two strings are not empty,
    lie on one line, hold no comment mark and have no blanks around them, given that
    the configuration before had [int]s and such strings (or empty ones). *)
Theorem loadConfig_well_formed (config_path : string) (file : option string)
    (config c : WorkerConfig) :
  ints_ok config -> texts_ok config -> loadConfig config_path file config = Ok c ->
  config_ok c /\ setting_safe (wc_worker_id c) /\ setting_safe (wc_scheduler_addr c).
Proof.
  intros Hi Ht E. pose proof (loadConfig_sound _ _ _ _ Hi E) as Hok.
  destruct (loadConfig_texts _ _ _ _ Ht E) as [H1 H2]. split; [done|]. by destruct Hok.
Qed.

(** C27. Round trip: the file with one line per setting loads as the configuration
    it was written from, whatever the node's configuration was before, if that
    configuration is valid (positive port, interval and thread count within int) and its
    worker id and scheduler address are texts a setting can carry: not empty, on one line,
    without a comment mark and without blanks around them. *)
Theorem loadConfig_roundtrip (config_path : string) (config c : WorkerConfig) :
  config_ok c -> setting_safe (wc_worker_id c) -> setting_safe (wc_scheduler_addr c) ->
  loadConfig config_path (Some (config_text c)) config = Ok c.
Proof.
  intros Hok Hid Haddr. pose proof Hok as [H1 H2 H3 H4 H5]. unfold loadConfig, config_text.
  rewrite <- (sapp_nil_r (setting "threads" _)).
  rewrite load_setting by config_side.
  rewrite assign_worker_id, load_setting by config_side.
  rewrite (assign_int "listen_port" set_listen_port), load_setting by config_side.
  rewrite assign_scheduler_addr, load_setting by config_side.
  rewrite (assign_int "heartbeat_interval" set_heartbeat_interval), load_setting by config_side.
  rewrite (assign_int "threads" set_threads), for_each_line_nil by config_side.
  rewrite check_config_ok by (by constructor). by destruct c.
Qed.

(** ** Witnesses *)

(** worker/config/worker.yaml. *)
Definition worker_yaml : string :=
  "worker_id: worker-1" +:+ nl +:+ "listen_port: 9001" +:+ nl +:+
  "scheduler_addr: 127.0.0.1:8080" +:+ nl +:+ "heartbeat_interval: 5" +:+ nl +:+
  "threads: 4" +:+ nl.

Example worker_yaml_loads :
  loadConfig "config/worker.yaml" (Some worker_yaml) default_WorkerConfig =
    Ok default_WorkerConfig.
Proof. vm_compute. reflexivity. Qed.

Example worker_yaml_errors :
  loadConfig "c" None default_WorkerConfig = Throw "open config failed: c" /\
  loadConfig "c" (Some "threads 4") default_WorkerConfig = Throw "invalid config line: threads 4" /\
  loadConfig "c" (Some "threads: 4x # four") default_WorkerConfig = Throw "invalid threads: 4x" /\
  loadConfig "c" (Some "listen_port: 0") default_WorkerConfig =
    Throw "config listen_port must be greater than zero".
Proof. vm_compute. done. Qed.

Lemma loadConfig_roundtrip_witness :
  loadConfig "c" (Some (config_text (mkWorkerConfig "w" 70000 "h:1" 1 2))) default_WorkerConfig =
    Ok (mkWorkerConfig "w" 70000 "h:1" 1 2).
Proof.
  apply loadConfig_roundtrip; [constructor; unfold INT_MAX; simpl; (discriminate || lia)| |];
    repeat split; discriminate || (vm_compute; reflexivity).
Defined.

Lemma loadConfig_well_formed_witness :
  config_ok (mkWorkerConfig "w 2" 7 "127.0.0.1:8080" 5 4) /\ setting_safe "w 2" /\
  setting_safe "127.0.0.1:8080".
Proof.
  apply (loadConfig_well_formed "c"
    (Some (" worker_id :  w 2  # the name" +:+ nl +:+ "listen_port: 7" +:+ nl))
    default_WorkerConfig);
    [repeat split; unfold INT_MIN, INT_MAX; vm_compute; discriminate
    |repeat split; vm_compute; reflexivity|vm_compute; reflexivity].
Defined.
