(* ===== verification/WorkerLogger.v ===== *)
(** * worker/include/logger.h, worker/src/logger.cpp: the worker's Logger

    A call reads the clock, formats one line and, under the mutex, writes it to
    [std::cout] or [std::cerr].  The two streams are the texts written to them; the
    local time a call reads is its argument.  Since the clock is read before the
    mutex is taken, the lines of a stream need not be in the order of their times. *)

From S2P Require Import Prelude CppString CppNumber WorkerConfig.

Inductive LogLevel :=
  | Info
  | Error.

Instance LogLevel_eq_dec : EqDecision LogLevel.
Proof. solve_decision. Defined.

(** The members of [std::tm] the format uses; years count from 1900, months from 0. *)
Record tm := mkTm {
  tm_year : Z;
  tm_mon : Z;
  tm_mday : Z;
  tm_hour : Z;
  tm_min : Z;
  tm_sec : Z;
}.

(** A two-digit conversion of [std::put_time]. *)
Definition two_digits (z : Z) : string := (if (z <? 10)%Z then "0" else "") +:+ to_string z.

(** [std::put_time] with the format of the source, year-month-day hour:minute:second. *)
Definition put_time (t : tm) : string :=
  to_string (1900 + tm_year t) +:+ "-" +:+ two_digits (tm_mon t + 1) +:+ "-" +:+
  two_digits (tm_mday t) +:+ " " +:+ two_digits (tm_hour t) +:+ ":" +:+
  two_digits (tm_min t) +:+ ":" +:+ two_digits (tm_sec t).

(** The text of [stream]. *)
Definition log_text (local_tm : tm) (level : LogLevel) (message : string) : string :=
  "[" +:+ put_time local_tm +:+ "]" +:+
  "[" +:+ (if decide (level = Info) then "INFO" else "ERROR") +:+ "] " +:+ message.

Record OutputStreams := mkOutputStreams { os_cout : string; os_cerr : string }.

(** [Logger::log] by a thread that read the local time [local_tm]. *)
Definition log (local_tm : tm) (level : LogLevel) (message : string) (os : OutputStreams)
    : OutputStreams :=
  let line := log_text local_tm level message +:+ nl in
  if decide (level = Info) then mkOutputStreams (os_cout os +:+ line) (os_cerr os)
  else mkOutputStreams (os_cout os) (os_cerr os +:+ line).

(** ** Histories *)

Record log_call := mkLogCall { lc_tm : tm; lc_level : LogLevel; lc_message : string }.

Definition do_log (os : OutputStreams) (c : log_call) : OutputStreams :=
  log (lc_tm c) (lc_level c) (lc_message c) os.

Definition call_text (c : log_call) : string := log_text (lc_tm c) (lc_level c) (lc_message c).

(** A stream read back with [std::getline]. *)
Definition read_lines (text : string) : list string :=
  for_each_line (fun acc line => acc ++ [line]) [] text.

(** ** Lemmas *)

Lemma log_text_plain t level message :
  has_char nl_char message = false -> has_char nl_char (log_text t level message) = false.
Proof.
  intros Hm. unfold log_text, put_time, two_digits.
  rewrite !has_char_app, !to_string_without, Hm by done.
  by repeat (case_match || case_decide).
Qed.

Lemma for_each_line_lines (lines acc : list string) :
  Forall (fun l => has_char nl_char l = false) lines ->
  for_each_line (fun acc line => acc ++ [line]) acc
    (foldr (fun l rest => l +:+ nl +:+ rest) "" lines) = acc ++ lines.
Proof.
  intros Hl. revert acc. induction Hl as [|l lines Hl _ IH]; intros acc; simpl.
  - by rewrite for_each_line_nil, app_nil_r.
  - by rewrite for_each_line_line, IH, <- app_assoc.
Qed.

(** What the calls of a level append to its stream. *)
Lemma do_log_streams calls os :
  let text level := foldr (fun l rest => l +:+ nl +:+ rest) ""
                      (call_text <$> filter (fun c => lc_level c = level) calls) in
  foldl do_log os calls =
    mkOutputStreams (os_cout os +:+ text Info) (os_cerr os +:+ text Error).
Proof.
  revert os. induction calls as [|c calls IH]; intros os; simpl.
  { rewrite !sapp_nil_r. by destruct os. }
  rewrite IH. unfold do_log, log. assert (Ht : call_text c = log_text (lc_tm c) (lc_level c)
    (lc_message c)) by done.
  rewrite !filter_cons. destruct (lc_level c) eqn:E; repeat case_decide; try congruence;
    simpl; by rewrite !sapp_assoc, Ht.
Qed.

(** ** Properties *)

(** Over any sequence of calls with one-line messages, each stream reads back as
    the lines of the calls of its level, one line per call and in the order of the
    calls. *)
Theorem log_streams (calls : list log_call) (level : LogLevel) :
  Forall (fun c => has_char nl_char (lc_message c) = false) calls ->
  let os := foldl do_log (mkOutputStreams "" "") calls in
  read_lines (if decide (level = Info) then os_cout os else os_cerr os) =
    call_text <$> filter (fun c => lc_level c = level) calls.
Proof.
  intros Hc os. unfold os, read_lines. rewrite do_log_streams.
  replace (if decide (level = Info) then _ else _) with
    (foldr (fun l rest => l +:+ nl +:+ rest) ""
      (call_text <$> filter (fun c => lc_level c = level) calls)) by (by destruct level).
  apply (for_each_line_lines _ []). apply Forall_fmap.
  apply Forall_forall. intros c [_ Hin]%list_elem_of_filter. apply log_text_plain.
  by eapply Forall_forall in Hc.
Qed.

Example log_example :
  log (mkTm 124 0 9 7 5 59) Info "worker started" (mkOutputStreams "" "") =
    mkOutputStreams ("[2024-01-09 07:05:59][INFO] worker started" +:+ nl) "".
Proof. vm_compute. reflexivity. Qed.
