(* ===== verification/WorkerTask.v ===== *)
(** * worker/include/task.h, worker/mock/fake_model.cpp, worker/src/executor.cpp

    The task a worker receives over TCP, the model that answers it and the executor
    that turns an answer or an exception into a result. *)

From S2P Require Import Prelude CppString.

Record Task := mkTask {
  t_id : string;
  t_prompt : string;
}.

Record TaskResult := mkTaskResult {
  tr_task_id : string;
  tr_output : string;
  tr_success : bool;
}.

Instance Task_eq_dec : EqDecision Task.
Proof. solve_decision. Defined.

Instance TaskResult_eq_dec : EqDecision TaskResult.
Proof. solve_decision. Defined.

(** [FakeModel::infer]; the random delay has no effect on the answer. *)
Definition infer (prompt : string) : outcome string := Ok ("processed: " +:+ prompt).

(** [Executor::execute] with the model it holds; an exception's text is its
    [what()]. *)
Definition execute_with (model : string -> outcome string) (task : Task) : TaskResult :=
  match model (t_prompt task) with
  | Ok output => mkTaskResult (t_id task) output true
  | Throw what => mkTaskResult (t_id task) what false
  end.

Definition execute (task : Task) : TaskResult := execute_with infer task.

(** ** Lemmas *)

(** Whatever the model does, the result answers the task that was executed. *)
Lemma execute_with_id model task : tr_task_id (execute_with model task) = t_id task.
Proof. unfold execute_with. by destruct (model (t_prompt task)). Qed.

Lemma execute_id task : tr_task_id (execute task) = t_id task.
Proof. apply execute_with_id. Qed.
