(* ===== verification/SchedulerClient.v ===== *)
(** * worker/src/scheduler_client.cpp: reports to the scheduler over HTTP

    JSON escaping, the split of the scheduler's address, the three request bodies,
    the exchange over a socket and the status line of the answer.  The socket calls
    of the C library are parameters: what [getaddrinfo], [socket] and [connect]
    answer, and the sequence of results of [send] and [recv].  None of the calls has a
    timeout, so each of them may not return.  The process's open descriptors are threaded
    through. *)

From S2P Require Import Prelude CppString CppNumber WorkerTask.
From Stdlib Require Import Ascii.

Definition quote_char : ascii := "034"%char.
Definition backslash : ascii := "092"%char.
Definition cr_char : ascii := "013"%char.
Definition tab_char : ascii := "009"%char.

(** A JSON string literal around [s]. *)
Definition quote (s : string) : string := String quote_char s +:+ String quote_char "".

Definition crlf : string := String cr_char nl.

(** ** escapeJSONString *)

Definition escape_char (ch : ascii) : string :=
  if decide (ch = backslash) then String backslash (String backslash "")
  else if decide (ch = quote_char) then String backslash (String quote_char "")
  else if decide (ch = nl_char) then String backslash "n"
  else if decide (ch = cr_char) then String backslash "r"
  else if decide (ch = tab_char) then String backslash "t"
  else String ch "".

Fixpoint escapeJSONString (input : string) : string :=
  match input with
  | EmptyString => ""
  | String ch rest => escape_char ch +:+ escapeJSONString rest
  end.

(** ** splitHostPort *)

Definition http_prefix : string := "http://".

Definition splitHostPort (address : string) : option (string * string) :=
  let normalized :=
    if starts_with http_prefix address then substr_from (String.length http_prefix) address
    else address in
  let normalized :=
    match find_char "/" normalized with
    | Some slash => substr_to slash normalized
    | None => normalized
    end in
  match rfind_char ":" normalized with
  | None => None
  | Some separator =>
      if decide (separator = 0) then None
      else if decide (separator = String.length normalized - 1) then None
      else Some (substr_to separator normalized, substr_from (S separator) normalized)
  end.

(** ** Request bodies *)

Definition member (key value : string) : string := quote key +:+ ":" +:+ value.

Definition register_body (worker_id worker_address : string) (capacity : Z) : string :=
  "{" +:+ member "id" (quote (escapeJSONString worker_id)) +:+ "," +:+
  member "address" (quote (escapeJSONString worker_address)) +:+ "," +:+
  member "capacity" (to_string capacity) +:+ "}".

(** The loop over [active_task_ids], with a comma before every element but the
    first. *)
Fixpoint id_list (first : bool) (ids : list string) : string :=
  match ids with
  | [] => ""
  | id :: rest =>
      (if first then "" else ",") +:+ quote (escapeJSONString id) +:+ id_list false rest
  end.

Definition heartbeat_body (worker_id : string) (running_tasks : Z)
    (active_task_ids : list string) : string :=
  "{" +:+ member "id" (quote (escapeJSONString worker_id)) +:+ "," +:+
  member "running_tasks" (to_string running_tasks) +:+ "," +:+
  member "status" (quote (if (0 <? running_tasks)%Z then "busy" else "ready")) +:+
  match active_task_ids with
  | [] => ""
  | _ => "," +:+ member "active_task_ids" ("[" +:+ id_list true active_task_ids +:+ "]")
  end +:+ "}".

Definition result_body (result : TaskResult) : string :=
  "{" +:+ member "success" (if tr_success result then "true" else "false") +:+ "," +:+
  member "message" (quote (escapeJSONString (tr_output result))) +:+ "}".

(** ** postJSON *)

Definition request_text (host port path body : string) : string :=
  "POST " +:+ path +:+ " HTTP/1.1" +:+ crlf +:+
  "Host: " +:+ host +:+ ":" +:+ port +:+ crlf +:+
  "Content-Type: application/json" +:+ crlf +:+
  "Connection: close" +:+ crlf +:+
  "Content-Length: " +:+ to_string (Z.of_nat (String.length body)) +:+ crlf +:+ crlf +:+
  body.

(** What a call of [send] answers: the number of bytes taken, or an error, [EINTR] among
    them.  A [send] on a connection the scheduler has closed does not answer: [SIGPIPE],
    which the worker leaves at its default, ends the process; this end is not modelled. *)
Inductive send_event := Wrote (n : nat) | SendFailed.

(** What a call of [recv] answers: bytes (none at the end of the stream), [EINTR] or
    another error. *)
Inductive recv_event := Received (chunk : string) | RecvInterrupted | RecvFailed.

(** A loop over socket calls either ends, fails, or is still waiting when the
    events are used up. *)
Inductive io (A : Type) := Finished (a : A) | Failed | Waiting.
Arguments Finished {A} a.
Arguments Failed {A}.
Arguments Waiting {A}.

(** The send loop; the value is the bytes handed to the socket. *)
Fixpoint send_loop (serialized : string) (sent : nat) (taken : string)
    (events : list send_event) : io string :=
  if sent <? String.length serialized then
    match events with
    | [] => Waiting
    | SendFailed :: _ => Failed
    | Wrote n :: rest =>
        send_loop serialized (sent + n) (taken +:+ substr_to n (substr_from sent serialized)) rest
    end
  else Finished taken.

(** The receive loop; the value is the response. *)
Fixpoint recv_loop (response : string) (events : list recv_event) : io string :=
  match events with
  | [] => Waiting
  | RecvFailed :: _ => Failed
  | RecvInterrupted :: rest => recv_loop response rest
  | Received chunk :: rest =>
      if decide (chunk = "") then Finished response else recv_loop (response +:+ chunk) rest
  end.

(** [response.find("\r\n")]. *)
Fixpoint find_crlf (s : string) : option nat :=
  match s with
  | EmptyString => None
  | String c s' => if starts_with crlf s then Some 0 else S <$> find_crlf s'
  end.

(** [status_line >> http_version >> status_code] with [status_code] at -1 before:
    an extraction that finds nothing but white space stores nothing. *)
Definition status_of_line (status_line : string) : Z :=
  let '(http_version, rest) := extract_word status_line in
  if decide (http_version = "") then (-1)%Z
  else if decide (count_space rest = String.length rest) then (-1)%Z
  else extract_int rest.

Definition status_of_response (response : string) : Z :=
  match find_crlf response with
  | None => -1
  | Some line_end => status_of_line (substr_to line_end response)
  end.

Section exchange.

(** An element of the list [getaddrinfo] answers. *)
Context {addrinfo : Type}.

(** The C library during one exchange. *)
Record Net := mkNet {
  getaddrinfo : string -> string -> io (list addrinfo);
  net_socket : addrinfo -> Z;         (* the descriptor, or -1 *)
  net_connect : addrinfo -> io unit;
  send_events : addrinfo -> list send_event;
  recv_events : addrinfo -> list recv_event;
}.

(** The system does not hand out a descriptor that is open. *)
Definition fresh_sockets (net : Net) (fds : gset Z) : Prop :=
  forall a, (0 <= net_socket net a)%Z -> net_socket net a ∉ fds.

(** The connect loop: the first address a socket connects to, with the socket. *)
Fixpoint connect_first (net : Net) (fds : gset Z) (results : list addrinfo)
    : io (option (addrinfo * Z)) * gset Z :=
  match results with
  | [] => (Finished None, fds)
  | current :: rest =>
      let socket_fd := net_socket net current in
      if (socket_fd <? 0)%Z then connect_first net fds rest
      else
        let fds1 := fds ∪ {[socket_fd]} in
        match net_connect net current with
        | Finished _ => (Finished (Some (current, socket_fd)), fds1)
        | Failed => connect_first net (fds1 ∖ {[socket_fd]}) rest
        | Waiting => (Waiting, fds1)
        end
  end.

Record SchedulerClient := mkSchedulerClient {
  scl_scheduler_addr : string;
  scl_worker_id : string;
}.

Definition configure (scheduler_addr worker_id : string) (_ : SchedulerClient)
    : SchedulerClient := mkSchedulerClient scheduler_addr worker_id.

(** The status code, -1 on every failure, [Waiting] while a call blocks; and the
    descriptors then. *)
Definition postJSON (net : Net) (fds : gset Z) (path body : string) (c : SchedulerClient)
    : io Z * gset Z :=
  match splitHostPort (scl_scheduler_addr c) with
  | None => (Finished (-1)%Z, fds)
  | Some (host, port) =>
      match getaddrinfo net host port with
      | Failed => (Finished (-1)%Z, fds)
      | Waiting => (Waiting, fds)
      | Finished results =>
          match connect_first net fds results with
          | (Finished None, fds1) => (Finished (-1)%Z, fds1)
          | (Finished (Some (address, socket_fd)), fds1) =>
              match send_loop (request_text host port path body) 0 "" (send_events net address) with
              | Failed => (Finished (-1)%Z, fds1 ∖ {[socket_fd]})
              | Waiting => (Waiting, fds1)
              | Finished _ =>
                  match recv_loop "" (recv_events net address) with
                  | Failed => (Finished (-1)%Z, fds1 ∖ {[socket_fd]})
                  | Waiting => (Waiting, fds1)
                  | Finished response => (Finished (status_of_response response), fds1 ∖ {[socket_fd]})
                  end
              end
          | (_, fds1) => (Waiting, fds1)
          end
      end
  end.

(** The tail of the three reports: the answer of the call is whether the status is
    the expected one. *)
Definition expect (expected : Z) (exchange : io Z * gset Z) : io bool * gset Z :=
  (match exchange.1 with
   | Finished s => Finished (bool_decide (s = expected))
   | Failed => Failed
   | Waiting => Waiting
   end, exchange.2).

Definition registerWorker (net : Net) (fds : gset Z) (worker_address : string) (capacity : Z)
    (c : SchedulerClient) : io bool * gset Z :=
  if decide (scl_worker_id c = "") then (Finished false, fds)
  else expect 201
         (postJSON net fds "/workers/register"
            (register_body (scl_worker_id c) worker_address capacity) c).

Definition sendHeartbeat (net : Net) (fds : gset Z) (running_tasks : Z)
    (active_task_ids : list string) (c : SchedulerClient) : io bool * gset Z :=
  if decide (scl_worker_id c = "") then (Finished false, fds)
  else expect 200
         (postJSON net fds "/workers/heartbeat"
            (heartbeat_body (scl_worker_id c) running_tasks active_task_ids) c).

Definition reportResult (net : Net) (fds : gset Z) (result : TaskResult) (c : SchedulerClient)
    : io bool * gset Z :=
  if decide (scl_worker_id c = "") then (Finished false, fds)
  else expect 200
         (postJSON net fds ("/tasks/" +:+ tr_task_id result +:+ "/complete") (result_body result) c).

End exchange.
Arguments Net : clear implicits.

(** ** Reference: JSON string literals (RFC 8259, section 7)

    What a strict reader makes of the text behind an opening quote: the value up to
    the closing quote and the rest, [None] if the text is not a string literal.
    Characters below 32 must be escaped. *)
Definition unescape_char (c : ascii) : option ascii :=
  if decide (c = quote_char) then Some quote_char
  else if decide (c = backslash) then Some backslash
  else if decide (c = "/"%char) then Some "/"%char
  else if decide (c = "b"%char) then Some "008"%char
  else if decide (c = "f"%char) then Some "012"%char
  else if decide (c = "n"%char) then Some nl_char
  else if decide (c = "r"%char) then Some cr_char
  else if decide (c = "t"%char) then Some tab_char
  else None.

Fixpoint read_literal (s : string) : option (string * string) :=
  match s with
  | EmptyString => None
  | String c s' =>
      if decide (c = quote_char) then Some ("", s')
      else if decide (c = backslash) then
        match s' with
        | EmptyString => None
        | String e s'' =>
            match unescape_char e with
            | None => None
            | Some d => (fun '(v, rest) => (String d v, rest)) <$> read_literal s''
            end
        end
      else if nat_of_ascii c <? 32 then None
      else (fun '(v, rest) => (String c v, rest)) <$> read_literal s'
  end.

(** The control characters [escapeJSONString] leaves as they are. *)
Definition raw_control (c : ascii) : bool :=
  (nat_of_ascii c <? 32) &&
  negb (bool_decide (c = nl_char) || bool_decide (c = cr_char) || bool_decide (c = tab_char)).

Fixpoint has_raw_control (s : string) : bool :=
  match s with
  | EmptyString => false
  | String c s' => raw_control c || has_raw_control s'
  end.

(** ** Lemmas: escaping *)

(** Reading one escaped character: the character itself, or nothing at all if it is
    a control character that was not escaped. *)
Lemma read_literal_escape ch s :
  read_literal (escape_char ch +:+ s) =
    if raw_control ch then None else (fun '(v, rest) => (String ch v, rest)) <$> read_literal s.
Proof. by destruct ch as [[] [] [] [] [] [] [] []]. Qed.

Lemma read_literal_escaped s rest :
  read_literal (escapeJSONString s +:+ String quote_char rest) =
    if has_raw_control s then None else Some (s, rest).
Proof.
  induction s as [|ch s IH]; [done|]. cbn [escapeJSONString has_raw_control].
  rewrite sapp_assoc, read_literal_escape, IH. by destruct (raw_control ch), (has_raw_control s).
Qed.

(** ** Lemmas: addresses *)

Lemma rfind_char_app c a b :
  has_char c b = false -> rfind_char c (a +:+ String c b) = Some (String.length a).
Proof.
  intros Hb. induction a as [|x a IH].
  - change (rfind_char c (String c b) = Some 0). simpl.
    assert (rfind_char c b = None) as ->; [|by rewrite decide_True].
    induction b as [|y b IH]; [done|]. simpl in *. apply orb_false_iff in Hb as [H1 H2].
    rewrite IH by done. by rewrite decide_False by (by apply bool_decide_eq_false in H1).
  - rewrite sapp_cons. cbn [rfind_char String.length]. by rewrite IH.
Qed.

Lemma rfind_char_Some c s i :
  rfind_char c s = Some i ->
  exists a b, s = a +:+ String c b /\ i = String.length a /\ has_char c b = false.
Proof.
  revert i. induction s as [|x s IH]; simpl; [done|]. intros i.
  destruct (rfind_char c s) as [j|] eqn:E.
  - intros [= <-]. destruct (IH j eq_refl) as (a & b & -> & -> & Hb). by exists (String x a), b.
  - case_decide as Hx; [|done]. subst x. intros [= <-]. exists "", s. split_and!; [done|done|].
    destruct (has_char c s) eqn:Hs; [|done]. exfalso. clear IH. revert E.
    induction s as [|y s IH]; [done|]. simpl in *. destruct (rfind_char c s); [done|].
    case_decide as Hy; [done|]. rewrite bool_decide_eq_false_2 in Hs by done. auto.
Qed.

Lemma starts_with_slash p s : starts_with p s = true -> has_char "/" p = true -> has_char "/" s = true.
Proof.
  unfold starts_with. revert s. induction p as [|x p IH]; [done|].
  intros [|y s]; simpl; [done|]. destruct (ascii_dec x y) as [->|]; [|done].
  intros Hs [Hx|Hp]%orb_true_iff; [by rewrite Hx|]. rewrite (IH s Hs Hp). by rewrite orb_true_r.
Qed.

Lemma starts_with_split p a b :
  starts_with p (a +:+ b) = true -> starts_with p a = true \/ starts_with a p = true.
Proof.
  unfold starts_with. revert p. induction a as [|x a IH]; intros [|y p]; simpl; auto.
  destruct (ascii_dec y x) as [->|]; [|done]. intros H. destruct (ascii_dec x x); [auto|done].
Qed.

Lemma starts_with_substr p s :
  starts_with p s = true -> p = substr_to (String.length p) s /\ String.length p <= String.length s.
Proof.
  unfold starts_with. revert s. induction p as [|x p IH]; intros s H.
  - split; [by destruct s|simpl; lia].
  - destruct s as [|y s]; [done|]. simpl in *. destruct (ascii_dec x y) as [->|]; [|done].
    destruct (IH s H) as [E Hl]. split; [|lia].
    change (String y p = String y (substr_to (String.length p) s)). by rewrite <- E.
Qed.

(** What a short prefix of the scheme looks like. *)
Lemma http_prefix_prefixes n :
  n <= 7 ->
  has_char "/" (substr_to n http_prefix) = true \/
  rfind_char ":" (substr_to n http_prefix) = None \/
  rfind_char ":" (substr_to n http_prefix) = Some 4 /\ n = 5.
Proof.
  intros Hn. do 8 (destruct n as [|n]; [vm_compute; auto|]). lia.
Qed.

(** A host and port without slashes are not taken for a scheme. *)
Lemma host_port_no_scheme host port tail :
  host <> "" -> port <> "" -> has_char "/" host = false -> has_char "/" port = false ->
  has_char ":" port = false ->
  starts_with http_prefix ((host +:+ String ":" port) +:+ tail) = false.
Proof.
  intros Hh Hp H1 H2 H3. set (hp := host +:+ String ":" port).
  assert (Hs : has_char "/" hp = false) by (unfold hp; by rewrite has_char_app, H1; simpl; rewrite H2).
  pose proof (rfind_char_app ":" host port H3) as Hr. fold hp in Hr.
  assert (Hl : String.length hp = String.length host + S (String.length port))
    by (unfold hp; by rewrite slength_app).
  assert (Hpl : String.length port <> 0) by (by destruct port).
  clearbody hp.
  destruct (starts_with http_prefix (hp +:+ tail)) eqn:E; [|done]. exfalso.
  apply starts_with_split in E as [E|E].
  - apply starts_with_slash in E; [congruence|done].
  - apply starts_with_substr in E as [E Hlen]. simpl in Hlen.
    destruct (http_prefix_prefixes (String.length hp) Hlen) as [H|[H|[H Hn]]];
      rewrite <- E in H; [congruence|congruence|].
    rewrite H in Hr. injection Hr as Hr. lia.
Qed.

(** A scheme is cut off in front and a path behind. *)
Lemma splitHostPort_spec scheme host port tail :
  scheme = "" \/ scheme = http_prefix -> tail = "" \/ (exists path, tail = String "/" path) ->
  host <> "" -> port <> "" -> has_char "/" host = false -> has_char "/" port = false ->
  has_char ":" port = false ->
  splitHostPort (scheme +:+ (host +:+ String ":" port) +:+ tail) = Some (host, port).
Proof.
  intros Hsch Htail Hh Hp H1 H2 H3. unfold splitHostPort.
  pose proof (host_port_no_scheme host port tail Hh Hp H1 H2 H3) as Hno.
  set (hp := host +:+ String ":" port) in *.
  assert (Hs : has_char "/" hp = false) by (unfold hp; by rewrite has_char_app, H1; simpl; rewrite H2).
  assert (E1 : (if starts_with http_prefix (scheme +:+ hp +:+ tail)
                then substr_from (String.length http_prefix) (scheme +:+ hp +:+ tail)
                else scheme +:+ hp +:+ tail) = hp +:+ tail).
  { destruct Hsch as [->| ->]; [change ("" +:+ (hp +:+ tail)) with (hp +:+ tail); by rewrite Hno|]. by rewrite starts_with_app, substr_from_app. }
  rewrite E1.
  assert (E2 : match find_char "/" (hp +:+ tail) with
               | Some slash => substr_to slash (hp +:+ tail) | None => hp +:+ tail end = hp).
  { destruct Htail as [->|[path ->]].
    - by rewrite sapp_nil_r, (proj2 (find_char_None "/" hp)).
    - by rewrite find_char_app, substr_to_app. }
  rewrite E2. unfold hp. rewrite rfind_char_app by done.
  rewrite decide_False by (by destruct host). rewrite decide_False.
  2:{ rewrite slength_app. destruct port; [done|]. simpl. lia. }
  by rewrite substr_to_app, substr_from_app_S.
Qed.

(** ** Lemmas: the exchange *)

(** A peer that takes all the bytes, some with every call: the sizes [send] answers
    never exceed what is left. *)
Fixpoint sends_all (left : nat) (events : list send_event) : bool :=
  if left =? 0 then true
  else
    match events with
    | Wrote n :: rest => (n <=? left) && sends_all (left - n) rest
    | _ => false
    end.

(** The bytes up to the end of the stream, whatever the chunks and interruptions. *)
Fixpoint received (events : list recv_event) : option string :=
  match events with
  | Received chunk :: rest =>
      if decide (chunk = "") then Some "" else (fun r => chunk +:+ r) <$> received rest
  | RecvInterrupted :: rest => received rest
  | _ => None
  end.

Lemma substr_split n s : substr_to n s +:+ substr_from n s = s.
Proof.
  revert s. induction n as [|n IH]; intros [|c s]; [done|done|done|].
  change (String c (substr_to n s +:+ substr_from n s) = String c s). by rewrite IH.
Qed.

Lemma substr_from_add a b s : substr_from (a + b) s = substr_from b (substr_from a s).
Proof.
  revert s. induction a as [|a IH]; intros [|c s]; [done|done|by destruct b|apply IH].
Qed.

Lemma substr_from_all n s : String.length s <= n -> substr_from n s = "".
Proof.
  revert s. induction n as [|n IH]; intros [|c s] H; simpl in H; try done; [lia|].
  apply IH. lia.
Qed.

Lemma send_loop_all s events sent taken :
  taken +:+ substr_from sent s = s -> sent <= String.length s ->
  sends_all (String.length s - sent) events = true ->
  send_loop s sent taken events = Finished s.
Proof.
  revert sent taken. induction events as [|e events IH]; intros sent taken Ht Hle Hall; simpl in *.
  - destruct (Nat.ltb_spec sent (String.length s)).
    + destruct (Nat.eqb_spec (String.length s - sent) 0); [lia|done].
    + rewrite substr_from_all, sapp_nil_r in Ht by lia. by subst.
  - destruct (Nat.ltb_spec sent (String.length s)).
    + destruct (Nat.eqb_spec (String.length s - sent) 0); [lia|]. destruct e as [k|]; [|done].
      apply andb_true_iff in Hall as [Hk Hall]. apply Nat.leb_le in Hk.
      apply IH; [|lia|by replace (String.length s - (sent + k)) with (String.length s - sent - k) by lia].
      by rewrite sapp_assoc, substr_from_add, substr_split.
    + rewrite substr_from_all, sapp_nil_r in Ht by lia. by subst.
Qed.

Lemma recv_loop_received events r acc :
  received events = Some r -> recv_loop acc events = Finished (acc +:+ r).
Proof.
  revert acc r. induction events as [|[chunk| |] events IH]; intros acc r; simpl; try done; [|apply IH].
  case_decide; [intros [= <-]; by rewrite sapp_nil_r|].
  destruct (received events) as [r'|]; [|done]. intros [= <-].
  by rewrite (IH _ r'), sapp_assoc.
Qed.

Lemma find_crlf_app line rest :
  has_char cr_char line = false -> find_crlf (line +:+ crlf +:+ rest) = Some (String.length line).
Proof.
  induction line as [|c line IH]; [by destruct rest|]. intros H. simpl in H.
  apply orb_false_iff in H as [H1 H2]. apply bool_decide_eq_false in H1.
  rewrite sapp_cons. cbn [find_crlf String.length]. rewrite IH by done.
  assert (starts_with crlf (String c (line +:+ crlf +:+ rest)) = false) as ->; [|done].
  change (starts_with crlf (String c ?r)) with
    (if ascii_dec cr_char c then starts_with nl r else false).
  by destruct (ascii_dec cr_char c); [congruence|].
Qed.

Lemma send_loop_failed s sizes later sent taken :
  sent + sum_list sizes < String.length s ->
  send_loop s sent taken ((Wrote <$> sizes) ++ SendFailed :: later) = Failed.
Proof.
  revert sent taken. induction sizes as [|k sizes IH]; intros sent taken Hlt; simpl in *;
    destruct (Nat.ltb_spec sent (String.length s)); try lia; [done|]. apply IH. lia.
Qed.

(** What is open after the connect loop. *)
Lemma connect_first_open {addrinfo} (net : Net addrinfo) fds results answer fds1 :
  fresh_sockets net fds -> connect_first net fds results = (answer, fds1) ->
  match answer with
  | Finished None => fds1 = fds
  | Finished (Some (_, fd)) => ((0 <= fd)%Z /\ fd ∉ fds /\ fds1 = fds ∪ {[fd]}) /\ fds1 ∖ {[fd]} = fds
  | _ => exists fd, (0 <= fd)%Z /\ fd ∉ fds /\ fds1 = fds ∪ {[fd]}
  end.
Proof.
  intros Hf. induction results as [|a results IH]; cbn [connect_first]; [by intros [= <- <-]|].
  destruct (Z.ltb_spec (net_socket net a) 0); [done|]. specialize (Hf a H).
  assert (Hc : (fds ∪ {[net_socket net a]}) ∖ {[net_socket net a]} = fds) by set_solver.
  destruct (net_connect net a) as [[]| |]; [|rewrite Hc; exact IH|]; intros [= <- <-]; [done|by eexists].
Qed.

Lemma postJSON_fds {addrinfo} (net : Net addrinfo) fds path body c :
  fresh_sockets net fds ->
  let '(answer, fds') := postJSON net fds path body c in
  match answer with
  | Finished _ => fds' = fds
  | _ => fds' = fds \/ exists fd, (0 <= fd)%Z /\ fd ∉ fds /\ fds' = fds ∪ {[fd]}
  end.
Proof.
  intros Hf. unfold postJSON. destruct (splitHostPort _) as [[host port]|]; [|done].
  destruct (getaddrinfo net host port) as [results| |]; [|done|by left].
  destruct (connect_first net fds results) as [answer fds1] eqn:E.
  pose proof (connect_first_open net fds results answer fds1 Hf E) as H.
  destruct answer as [[[a fd]|]| |]; [|done|by right|by right]. destruct H as [H Hc].
  destruct (send_loop _ _ _ _); [|done|right; by exists fd].
  destruct (recv_loop _ _); [done|done|right; by exists fd].
Qed.

(** The calls of the three reports that end leave the descriptors as they were. *)
Lemma expect_fds {addrinfo} (net : Net addrinfo) fds path body c expected ok fds' :
  fresh_sockets net fds -> expect expected (postJSON net fds path body c) = (Finished ok, fds') ->
  fds' = fds.
Proof.
  intros Hf. pose proof (postJSON_fds net fds path body c Hf) as H. unfold expect.
  destruct (postJSON net fds path body c) as [[s| |] fds1]; simpl; try done. by intros [= _ <-].
Qed.

Lemma registerWorker_fds {addrinfo} (net : Net addrinfo) fds address capacity c ok fds' :
  fresh_sockets net fds -> registerWorker net fds address capacity c = (Finished ok, fds') -> fds' = fds.
Proof. intros Hf. unfold registerWorker. case_decide; [by intros [= _ <-]|]. by apply expect_fds. Qed.

Lemma sendHeartbeat_fds {addrinfo} (net : Net addrinfo) fds count ids c ok fds' :
  fresh_sockets net fds -> sendHeartbeat net fds count ids c = (Finished ok, fds') -> fds' = fds.
Proof. intros Hf. unfold sendHeartbeat. case_decide; [by intros [= _ <-]|]. by apply expect_fds. Qed.

Lemma reportResult_fds {addrinfo} (net : Net addrinfo) fds result c ok fds' :
  fresh_sockets net fds -> reportResult net fds result c = (Finished ok, fds') -> fds' = fds.
Proof. intros Hf. unfold reportResult. case_decide; [by intros [= _ <-]|]. by apply expect_fds. Qed.

(** The status line of an answer. *)
Definition status_line (version : string) (code : Z) (reason : string) : string :=
  version +:+ String " " (to_string code +:+ String " " reason).

Lemma status_of_line_spec version code reason :
  version <> "" -> no_space version = true -> int_range code ->
  status_of_line (status_line version code reason) = code.
Proof.
  intros Hv Hs Hc. unfold status_of_line, status_line.
  rewrite extract_word_blank, decide_False by done.
  assert (Hd : no_digit_front (String " " reason)) by done.
  rewrite decide_False; [by apply extract_int_to_string|].
  intros E. pose proof (scan_int_blank (to_string code +:+ String " " reason)) as H1.
  rewrite scan_int_to_string in H1 by done. unfold scan_int in H1. rewrite E in H1.
  rewrite (substr_from_all (String.length _)) in H1 by done. simpl in H1.
  rewrite substr_from_all in H1 by (simpl; lia). done.
Qed.

(** ** Properties *)

(** C35. JSON escaping: between quotes, a strict reader takes [escapeJSONString s] as
    exactly the string [s] and stops at the closing quote, if and only if [s] has no
    control character other than newline, return and tab; with one, the text is not
    a JSON literal at all. *)
Theorem escapeJSONString_literal_iff (s rest : string) :
  (read_literal (escapeJSONString s +:+ String quote_char rest) = Some (s, rest) <->
     has_raw_control s = false) /\
  (has_raw_control s = true ->
     read_literal (escapeJSONString s +:+ String quote_char rest) = None).
Proof. rewrite read_literal_escaped. by destruct (has_raw_control s). Qed.

(** C24. One exchange with the scheduler: however [send] cuts the request, no call of it
    failing, and however [recv] cuts the answer and is interrupted in between, the
    scheduler gets exactly the request's bytes, [postJSON] returns the code of the answer's
    status line (a version without blanks, a code within [int] and a reason, with no return
    in them), and the socket is closed.  A [send] that answers an error with bytes left
    to send, be it only interrupted, ends the exchange with -1, the socket closed as well. *)
Theorem postJSON_exchange {addrinfo} (net : Net addrinfo) (fds fds1 : gset Z) (path body : string)
    (c : SchedulerClient) (host port : string) (results : list addrinfo) (address : addrinfo)
    (socket_fd : Z) :
  splitHostPort (scl_scheduler_addr c) = Some (host, port) ->
  getaddrinfo net host port = Finished results ->
  connect_first net fds results = (Finished (Some (address, socket_fd)), fds1) ->
  fresh_sockets net fds ->
  (forall version code reason headers,
     sends_all (String.length (request_text host port path body)) (send_events net address) = true ->
     received (recv_events net address) =
       Some (status_line version code reason +:+ crlf +:+ headers) ->
     version <> "" -> no_space version = true -> int_range code ->
     has_char cr_char (status_line version code reason) = false ->
     send_loop (request_text host port path body) 0 "" (send_events net address) =
       Finished (request_text host port path body) /\
     postJSON net fds path body c = (Finished code, fds)) /\
  (forall sizes later,
     sum_list sizes < String.length (request_text host port path body) ->
     send_events net address = (Wrote <$> sizes) ++ SendFailed :: later ->
     postJSON net fds path body c = (Finished (-1)%Z, fds)).
Proof.
  intros Hsplit Haddr Hconn Hfresh. destruct (connect_first_open _ _ _ _ _ Hfresh Hconn) as [Hfds1 Hclose].
  simpl in Hclose. split.
  - intros version code reason headers Hsend Hrecv Hv Hvs Hcode Hcr.
    assert (HS : send_loop (request_text host port path body) 0 "" (send_events net address) =
      Finished (request_text host port path body)).
    { apply send_loop_all; [|lia|by rewrite Nat.sub_0_r].
      change ("" +:+ ?x) with x. apply substr_from_0. }
    split; [done|]. unfold postJSON. rewrite Hsplit, Haddr, Hconn, HS.
    rewrite (recv_loop_received _ _ _ Hrecv). change ("" +:+ ?x) with x.
    unfold status_of_response. rewrite find_crlf_app, substr_to_app by done.
    by rewrite status_of_line_spec, Hclose.
  - intros sizes later Hsum Hev. unfold postJSON. rewrite Hsplit, Haddr, Hconn, Hev.
    by rewrite send_loop_failed, Hclose by lia.
Qed.

(** C25. The exchange leaks no descriptor: whatever the resolver, the addresses and the socket
    calls answer, when [postJSON] returns, every socket it opened is closed again; and
    while one of its calls blocks, it holds at most one descriptor more than before. *)
Theorem postJSON_closes {addrinfo} (net : Net addrinfo) (fds : gset Z) (path body : string)
    (c : SchedulerClient) :
  fresh_sockets net fds ->
  let '(answer, fds') := postJSON net fds path body c in
  match answer with
  | Finished _ => fds' = fds
  | _ => fds' = fds \/ exists fd, (0 <= fd)%Z /\ fd ∉ fds /\ fds' = fds ∪ {[fd]}
  end.
Proof. apply postJSON_fds. Qed.

(** ** Witnesses *)

Example escape_examples :
  escapeJSONString (String quote_char (String nl_char "a")) =
    String backslash (String quote_char (String backslash "na")) /\
  splitHostPort "http://10.0.0.1:8080/api" = Some ("10.0.0.1", "8080") /\
  splitHostPort "localhost" = None /\ splitHostPort ":80" = None /\ splitHostPort "host:" = None /\
  heartbeat_body "w" 0 [] = "{" +:+ member "id" (quote "w") +:+ "," +:+
    member "running_tasks" "0" +:+ "," +:+ member "status" (quote "ready") +:+ "}".
Proof. vm_compute. done. Qed.

Lemma escapeJSONString_literal_witness :
  read_literal (escapeJSONString (String "007" "bell") +:+ String quote_char "") = None.
Proof. apply (escapeJSONString_literal_iff (String "007" "bell") ""). reflexivity. Defined.

(** A scheduler that takes the request in two pieces and answers in three; the first address
    refuses the connection. *)
Definition sample_net : Net bool :=
  mkNet (fun _ _ => Finished [false; true]) (fun a => if a then 8 else 7)%Z
    (fun a => if a then Finished tt else Failed)
    (fun _ => [Wrote 10; Wrote (String.length (request_text "h" "1" "/p" "{}") - 10)])
    (fun _ => [Received "HTTP/1.1 2"; RecvInterrupted; Received ("01 Created" +:+ crlf);
               Received "x"; Received ""]).

Lemma sample_net_fresh : fresh_sockets sample_net {[1%Z]}.
Proof. intros [] _; simpl; set_solver. Qed.

Lemma postJSON_exchange_witness :
  postJSON sample_net {[1%Z]} "/p" "{}" (mkSchedulerClient "h:1" "w") = (Finished 201%Z, {[1%Z]}).
Proof.
  refine (proj2 (proj1 (postJSON_exchange sample_net {[1%Z]} ({[1%Z]} ∪ {[8%Z]}) "/p" "{}"
    (mkSchedulerClient "h:1" "w") "h" "1" [false; true] true 8 _ _ _ sample_net_fresh)
    "HTTP/1.1" 201%Z "Created" "x" _ _ _ _ _ _)); try reflexivity; [discriminate|].
  split; vm_compute; discriminate.
Defined.

Lemma postJSON_closes_witness :
  (postJSON sample_net {[1%Z]} "/p" "{}" (mkSchedulerClient "h:1" "w")).2 = {[1%Z]}.
Proof.
  pose proof (postJSON_closes sample_net {[1%Z]} "/p" "{}" (mkSchedulerClient "h:1" "w")
    sample_net_fresh) as H.
  destruct (postJSON _ _ _ _ _) as [[s| |] fds'] eqn:E; [exact H | vm_compute in E; discriminate..].
Defined.
