(* ===== verification/Timer.v ===== *)
(** * worker/runtime/timer.cpp: the heartbeat timer

    [start] and [stop] on the timer's state, and the timer's thread as a step
    relation. *)

From S2P Require Import Prelude.

Record Timer := mkTimer {
  ti_running : bool;
  ti_joinable : bool;                 (* thread_.joinable() *)
}.

Definition new_Timer : Timer := mkTimer false false.

(** [stop], after its join. *)
Definition timer_stop (t : Timer) : Timer :=
  if negb (ti_running t) && negb (ti_joinable t) then t else mkTimer false false.

(** [stop] up to its join, and the join: the two parts of [timer_stop]. *)
Definition timer_clear (t : Timer) : Timer :=
  if negb (ti_running t) && negb (ti_joinable t) then t else mkTimer false (ti_joinable t).

Definition timer_join (t : Timer) : Timer := mkTimer (ti_running t) false.

(** [interval] in milliseconds; [has_task] is whether the function is set, [thread_ok]
    whether the system creates the thread.  The stop in between clears both fields; without
    a thread the flag stays set. *)
Definition timer_start (interval : Z) (has_task thread_ok : bool) (t : Timer) : outcome bool * Timer :=
  if (interval <=? 0)%Z || negb has_task then (Ok false, t)
  else
    let t1 := mkTimer true (ti_joinable (timer_stop t)) in
    if thread_ok then (Ok true, mkTimer (ti_running t1) true) else (Throw thread_error, t1).

(** ** The timer's thread *)

(** Where the thread is: not started or gone, in [wait_for] with the mutex held or
    released by the wait, or in the task. *)
Inductive timer_pc := Gone | Waits | Calls.

Record TimerRun := mkTimerRun {
  tr_timer : Timer;
  tr_pc : timer_pc;
  tr_calls : nat;                     (* calls of the task so far *)
}.

Inductive timer_step : TimerRun -> TimerRun -> Prop :=
(** [start], when the previous thread is gone. *)
| ts_start interval s t' :
    tr_pc s = Gone -> timer_start interval true true (tr_timer s) = (Ok true, t') ->
    timer_step s (mkTimerRun t' Waits (tr_calls s))
(** The wait times out while [running_] holds: the task is called. *)
| ts_call s :
    tr_pc s = Waits -> ti_running (tr_timer s) = true ->
    timer_step s (mkTimerRun (tr_timer s) Calls (S (tr_calls s)))
(** The task returns or throws; the loop goes on while [running_] holds. *)
| ts_return s :
    tr_pc s = Calls ->
    timer_step s (mkTimerRun (tr_timer s) (if ti_running (tr_timer s) then Waits else Gone)
                    (tr_calls s))
(** The wait sees [running_] cleared. *)
| ts_leave s :
    tr_pc s = Waits -> ti_running (tr_timer s) = false ->
    timer_step s (mkTimerRun (tr_timer s) Gone (tr_calls s))
(** [stop], up to its join. *)
| ts_stop s :
    timer_step s (mkTimerRun (mkTimer false (ti_joinable (tr_timer s))) (tr_pc s) (tr_calls s))
(** [stop], after its join. *)
| ts_joined s :
    tr_pc s = Gone -> ti_running (tr_timer s) = false ->
    timer_step s (mkTimerRun (timer_stop (tr_timer s)) Gone (tr_calls s)).

Lemma timer_stop_parts t : timer_join (timer_clear t) = timer_stop t.
Proof. by destruct t as [[] []]. Qed.

(** The steps of a run in which nobody calls [start] again. *)
Definition timer_step_no_start (s s' : TimerRun) : Prop :=
  timer_step s s' /\ ~ (tr_pc s = Gone /\ ti_running (tr_timer s') = true).

Lemma timer_quiet_step s s' :
  timer_step_no_start s s' -> ti_running (tr_timer s) = false ->
  ti_running (tr_timer s') = false /\ tr_calls s' = tr_calls s.
Proof.
  intros [Hstep Hno] Hr. destruct Hstep as [interval s t' Hg Hst|s Hw Hrun|s Hc|s Hw Hrun|s|s Hg Hrun];
    simpl in *; try done; [|congruence|].
  - exfalso. apply Hno. split; [done|]. unfold timer_start in Hst.
    destruct (_ || _); [done|]. by injection Hst as <-.
  - split; [|done]. unfold timer_stop. by destruct (_ && _).
Qed.

(** ** Properties *)

(** The timer is quiet after [stop]: from the moment [stop] clears the flag, no
    call of the task begins until the timer is started again, however the thread
    and the waits interleave. *)
Theorem Timer_quiet_after_stop (s s' : TimerRun) :
  ti_running (tr_timer s) = false -> rtc timer_step_no_start s s' ->
  tr_calls s' = tr_calls s /\ ti_running (tr_timer s') = false.
Proof.
  intros Hr Hrtc. induction Hrtc as [s|s s1 s' Hstep _ IH]; [done|].
  destruct (timer_quiet_step _ _ Hstep Hr) as [Hr1 Hc]. destruct (IH Hr1). split; congruence.
Qed.

Lemma Timer_quiet_after_stop_witness :
  tr_calls (mkTimerRun (mkTimer false true) Gone 3) = 3.
Proof.
  refine (proj1 (Timer_quiet_after_stop (mkTimerRun (mkTimer false true) Calls 3) _ _ _));
    [reflexivity|].
  apply rtc_once. split; [apply (ts_return (mkTimerRun (mkTimer false true) Calls 3)); reflexivity|].
  intros [E _]. discriminate.
Defined.
