(* ===== verification/TcpTransport.v ===== *)
(** * worker/src/transport_tcp.cpp: the worker's task server

    The life of the listening socket, and the line protocol [id|prompt] of a client
    connection.  The system's calls are parameters: the results of the socket calls
    [start] makes and whether its thread can be created, and the sequence of results of
    [recv] and [accept]. *)

From S2P Require Import Prelude CppString CppNumber WorkerTask SchedulerClient.
From Stdlib Require Import Ascii.

(** ** The listening socket *)

Record TcpTransport := mkTcpTransport {
  tt_port : Z;                        (* int *)
  tt_listen_fd : Z;                   (* int, -1 when closed *)
  tt_running : bool;
  tt_accepting : bool;                (* accept_thread_.joinable() *)
}.

Definition new_TcpTransport (port : Z) : TcpTransport := mkTcpTransport port (-1) false false.

(** The results of the calls in [start]; [bind] sees the port it is asked for.  The last is
    whether the accept thread can be created. *)
Record Sys := mkSys {
  sys_socket : Z;
  sys_setsockopt : Z;
  sys_bind : Z -> Z;
  sys_listen : Z;
  sys_thread : bool;
}.

Definition set_listen_fd (fd : Z) (t : TcpTransport) : TcpTransport :=
  mkTcpTransport (tt_port t) fd (tt_running t) (tt_accepting t).

(** The process's open descriptors are threaded through. *)
Definition closeListenSocket (fds : gset Z) (t : TcpTransport) : gset Z * TcpTransport :=
  if (0 <=? tt_listen_fd t)%Z then (fds ∖ {[tt_listen_fd t]}, set_listen_fd (-1) t)
  else (fds, t).

(** The port number [bind] is called with. *)
Definition bound_port (t : TcpTransport) : Z := u16 (tt_port t).

(** Where the thread cannot be created the exception leaves the flag set and the socket
    open. *)
Definition tcp_start (sys : Sys) (fds : gset Z) (t : TcpTransport)
    : outcome bool * gset Z * TcpTransport :=
  if tt_running t then (Ok true, fds, t)
  else
    let t1 := set_listen_fd (sys_socket sys) t in
    if (tt_listen_fd t1 <? 0)%Z then (Ok false, fds, t1)
    else
      let fds1 := fds ∪ {[tt_listen_fd t1]} in
      if (sys_setsockopt sys <? 0)%Z then
        (Ok false, (closeListenSocket fds1 t1).1, (closeListenSocket fds1 t1).2)
      else if (sys_bind sys (bound_port t1) <? 0)%Z then
        (Ok false, (closeListenSocket fds1 t1).1, (closeListenSocket fds1 t1).2)
      else if (sys_listen sys <? 0)%Z then
        (Ok false, (closeListenSocket fds1 t1).1, (closeListenSocket fds1 t1).2)
      else if sys_thread sys then
        (Ok true, fds1, mkTcpTransport (tt_port t1) (tt_listen_fd t1) true true)
      else (Throw thread_error, fds1, mkTcpTransport (tt_port t1) (tt_listen_fd t1) true (tt_accepting t1)).

Definition tcp_stop (fds : gset Z) (t : TcpTransport) : gset Z * TcpTransport :=
  let was_running := tt_running t in
  let t1 := mkTcpTransport (tt_port t) (tt_listen_fd t) false (tt_accepting t) in
  let '(fds2, t2) :=
    if was_running && (0 <=? tt_listen_fd t1)%Z then closeListenSocket fds t1 else (fds, t1) in
  let t3 := mkTcpTransport (tt_port t2) (tt_listen_fd t2) (tt_running t2) false in
  if was_running then (fds2, t3) else closeListenSocket fds2 t3.

(** [stop] up to its join. *)
Definition tcp_shutdown (fds : gset Z) (t : TcpTransport) : gset Z * TcpTransport :=
  let t1 := mkTcpTransport (tt_port t) (tt_listen_fd t) false (tt_accepting t) in
  if tt_running t && (0 <=? tt_listen_fd t1)%Z then closeListenSocket fds t1 else (fds, t1).

(** The join and what follows it.  The code closes the socket here only if the
    transport was not running; otherwise there is no socket left to close. *)
Definition tcp_join (fds : gset Z) (t : TcpTransport) : gset Z * TcpTransport :=
  closeListenSocket fds (mkTcpTransport (tt_port t) (tt_listen_fd t) (tt_running t) false).

(** ** A client connection *)

(** What [recv] answers: bytes (none at the end of the stream), [EINTR], the
    one-second timeout together with the [running_] flag at that moment, or another
    error. *)
Inductive client_event :=
| Chunk (bytes : string)
| Interrupted
| TimedOut (running : bool)
| Broken.

(** The receive loop: the payload, up to the first newline or the end of the
    stream. *)
Fixpoint read_payload (payload : string) (events : list client_event) : io string :=
  match events with
  | [] => Waiting
  | Interrupted :: rest => read_payload payload rest
  | TimedOut true :: rest => read_payload payload rest
  | TimedOut false :: _ => Failed
  | Broken :: _ => Failed
  | Chunk bytes :: rest =>
      if decide (bytes = "") then Finished payload
      else
        let payload' := payload +:+ bytes in
        match find_char nl_char payload' with
        | Some newline_pos => Finished (substr_to newline_pos payload')
        | None => read_payload payload' rest
        end
  end.

(** [if (!payload.empty() && payload.back() == '\r') payload.pop_back();] *)
Fixpoint strip_cr (payload : string) : string :=
  match payload with
  | EmptyString => ""
  | String c EmptyString => if decide (c = cr_char) then "" else payload
  | String c rest => String c (strip_cr rest)
  end.

(** The rest of [handleClient]: nothing for an empty payload, the message that is
    logged for a bad one, or the task for the handler. *)
Inductive dispatch := Ignore | Reject (what : string) | Handle (task : Task).

Definition parse_payload (received : string) : dispatch :=
  let payload := strip_cr received in
  if decide (payload = "") then Ignore
  else
    match find_char "|" payload with
    | None => Reject ("invalid task payload: " +:+ payload)
    | Some separator =>
        let task := mkTask (substr_to separator payload) (substr_from (S separator) payload) in
        if decide (t_id task = "") then Reject "invalid task payload: empty task id"
        else Handle task
    end.

Definition handleClient (events : list client_event) : io dispatch :=
  match read_payload "" events with
  | Finished payload => Finished (parse_payload payload)
  | Failed => Failed
  | Waiting => Waiting
  end.

(** One round of [acceptLoop] after [running_] was read as true: [accept] fails (and
    the flag is read again), or answers a client. *)
Inductive accept_event :=
| AcceptFailed (running : bool)
| Accepted (client : list client_event).

(** The rounds of [acceptLoop], each with the flag its [while] reads; the value is
    what is dispatched, in order, and whether the loop has ended.  Clients are
    served one after the other, so a connection that is still waiting holds up all
    later ones. *)
Fixpoint acceptLoop (rounds : list (bool * accept_event)) : list dispatch * bool :=
  match rounds with
  | [] => ([], false)
  | (running, event) :: rest =>
      if running then
        match event with
        | AcceptFailed running' => if running' then acceptLoop rest else ([], true)
        | Accepted client =>
            match handleClient client with
            | Waiting => ([], false)
            | Failed => acceptLoop rest
            | Finished d => let '(ds, ended) := acceptLoop rest in (d :: ds, ended)
            end
        end
      else ([], true)
  end.

(** ** The stream a client sends *)

(** The bytes that have arrived, whatever the chunks, interruptions and timeouts. *)
Fixpoint arrived (events : list client_event) : string :=
  match events with
  | Chunk bytes :: rest => if decide (bytes = "") then "" else bytes +:+ arrived rest
  | Interrupted :: rest => arrived rest
  | TimedOut true :: rest => arrived rest
  | _ => ""
  end.

(** The client has ended the stream. *)
Fixpoint ended (events : list client_event) : bool :=
  match events with
  | Chunk bytes :: rest => if decide (bytes = "") then true else ended rest
  | Interrupted :: rest => ended rest
  | TimedOut true :: rest => ended rest
  | _ => false
  end.

(** The text up to the first newline. *)
Definition first_line (text : string) : string := (getline_split text).1.

(** ** Lemmas *)

Lemma tcp_stop_parts fds t :
  tcp_stop fds t = let '(fds1, t1) := tcp_shutdown fds t in tcp_join fds1 t1.
Proof.
  unfold tcp_stop, tcp_shutdown, tcp_join, closeListenSocket. destruct t as [port fd [] acc]; simpl.
  - destruct (0 <=? fd)%Z eqn:E; simpl; [done|]. by rewrite E.
  - done.
Qed.

Lemma first_line_find text :
  first_line text =
    match find_char nl_char text with Some i => substr_to i text | None => text end.
Proof.
  unfold first_line. induction text as [|c text IH]; [done|]. simpl. case_decide as E; [done|].
  destruct (getline_split text) as [line rest]. simpl in *. rewrite IH.
  by destruct (find_char nl_char text).
Qed.

Lemma find_char_app_l c a b i :
  find_char c a = Some i -> find_char c (a +:+ b) = Some i /\ substr_to i (a +:+ b) = substr_to i a.
Proof.
  revert i. induction a as [|x a IH]; [done|]. intros i. rewrite sapp_cons. cbn [find_char].
  case_decide; [intros [= <-]; done|].
  destruct (find_char c a) as [j|]; [|done]. intros [= <-]. destruct (IH j eq_refl) as [-> E].
  split; [done|]. change (String x (substr_to j (a +:+ b)) = String x (substr_to j a)). by rewrite E.
Qed.

(** The payload is the first line of what arrived, as soon as that line is
    complete or the stream has ended. *)
Lemma read_payload_first_line payload events :
  has_char nl_char payload = false ->
  has_char nl_char (arrived events) = true \/ ended events = true ->
  read_payload payload events = Finished (first_line (payload +:+ arrived events)).
Proof.
  revert payload. induction events as [|[bytes| |[]|] events IH]; intros payload Hp H; simpl in *;
    try (by destruct H); [|by auto|by auto].
  rewrite first_line_find. case_decide as Hb.
  { rewrite sapp_nil_r. by rewrite (proj2 (find_char_None nl_char payload)). }
  destruct (find_char nl_char (payload +:+ bytes)) as [i|] eqn:E.
  - destruct (find_char_app_l _ _ (arrived events) _ E) as [E1 E2].
    rewrite sapp_assoc in E1, E2. by rewrite E1, E2.
  - apply find_char_None in E. rewrite IH, <- first_line_find, sapp_assoc; [done|done|].
    rewrite has_char_app in H, E. apply orb_false_iff in E as [_ E]. rewrite E in H.
    by destruct H; auto.
Qed.

Lemma strip_cr_cr s : strip_cr (s +:+ String cr_char "") = s.
Proof.
  induction s as [|c s IH]; [done|]. rewrite sapp_cons. cbn [strip_cr].
  destruct (s +:+ String cr_char "") eqn:E; [by destruct s|]. by rewrite IH.
Qed.

Lemma strip_cr_other s c : c <> cr_char -> strip_cr (s +:+ String c "") = s +:+ String c "".
Proof.
  intros Hc. induction s as [|d s IH]; [simpl; by rewrite decide_False|].
  rewrite sapp_cons. cbn [strip_cr]. destruct (s +:+ String c "") eqn:E; [by destruct s|].
  by rewrite IH.
Qed.

Lemma parse_payload_task line id prompt :
  strip_cr line = id +:+ String "|" prompt -> id <> "" -> has_char "|" id = false ->
  parse_payload line = Handle (mkTask id prompt).
Proof.
  intros E Hid Hb. unfold parse_payload. rewrite E.
  rewrite decide_False by (by destruct id). rewrite find_char_app by done.
  rewrite substr_to_app, substr_from_app_S. simpl. by rewrite decide_False.
Qed.

(** Timeouts alone never end the wait of a running server. *)
Lemma idle_waits n payload : read_payload payload (repeat (TimedOut true) n) = Waiting.
Proof. induction n; simpl; auto. Qed.

(** A stopped transport has no socket and no thread; one whose flag is set has an open
    socket. *)
Definition transport_ok (fds : gset Z) (t : TcpTransport) : Prop :=
  if tt_running t then (0 <= tt_listen_fd t)%Z /\ tt_listen_fd t ∈ fds
  else (tt_listen_fd t < 0)%Z /\ tt_accepting t = false.

Lemma closeListenSocket_new fds t :
  (0 <= tt_listen_fd t)%Z -> tt_listen_fd t ∉ fds ->
  closeListenSocket (fds ∪ {[tt_listen_fd t]}) t = (fds, set_listen_fd (-1) t).
Proof.
  intros H1 H2. unfold closeListenSocket. rewrite (proj2 (Z.leb_le _ _) H1). f_equal. set_solver.
Qed.

(** A [start] that answers false has closed what it opened; one that throws has not. *)
Lemma tcp_start_spec sys fds t :
  tt_running t = false -> tt_accepting t = false -> sys_socket sys ∉ fds ->
  exists fds1 t1 res, tcp_start sys fds t = (res, fds1, t1) /\ tt_port t1 = tt_port t /\
    match res with
    | Ok ok => tt_running t1 = ok /\ tt_accepting t1 = ok
    | Throw _ => tt_running t1 = true /\ tt_accepting t1 = false
    end /\
    if tt_running t1
    then (0 <= tt_listen_fd t1)%Z /\ tt_listen_fd t1 ∉ fds /\ fds1 = fds ∪ {[tt_listen_fd t1]}
    else (tt_listen_fd t1 < 0)%Z /\ fds1 = fds.
Proof.
  intros Hr Ha Hnew. unfold tcp_start. rewrite Hr. set (t1 := set_listen_fd _ t).
  assert (Hr1 : tt_running t1 = false) by done. assert (Ha1 : tt_accepting t1 = false) by done.
  destruct (Z.ltb_spec (tt_listen_fd t1) 0) as [Hneg|Hpos].
  { exists fds, t1, (Ok false). rewrite Hr1. by split_and!. }
  pose proof (closeListenSocket_new fds t1 Hpos Hnew) as ->. simpl fst. simpl snd.
  assert (Hf : exists fds1 t2 res, (Ok false, fds, set_listen_fd (-1) t1) = (res, fds1, t2) /\
    tt_port t2 = tt_port t /\
    match res with
    | Ok ok => tt_running t2 = ok /\ tt_accepting t2 = ok
    | Throw _ => tt_running t2 = true /\ tt_accepting t2 = false
    end /\
    if tt_running t2
    then (0 <= tt_listen_fd t2)%Z /\ tt_listen_fd t2 ∉ fds /\ fds1 = fds ∪ {[tt_listen_fd t2]}
    else (tt_listen_fd t2 < 0)%Z /\ fds1 = fds).
  { eexists _, _, _. split; [done|]. simpl. rewrite Hr. by split_and!. }
  destruct (sys_setsockopt sys <? 0)%Z; [done|].
  destruct (sys_bind sys (bound_port t1) <? 0)%Z; [done|].
  destruct (sys_listen sys <? 0)%Z; [done|].
  destruct (sys_thread sys); eexists _, _, _; (split; [done|]); by split_and!.
Qed.

Lemma tcp_stop_spec fds t :
  transport_ok fds t ->
  exists t2, tcp_stop fds t = (if tt_running t then fds ∖ {[tt_listen_fd t]} else fds, t2) /\
    tt_port t2 = tt_port t /\ tt_running t2 = false /\ (tt_listen_fd t2 < 0)%Z /\
    tt_accepting t2 = false.
Proof.
  unfold transport_ok, tcp_stop. destruct t as [port fd [] acc]; simpl.
  - intros [H1 H2]. unfold closeListenSocket. simpl.
    rewrite (proj2 (Z.leb_le _ _) H1). simpl. by eexists.
  - intros [H1 ->]. unfold closeListenSocket. simpl. destruct (Z.leb_spec 0 fd); [lia|]. by eexists.
Qed.

(** ** Properties *)

(** C23. Framing: a client that sends [id|prompt] and a line end, with a non-empty id that
    has no bar and no newline in either part, gets exactly that task dispatched, however the
    network cuts the bytes into chunks, whatever interruptions and timeouts come in between
    and whatever follows the line.  The
    line end is a newline, or a return and a newline. *)
Theorem handleClient_framing (events : list client_event) (id prompt eol rest : string) :
  arrived events = (id +:+ String "|" prompt) +:+ eol +:+ nl +:+ rest ->
  id <> "" -> has_char "|" id = false -> has_char nl_char id = false ->
  has_char nl_char prompt = false ->
  eol = String cr_char "" \/ eol = "" /\ strip_cr prompt = prompt ->
  handleClient events = Finished (Handle (mkTask id prompt)).
Proof.
  intros Ha Hid Hbar Hnl1 Hnl2 Heol. unfold handleClient.
  rewrite read_payload_first_line; [|done|].
  2:{ left. rewrite Ha, !has_char_app. simpl. by rewrite !orb_true_r. }
  change ("" +:+ arrived events) with (arrived events). rewrite Ha.
  assert (Hline : first_line ((id +:+ String "|" prompt) +:+ eol +:+ nl +:+ rest) =
    (id +:+ String "|" prompt) +:+ eol).
  { rewrite first_line_find, <- sapp_assoc. change (nl +:+ rest) with (String nl_char rest).
    rewrite find_char_app, substr_to_app; [done|]. rewrite !has_char_app, Hnl1. simpl.
    rewrite Hnl2. by destruct Heol as [->|[-> _]]. }
  rewrite Hline. f_equal. apply parse_payload_task; [|done|done].
  destruct Heol as [->|[-> Hcr]]; [apply strip_cr_cr|]. rewrite sapp_nil_r.
  destruct prompt as [|c prompt]; [by apply strip_cr_other|].
  clear - Hcr. induction id as [|d id IH].
  - change ("" +:+ ?x) with x. cbn [strip_cr] in *. by rewrite Hcr.
  - rewrite sapp_cons. cbn [strip_cr]. destruct (id +:+ _) eqn:E; [by destruct id|]. by rewrite IH.
Qed.

(** A connection that sends nothing holds up the server: while the server runs,
    no number of receive timeouts ends its turn, so the clients behind it are never
    served and the loop does not end. *)
Theorem idle_client_blocks (timeouts : nat) (before later : list (bool * accept_event)) :
  Forall (fun '(running, e) => running = true /\ exists client d,
            e = Accepted client /\ handleClient client = Finished d) before ->
  length (acceptLoop (before ++ (true, Accepted (repeat (TimedOut true) timeouts)) :: later)).1 =
    length before /\
  (acceptLoop (before ++ (true, Accepted (repeat (TimedOut true) timeouts)) :: later)).2 = false.
Proof.
  induction 1 as [|[running e] before (-> & client & d & -> & Hd) _ [IH1 IH2]].
  - simpl. unfold handleClient. by rewrite idle_waits.
  - simpl. rewrite Hd. destruct (acceptLoop _) as [ds b]. simpl in *. by rewrite IH1.
Qed.

(** The listening socket never leaks: [start] answers true and leaves exactly one socket
    open, the transport's; answers false and leaves none; or, when the accept thread cannot
    be created, throws and leaves the socket open with the running flag set.  In all three
    cases [stop] closes it and gives back the descriptors of before; both keep the
    transport consistent, and starting a running transport changes nothing. *)
Theorem tcp_start_stop (sys : Sys) (fds : gset Z) (t : TcpTransport) :
  transport_ok fds t -> sys_socket sys ∉ fds ->
  let '(res, fds1, t1) := tcp_start sys fds t in
  let '(fds2, t2) := tcp_stop fds1 t1 in
  transport_ok fds1 t1 /\ (res = Ok (tt_running t1) \/ res = Throw thread_error /\ tt_running t1 = true) /\
  (tt_running t1 = false -> fds1 = fds) /\
  (tt_running t1 = true -> tt_running t = false -> fds1 = fds ∪ {[tt_listen_fd t1]}) /\
  (tt_running t = true -> t1 = t /\ fds1 = fds) /\
  transport_ok fds2 t2 /\ tt_running t2 = false /\ tt_port t2 = tt_port t /\
  (tt_running t = false -> fds2 = fds).
Proof.
  intros Hok Hnew. destruct (tt_running t) eqn:Hr.
  - unfold tcp_start. rewrite Hr. destruct (tcp_stop_spec fds t Hok) as (t2 & -> & Hp2 & Hr2 & Hfd2 & Ha2).
    rewrite Hr. split_and!; try done; [by left|unfold transport_ok; by rewrite Hr2].
  - assert (Hthrow : (tcp_start sys fds t).1.1 = Ok true \/ (tcp_start sys fds t).1.1 = Ok false \/
      (tcp_start sys fds t).1.1 = Throw thread_error).
    { unfold tcp_start. rewrite Hr. repeat case_match; simpl; auto. }
    unfold transport_ok in Hok. rewrite Hr in Hok. destruct Hok as [Hfd Ha].
    destruct (tcp_start_spec sys fds t Hr Ha Hnew) as (fds1 & t1 & res & E & Hp & Hres & H).
    rewrite E in *. simpl in Hthrow.
    assert (Hok1 : transport_ok fds1 t1).
    { unfold transport_ok. destruct (tt_running t1) eqn:Hr1; [destruct H as (? & ? & ->); split; [done|set_solver]|].
      destruct res as [[]|]; naive_solver. }
    destruct (tcp_stop_spec fds1 t1 Hok1) as (t2 & -> & Hp2 & Hr2 & Hfd2 & Ha2).
    split_and!; try done; [| | |unfold transport_ok; by rewrite Hr2|congruence|].
    + destruct Hthrow as [->|[->| ->]]; destruct Hres as [Hrun _]; rewrite Hrun; auto.
    + intros Hz. rewrite Hz in H. naive_solver.
    + intros Hz. rewrite Hz in H. naive_solver.
    + intros _. destruct (tt_running t1); [|naive_solver]. destruct H as (_ & ? & ->). set_solver.
Qed.

(** ** Witnesses *)

Lemma handleClient_framing_witness :
  handleClient [Chunk "t1|he"; Interrupted; TimedOut true; Chunk ("llo" +:+ crlf +:+ "x")] =
    Finished (Handle (mkTask "t1" "hello")).
Proof.
  apply (handleClient_framing _ "t1" "hello" (String cr_char "") "x");
    [reflexivity | discriminate | reflexivity | reflexivity | reflexivity | left; reflexivity].
Defined.

Example parse_payload_errors :
  parse_payload "" = Ignore /\ parse_payload (String cr_char "") = Ignore /\
  parse_payload "job" = Reject "invalid task payload: job" /\
  parse_payload "|prompt" = Reject "invalid task payload: empty task id" /\
  parse_payload "a|b|c" = Handle (mkTask "a" "b|c").
Proof. vm_compute. done. Qed.

Definition stuck_rounds : list (bool * accept_event) :=
  [(true, Accepted [Chunk "a|b"; Chunk ""])] ++
  (true, Accepted (repeat (TimedOut true) 2)) :: [(true, Accepted [Chunk "c|d"; Chunk ""])].

Lemma idle_client_blocks_witness :
  length (acceptLoop stuck_rounds).1 = 1 /\ (acceptLoop stuck_rounds).2 = false.
Proof.
  apply (idle_client_blocks 2 [(true, Accepted [Chunk "a|b"; Chunk ""])]).
  constructor; [split; [reflexivity | eexists _, _; split; reflexivity] | constructor].
Defined.

(** The system has no thread left: the socket is opened and closed again. *)
Lemma tcp_start_stop_witness :
  let '(res, fds1, t1) :=
    tcp_start (mkSys 5 0 (fun _ => 0%Z) 0 false) {[0%Z; 1%Z; 2%Z]} (new_TcpTransport 9001) in
  res = Throw thread_error /\ (tcp_stop fds1 t1).1 = {[0%Z; 1%Z; 2%Z]}.
Proof.
  pose proof (tcp_start_stop (mkSys 5 0 (fun _ => 0%Z) 0 false) {[0%Z; 1%Z; 2%Z]} (new_TcpTransport 9001)
    (conj (eq_refl : (-1 < 0)%Z) eq_refl) ltac:(simpl; set_solver)) as H.
  destruct (tcp_start _ _ _) as [[res fds1] t1] eqn:E.
  destruct (tcp_stop fds1 t1) as [fds2 t2]. destruct H as (_ & _ & _ & _ & _ & _ & _ & _ & H).
  split; [injection E as <- _ _; reflexivity | exact (H eq_refl)].
Defined.
