(* ===== verification/TaskQueue.v ===== *)
(** * worker/src/task_queue.cpp: the queue between the task server and the consumers

    The operations under the mutex are functions on the queue's state.  The threads
    around its condition variable are those of [Monitor]: consumers wait in [waitPop],
    [push] notifies one of them and [stop] all, after the mutex has been released. *)

From S2P Require Import Prelude CppString BoundedFifo Monitor WorkerTask.

Record TaskQueue := mkTaskQueue {
  tq_queue : list Task;
  tq_stopped : bool;
}.

Definition new_TaskQueue : TaskQueue := mkTaskQueue [] false.

Definition tq_push (task : Task) (q : TaskQueue) : bool * TaskQueue :=
  if tq_stopped q then (false, q)
  else (true, mkTaskQueue (tq_queue q ++ [task]) (tq_stopped q)).

Definition tq_stop (q : TaskQueue) : TaskQueue := mkTaskQueue (tq_queue q) true.

(** The predicate [waitPop] waits for. *)
Definition tq_ready (q : TaskQueue) : bool :=
  tq_stopped q || negb (bool_decide (tq_queue q = [])).

(** [waitPop] once the predicate holds: the task, or [None] where it returns false.
    The front exists, since the queue is then not empty. *)
Definition waitPop (q : TaskQueue) : option Task * TaskQueue :=
  if tq_stopped q then (None, q)
  else
    match tq_queue q with
    | [] => (None, q)
    | task :: rest => (Some task, mkTaskQueue rest (tq_stopped q))
    end.

(** ** The threads around the queue *)

Inductive queue_op := TqPush (task : Task) | TqStop.

(** A refused [push] returns before its notification. *)
Definition queue_do (op : queue_op) (q : TaskQueue) : TaskQueue * notification :=
  match op with
  | TqPush task =>
      let '(ok, q') := tq_push task q in (q', if ok then NotifyOne else NotifyNone)
  | TqStop => (tq_stop q, NotifyAll)
  end.

#[export] Instance TaskQueue_monitor : Monitor TaskQueue unit (option Task) queue_op := {
  mon_enter _ q := q;
  mon_ready _ := tq_ready;
  mon_leave _ := waitPop;
  mon_timeout _ := None;
  mon_op := queue_do;
}.

Abbreviation QueueRun := (MonitorRun TaskQueue unit (option Task) queue_op).

(** The pushes before the first [stop]. *)
Fixpoint accepted_tasks (ops : list queue_op) : list Task :=
  match ops with
  | [] => []
  | TqPush task :: ops' => task :: accepted_tasks ops'
  | TqStop :: _ => []
  end.

Definition queue_stopped (ops : list queue_op) : bool := existsb (fun op => match op with TqStop => true | _ => false end) ops.

(** ** Lemmas *)

Lemma accepted_tasks_app ops op :
  accepted_tasks (ops ++ [op]) =
    accepted_tasks ops ++
      (if queue_stopped ops then [] else match op with TqPush task => [task] | TqStop => [] end).
Proof. induction ops as [|[task|] ops IH]; simpl; [by destruct op|by rewrite IH|done]. Qed.

Lemma queue_stopped_app ops op :
  queue_stopped (ops ++ [op]) = queue_stopped ops || match op with TqStop => true | _ => false end.
Proof. unfold queue_stopped. rewrite existsb_app. simpl. by rewrite orb_false_r. Qed.

(** A stopped queue lets all consumers leave; otherwise each queued task serves one. *)
#[refine, export] Instance TaskQueue_demand : Demand TaskQueue unit (option Task) queue_op := {
  dm_demand q := if tq_stopped q then None else Some (length (tq_queue q));
}.
Proof.
  - intros [] [[|task rest] []]; done.
  - done.
  - intros [] [[|task rest] []]; simpl; try done; [lia|]. intros _. exists (length rest). split; [done|lia].
  - intros [task|] [queue []]; simpl; try done. right. rewrite length_app. simpl. split; [lia|done].
Defined.

(** The account of the queue: what was accepted is what was taken and what waits. *)
Lemma queue_account (s : QueueRun) :
  mon_reached new_TaskQueue s ->
  accepted_tasks (mo_ops s) = omap snd (mo_returned s) ++ tq_queue (mo_state s) /\
  tq_stopped (mo_state s) = queue_stopped (mo_ops s).
Proof.
  intros Hr.
  apply (mon_invariant (fun q os rs => accepted_tasks os = omap snd rs ++ tq_queue q /\
    tq_stopped q = queue_stopped os)) in Hr; [done|done|..].
  - intros [task|] [queue stopped] os rs [H1 H2]; simpl in *; subst stopped;
      rewrite accepted_tasks_app, queue_stopped_app, H1; unfold tq_push; simpl.
    + destruct (queue_stopped os); simpl; [by rewrite app_nil_r|by rewrite <- app_assoc].
    + rewrite orb_true_r. by destruct (queue_stopped os); rewrite app_nil_r.
  - done.
  - intros [] [queue stopped] os rs Hready [H1 H2]; simpl in *. subst stopped. rewrite omap_app.
    unfold waitPop. simpl. destruct (queue_stopped os) eqn:E; simpl; [by rewrite app_nil_r|].
    destruct queue as [|task rest]; simpl; rewrite ?app_nil_r, <- ?app_assoc; done.
  - done.
Qed.

(** ** Properties *)

(** C15. The consumers' queue, for every interleaving of [push], [stop], [waitPop],
    notifications and spurious wake-ups: the tasks pushed before the first [stop] are
    accepted and those after it refused, and the accepted ones leave in their order,
    none lost or duplicated.  And no wake-up is lost: the notifications and the
    consumers they woke come to rest, and then a consumer is still asleep only if the
    queue is empty and not stopped. *)
Theorem TaskQueue_no_lost_wakeup (s : QueueRun) :
  mon_reached new_TaskQueue s ->
  accepted_tasks (mo_ops s) = omap snd (mo_returned s) ++ tq_queue (mo_state s) /\
  tq_stopped (mo_state s) = queue_stopped (mo_ops s) /\
  sn mon_progress s /\
  (forall s', rtc mon_progress s s' -> nf mon_progress s' -> mo_sleeping s' <> [] ->
     tq_queue (mo_state s') = [] /\ tq_stopped (mo_state s') = false).
Proof.
  intros Hr. destruct (queue_account s Hr) as [H1 H2]. destruct (monitor_serves _ s Hr) as [Hsn HS].
  split_and!; [done..|]. intros s' Hs' Hnf Hne. destruct (HS s' Hs' Hnf) as [_ HW].
  destruct (mo_sleeping s') as [|w l]; [done|]. specialize (HW w (list_elem_of_here _ _)).
  simpl in HW. unfold tq_ready in HW. destruct (mo_state s') as [[|task rest] []]; done.
Qed.

(** ** Witnesses *)

(** Two consumers sleep; a task is pushed, one of them is notified and takes it; the
    queue is stopped, the other one is notified and leaves without a task. *)
Definition queue_served : QueueRun :=
  mkMonitorRun (mkTaskQueue [] true) [] [] 0 0 [TqPush (mkTask "t" "p"); TqStop]
    [(tt, Some (mkTask "t" "p")); (tt, None)].

Lemma queue_served_reached : mon_reached new_TaskQueue queue_served.
Proof.
  eapply rtc_l; [right; apply (mx_arrive _ tt)|]. eapply rtc_l; [right; apply (mx_arrive _ tt)|].
  eapply rtc_l; [right; apply (mx_op _ (TqPush (mkTask "t" "p")))|].
  eapply rtc_l; [left; apply (mp_notify_one _ 0 [] tt [tt]); reflexivity|].
  eapply rtc_l; [left; apply (mp_retry _ [] tt []); reflexivity|].
  eapply rtc_l; [right; apply (mx_op _ TqStop)|].
  eapply rtc_l; [left; apply (mp_notify_all _ 0); reflexivity|].
  eapply rtc_l; [left; apply (mp_retry _ [] tt []); reflexivity|]. apply rtc_refl.
Qed.

Lemma TaskQueue_no_lost_wakeup_witness :
  accepted_tasks (mo_ops queue_served) = [mkTask "t" "p"] /\ sn mon_progress queue_served.
Proof.
  pose proof (TaskQueue_no_lost_wakeup queue_served queue_served_reached) as (H1 & _ & H2 & _).
  split; [exact H1 | exact H2].
Defined.
