(* ===== verification/ThreadPool.v ===== *)
(** * worker/runtime/thread_pool.cpp

    The pool's state and operations, and the worker threads around it as a step
    relation: every operation under the mutex is one step, a task runs between its
    take and its return, and [stop] ends once all workers have left their loop. *)

From S2P Require Import Prelude.

Section pool.

(** [std::function<void()>]. *)
Context {job : Type}.

Record ThreadPool := mkThreadPool {
  tp_thread_count : nat;              (* std::size_t *)
  tp_threads : nat;                   (* threads_.size() *)
  tp_tasks : list job;
  tp_started : bool;
  tp_stopping : bool;
}.

Definition new_ThreadPool (thread_count : nat) : ThreadPool :=
  mkThreadPool thread_count 0 [] false false.

(** [stop] once the workers have been joined. *)
Definition tp_stop (p : ThreadPool) : ThreadPool :=
  if negb (tp_started p) && (tp_threads p =? 0) then p
  else mkThreadPool (tp_thread_count p) 0 [] false true.

(** [spawned] is how many of the threads the system creates before one fails. *)
Definition tp_start (spawned : nat) (p : ThreadPool) : bool * ThreadPool :=
  if tp_started p then (true, p)
  else if tp_thread_count p =? 0 then (false, p)
  else if spawned <? tp_thread_count p then
    (false, tp_stop (mkThreadPool (tp_thread_count p) (tp_threads p + spawned) (tp_tasks p)
                       (tp_started p) false))
  else
    (true, mkThreadPool (tp_thread_count p) (tp_threads p + tp_thread_count p) (tp_tasks p)
             true false).

Definition tp_enqueue (task : job) (p : ThreadPool) : bool * ThreadPool :=
  if negb (tp_started p) || tp_stopping p then (false, p)
  else (true, mkThreadPool (tp_thread_count p) (tp_threads p) (tp_tasks p ++ [task])
                (tp_started p) (tp_stopping p)).

(** What a worker does with the mutex held once its wait is over: leave the loop,
    or take the oldest task. *)
Inductive worker_turn := Leave | Run (task : job) (p : ThreadPool) | Sleep.

Definition workerLoop_turn (p : ThreadPool) : worker_turn :=
  match tp_tasks p with
  | [] => if tp_stopping p then Leave else Sleep
  | task :: rest =>
      Run task (mkThreadPool (tp_thread_count p) (tp_threads p) rest (tp_started p) (tp_stopping p))
  end.

(** ** The workers *)

Record PoolRun := mkPoolRun {
  pr_pool : ThreadPool;
  pr_idle : nat;                      (* workers in their loop, between tasks *)
  pr_busy : list job;                 (* tasks being run *)
  pr_done : list job;                 (* tasks that have returned or thrown *)
  pr_accepted : list job;             (* tasks [enqueue] answered true for, in order *)
  pr_taken : list job;                (* tasks taken by workers, in order *)
}.

Definition idle_pool (thread_count : nat) : PoolRun :=
  mkPoolRun (new_ThreadPool thread_count) 0 [] [] [] [].

(** The flag [stop] sets before it joins. *)
Definition set_stopping (p : ThreadPool) : ThreadPool :=
  mkThreadPool (tp_thread_count p) (tp_threads p) (tp_tasks p) (tp_started p) true.

(** [stop] up to its joins. *)
Definition tp_signal (p : ThreadPool) : ThreadPool :=
  if negb (tp_started p) && (tp_threads p =? 0) then p else set_stopping p.

Inductive pool_step : PoolRun -> PoolRun -> Prop :=
(** [start] on a pool without threads. *)
| ps_start s p' :
    tp_threads (pr_pool s) = 0 -> tp_started (pr_pool s) = false ->
    tp_start (tp_thread_count (pr_pool s)) (pr_pool s) = (true, p') ->
    pool_step s (mkPoolRun p' (tp_thread_count (pr_pool s)) (pr_busy s) (pr_done s)
                   (pr_accepted s) (pr_taken s))
| ps_enqueue s task p' :
    tp_enqueue task (pr_pool s) = (true, p') ->
    pool_step s (mkPoolRun p' (pr_idle s) (pr_busy s) (pr_done s) (pr_accepted s ++ [task])
                   (pr_taken s))
| ps_take s task p' n :
    pr_idle s = S n -> workerLoop_turn (pr_pool s) = Run task p' ->
    pool_step s (mkPoolRun p' n (task :: pr_busy s) (pr_done s) (pr_accepted s)
                   (pr_taken s ++ [task]))
| ps_return s task busy1 busy2 :
    pr_busy s = busy1 ++ task :: busy2 ->
    pool_step s (mkPoolRun (pr_pool s) (S (pr_idle s)) (busy1 ++ busy2) (pr_done s ++ [task])
                   (pr_accepted s) (pr_taken s))
| ps_leave s n :
    pr_idle s = S n -> workerLoop_turn (pr_pool s) = Leave ->
    pool_step s (mkPoolRun (pr_pool s) n (pr_busy s) (pr_done s) (pr_accepted s) (pr_taken s))
(** [stop], up to its joins. *)
| ps_stop s :
    negb (tp_started (pr_pool s)) && (tp_threads (pr_pool s) =? 0) = false ->
    pool_step s (mkPoolRun (set_stopping (pr_pool s)) (pr_idle s) (pr_busy s) (pr_done s)
                   (pr_accepted s) (pr_taken s))
(** [stop], after its joins: every worker has left. *)
| ps_joined s :
    tp_stopping (pr_pool s) = true -> pr_idle s = 0 -> pr_busy s = [] ->
    pool_step s (mkPoolRun (tp_stop (pr_pool s)) 0 [] (pr_done s) (pr_accepted s) (pr_taken s)).

(** Tasks move in order from the queue to the workers, and queued tasks have all
    workers there to run them. *)
Record pool_inv (s : PoolRun) : Prop := {
  pi_order : pr_accepted s = pr_taken s ++ tp_tasks (pr_pool s);
  pi_once : pr_taken s ≡ₚ pr_busy s ++ pr_done s;
  pi_live : pr_idle s + length (pr_busy s) <= tp_threads (pr_pool s);
  pi_threads : tp_started (pr_pool s) = true -> 0 < tp_threads (pr_pool s);
  pi_idle : tp_started (pr_pool s) = false -> tp_tasks (pr_pool s) = [];
  pi_workers : tp_tasks (pr_pool s) <> [] \/ tp_started (pr_pool s) = true /\ tp_stopping (pr_pool s) = false ->
    pr_idle s + length (pr_busy s) = tp_threads (pr_pool s);
}.

(** ** Lemmas *)

Lemma pool_inv_idle n : pool_inv (idle_pool n).
Proof. constructor; simpl; naive_solver. Qed.

(** After the joins the rest of [stop] finds the same test as before them. *)
Lemma tp_stop_signal p : tp_stop (tp_signal p) = tp_stop p.
Proof.
  unfold tp_signal. destruct (negb (tp_started p) && (tp_threads p =? 0)) eqn:E; [done|].
  unfold tp_stop. simpl. by rewrite E.
Qed.

(** When the workers are gone, the queue is empty. *)
Lemma pool_drained s : pool_inv s -> pr_idle s = 0 -> pr_busy s = [] -> tp_tasks (pr_pool s) = [].
Proof.
  intros [H1 H2 Hl H3 H4 H5] Hi Hb. destruct (tp_tasks (pr_pool s)) as [|task rest] eqn:E; [done|].
  destruct (tp_started (pr_pool s)) eqn:Es; [|by specialize (H4 eq_refl)].
  specialize (H3 eq_refl). rewrite Hi, Hb in H5. simpl in H5. specialize (H5 ltac:(by left)). lia.
Qed.

Lemma pool_inv_step s s' : pool_step s s' -> pool_inv s -> pool_inv s'.
Proof.
  intros Hstep HI. pose proof HI as [H1 H2 Hl H3 H4 H5].
  destruct Hstep as [s p' Ht Hs Hst|s task p' He|s task p' n Hn Hw|s task b1 b2 Hb|s n Hn Hw
    |s Hs|s Hs Hi Hb].
  - unfold tp_start in Hst. rewrite Hs, Nat.ltb_irrefl in Hst.
    destruct (Nat.eqb_spec (tp_thread_count (pr_pool s)) 0); [done|]. injection Hst as <-.
    constructor; simpl; [done|done|lia|lia|done|lia].
  - unfold tp_enqueue in He. destruct (negb _ || _) eqn:E; [done|]. injection He as <-.
    apply orb_false_iff in E as [E1%negb_false_iff E2].
    constructor; simpl; [by rewrite H1, app_assoc|done|done|done|by rewrite E1|].
    intros _. apply H5. by right.
  - unfold workerLoop_turn in Hw. destruct (tp_tasks (pr_pool s)) as [|t rest] eqn:E.
    { by destruct (tp_stopping (pr_pool s)). }
    injection Hw as -> <-. constructor; simpl; [by rewrite H1, <- app_assoc| |lia|done| |].
    + rewrite H2. symmetry. apply Permutation_cons_append.
    + intros Hs. by apply H4 in Hs.
    + intros _. rewrite <- H5 by (by left). lia.
  - constructor; simpl; [done| |rewrite Hb, length_app in Hl; rewrite length_app; simpl in *; lia
      |done|done|].
    + rewrite H2, Hb. simpl. by rewrite <- !Permutation_middle, app_nil_r.
    + intros H. rewrite <- H5 by done. rewrite Hb, !length_app. simpl. lia.
  - unfold workerLoop_turn in Hw. destruct (tp_tasks (pr_pool s)) as [|t rest] eqn:E; [|done].
    destruct (tp_stopping (pr_pool s)) eqn:Es; [|done].
    constructor; simpl; rewrite ?E, ?Es; [done|done|lia|done|done|naive_solver].
  - constructor; simpl; auto. intros [H|[_ H]]; [|done]. apply H5. by left.
  - pose proof (pool_drained s HI Hi Hb) as Hempty. unfold tp_stop.
    destruct (negb (tp_started (pr_pool s)) && (tp_threads (pr_pool s) =? 0)) eqn:E.
    + rewrite Hi, Hb in *. by constructor.
    + rewrite Hb in H2. constructor; simpl; [by rewrite H1, Hempty|done|lia|done|done|naive_solver].
Qed.

(** ** Properties *)

(** C22. The pool runs what it accepted: for every interleaving of [start],
    [enqueue], workers and [stop], tasks are taken in the order they were accepted,
    each by one worker; and once [stop] has joined the workers, every accepted task
    has run exactly once and the queue is empty. *)
Theorem ThreadPool_drains (thread_count : nat) (s : PoolRun) :
  rtc pool_step (idle_pool thread_count) s ->
  (exists waiting, pr_accepted s = pr_taken s ++ waiting) /\
  pr_taken s ≡ₚ pr_busy s ++ pr_done s /\
  (pr_idle s = 0 -> pr_busy s = [] -> pr_done s ≡ₚ pr_accepted s /\ tp_tasks (pr_pool s) = []).
Proof.
  intros Hrtc. pose proof (rtc_invariant pool_step pool_inv pool_inv_step _ _ Hrtc
    (pool_inv_idle thread_count)) as HI.
  pose proof HI as [H1 H2 _ _ _ _]. split_and!; [by eexists|done|].
  intros Hi Hb. pose proof (pool_drained s HI Hi Hb) as E. split; [|done].
  by rewrite H1, E, app_nil_r, H2, Hb.
Qed.

End pool.
Arguments ThreadPool : clear implicits.
Arguments PoolRun : clear implicits.

(** ** Witnesses *)

(** One worker, two tasks, stopped while the first one runs. *)
Definition drained : PoolRun nat :=
  mkPoolRun (mkThreadPool 1 0 [] false true) 0 [] [7; 8] [7; 8] [7; 8].

Lemma drained_reachable : rtc pool_step (idle_pool 1) drained.
Proof.
  eapply rtc_l; [eapply ps_start; reflexivity|]; cbn.
  eapply rtc_l; [eapply (ps_enqueue _ 7); reflexivity|]; cbn.
  eapply rtc_l; [eapply (ps_enqueue _ 8); reflexivity|]; cbn.
  eapply rtc_l; [eapply ps_take; reflexivity|]; cbn.
  eapply rtc_l; [eapply ps_stop; reflexivity|]; cbn.
  eapply rtc_l; [eapply (ps_return _ 7 [] []); reflexivity|]; cbn.
  eapply rtc_l; [eapply ps_take; reflexivity|]; cbn.
  eapply rtc_l; [eapply (ps_return _ 8 [] []); reflexivity|]; cbn.
  eapply rtc_l; [eapply ps_leave; reflexivity|]; cbn.
  eapply rtc_l; [eapply ps_joined; reflexivity|]. apply rtc_refl.
Qed.

Lemma ThreadPool_drains_witness : pr_done drained ≡ₚ pr_accepted drained.
Proof.
  exact (proj1 (proj2 (proj2 (ThreadPool_drains 1 drained drained_reachable)) eq_refl eq_refl)).
Defined.
