(* ===== verification/WorkerWaiters.v ===== *)
(** * The waits of the worker's thread pool and timer

    The workers of a started [ThreadPool] and the thread of a started [Timer] wait on
    condition variables as the threads of [Monitor] do.  (The waits of [TaskQueue] are
    in its own file; [WorkerNode::run] waits without this discipline, see
    [MainProgram].) *)

From S2P Require Import Prelude Monitor ThreadPool Timer.

(** ** ThreadPool: workers wait for tasks *)

Section pool_waits.
  Context {job : Type}.

Inductive pool_op := TpEnqueue (task : job) | TpStop.

(** The predicate of [workerLoop]. *)
Definition pool_ready (p : ThreadPool job) : bool :=
  tp_stopping p || match tp_tasks p with [] => false | _ => true end.

(** A worker after its wait: the task it takes, or [None] where it leaves its loop. *)
Definition pool_leave (p : ThreadPool job) : option job * ThreadPool job :=
  match workerLoop_turn p with
  | Run task p' => (Some task, p')
  | Leave | Sleep => (None, p)
  end.

Definition pool_do (op : pool_op) (p : ThreadPool job) : ThreadPool job * notification :=
  match op with
  | TpEnqueue task =>
      let '(ok, p') := tp_enqueue task p in (p', if ok then NotifyOne else NotifyNone)
  | TpStop =>
      (tp_signal p, if negb (tp_started p) && (tp_threads p =? 0) then NotifyNone else NotifyAll)
  end.

#[export] Instance ThreadPool_monitor : Monitor (ThreadPool job) unit (option job) pool_op := {
  mon_enter _ p := p;
  mon_ready _ := pool_ready;
  mon_leave _ := pool_leave;
  mon_timeout _ := None;
  mon_op := pool_do;
}.

#[refine, export] Instance ThreadPool_demand : Demand (ThreadPool job) unit (option job) pool_op := {
  dm_demand p := if tp_stopping p then None else Some (length (tp_tasks p));
}.
Proof.
  - intros [] [c t [|task rest] st []]; done.
  - done.
  - intros [] [c t [|task rest] st []]; simpl; try done; [lia|]. intros _.
    exists (length rest). split; [done|lia].
  - intros [task|] [c t tasks st []]; simpl.
    + unfold tp_enqueue. simpl. by rewrite orb_true_r.
    + unfold tp_enqueue. simpl. destruct st; simpl; [|by left]. right. rewrite length_app. simpl. split; [lia|done].
    + unfold tp_signal. simpl. by destruct (negb st && (t =? 0)).
    + unfold tp_signal. simpl. by destruct (negb st && (t =? 0)); [left|].
Defined.

(** The tasks enqueued before the first [stop]. *)
Fixpoint accepted_jobs (ops : list pool_op) : list job :=
  match ops with
  | [] => []
  | TpEnqueue task :: ops' => task :: accepted_jobs ops'
  | TpStop :: _ => []
  end.

Definition pool_was_stopped (ops : list pool_op) : bool :=
  existsb (fun op => match op with TpStop => true | _ => false end) ops.

Lemma accepted_jobs_app ops op :
  accepted_jobs (ops ++ [op]) =
    accepted_jobs ops ++
      (if pool_was_stopped ops then [] else match op with TpEnqueue task => [task] | TpStop => [] end).
Proof. induction ops as [|[task|] ops IH]; simpl; [by destruct op|by rewrite IH|done]. Qed.

Lemma pool_was_stopped_app ops op :
  pool_was_stopped (ops ++ [op]) =
    pool_was_stopped ops || match op with TpStop => true | _ => false end.
Proof. unfold pool_was_stopped. rewrite existsb_app. simpl. by rewrite orb_false_r. Qed.

(** The workers of a started pool, for every interleaving of [enqueue], [stop], the
    workers' waits, notifications and spurious wake-ups: the tasks enqueued before the
    [stop] are taken in order, each by one worker; and no wake-up is lost: when the
    notifications have come to rest, a worker is asleep only if there is no task and the
    pool is not stopping. *)
Theorem ThreadPool_serves (threads : nat)
    (s : MonitorRun (ThreadPool job) unit (option job) pool_op) :
  mon_reached (mkThreadPool threads threads [] true false) s ->
  accepted_jobs (mo_ops s) = omap snd (mo_returned s) ++ tp_tasks (mo_state s) /\
  sn mon_progress s /\
  (forall s', rtc mon_progress s s' -> nf mon_progress s' -> mo_sleeping s' <> [] ->
     tp_tasks (mo_state s') = [] /\ tp_stopping (mo_state s') = false).
Proof.
  intros Hr. destruct (monitor_serves _ s Hr) as [Hsn HS]. split_and!; [|done|].
  - apply (mon_invariant (fun p os rs => accepted_jobs os = omap snd rs ++ tp_tasks p /\
      tp_started p = true /\ tp_stopping p = pool_was_stopped os)) in Hr; [by destruct Hr|done|..].
    + intros [task|] [c t tasks st stopping] os rs (H1 & H2 & H3); simpl in *; subst st stopping;
        rewrite accepted_jobs_app, pool_was_stopped_app, H1; simpl.
      * unfold tp_enqueue. simpl. destruct (pool_was_stopped os); simpl;
          rewrite ?app_nil_r, <- ?app_assoc; done.
      * rewrite orb_true_r. destruct (pool_was_stopped os); by rewrite app_nil_r.
    + done.
    + intros [] [c t [|task rest] st stopping] os rs Hready (H1 & H2 & H3); simpl in *; subst stopping;
        rewrite omap_app; unfold pool_leave, workerLoop_turn; simpl.
      * rewrite app_nil_r in *. destruct (pool_was_stopped os); simpl; by rewrite !app_nil_r.
      * by rewrite <- app_assoc.
    + done.
  - intros s' Hs' Hnf Hne. destruct (HS s' Hs' Hnf) as [_ HW].
    destruct (mo_sleeping s') as [|w l]; [done|]. specialize (HW w (list_elem_of_here _ _)).
    simpl in HW. unfold pool_ready in HW. by destruct (mo_state s') as [c t [|task rest] st []].
Qed.

End pool_waits.

(** ** Timer: the thread waits for its interval or for stop *)

Inductive timer_op := TiStop.

Definition timer_do (op : timer_op) (t : Timer) : Timer * notification :=
  (timer_clear t, if negb (ti_running t) && negb (ti_joinable t) then NotifyNone else NotifyAll).

(** [wait_for] answers true when it sees the flag cleared, false after the interval. *)
#[export] Instance Timer_monitor : Monitor Timer unit bool timer_op := {
  mon_enter _ t := t;
  mon_ready _ t := negb (ti_running t);
  mon_leave _ t := (true, t);
  mon_timeout _ := Some false;
  mon_op := timer_do;
}.

#[refine, export] Instance Timer_broadcast : Broadcast Timer unit bool timer_op := {}.
Proof.
  - intros [] [[] []] []; done.
  - done.
  - intros [] [] [[] []]; done.
Defined.

(** [stop] does not have to wait for the interval: once the timer has been stopped, the
    notifications come to rest and then its thread is no longer in the wait. *)
Theorem Timer_stop_prompt (s : MonitorRun Timer unit bool timer_op) :
  mon_reached (mkTimer true true) s -> mo_ops s <> [] ->
  sn mon_progress s /\
  forall s', rtc mon_progress s s' -> nf mon_progress s' -> mo_sleeping s' = [] /\ mo_woken s' = [].
Proof.
  intros Hr Hops. destruct (monitor_serves _ s Hr) as [Hsn HS]. split; [done|].
  intros s' Hs' Hnf. destruct (HS s' Hs' Hnf) as [Hw HW]. split; [|done].
  assert (Hkeep : forall a b : MonitorRun Timer unit bool timer_op,
    mon_progress a b -> ti_running (mo_state a) = false -> ti_running (mo_state b) = false).
  { intros a b Hstep Ha. destruct Hstep; simpl; try done. unfold mo_test.
    simpl. destruct (ti_running (mo_state s0)) eqn:E; simpl; [congruence|done]. }
  assert (H0 : ti_running (mo_state s) = false).
  { apply (mon_invariant (fun t os (rs : list (unit * bool)) =>
      ti_joinable t = true /\ ti_running t = bool_decide (os = []))) in Hr as [_ ->];
      [by apply bool_decide_eq_false_2|done|..].
    - intros [] [running joinable] os rs [H1 H2]. simpl in *. subst. unfold timer_clear. simpl.
      rewrite andb_false_r. split; [done|]. symmetry. apply bool_decide_eq_false_2. by destruct os.
    - done.
    - done.
    - done. }
  pose proof (rtc_invariant mon_progress (fun a => ti_running (mo_state a) = false) Hkeep _ _ Hs' H0) as H1.
  destruct (mo_sleeping s') as [|w l]; [done|]. specialize (HW w (list_elem_of_here _ _)).
  simpl in HW. by rewrite H1 in HW.
Qed.
