(* ===== verification/WorkerNode.v ===== *)
(** * worker/src/worker_node.cpp: the worker node

    [start], [stop] and the task path as functions on the node's state, composed
    from the components.  NodeThreads.v splits them into the steps of the node's
    threads. *)

From S2P Require Import Prelude CppString CppNumber WorkerConfig WorkerTask SchedulerClient.
From S2P Require Import TcpTransport TaskQueue ThreadPool Timer.

(** What the node asks of the scheduler, in order. *)
Inductive request :=
| Req_register (worker_address : string) (capacity : Z)
| Req_heartbeat (running_tasks : Z) (active_task_ids : list string)
| Req_result (result : TaskResult).

Instance request_eq_dec : EqDecision request.
Proof. solve_decision. Defined.

(** The function a consumer thread runs. *)
Inductive consumer := Consume.

Record WorkerNode := mkWorkerNode {
  wn_config_path : string;
  wn_config : WorkerConfig;
  wn_running : bool;
  wn_task_queue : TaskQueue;
  wn_scheduler_client : SchedulerClient;
  wn_transport : option TcpTransport;
  wn_thread_pool : option (ThreadPool consumer);
  wn_heartbeat_timer : Timer;
  wn_active_task_ids : gset string;
  wn_requests : list request;         (* the requests made so far *)
}.

Definition new_WorkerNode (config_path : string) : WorkerNode :=
  mkWorkerNode config_path default_WorkerConfig false new_TaskQueue (mkSchedulerClient "" "")
    None None new_Timer ∅ [].

(** ** Field updates *)

Definition set_config (c : WorkerConfig) (n : WorkerNode) : WorkerNode :=
  mkWorkerNode (wn_config_path n) c (wn_running n) (wn_task_queue n) (wn_scheduler_client n)
    (wn_transport n) (wn_thread_pool n) (wn_heartbeat_timer n) (wn_active_task_ids n) (wn_requests n).
Definition set_running (b : bool) (n : WorkerNode) : WorkerNode :=
  mkWorkerNode (wn_config_path n) (wn_config n) b (wn_task_queue n) (wn_scheduler_client n)
    (wn_transport n) (wn_thread_pool n) (wn_heartbeat_timer n) (wn_active_task_ids n) (wn_requests n).
Definition set_task_queue (q : TaskQueue) (n : WorkerNode) : WorkerNode :=
  mkWorkerNode (wn_config_path n) (wn_config n) (wn_running n) q (wn_scheduler_client n)
    (wn_transport n) (wn_thread_pool n) (wn_heartbeat_timer n) (wn_active_task_ids n) (wn_requests n).
Definition set_scheduler_client (c : SchedulerClient) (n : WorkerNode) : WorkerNode :=
  mkWorkerNode (wn_config_path n) (wn_config n) (wn_running n) (wn_task_queue n) c
    (wn_transport n) (wn_thread_pool n) (wn_heartbeat_timer n) (wn_active_task_ids n) (wn_requests n).
Definition set_tcp (t : option TcpTransport) (n : WorkerNode) : WorkerNode :=
  mkWorkerNode (wn_config_path n) (wn_config n) (wn_running n) (wn_task_queue n)
    (wn_scheduler_client n) t (wn_thread_pool n) (wn_heartbeat_timer n) (wn_active_task_ids n)
    (wn_requests n).
Definition set_pool (p : option (ThreadPool consumer)) (n : WorkerNode) : WorkerNode :=
  mkWorkerNode (wn_config_path n) (wn_config n) (wn_running n) (wn_task_queue n)
    (wn_scheduler_client n) (wn_transport n) p (wn_heartbeat_timer n) (wn_active_task_ids n)
    (wn_requests n).
Definition set_timer (t : Timer) (n : WorkerNode) : WorkerNode :=
  mkWorkerNode (wn_config_path n) (wn_config n) (wn_running n) (wn_task_queue n)
    (wn_scheduler_client n) (wn_transport n) (wn_thread_pool n) t (wn_active_task_ids n)
    (wn_requests n).
Definition set_active (ids : gset string) (n : WorkerNode) : WorkerNode :=
  mkWorkerNode (wn_config_path n) (wn_config n) (wn_running n) (wn_task_queue n)
    (wn_scheduler_client n) (wn_transport n) (wn_thread_pool n) (wn_heartbeat_timer n) ids
    (wn_requests n).
Definition add_request (r : request) (n : WorkerNode) : WorkerNode :=
  mkWorkerNode (wn_config_path n) (wn_config n) (wn_running n) (wn_task_queue n)
    (wn_scheduler_client n) (wn_transport n) (wn_thread_pool n) (wn_heartbeat_timer n)
    (wn_active_task_ids n) (wn_requests n ++ [r]).

(** ** The task path *)

Definition finishTask (task_id : string) (n : WorkerNode) : WorkerNode :=
  set_active (wn_active_task_ids n ∖ {[task_id]}) n.

(** [enqueueTask] up to the release of the active set's mutex: whether the id was
    inserted. *)
Definition mark_active (task_id : string) (n : WorkerNode) : bool * WorkerNode :=
  if decide (task_id ∈ wn_active_task_ids n) then (false, n)
  else (true, set_active (wn_active_task_ids n ∪ {[task_id]}) n).

(** The rest of [enqueueTask]: the push, undone in the active set if the queue has
    stopped. *)
Definition push_marked (task : Task) (n : WorkerNode) : bool * WorkerNode :=
  let '(ok, q) := tq_push task (wn_task_queue n) in
  if ok then (true, set_task_queue q n) else (false, finishTask (t_id task) (set_task_queue q n)).

Definition enqueueTask (task : Task) (n : WorkerNode) : bool * WorkerNode :=
  let '(inserted, n1) := mark_active (t_id task) n in
  if inserted then push_marked task n1 else (true, n1).

(** The handler given to the task server. *)
Definition on_task (task : Task) (n : WorkerNode) : WorkerNode :=
  if wn_running n then (enqueueTask task n).2 else n.

(** One round of a consumer when nothing else runs: the queue's next task is executed,
    reported and finished; [None] where the loop ends, [Waiting] while the scheduler does
    not answer the report. *)
Definition consume_one {addrinfo} (net : Net addrinfo) (fds : gset Z) (n : WorkerNode)
    : option (io (gset Z * WorkerNode)) :=
  if wn_running n then
    let '(task, q) := waitPop (wn_task_queue n) in
    match task with
    | None => None
    | Some t =>
        let result := execute t in
        let n1 := add_request (Req_result result) (set_task_queue q n) in
        Some (match reportResult net fds result (wn_scheduler_client n1) with
              | (Finished _, fds1) => Finished (fds1, finishTask (t_id t) n1)
              | _ => Waiting
              end)
    end
  else None.

(** The order of an [unordered_set] is not specified; the model lists it in the
    order of [elements]. *)
Definition snapshotActiveTaskIDs (n : WorkerNode) : list string := elements (wn_active_task_ids n).

Definition runningTaskCount (n : WorkerNode) : Z := i32 (Z.of_nat (size (wn_active_task_ids n))).

(** The timer's function. *)
Definition heartbeat {addrinfo} (net : Net addrinfo) (fds : gset Z) (n : WorkerNode)
    : io (gset Z * WorkerNode) :=
  if wn_running n then
    let n1 := add_request (Req_heartbeat (runningTaskCount n) (snapshotActiveTaskIDs n)) n in
    match sendHeartbeat net fds (runningTaskCount n) (snapshotActiveTaskIDs n)
            (wn_scheduler_client n) with
    | (Finished _, fds1) => Finished (fds1, n1)
    | _ => Waiting
    end
  else Finished (fds, n).

Definition workerAddress (n : WorkerNode) : string :=
  "127.0.0.1:" +:+ to_string (wc_listen_port (wn_config n)).

(** ** stop *)

(** What follows the last heartbeat. *)
Definition stop_rest (fds : gset Z) (n : WorkerNode) : gset Z * WorkerNode :=
  let '(fds1, n1) :=
    match wn_transport n with
    | None => (fds, n)
    | Some t => let '(fds', t') := tcp_stop fds t in (fds', set_tcp (Some t') n)
    end in
  let n2 := set_task_queue (tq_stop (wn_task_queue n1)) n1 in
  let n3 := set_pool (tp_stop <$> wn_thread_pool n2) n2 in
  (fds1, n3).

(** The process's descriptors are threaded through; [Waiting] while the scheduler does not
    answer the last heartbeat. *)
Definition node_stop {addrinfo} (net : Net addrinfo) (fds : gset Z) (n : WorkerNode)
    : io (gset Z * WorkerNode) :=
  let was_running := wn_running n in
  let n1 := set_timer (timer_stop (wn_heartbeat_timer n)) (set_running false n) in
  if was_running then
    match sendHeartbeat net fds 0 [] (wn_scheduler_client n1) with
    | (Finished _, fds2) => Finished (stop_rest fds2 (add_request (Req_heartbeat 0 []) n1))
    | _ => Waiting
    end
  else Finished (stop_rest fds n1).

(** ** start *)

(** What the system does during a [start]: the configuration file, the calls of the task
    server, the threads it can create for the pool and for the timer, and the exchanges with
    the scheduler: the registration, and the heartbeat of the [stop] after a failure. *)
Record StartEnv (addrinfo : Type) := mkStartEnv {
  se_file : option string;
  se_sys : Sys;
  se_threads : nat;
  se_net : Net addrinfo;
  se_timer_thread : bool;
  se_stop_net : Net addrinfo;
}.
Arguments mkStartEnv {addrinfo}.
Arguments se_file {addrinfo}.
Arguments se_sys {addrinfo}.
Arguments se_threads {addrinfo}.
Arguments se_net {addrinfo}.
Arguments se_timer_thread {addrinfo}.
Arguments se_stop_net {addrinfo}.

(** Descriptors the system hands out are not open. *)
Definition env_fresh {addrinfo} (env : StartEnv addrinfo) (fds : gset Z) : Prop :=
  sys_socket (se_sys env) ∉ fds /\
  fresh_sockets (se_net env) (fds ∪ {[sys_socket (se_sys env)]}) /\
  fresh_sockets (se_stop_net env) (fds ∪ {[sys_socket (se_sys env)]}).

(** Assigning the new transport destroys the old one, which stops it. *)
Definition startTaskServer (sys : Sys) (fds : gset Z) (n : WorkerNode)
    : outcome unit * gset Z * WorkerNode :=
  let fds1 := match wn_transport n with None => fds | Some old => (tcp_stop fds old).1 end in
  let '(res, fds2, t) := tcp_start sys fds1 (new_TcpTransport (wc_listen_port (wn_config n))) in
  (match res with
   | Ok true => Ok tt
   | Ok false => Throw "start task server failed"
   | Throw what => Throw what
   end, fds2, set_tcp (Some t) n).

(** The loop that gives every thread its consumer. *)
Fixpoint enqueue_consumers (k : nat) (p : ThreadPool consumer) : bool * ThreadPool consumer :=
  match k with
  | O => (true, p)
  | S k' =>
      let '(queued, p1) := tp_enqueue Consume p in
      if queued then enqueue_consumers k' p1 else (false, p1)
  end.

Definition startConsumers (threads : nat) (n : WorkerNode) : outcome unit * WorkerNode :=
  let count := Z.to_nat (wc_threads (wn_config n)) in
  let '(ok, p) := tp_start threads (new_ThreadPool count) in
  if negb ok then (Throw "start consumer thread pool failed", set_pool (Some p) n)
  else
    let '(queued, p1) := enqueue_consumers count p in
    (if queued then Ok tt else Throw "submit consumer task failed", set_pool (Some p1) n).

Definition registerToScheduler {addrinfo} (net : Net addrinfo) (fds : gset Z) (n : WorkerNode)
    : io (outcome unit) * gset Z * WorkerNode :=
  let '(answer, fds1) := registerWorker net fds (workerAddress n) (wc_threads (wn_config n))
                           (wn_scheduler_client n) in
  (match answer with
   | Finished true => Finished (Ok tt)
   | Finished false => Finished (Throw "register to scheduler failed")
   | Failed => Failed
   | Waiting => Waiting
   end, fds1, add_request (Req_register (workerAddress n) (wc_threads (wn_config n))) n).

Definition startHeartbeat (thread_ok : bool) (n : WorkerNode) : outcome unit * WorkerNode :=
  let '(res, t) :=
    timer_start (wc_heartbeat_interval (wn_config n) * 1000) true thread_ok (wn_heartbeat_timer n) in
  (match res with
   | Ok true => Ok tt
   | Ok false => Throw "start heartbeat failed"
   | Throw what => Throw what
   end, set_timer t n).

(** The catch block. *)
Definition start_failed {addrinfo} (net : Net addrinfo) (fds : gset Z) (n : WorkerNode)
    : io (bool * gset Z * WorkerNode) :=
  match node_stop net fds n with
  | Finished (fds', n') => Finished (false, fds', n')
  | Failed => Failed
  | Waiting => Waiting
  end.

(** The value of [start], the descriptors and the node; [Waiting] while the
    scheduler does not answer. *)
Definition node_start {addrinfo} (env : StartEnv addrinfo) (fds : gset Z) (n : WorkerNode)
    : io (bool * gset Z * WorkerNode) :=
  if wn_running n then Finished (true, fds, n)
  else
    match loadConfig (wn_config_path n) (se_file env) (wn_config n) with
    | Throw _ => Finished (false, fds, n)
    | Ok config =>
        let n0 := set_config config n in
        let n1 := set_running true
                    (set_scheduler_client
                       (configure (wc_scheduler_addr config) (wc_worker_id config)
                          (wn_scheduler_client n0)) n0) in
        let '(server, fds2, n2) := startTaskServer (se_sys env) fds n1 in
        match server with
        | Throw _ => start_failed (se_stop_net env) fds2 n2
        | Ok _ =>
            let '(consumers, n3) := startConsumers (se_threads env) n2 in
            match consumers with
            | Throw _ => start_failed (se_stop_net env) fds2 n3
            | Ok _ =>
                let '(registered, fds4, n4) := registerToScheduler (se_net env) fds2 n3 in
                match registered with
                | Finished (Ok _) =>
                    let '(timer, n5) := startHeartbeat (se_timer_thread env) n4 in
                    match timer with
                    | Throw _ => start_failed (se_stop_net env) fds4 n5
                    | Ok _ => Finished (true, fds4, n5)
                    end
                | Finished (Throw _) => start_failed (se_stop_net env) fds4 n4
                | Failed => Failed
                | Waiting => Waiting
                end
            end
        end
    end.

(** ** What start and stop promise *)

(** The transport's socket is open exactly while it runs, and it runs only while
    the node does. *)
Definition node_ok (fds : gset Z) (n : WorkerNode) : Prop :=
  match wn_transport n with
  | None => True
  | Some t => transport_ok fds t /\ (wn_running n = false -> tt_running t = false)
  end.

(** Nothing of the node runs. *)
Definition node_down (n : WorkerNode) : Prop :=
  wn_running n = false /\ ti_running (wn_heartbeat_timer n) = false /\
  match wn_transport n with None => True | Some t => tt_running t = false end /\
  match wn_thread_pool n with None => True | Some p => tp_started p = false end.

(** Everything of the node runs: the server on the configured port, one consumer
    per configured thread, and the timer. *)
Definition node_up (n : WorkerNode) : Prop :=
  wn_running n = true /\ ti_running (wn_heartbeat_timer n) = true /\
  (exists t, wn_transport n = Some t /\ tt_running t = true /\
     tt_port t = wc_listen_port (wn_config n)) /\
  (exists p, wn_thread_pool n = Some p /\ tp_started p = true /\ tp_stopping p = false /\
     Z.of_nat (tp_threads p) = wc_threads (wn_config n) /\
     Z.of_nat (length (tp_tasks p)) = wc_threads (wn_config n)).

(** What a [start] or [stop] never touches. *)
Definition same_work (n n' : WorkerNode) : Prop :=
  tq_queue (wn_task_queue n') = tq_queue (wn_task_queue n) /\
  wn_active_task_ids n' = wn_active_task_ids n.

(** ** Lemmas: start and stop *)

Lemma tp_stop_started {job} (p : ThreadPool job) : tp_started (tp_stop p) = false.
Proof. by destruct p as [? [] ? [] ?]. Qed.

Lemma timer_stop_running t : ti_running (timer_stop t) = false.
Proof. unfold timer_stop. by destruct t as [[] []]. Qed.

(** The part of [node_ok] that does not depend on the node's flag. *)
Definition server_ok (fds : gset Z) (n : WorkerNode) : Prop :=
  match wn_transport n with None => True | Some t => transport_ok fds t end.

(** The descriptors once the task server is stopped. *)
Definition server_closed (fds : gset Z) (n : WorkerNode) : gset Z :=
  match wn_transport n with
  | Some t => if tt_running t then fds ∖ {[tt_listen_fd t]} else fds
  | None => fds
  end.

Lemma stop_rest_spec fds n :
  server_ok fds n -> wn_running n = false -> ti_running (wn_heartbeat_timer n) = false ->
  let '(fds', n') := stop_rest fds n in
  node_ok fds' n' /\ node_down n' /\ same_work n n' /\ tq_stopped (wn_task_queue n') = true /\
  fds' = server_closed fds n.
Proof.
  intros Hok Hr Hti. unfold stop_rest, server_ok, server_closed in *.
  assert (Hp : match tp_stop <$> wn_thread_pool n with None => True | Some p => tp_started p = false end)
    by (destruct (wn_thread_pool n); simpl; auto using tp_stop_started).
  destruct (wn_transport n) as [t|] eqn:Et.
  - destruct (tcp_stop_spec fds t Hok) as (t2 & -> & Hp2 & Hr2 & Hfd & Hac).
    simpl. unfold node_ok, node_down, same_work, transport_ok. simpl. rewrite Hr2.
    split_and!; auto.
  - simpl. unfold node_ok, node_down, same_work. simpl. rewrite Et. split_and!; auto.
Qed.

Lemma node_stop_spec {addrinfo} (net : Net addrinfo) fds n fds' n' :
  server_ok fds n -> fresh_sockets net fds -> node_stop net fds n = Finished (fds', n') ->
  node_ok fds' n' /\ node_down n' /\ same_work n n' /\ tq_stopped (wn_task_queue n') = true /\
  fds' = server_closed fds n.
Proof.
  intros Hok Hf. unfold node_stop. set (n1 := set_timer _ _). pose proof (timer_stop_running (wn_heartbeat_timer n)) as Ht.
  destruct (wn_running n).
  - destruct (sendHeartbeat _ _ _ _ _) as [[ok| |] fds2] eqn:E; try done.
    apply sendHeartbeat_fds in E as ->; [|done].
    pose proof (stop_rest_spec fds (add_request (Req_heartbeat 0 []) n1) Hok eq_refl Ht) as H.
    destruct (stop_rest _ _) as [fds3 n3]. by intros [= <- <-].
  - pose proof (stop_rest_spec fds n1 Hok eq_refl Ht) as H.
    destruct (stop_rest _ _) as [fds3 n3]. by intros [= <- <-].
Qed.

Lemma enqueue_consumers_spec k p :
  tp_started p = true -> tp_stopping p = false ->
  exists p', enqueue_consumers k p = (true, p') /\ tp_started p' = true /\ tp_stopping p' = false /\
    tp_threads p' = tp_threads p /\ length (tp_tasks p') = length (tp_tasks p) + k.
Proof.
  revert p. induction k as [|k IH]; intros p Hs Hp; [exists p; split_and!; auto; lia|].
  simpl. unfold tp_enqueue. rewrite Hs, Hp. simpl.
  edestruct IH as (p' & E & ? & ? & ? & Hl); [| |exists p'; rewrite E; split_and!; eauto]; [done|done|].
  rewrite Hl. simpl. rewrite length_app. simpl. lia.
Qed.

Lemma startConsumers_spec threads n :
  (0 < wc_threads (wn_config n))%Z ->
  exists r p, startConsumers threads n = (r, set_pool (Some p) n) /\
    (r = Ok tt -> tp_started p = true /\ tp_stopping p = false /\
       Z.of_nat (tp_threads p) = wc_threads (wn_config n) /\
       Z.of_nat (length (tp_tasks p)) = wc_threads (wn_config n)).
Proof.
  intros Hpos. unfold startConsumers, tp_start. simpl.
  destruct (Nat.eqb_spec (Z.to_nat (wc_threads (wn_config n))) 0); [lia|].
  destruct (Nat.ltb_spec threads (Z.to_nat (wc_threads (wn_config n)))); simpl.
  - eexists _, _. by split.
  - destruct (enqueue_consumers_spec (Z.to_nat (wc_threads (wn_config n)))
      (mkThreadPool (Z.to_nat (wc_threads (wn_config n))) (Z.to_nat (wc_threads (wn_config n))) []
         true false)) as (p' & E & H1 & H2 & H3 & H4); [done|done|].
    rewrite E. eexists _, p'. split; [done|]. intros _. simpl in *.
    split_and!; [done|done|rewrite H3; lia|rewrite H4; lia].
Qed.

Lemma startTaskServer_spec sys fds n :
  node_ok fds n -> match wn_transport n with Some t => tt_running t = false | None => True end ->
  sys_socket sys ∉ fds ->
  exists r fds' t, startTaskServer sys fds n = (r, fds', set_tcp (Some t) n) /\
    tt_port t = wc_listen_port (wn_config n) /\ transport_ok fds' t /\
    (r = Ok tt -> tt_running t = true) /\
    (tt_running t = true -> tt_listen_fd t ∉ fds /\ tt_listen_fd t = sys_socket sys) /\
    fds' = if tt_running t then fds ∪ {[tt_listen_fd t]} else fds.
Proof.
  intros Hok Hdown Hnew. unfold startTaskServer.
  assert (match wn_transport n with None => fds | Some old => (tcp_stop fds old).1 end = fds) as ->.
  { unfold node_ok in Hok. destruct (wn_transport n) as [old|]; [|done].
    destruct (tcp_stop_spec fds old (proj1 Hok)) as (t2 & -> & _). simpl. by rewrite Hdown. }
  set (t0 := new_TcpTransport (wc_listen_port (wn_config n))).
  destruct (tcp_start_spec sys fds t0 eq_refl eq_refl Hnew) as (fds1 & t1 & res & E & Hp & Hres & H).
  assert (Hfd : tt_running t1 = true -> tt_listen_fd t1 = sys_socket sys).
  { clear - E. unfold tcp_start in E. simpl in E. unfold closeListenSocket in E.
    repeat case_match; simpl in *; by simplify_eq/=. }
  rewrite E. eexists _, fds1, t1. split; [done|]. split; [done|]. unfold transport_ok.
  destruct (tt_running t1) eqn:Hr1.
  - destruct H as (H1 & H2 & ->). split_and!; auto; set_solver.
  - destruct H as (H1 & ->). destruct res as [[]|]; destruct Hres as [Hr Ha]; try done; split_and!; auto; done.
Qed.

(** The catch block restores the descriptors and takes everything down. *)
Lemma start_failed_spec {addrinfo} (net : Net addrinfo) fds fds2 n t ok fds' n' :
  wn_transport n = Some t -> transport_ok fds2 t -> fresh_sockets net fds2 ->
  (tt_running t = true -> tt_listen_fd t ∉ fds) ->
  fds2 = (if tt_running t then fds ∪ {[tt_listen_fd t]} else fds) ->
  start_failed net fds2 n = Finished (ok, fds', n') ->
  ok = false /\ fds' = fds /\ node_ok fds' n' /\ node_down n' /\ same_work n n' /\
  tq_stopped (wn_task_queue n') = true.
Proof.
  intros Et Htok Hf Hnew Hfds2. unfold start_failed.
  destruct (node_stop net fds2 n) as [[fds3 n3]| |] eqn:E; [|done|done].
  apply node_stop_spec in E as (H1 & H2 & H3 & H4 & H5); [|unfold server_ok; by rewrite Et|done].
  intros [= <- <- <-]. split_and!; auto; [|apply H2..].
  rewrite H5. unfold server_closed. rewrite Et, Hfds2. destruct (tt_running t); [|done].
  specialize (Hnew eq_refl). set_solver.
Qed.

Lemma fresh_sockets_mono {addrinfo} (net : Net addrinfo) fds fds' :
  fds' ⊆ fds -> fresh_sockets net fds -> fresh_sockets net fds'.
Proof. intros Hs Hf a Ha. specialize (Hf a Ha). set_solver. Qed.

(** A [start] that answers true, whatever descriptors the exchanges use. *)
Lemma node_start_true {addrinfo} (env : StartEnv addrinfo) fds n fds' n' :
  node_ok fds n -> node_down n -> ints_ok (wn_config n) -> sys_socket (se_sys env) ∉ fds ->
  node_start env fds n = Finished (true, fds', n') ->
  node_up n' /\ config_ok (wn_config n') /\ wn_task_queue n' = wn_task_queue n /\ same_work n n' /\
  wn_requests n' = wn_requests n ++ [Req_register (workerAddress n') (wc_threads (wn_config n'))] /\
  exists t, wn_transport n' = Some t /\
    (fresh_sockets (se_net env) (fds ∪ {[sys_socket (se_sys env)]}) -> transport_ok fds' t).
Proof.
  intros Hok Hdown Hints Hnew. unfold node_start.
  pose proof Hdown as (Hr & Hti & Htr & Hpo). rewrite Hr.
  destruct (loadConfig _ _ _) as [config|what] eqn:Ecfg; [|done].
  pose proof (loadConfig_sound _ _ _ _ Hints Ecfg) as Hcfg. cbv zeta.
  set (n1 := set_running true _).
  assert (Hok1 : node_ok fds n1) by (unfold node_ok in *; simpl; destruct (wn_transport n); naive_solver).
  destruct (startTaskServer_spec (se_sys env) fds n1 Hok1 Htr Hnew)
    as (r & fds2 & t & -> & Hport & Htok & Hrun & Hfresh & Hfds2).
  assert (Hfail : forall fds3 m, start_failed (se_stop_net env) fds3 m = Finished (true, fds', n') -> False)
    by (intros fds3 m; unfold start_failed; by destruct (node_stop _ _ _) as [[]| |]).
  destruct r as [[]|]; [|by intros ?%Hfail]. specialize (Hrun eq_refl).
  destruct (startConsumers_spec (se_threads env) (set_tcp (Some t) n1)) as (r3 & p & -> & H3).
  { destruct Hcfg. simpl. lia. }
  destruct r3 as [[]|]; [|by intros ?%Hfail].
  unfold registerToScheduler. destruct (registerWorker _ _ _ _ _) as [[[]| |] fds4] eqn:E4;
    [|by intros ?%Hfail|done|done].
  unfold startHeartbeat, timer_start. rewrite orb_false_r. set (n4 := add_request _ _).
  destruct (Z.leb_spec (wc_heartbeat_interval (wn_config n4) * 1000) 0) as [Hle|_]; [by intros ?%Hfail|].
  destruct (se_timer_thread env); [|by intros ?%Hfail].
  intros [= <- <-]. specialize (H3 eq_refl). split_and!; try done.
  - split; [done|]. split; [done|]. split; [by exists t|]. exists p. split; [done|]. apply H3.
  - exists t. split; [done|]. intros Hf. apply registerWorker_fds in E4 as ->; [done|].
    eapply fresh_sockets_mono; [|exact Hf]. rewrite Hfds2, Hrun. destruct (Hfresh Hrun) as [_ ->]. done.
Qed.

(** A [start] that answers false. *)
Lemma node_start_false {addrinfo} (env : StartEnv addrinfo) fds n fds' n' :
  node_ok fds n -> node_down n -> ints_ok (wn_config n) -> env_fresh env fds ->
  node_start env fds n = Finished (false, fds', n') ->
  fds' = fds /\ node_ok fds' n' /\ node_down n' /\ same_work n n' /\
  (n' = n \/ tq_stopped (wn_task_queue n') = true).
Proof.
  intros Hok Hdown Hints (Hnew & Hf1 & Hf2). unfold node_start.
  pose proof Hdown as (Hr & Hti & Htr & Hpo). rewrite Hr.
  destruct (loadConfig _ _ _) as [config|what] eqn:Ecfg; [|intros [= <- <-]; split_and!; try done; by left].
  pose proof (loadConfig_sound _ _ _ _ Hints Ecfg) as Hcfg. cbv zeta.
  set (n1 := set_running true _).
  assert (Hok1 : node_ok fds n1) by (unfold node_ok in *; simpl; destruct (wn_transport n); naive_solver).
  destruct (startTaskServer_spec (se_sys env) fds n1 Hok1 Htr Hnew)
    as (r & fds2 & t & -> & Hport & Htok & Hrun & Hfresh & Hfds2).
  assert (Hsub : fds2 ⊆ fds ∪ {[sys_socket (se_sys env)]}).
  { rewrite Hfds2. destruct (tt_running t); [|set_solver]. destruct (Hfresh eq_refl) as [_ ->]. done. }
  assert (Hfail : forall m, start_failed (se_stop_net env) fds2 m = Finished (false, fds', n') ->
    wn_transport m = Some t -> same_work n m ->
    fds' = fds /\ node_ok fds' n' /\ node_down n' /\ same_work n n' /\
    (n' = n \/ tq_stopped (wn_task_queue n') = true)).
  { intros m Hs Em [Hq Ha]. eapply start_failed_spec in Hs as (_ & -> & H1 & H2 & [Hq' Ha'] & H3);
      [|done|done|by eapply fresh_sockets_mono|naive_solver|done].
    split_and!; auto. split; congruence. }
  destruct r as [[]|]; [|intros Hs; by apply (Hfail _ Hs)].
  destruct (startConsumers_spec (se_threads env) (set_tcp (Some t) n1)) as (r3 & p & -> & H3).
  { destruct Hcfg. simpl. lia. }
  destruct r3 as [[]|]; [|intros Hs; by apply (Hfail _ Hs)].
  unfold registerToScheduler. destruct (registerWorker _ _ _ _ _) as [[ok| |] fds4] eqn:E4; [|done|done].
  apply registerWorker_fds in E4 as ->; [|by eapply fresh_sockets_mono].
  destruct ok; [|intros Hs; by apply (Hfail _ Hs)].
  unfold startHeartbeat, timer_start. rewrite orb_false_r. set (n4 := add_request _ _).
  destruct (Z.leb_spec (wc_heartbeat_interval (wn_config n4) * 1000) 0) as [Hle|_];
    [intros Hs; by apply (Hfail _ Hs)|].
  destruct (se_timer_thread env); [done|]. intros Hs; by apply (Hfail _ Hs).
Qed.

(** A file that only sets the port. *)
Lemma load_port path port :
  (1 <= port <= INT_MAX)%Z ->
  loadConfig path (Some ("listen_port: " +:+ to_string port +:+ nl)) default_WorkerConfig =
    Ok (set_listen_port port default_WorkerConfig).
Proof.
  intros Hp. unfold loadConfig.
  change ("listen_port: " +:+ to_string port +:+ nl) with (setting "listen_port" (to_string port)).
  rewrite <- (sapp_nil_r (setting _ _)). rewrite load_setting by config_side.
  rewrite (assign_int "listen_port" set_listen_port), for_each_line_nil by config_side.
  apply check_config_ok. constructor; simpl; unfold INT_MAX in *; try done; lia.
Qed.

(** ** Properties *)

(** C21. [start] is all or nothing on a node that is down: if it answers true, the
    server listens on the configured port, every configured thread has its consumer,
    the timer runs, the configuration is valid, and exactly one registration was
    sent; if it answers false, nothing runs and no descriptor is left open, neither the
    listening socket nor a socket of the exchanges with the scheduler (the registration,
    and the heartbeat of the [stop] a failure leads to), also when the accept thread, a
    thread of the pool or the timer's thread cannot be created.  Queued and active tasks
    are never touched.  But unless the configuration was refused, a failed [start] has
    stopped the task queue. *)
Theorem node_start_all_or_nothing {addrinfo} (env : StartEnv addrinfo) (fds : gset Z)
    (n : WorkerNode) (ok : bool) (fds' : gset Z) (n' : WorkerNode) :
  node_ok fds n -> node_down n -> ints_ok (wn_config n) -> env_fresh env fds ->
  node_start env fds n = Finished (ok, fds', n') ->
  node_ok fds' n' /\ same_work n n' /\
  if ok then
    node_up n' /\ config_ok (wn_config n') /\ wn_task_queue n' = wn_task_queue n /\
    wn_requests n' = wn_requests n ++
      [Req_register (workerAddress n') (wc_threads (wn_config n'))]
  else
    fds' = fds /\ node_down n' /\ (n' = n \/ tq_stopped (wn_task_queue n') = true).
Proof.
  intros Hok Hdown Hints Hnew Hst. destruct ok.
  - destruct (node_start_true env fds n fds' n' Hok Hdown Hints (proj1 Hnew) Hst)
      as (Hup & H1 & H2 & H3 & H4 & t & Et & Ht). split_and!; try done; [|apply Hup..].
    unfold node_ok. rewrite Et. split; [apply Ht, Hnew|]. intros E. destruct Hup. congruence.
  - by destruct (node_start_false env fds n fds' n' Hok Hdown Hints Hnew Hst) as (-> & ? & ? & ? & ?).
Qed.

(** C39. A restarted worker is dead: if the queue was stopped before (by [stop], or by
    a [start] that failed half-way), a [start] that answers true and registers with
    the scheduler leaves a node that refuses every new task and whose consumers end
    at once. *)
Theorem restarted_node_refuses {addrinfo} (env : StartEnv addrinfo) (fds : gset Z)
    (n : WorkerNode) (fds' : gset Z) (n' : WorkerNode) :
  node_ok fds n -> node_down n -> ints_ok (wn_config n) -> sys_socket (se_sys env) ∉ fds ->
  tq_stopped (wn_task_queue n) = true ->
  node_start env fds n = Finished (true, fds', n') ->
  node_up n' /\ (forall net : Net addrinfo, consume_one net fds' n' = None) /\
  forall task, t_id task ∉ wn_active_task_ids n' ->
    (enqueueTask task n').1 = false /\
    tq_queue (wn_task_queue (enqueueTask task n').2) = tq_queue (wn_task_queue n').
Proof.
  intros Hok Hdown Hints Hnew Hs Hst.
  destruct (node_start_true env fds n fds' n' Hok Hdown Hints Hnew Hst) as (Hup & _ & Hq & _).
  split; [done|]. split.
  - intros net. unfold consume_one. rewrite (proj1 Hup), Hq. unfold waitPop. by rewrite Hs.
  - intros task Ht. unfold enqueueTask, mark_active. rewrite decide_False by done.
    unfold push_marked, tq_push. simpl. rewrite Hq, Hs. done.
Qed.

(** C40. The advertised port: a node that started has bound its configured port modulo 2^16
    and has registered the configured port itself with the scheduler, so the two agree
    exactly for ports below 65536.  Yet every positive [int] is accepted as a port: the
    configuration file that sets it loads. *)
Theorem advertised_port {addrinfo} (env : StartEnv addrinfo) (fds : gset Z)
    (n : WorkerNode) (fds' : gset Z) (n' : WorkerNode) :
  node_ok fds n -> node_down n -> ints_ok (wn_config n) -> sys_socket (se_sys env) ∉ fds ->
  node_start env fds n = Finished (true, fds', n') ->
  (exists t, wn_transport n' = Some t /\ tt_running t = true /\
     last (wn_requests n') = Some (Req_register
       ("127.0.0.1:" +:+ to_string (wc_listen_port (wn_config n'))) (wc_threads (wn_config n'))) /\
     bound_port t = (wc_listen_port (wn_config n') mod 2 ^ 16)%Z /\
     (bound_port t = wc_listen_port (wn_config n') <-> (wc_listen_port (wn_config n') < 2 ^ 16)%Z)) /\
  (forall port, (1 <= port <= INT_MAX)%Z ->
     exists config, loadConfig (wn_config_path n)
       (Some ("listen_port: " +:+ to_string port +:+ nl)) default_WorkerConfig = Ok config /\
       wc_listen_port config = port).
Proof.
  intros Hok Hdown Hints Hnew Hst. split.
  - destruct (node_start_true env fds n fds' n' Hok Hdown Hints Hnew Hst)
      as ((_ & _ & (t & Et & Hrun & Hp) & _) & Hcfg & _ & _ & Hreq & _).
    exists t. unfold bound_port, u16. rewrite Hp. destruct Hcfg as [_ Hport _ _ _].
    pose proof (Z.mod_pos_bound (wc_listen_port (wn_config n')) (2 ^ 16)).
    split_and!; [done|done|by rewrite Hreq, last_snoc|done|].
    split; [lia|]. intros H1. apply Z.mod_small. lia.
  - intros port Hport. eexists. split; [by apply load_port|done].
Qed.

(** ** Witnesses *)

(** A system in which everything succeeds; the file sets the port and the number of
    threads. *)
Definition sample_file (port : string) : string :=
  "listen_port: " +:+ port +:+ nl +:+ "threads: 2" +:+ nl.

Definition sample_scheduler : Net unit :=
  mkNet (fun _ _ => Finished [tt]) (fun _ => 9%Z) (fun _ => Finished tt)
    (fun _ => [Wrote 120; Wrote 120])
    (fun _ => [Received ("HTTP/1.1 201 Created" +:+ crlf); Received ""]).

Definition sample_env (port : string) : StartEnv unit :=
  mkStartEnv (Some (sample_file port)) (mkSys 5 0 (fun _ => 0%Z) 0 true) 8 sample_scheduler true
    sample_scheduler.

(** The descriptors and the node after a start. *)
Definition after_start (env : StartEnv unit) (fds : gset Z) (n : WorkerNode) : gset Z * WorkerNode :=
  match node_start env fds n with
  | Finished (_, fds', n') => (fds', n')
  | _ => (fds, n)
  end.

Definition started (port : string) : gset Z * WorkerNode :=
  after_start (sample_env port) ∅ (new_WorkerNode "c").

Lemma fresh_start (env : StartEnv unit) :
  sys_socket (se_sys env) = 5%Z -> se_net env = sample_scheduler -> se_stop_net env = sample_scheduler ->
  env_fresh env ∅.
Proof.
  unfold env_fresh, fresh_sockets. intros -> -> ->. split_and!; [set_solver|..]; intros a _; simpl; set_solver.
Qed.

Lemma new_node_ok : node_ok ∅ (new_WorkerNode "c") /\ node_down (new_WorkerNode "c") /\
  ints_ok (wn_config (new_WorkerNode "c")).
Proof. split_and!; try done; unfold INT_MIN, INT_MAX; simpl; lia. Qed.

(** The timer's thread cannot be created: everything is taken down again. *)
Lemma node_start_all_or_nothing_witness :
  node_up (started "9001").2 /\
  let env := mkStartEnv (Some (sample_file "9001")) (mkSys 5 0 (fun _ => 0%Z) 0 true) 8 sample_scheduler
               false sample_scheduler in
  (after_start env ∅ (new_WorkerNode "c")).1 = ∅ /\ node_down (after_start env ∅ (new_WorkerNode "c")).2.
Proof.
  destruct new_node_ok as (H1 & H2 & H3). split.
  - assert (E : node_start (sample_env "9001") ∅ (new_WorkerNode "c") =
      Finished (true, (started "9001").1, (started "9001").2)) by (vm_compute; reflexivity).
    exact (proj1 (proj2 (proj2 (node_start_all_or_nothing _ _ _ true _ _ H1 H2 H3
      (fresh_start (sample_env "9001") eq_refl eq_refl eq_refl) E)))).
  - intros env.
    assert (E : node_start env ∅ (new_WorkerNode "c") = Finished (false,
      (after_start env ∅ (new_WorkerNode "c")).1, (after_start env ∅ (new_WorkerNode "c")).2))
      by (vm_compute; reflexivity).
    destruct (node_start_all_or_nothing _ _ _ false _ _ H1 H2 H3
      (fresh_start env eq_refl eq_refl eq_refl) E) as (_ & _ & H4 & H5 & _).
    split; [exact H4 | exact H5].
Defined.

Lemma advertised_port_witness :
  exists t, wn_transport (started "70000").2 = Some t /\ bound_port t = (70000 mod 2 ^ 16)%Z.
Proof.
  assert (E : node_start (sample_env "70000") ∅ (new_WorkerNode "c") =
    Finished (true, (started "70000").1, (started "70000").2)) by (vm_compute; reflexivity).
  destruct new_node_ok as (H1 & H2 & H3).
  destruct (advertised_port _ _ _ _ _ H1 H2 H3
    (proj1 (fresh_start (sample_env "70000") eq_refl eq_refl eq_refl)) E) as ((t & Et & _ & _ & Hb & _) & _).
  exists t. split; [exact Et|]. rewrite Hb. vm_compute. reflexivity.
Defined.

(** The node after a stop, started again. *)
Definition stopped_node : WorkerNode :=
  match node_stop sample_scheduler (started "9001").1 (started "9001").2 with
  | Finished (_, n) => n
  | _ => (started "9001").2
  end.

Lemma restarted_node_refuses_witness :
  (enqueueTask (mkTask "u" "p") (after_start (sample_env "9001") ∅ stopped_node).2).1 = false.
Proof.
  assert (E : node_start (sample_env "9001") ∅ stopped_node =
    Finished (true, (after_start (sample_env "9001") ∅ stopped_node).1,
              (after_start (sample_env "9001") ∅ stopped_node).2)) by (vm_compute; reflexivity).
  assert (H1 : node_ok ∅ stopped_node)
    by (vm_compute; split; [split; reflexivity | intros _; reflexivity]).
  assert (H2 : node_down stopped_node) by (vm_compute; repeat split; reflexivity).
  assert (Ec : wn_config stopped_node = mkWorkerConfig "worker-1" 9001 "127.0.0.1:8080" 5 2)
    by (vm_compute; reflexivity).
  assert (H3 : ints_ok (wn_config stopped_node)).
  { rewrite Ec. unfold ints_ok, int_range, INT_MIN, INT_MAX. simpl. lia. }
  assert (H4 : sys_socket (se_sys (sample_env "9001")) ∉ (∅ : gset Z)) by apply not_elem_of_empty.
  assert (H5 : tq_stopped (wn_task_queue stopped_node) = true) by (vm_compute; reflexivity).
  destruct (restarted_node_refuses _ _ _ _ _ H1 H2 H3 H4 H5 E) as (_ & _ & H).
  apply (H (mkTask "u" "p")).
  apply (bool_decide_eq_true_1 (t_id (mkTask "u" "p") ∉
    wn_active_task_ids (after_start (sample_env "9001") ∅ stopped_node).2)).
  vm_compute. reflexivity.
Defined.
