(* ===== verification/NodeThreads.v ===== *)
(** * The threads of the worker node

    worker_node.cpp with the threads it starts: the accept thread of the task
    server, the consumers on the thread pool, the heartbeat timer, and the caller
    of [start] and [stop].  An operation is split wherever the code reads an atomic
    flag, releases a mutex, waits for another thread or waits for the scheduler, so
    that a run of the step relation is an interleaving of the program.  Steps that need
    something from outside (an answer of the scheduler, a client, the clock, a call)
    are labelled apart from those the program takes by itself. *)

From S2P Require Import Prelude CppString CppNumber WorkerConfig WorkerTask SchedulerClient.
From S2P Require Import TcpTransport TaskQueue ThreadPool Timer WorkerNode.

(** ** The parts of stop and start *)

(** What [stop] does after it has cleared [running_], in order.  The joins of the
    timer, the accept thread and the pool wait for these threads; the last heartbeat is
    an exchange with the scheduler, and [stop] waits for its end. *)
Inductive stop_action :=
| StopTimer | JoinTimer | LastHeartbeat | AwaitAnswer | StopServer | JoinServer | StopQueue
| StopPool | JoinPool | NotifyRun.

Instance stop_action_eq_dec : EqDecision stop_action.
Proof. solve_decision. Defined.

Definition stop_actions (was_running : bool) : list stop_action :=
  [StopTimer; JoinTimer] ++ (if was_running then [LastHeartbeat; AwaitAnswer] else []) ++
  [StopServer; JoinServer; StopQueue; StopPool; JoinPool; NotifyRun].

(** [if (transport_)]. *)
Definition on_transport (f : gset Z -> TcpTransport -> gset Z * TcpTransport)
    (fds : gset Z) (n : WorkerNode) : gset Z * WorkerNode :=
  match wn_transport n with
  | None => (fds, n)
  | Some t => let '(fds', t') := f fds t in (fds', set_tcp (Some t') n)
  end.

Definition stop_do (a : stop_action) (fds : gset Z) (n : WorkerNode) : gset Z * WorkerNode :=
  match a with
  | StopTimer => (fds, set_timer (timer_clear (wn_heartbeat_timer n)) n)
  | JoinTimer => (fds, set_timer (timer_join (wn_heartbeat_timer n)) n)
  | LastHeartbeat => (fds, add_request (Req_heartbeat 0 []) n)
  | AwaitAnswer => (fds, n)
  | StopServer => on_transport tcp_shutdown fds n
  | JoinServer => on_transport tcp_join fds n
  | StopQueue => (fds, set_task_queue (tq_stop (wn_task_queue n)) n)
  | StopPool => (fds, set_pool (tp_signal <$> wn_thread_pool n) n)
  | JoinPool => (fds, set_pool (tp_stop <$> wn_thread_pool n) n)
  | NotifyRun => (fds, n)
  end.

(** What [start] does once the configuration is loaded, in order. *)
Inductive start_action := StartServer | StartConsumers | RegisterWorker | StartTimer.

Definition start_actions : list start_action :=
  [StartServer; StartConsumers; RegisterWorker; StartTimer].

(** [start] up to the [try] block: [None] where the configuration is refused. *)
Definition start_configure (file : option string) (n : WorkerNode) : option WorkerNode :=
  match loadConfig (wn_config_path n) file (wn_config n) with
  | Throw _ => None
  | Ok config =>
      let n0 := set_config config n in
      Some (set_running true
              (set_scheduler_client
                 (configure (wc_scheduler_addr config) (wc_worker_id config)
                    (wn_scheduler_client n0)) n0))
  end.

Definition start_do {addrinfo} (env : StartEnv addrinfo) (a : start_action) (fds : gset Z)
    (n : WorkerNode) : io (outcome unit * gset Z * WorkerNode) :=
  match a with
  | StartServer => Finished (startTaskServer (se_sys env) fds n)
  | StartConsumers =>
      let '(r, n') := startConsumers (se_threads env) n in Finished (r, fds, n')
  | RegisterWorker =>
      let '(answer, fds', n') := registerToScheduler (se_net env) fds n in
      match answer with
      | Finished r => Finished (r, fds', n')
      | Failed => Failed
      | Waiting => Waiting
      end
  | StartTimer =>
      let '(r, n') := startHeartbeat (se_timer_thread env) n in Finished (r, fds, n')
  end.

(** ** Where the threads are *)

(** The accept thread: not there, before the test of [acceptLoop], in [accept], in
    the receive loop of [handleClient], or in the handler: called, past its test of
    [running_], or past the insertion into the active set. *)
Inductive accept_pc :=
| AcNone | AcLoop | AcAccepting | AcReading
| AcDispatch (task : Task) | AcAdmitted (task : Task) | AcMarked (task : Task).

(** The timer's thread: not there, waiting, or in the timer's function: called,
    reading the two arguments of the heartbeat in an order the compiler chooses,
    waiting for the scheduler in [sendHeartbeat], or returned. *)
Inductive beat_pc :=
| BtNone | BtWait | BtCall | BtReads (count : option Z) (ids : option (list string))
| BtSending (count : Z) (ids : list string) | BtReturn.

(** A consumer: before its test of [running_], in [waitPop], with a task, with a task
    and its result, waiting for the scheduler in [reportResult], or with a task it has
    reported. *)
Inductive consumer_pc :=
| CsLoop | CsWait | CsTask (task : Task) | CsExecuted (task : Task) (result : TaskResult)
| CsReporting (task : Task) (result : TaskResult) | CsReported (task : Task).

Instance accept_pc_eq_dec : EqDecision accept_pc.
Proof. solve_decision. Defined.

Instance beat_pc_eq_dec : EqDecision beat_pc.
Proof. solve_decision. Defined.

Instance consumer_pc_eq_dec : EqDecision consumer_pc.
Proof. solve_decision. Defined.

(** The descriptors are those of the process without the sockets of the clients and of
    the exchanges under way: an exchange opens and closes its socket on the way from the
    state before it to the state after it. *)
Record NodeRun := mkNodeRun {
  nr_node : WorkerNode;
  nr_fds : gset Z;                    (* the process's descriptors *)
  nr_accept : accept_pc;
  nr_timer : beat_pc;
  nr_consumers : list consumer_pc;
  nr_start : list start_action;       (* what a [start] under way has left to do *)
  nr_stop : list stop_action;         (* what a [stop] under way has left to do *)
  nr_pushed : list Task;              (* history: accepted by the queue, in order *)
  nr_reported : list Task;            (* history: executed and sent to the scheduler, in order *)
}.

Definition fresh_run (config_path : string) (fds : gset Z) : NodeRun :=
  mkNodeRun (new_WorkerNode config_path) fds AcNone BtNone [] [] [] [] [].

Definition with_node (n : WorkerNode) (r : NodeRun) : NodeRun :=
  mkNodeRun n (nr_fds r) (nr_accept r) (nr_timer r) (nr_consumers r) (nr_start r) (nr_stop r)
    (nr_pushed r) (nr_reported r).
Definition with_fds (fds : gset Z) (r : NodeRun) : NodeRun :=
  mkNodeRun (nr_node r) fds (nr_accept r) (nr_timer r) (nr_consumers r) (nr_start r) (nr_stop r)
    (nr_pushed r) (nr_reported r).
Definition with_accept (pc : accept_pc) (r : NodeRun) : NodeRun :=
  mkNodeRun (nr_node r) (nr_fds r) pc (nr_timer r) (nr_consumers r) (nr_start r) (nr_stop r)
    (nr_pushed r) (nr_reported r).
Definition with_timer (pc : beat_pc) (r : NodeRun) : NodeRun :=
  mkNodeRun (nr_node r) (nr_fds r) (nr_accept r) pc (nr_consumers r) (nr_start r) (nr_stop r)
    (nr_pushed r) (nr_reported r).
Definition with_consumers (cs : list consumer_pc) (r : NodeRun) : NodeRun :=
  mkNodeRun (nr_node r) (nr_fds r) (nr_accept r) (nr_timer r) cs (nr_start r) (nr_stop r)
    (nr_pushed r) (nr_reported r).
Definition with_start (l : list start_action) (r : NodeRun) : NodeRun :=
  mkNodeRun (nr_node r) (nr_fds r) (nr_accept r) (nr_timer r) (nr_consumers r) l (nr_stop r)
    (nr_pushed r) (nr_reported r).
Definition with_stop (l : list stop_action) (r : NodeRun) : NodeRun :=
  mkNodeRun (nr_node r) (nr_fds r) (nr_accept r) (nr_timer r) (nr_consumers r) (nr_start r) l
    (nr_pushed r) (nr_reported r).
Definition log_pushed (task : Task) (r : NodeRun) : NodeRun :=
  mkNodeRun (nr_node r) (nr_fds r) (nr_accept r) (nr_timer r) (nr_consumers r) (nr_start r)
    (nr_stop r) (nr_pushed r ++ [task]) (nr_reported r).
Definition log_reported (task : Task) (r : NodeRun) : NodeRun :=
  mkNodeRun (nr_node r) (nr_fds r) (nr_accept r) (nr_timer r) (nr_consumers r) (nr_start r)
    (nr_stop r) (nr_pushed r) (nr_reported r ++ [task]).

(** The flags the threads read. *)
Definition server_running (r : NodeRun) : bool :=
  match wn_transport (nr_node r) with Some t => tt_running t | None => false end.

Definition timer_running (r : NodeRun) : bool := ti_running (wn_heartbeat_timer (nr_node r)).

Definition node_running (r : NodeRun) : bool := wn_running (nr_node r).

Definition pool_jobs (r : NodeRun) : list consumer :=
  match wn_thread_pool (nr_node r) with Some p => tp_tasks p | None => [] end.

(** A join returns once the thread is gone: the pool's workers once every job has
    been taken and has returned.  The end of the last heartbeat is the scheduler's. *)
Definition stop_ready (a : stop_action) (r : NodeRun) : Prop :=
  match a with
  | AwaitAnswer => False
  | JoinTimer => nr_timer r = BtNone
  | JoinServer => nr_accept r = AcNone
  | JoinPool => nr_consumers r = [] /\ pool_jobs r = []
  | _ => True
  end.

(** The thread a successful part of [start] creates. *)
Definition spawn (a : start_action) (r : NodeRun) : NodeRun :=
  match a with
  | StartServer => with_accept AcLoop r
  | StartTimer => with_timer BtWait r
  | _ => r
  end.

(** [running_.exchange(false)] and the rest of [stop] to come. *)
Definition begin_stop (r : NodeRun) : NodeRun :=
  with_stop (stop_actions (node_running r)) (with_node (set_running false (nr_node r)) r).

(** ** Steps *)

(** Steps the program takes by itself; ends of exchanges with the scheduler, which has
    answered, closed the connection or been found unreachable ([postJSON] has no timeout,
    so such a step may never come); steps that need a client or the clock; and calls of
    [start] and [stop] (with the parts of [start], which need the system and the
    scheduler). *)
Inductive label := Internal | Answer | Input | Call.

Instance label_eq_dec : EqDecision label.
Proof. solve_decision. Defined.

Inductive node_step : label -> NodeRun -> NodeRun -> Prop :=
(** The accept thread. *)
| ns_accept_test r :
    nr_accept r = AcLoop ->
    node_step Internal r (with_accept (if server_running r then AcAccepting else AcNone) r)
| ns_accept_ended r :
    nr_accept r = AcAccepting -> server_running r = false ->
    node_step Internal r (with_accept AcNone r)
| ns_accept_error r :
    nr_accept r = AcAccepting -> server_running r = true ->
    node_step Input r (with_accept AcLoop r)
| ns_accept_client r :
    nr_accept r = AcAccepting -> node_step Input r (with_accept AcReading r)
(** A receive that leaves [handleClient] in its loop. *)
| ns_recv_more r : nr_accept r = AcReading -> node_step Input r r
(** The one-second timeout of [recv] finds the server stopped. *)
| ns_recv_timeout r :
    nr_accept r = AcReading -> server_running r = false ->
    node_step Internal r (with_accept AcLoop r)
| ns_recv_nothing r events :
    nr_accept r = AcReading ->
    handleClient events = Failed \/ handleClient events = Finished Ignore \/
      (exists what, handleClient events = Finished (Reject what)) ->
    node_step Input r (with_accept AcLoop r)
| ns_recv_task r events task :
    nr_accept r = AcReading -> handleClient events = Finished (Handle task) ->
    node_step Input r (with_accept (AcDispatch task) r)
(** The handler. *)
| ns_handler_test r task :
    nr_accept r = AcDispatch task ->
    node_step Internal r (with_accept (if node_running r then AcAdmitted task else AcLoop) r)
| ns_mark r task inserted n' :
    nr_accept r = AcAdmitted task -> mark_active (t_id task) (nr_node r) = (inserted, n') ->
    node_step Internal r
      (with_accept (if inserted : bool then AcMarked task else AcLoop) (with_node n' r))
| ns_push r task ok n' :
    nr_accept r = AcMarked task -> push_marked task (nr_node r) = (ok, n') ->
    node_step Internal r
      ((if ok : bool then log_pushed task else id) (with_accept AcLoop (with_node n' r)))
(** The consumers: a worker of the pool takes its job, then the consumer's loop. *)
| ns_worker_turn r p p' :
    wn_thread_pool (nr_node r) = Some p -> length (nr_consumers r) < tp_threads p ->
    workerLoop_turn p = Run Consume p' ->
    node_step Internal r
      (with_consumers (CsLoop :: nr_consumers r) (with_node (set_pool (Some p') (nr_node r)) r))
| ns_consumer_test r c1 c2 :
    nr_consumers r = c1 ++ CsLoop :: c2 ->
    node_step Internal r (with_consumers (c1 ++ (if node_running r then [CsWait] else []) ++ c2) r)
| ns_take r c1 c2 task q' :
    nr_consumers r = c1 ++ CsWait :: c2 -> waitPop (wn_task_queue (nr_node r)) = (Some task, q') ->
    node_step Internal r
      (with_consumers (c1 ++ CsTask task :: c2) (with_node (set_task_queue q' (nr_node r)) r))
| ns_leave r c1 c2 :
    nr_consumers r = c1 ++ CsWait :: c2 -> tq_stopped (wn_task_queue (nr_node r)) = true ->
    node_step Internal r (with_consumers (c1 ++ c2) r)
| ns_execute r c1 c2 task :
    nr_consumers r = c1 ++ CsTask task :: c2 ->
    node_step Internal r (with_consumers (c1 ++ CsExecuted task (execute task) :: c2) r)
| ns_report r c1 c2 task result :
    nr_consumers r = c1 ++ CsExecuted task result :: c2 ->
    node_step Internal r
      (log_reported task (with_consumers (c1 ++ CsReporting task result :: c2)
         (with_node (add_request (Req_result result) (nr_node r)) r)))
| ns_report_answered r c1 c2 task result addrinfo (net : Net addrinfo) ok fds' :
    nr_consumers r = c1 ++ CsReporting task result :: c2 -> fresh_sockets net (nr_fds r) ->
    reportResult net (nr_fds r) result (wn_scheduler_client (nr_node r)) = (Finished ok, fds') ->
    node_step Answer r (with_consumers (c1 ++ CsReported task :: c2) (with_fds fds' r))
| ns_finish r c1 c2 task :
    nr_consumers r = c1 ++ CsReported task :: c2 ->
    node_step Internal r
      (with_consumers (c1 ++ CsLoop :: c2) (with_node (finishTask (t_id task) (nr_node r)) r))
(** The timer. *)
| ns_tick r :
    nr_timer r = BtWait -> timer_running r = true -> node_step Input r (with_timer BtCall r)
| ns_timer_leave r :
    nr_timer r = BtWait -> timer_running r = false -> node_step Internal r (with_timer BtNone r)
| ns_beat_test r :
    nr_timer r = BtCall ->
    node_step Internal r (with_timer (if node_running r then BtReads None None else BtReturn) r)
| ns_beat_count r ids :
    nr_timer r = BtReads None ids ->
    node_step Internal r (with_timer (BtReads (Some (runningTaskCount (nr_node r))) ids) r)
| ns_beat_ids r count :
    nr_timer r = BtReads count None ->
    node_step Internal r (with_timer (BtReads count (Some (snapshotActiveTaskIDs (nr_node r)))) r)
| ns_beat_send r count ids :
    nr_timer r = BtReads (Some count) (Some ids) ->
    node_step Internal r
      (with_timer (BtSending count ids) (with_node (add_request (Req_heartbeat count ids) (nr_node r)) r))
| ns_beat_answered r count ids addrinfo (net : Net addrinfo) ok fds' :
    nr_timer r = BtSending count ids -> fresh_sockets net (nr_fds r) ->
    sendHeartbeat net (nr_fds r) count ids (wn_scheduler_client (nr_node r)) = (Finished ok, fds') ->
    node_step Answer r (with_timer BtReturn (with_fds fds' r))
| ns_beat_return r :
    nr_timer r = BtReturn ->
    node_step Internal r (with_timer (if timer_running r then BtWait else BtNone) r)
(** [stop]: the call, and its parts. *)
| ns_call_stop r :
    nr_start r = [] -> nr_stop r = [] -> node_step Call r (begin_stop r)
| ns_stop_part r a rest fds' n' :
    nr_stop r = a :: rest -> stop_ready a r -> stop_do a (nr_fds r) (nr_node r) = (fds', n') ->
    node_step Internal r (with_stop rest (with_fds fds' (with_node n' r)))
| ns_stop_answered r rest addrinfo (net : Net addrinfo) ok fds' :
    nr_stop r = AwaitAnswer :: rest -> fresh_sockets net (nr_fds r) ->
    sendHeartbeat net (nr_fds r) 0 [] (wn_scheduler_client (nr_node r)) = (Finished ok, fds') ->
    node_step Answer r (with_stop rest (with_fds fds' r))
(** [start] on a node that does not run: the call, its parts, and the exception
    handler.  Otherwise, and if the configuration is refused, it changes nothing.
    The system does not hand out a descriptor that is open. *)
| ns_call_start r file n' :
    nr_start r = [] -> nr_stop r = [] -> node_running r = false ->
    start_configure file (nr_node r) = Some n' ->
    node_step Call r (with_start start_actions (with_node n' r))
| ns_start_part r a rest addrinfo (env : StartEnv addrinfo) fds' n' :
    nr_start r = a :: rest -> sys_socket (se_sys env) ∉ nr_fds r ->
    fresh_sockets (se_net env) (nr_fds r) ->
    start_do env a (nr_fds r) (nr_node r) = Finished (Ok tt, fds', n') ->
    node_step Call r (spawn a (with_start rest (with_fds fds' (with_node n' r))))
| ns_start_failed r a rest addrinfo (env : StartEnv addrinfo) what fds' n' :
    nr_start r = a :: rest -> sys_socket (se_sys env) ∉ nr_fds r ->
    fresh_sockets (se_net env) (nr_fds r) ->
    start_do env a (nr_fds r) (nr_node r) = Finished (Throw what, fds', n') ->
    node_step Call r (begin_stop (with_start [] (with_fds fds' (with_node n' r)))).

(** A step of any kind. *)
Definition any_step (r r' : NodeRun) : Prop := exists l, node_step l r r'.

(** ** Running the threads *)

(** A schedule: which thread takes its next step, and what comes from outside.
    Consumers are named by their position. *)
Inductive move :=
| MAccept                             (* the accept thread's own next step *)
| MAcceptError | MClient | MRecvMore | MRecv (events : list client_event)
| MWorker | MConsumer (k : nat)
| MTick | MTimer | MCount | MIds
| MStop | MStopPart
(** An exchange of a consumer, of the timer or of [stop] ends. *)
| MReported (k : nat) (net : Net unit) | MBeaten (net : Net unit) | MStopBeaten (net : Net unit)
| MStart (file : option string) | MStartPart (env : StartEnv unit).

Definition accept_move (r : NodeRun) : option NodeRun :=
  match nr_accept r with
  | AcNone => None
  | AcLoop => Some (with_accept (if server_running r then AcAccepting else AcNone) r)
  | AcAccepting => if server_running r then None else Some (with_accept AcNone r)
  | AcReading => if server_running r then None else Some (with_accept AcLoop r)
  | AcDispatch task => Some (with_accept (if node_running r then AcAdmitted task else AcLoop) r)
  | AcAdmitted task =>
      let '(inserted, n') := mark_active (t_id task) (nr_node r) in
      Some (with_accept (if inserted : bool then AcMarked task else AcLoop) (with_node n' r))
  | AcMarked task =>
      let '(ok, n') := push_marked task (nr_node r) in
      Some ((if ok : bool then log_pushed task else id) (with_accept AcLoop (with_node n' r)))
  end.

Definition consumer_move (k : nat) (r : NodeRun) : option NodeRun :=
  let put cs := with_consumers (take k (nr_consumers r) ++ cs ++ drop (S k) (nr_consumers r)) in
  match nr_consumers r !! k with
  | None => None
  | Some CsLoop => Some (put (if node_running r then [CsWait] else []) r)
  | Some CsWait =>
      match waitPop (wn_task_queue (nr_node r)) with
      | (Some task, q') => Some (put [CsTask task] (with_node (set_task_queue q' (nr_node r)) r))
      | (None, _) => if tq_stopped (wn_task_queue (nr_node r)) then Some (put [] r) else None
      end
  | Some (CsTask task) => Some (put [CsExecuted task (execute task)] r)
  | Some (CsExecuted task result) =>
      Some (log_reported task
              (put [CsReporting task result] (with_node (add_request (Req_result result) (nr_node r)) r)))
  | Some (CsReporting _ _) => None
  | Some (CsReported task) =>
      Some (put [CsLoop] (with_node (finishTask (t_id task) (nr_node r)) r))
  end.

(** The sockets of the exchange are not open. *)
Definition free_net (net : Net unit) (fds : gset Z) : bool :=
  (net_socket net tt <? 0)%Z || bool_decide (net_socket net tt ∉ fds).

Definition reported_move (k : nat) (net : Net unit) (r : NodeRun) : option NodeRun :=
  match nr_consumers r !! k, free_net net (nr_fds r) with
  | Some (CsReporting task result), true =>
      match reportResult net (nr_fds r) result (wn_scheduler_client (nr_node r)) with
      | (Finished _, fds') =>
          Some (with_consumers (take k (nr_consumers r) ++ CsReported task :: drop (S k) (nr_consumers r))
                  (with_fds fds' r))
      | _ => None
      end
  | _, _ => None
  end.

Definition beaten_move (net : Net unit) (r : NodeRun) : option NodeRun :=
  match nr_timer r, free_net net (nr_fds r) with
  | BtSending count ids, true =>
      match sendHeartbeat net (nr_fds r) count ids (wn_scheduler_client (nr_node r)) with
      | (Finished _, fds') => Some (with_timer BtReturn (with_fds fds' r))
      | _ => None
      end
  | _, _ => None
  end.

Definition stop_beaten_move (net : Net unit) (r : NodeRun) : option NodeRun :=
  match nr_stop r, free_net net (nr_fds r) with
  | AwaitAnswer :: rest, true =>
      match sendHeartbeat net (nr_fds r) 0 [] (wn_scheduler_client (nr_node r)) with
      | (Finished _, fds') => Some (with_stop rest (with_fds fds' r))
      | _ => None
      end
  | _, _ => None
  end.

Definition timer_move (r : NodeRun) : option NodeRun :=
  match nr_timer r with
  | BtNone => None
  | BtWait => if timer_running r then None else Some (with_timer BtNone r)
  | BtCall => Some (with_timer (if node_running r then BtReads None None else BtReturn) r)
  | BtReads (Some count) (Some ids) =>
      Some (with_timer (BtSending count ids)
              (with_node (add_request (Req_heartbeat count ids) (nr_node r)) r))
  | BtReads _ _ | BtSending _ _ => None
  | BtReturn => Some (with_timer (if timer_running r then BtWait else BtNone) r)
  end.

Definition recv_move (events : list client_event) (r : NodeRun) : option NodeRun :=
  match nr_accept r, handleClient events with
  | AcReading, Finished (Handle task) => Some (with_accept (AcDispatch task) r)
  | AcReading, (Finished _ | Failed) => Some (with_accept AcLoop r)
  | _, _ => None
  end.

Instance stop_ready_dec a r : Decision (stop_ready a r).
Proof. destruct a; simpl; apply _. Defined.

Definition start_move (env : StartEnv unit) (r : NodeRun) : option NodeRun :=
  match nr_start r with
  | [] => None
  | a :: rest =>
      if decide (sys_socket (se_sys env) ∈ nr_fds r) then None
      else if negb (free_net (se_net env) (nr_fds r)) then None
      else
        match start_do env a (nr_fds r) (nr_node r) with
        | Finished (Ok _, fds', n') => Some (spawn a (with_start rest (with_fds fds' (with_node n' r))))
        | Finished (Throw _, fds', n') =>
            Some (begin_stop (with_start [] (with_fds fds' (with_node n' r))))
        | _ => None
        end
  end.

Definition do_move (m : move) (r : NodeRun) : option NodeRun :=
  match m with
  | MAccept => accept_move r
  | MAcceptError =>
      match nr_accept r with
      | AcAccepting => if server_running r then Some (with_accept AcLoop r) else None
      | _ => None
      end
  | MClient => match nr_accept r with AcAccepting => Some (with_accept AcReading r) | _ => None end
  | MRecvMore => match nr_accept r with AcReading => Some r | _ => None end
  | MRecv events => recv_move events r
  | MWorker =>
      match wn_thread_pool (nr_node r) with
      | None => None
      | Some p =>
          if length (nr_consumers r) <? tp_threads p then
            match workerLoop_turn p with
            | Run Consume p' =>
                Some (with_consumers (CsLoop :: nr_consumers r)
                        (with_node (set_pool (Some p') (nr_node r)) r))
            | _ => None
            end
          else None
      end
  | MConsumer k => consumer_move k r
  | MTick =>
      match nr_timer r with
      | BtWait => if timer_running r then Some (with_timer BtCall r) else None
      | _ => None
      end
  | MTimer => timer_move r
  | MCount =>
      match nr_timer r with
      | BtReads None ids => Some (with_timer (BtReads (Some (runningTaskCount (nr_node r))) ids) r)
      | _ => None
      end
  | MIds =>
      match nr_timer r with
      | BtReads count None =>
          Some (with_timer (BtReads count (Some (snapshotActiveTaskIDs (nr_node r)))) r)
      | _ => None
      end
  | MStop => match nr_start r, nr_stop r with [], [] => Some (begin_stop r) | _, _ => None end
  | MStopPart =>
      match nr_stop r with
      | [] => None
      | a :: rest =>
          if decide (stop_ready a r) then
            let '(fds', n') := stop_do a (nr_fds r) (nr_node r) in
            Some (with_stop rest (with_fds fds' (with_node n' r)))
          else None
      end
  | MReported k net => reported_move k net r
  | MBeaten net => beaten_move net r
  | MStopBeaten net => stop_beaten_move net r
  | MStart file =>
      match nr_start r, nr_stop r, node_running r with
      | [], [], false =>
          (fun n' => with_start start_actions (with_node n' r)) <$> start_configure file (nr_node r)
      | _, _, _ => None
      end
  | MStartPart env => start_move env r
  end.

Definition move_label (m : move) : label :=
  match m with
  | MAccept | MWorker | MConsumer _ | MTimer | MCount | MIds | MStopPart => Internal
  | MReported _ _ | MBeaten _ | MStopBeaten _ => Answer
  | MAcceptError | MClient | MRecvMore | MRecv _ | MTick => Input
  | MStop | MStart _ | MStartPart _ => Call
  end.

Fixpoint do_moves (ms : list move) (r : NodeRun) : option NodeRun :=
  match ms with
  | [] => Some r
  | m :: ms' => match do_move m r with Some r' => do_moves ms' r' | None => None end
  end.

(** ** Lemmas: schedules are runs *)

Lemma accept_move_sound r r' : accept_move r = Some r' -> node_step Internal r r'.
Proof.
  unfold accept_move. destruct (nr_accept r) as [| | | |task|task|task] eqn:E; [done|..].
  - intros [= <-]. by apply ns_accept_test.
  - destruct (server_running r) eqn:Es; [done|]. intros [= <-]. by apply ns_accept_ended.
  - destruct (server_running r) eqn:Es; [done|]. intros [= <-]. by apply ns_recv_timeout.
  - intros [= <-]. by apply ns_handler_test.
  - destruct (mark_active _ _) eqn:Em. intros [= <-]. by eapply ns_mark.
  - destruct (push_marked _ _) eqn:Em. intros [= <-]. by eapply ns_push.
Qed.

Lemma consumer_move_sound k r r' : consumer_move k r = Some r' -> node_step Internal r r'.
Proof.
  unfold consumer_move. destruct (nr_consumers r !! k) as [c|] eqn:Ek; [|done].
  apply take_drop_middle in Ek. symmetry in Ek. destruct c as [| |task|task result|task result|task].
  - intros [= <-]. by apply ns_consumer_test.
  - destruct (waitPop _) as [[task|] q'] eqn:Ew; [intros [= <-]; by eapply ns_take|].
    destruct (tq_stopped _) eqn:Es; [|done]. intros [= <-]. by apply ns_leave.
  - intros [= <-]. by apply ns_execute.
  - intros [= <-]. by apply ns_report.
  - done.
  - intros [= <-]. by apply ns_finish.
Qed.

Lemma timer_move_sound r r' : timer_move r = Some r' -> node_step Internal r r'.
Proof.
  unfold timer_move. destruct (nr_timer r) as [| | |[count|] [ids|]|count ids|] eqn:E; try done.
  - destruct (timer_running r) eqn:Es; [done|]. intros [= <-]. by apply ns_timer_leave.
  - intros [= <-]. by apply ns_beat_test.
  - intros [= <-]. by apply ns_beat_send.
  - intros [= <-]. by apply ns_beat_return.
Qed.

Lemma free_net_fresh net fds : free_net net fds = true -> fresh_sockets net fds.
Proof.
  unfold free_net, fresh_sockets. intros [H%Z.ltb_lt|H%bool_decide_eq_true]%orb_true_iff [] Ha; [lia|done].
Qed.

Lemma reported_move_sound k net r r' : reported_move k net r = Some r' -> node_step Answer r r'.
Proof.
  unfold reported_move. destruct (nr_consumers r !! k) as [c|] eqn:Ek; [|done].
  apply take_drop_middle in Ek. symmetry in Ek. destruct c; try done.
  destruct (free_net _ _) eqn:Ef; [|done]. destruct (reportResult _ _ _ _) as [[ok| |] fds'] eqn:E; try done.
  intros [= <-]. eapply ns_report_answered; eauto using free_net_fresh.
Qed.

Lemma beaten_move_sound net r r' : beaten_move net r = Some r' -> node_step Answer r r'.
Proof.
  unfold beaten_move. destruct (nr_timer r) eqn:Et; try done. destruct (free_net _ _) eqn:Ef; [|done].
  destruct (sendHeartbeat _ _ _ _ _) as [[ok| |] fds'] eqn:E; try done.
  intros [= <-]. eapply ns_beat_answered; eauto using free_net_fresh.
Qed.

Lemma stop_beaten_move_sound net r r' : stop_beaten_move net r = Some r' -> node_step Answer r r'.
Proof.
  unfold stop_beaten_move. destruct (nr_stop r) as [|[] rest] eqn:Et; try done.
  destruct (free_net _ _) eqn:Ef; [|done].
  destruct (sendHeartbeat _ _ _ _ _) as [[ok| |] fds'] eqn:E; try done.
  intros [= <-]. eapply ns_stop_answered; eauto using free_net_fresh.
Qed.

Lemma recv_move_sound events r r' : recv_move events r = Some r' -> node_step Input r r'.
Proof.
  unfold recv_move. destruct (nr_accept r) eqn:E; try done.
  destruct (handleClient events) as [[|what|task]| |] eqn:Eh; try done; intros [= <-];
    eauto using ns_recv_task; (eapply ns_recv_nothing; [done|eauto]).
Qed.

Lemma start_move_sound env r r' : start_move env r = Some r' -> node_step Call r r'.
Proof.
  unfold start_move. destruct (nr_start r) as [|a rest] eqn:E; [done|]. case_decide; [done|].
  destruct (free_net _ _) eqn:Ef; [|done]. apply free_net_fresh in Ef. cbn [negb].
  destruct (start_do _ _ _ _) as [[[[[]|what] fds'] n']| |] eqn:Ed; try done; intros [= <-].
  - by eapply ns_start_part.
  - by eapply ns_start_failed.
Qed.

Lemma do_move_sound m r r' : do_move m r = Some r' -> node_step (move_label m) r r'.
Proof.
  destruct m; simpl.
  - by apply accept_move_sound.
  - destruct (nr_accept r) eqn:E; try done. destruct (server_running r) eqn:Es; [|done].
    intros [= <-]. by apply ns_accept_error.
  - destruct (nr_accept r) eqn:E; try done. intros [= <-]. by apply ns_accept_client.
  - destruct (nr_accept r) eqn:E; try done. intros [= <-]. by apply ns_recv_more.
  - by apply recv_move_sound.
  - destruct (wn_thread_pool _) as [p|] eqn:Ep; [|done]. destruct (Nat.ltb_spec (length (nr_consumers r)) (tp_threads p)); [|done].
    destruct (workerLoop_turn p) as [|[] p'|] eqn:Et; try done. intros [= <-]. by eapply ns_worker_turn.
  - by apply consumer_move_sound.
  - destruct (nr_timer r) eqn:E; try done. destruct (timer_running r) eqn:Es; [|done].
    intros [= <-]. by apply ns_tick.
  - by apply timer_move_sound.
  - destruct (nr_timer r) as [| | |[count|] ids|count ids|] eqn:E; try done. intros [= <-]. by apply ns_beat_count.
  - destruct (nr_timer r) as [| | |count [ids|]|count ids|] eqn:E; try done. intros [= <-]. by apply ns_beat_ids.
  - destruct (nr_start r) eqn:E1, (nr_stop r) eqn:E2; try done. intros [= <-]. by apply ns_call_stop.
  - destruct (nr_stop r) as [|a rest] eqn:E; [done|]. case_decide; [|done].
    destruct (stop_do _ _ _) eqn:Ed. intros [= <-]. by eapply ns_stop_part.
  - by apply reported_move_sound.
  - by apply beaten_move_sound.
  - by apply stop_beaten_move_sound.
  - destruct (nr_start r) eqn:E1, (nr_stop r) eqn:E2, (node_running r) eqn:E3; try done.
    destruct (start_configure _ _) eqn:Ec; [|done]. intros [= <-]. by eapply ns_call_start.
  - by apply start_move_sound.
Qed.

Lemma do_moves_sound ms r r' : do_moves ms r = Some r' -> rtc any_step r r'.
Proof.
  revert r. induction ms as [|m ms IH]; intros r; simpl; [by intros [= <-]|].
  destruct (do_move m r) as [r1|] eqn:E; [|done]. intros H.
  eapply rtc_l; [eexists; by eapply do_move_sound|by apply IH].
Qed.

(** The steps the program takes by itself or with the scheduler's answers. *)
Definition own_step (r r' : NodeRun) : Prop := node_step Internal r r' \/ node_step Answer r r'.

Lemma do_moves_own ms r r' :
  Forall (fun m => move_label m = Internal \/ move_label m = Answer) ms -> do_moves ms r = Some r' ->
  rtc own_step r r'.
Proof.
  intros HF. revert r. induction HF as [|m ms Hm _ IH]; intros r; simpl; [by intros [= <-]|].
  destruct (do_move m r) as [r1|] eqn:E; [|done]. intros H. apply do_move_sound in E.
  eapply rtc_l; [|by apply IH]. destruct Hm as [Hm|Hm]; rewrite Hm in E; [by left|by right].
Qed.
