(* ===== verification/NodeProps.v ===== *)
(** * What the threads of the worker node guarantee

    The invariants of NodeThreads.v's step relation: the bookkeeping of tasks, the
    flags and threads through [start] and [stop], the measure that bounds the
    node's own steps; and the properties of all interleavings that follow. *)

From S2P Require Import Prelude CppString CppNumber WorkerConfig WorkerTask SchedulerClient.
From S2P Require Import TcpTransport TaskQueue ThreadPool Timer WorkerNode NodeThreads.

(** ** Bookkeeping *)

Definition accept_task (pc : accept_pc) : list Task :=
  match pc with AcMarked task => [task] | _ => [] end.

(** The tasks consumers execute, and those they report or have reported and not yet
    finished. *)
Definition executing (r : NodeRun) : list Task :=
  omap (fun c => match c with CsTask task | CsExecuted task _ => Some task | _ => None end)
    (nr_consumers r).

Definition finishing (r : NodeRun) : list Task :=
  omap (fun c => match c with CsReporting task _ | CsReported task => Some task | _ => None end)
    (nr_consumers r).

(** The result a consumer holds is that of its task. *)
Definition result_ok (c : consumer_pc) : Prop :=
  match c with
  | CsExecuted task result | CsReporting task result => result = execute task
  | _ => True
  end.

Definition queued (r : NodeRun) : list Task := tq_queue (wn_task_queue (nr_node r)).

(** The tasks in the node's hands. *)
Definition open_tasks (r : NodeRun) : list Task :=
  accept_task (nr_accept r) ++ queued r ++ executing r ++ finishing r.

(** The results among the requests. *)
Definition results_of (requests : list request) : list TaskResult :=
  omap (fun q => match q with Req_result result => Some result | _ => None end) requests.

(** Every id once, and the set holds exactly these ids. *)
Definition exactly (ids : list string) (active : gset string) : Prop :=
  NoDup ids /\ active = list_to_set ids.

Record node_inv (r : NodeRun) : Prop := {
  ni_active : exactly (t_id <$> open_tasks r) (wn_active_task_ids (nr_node r));
  ni_once : nr_pushed r ≡ₚ queued r ++ executing r ++ nr_reported r;
  ni_held : Forall result_ok (nr_consumers r);
  ni_results : results_of (wn_requests (nr_node r)) = execute <$> nr_reported r;
}.

(** ** The threads and the flags *)

(** Each kind of thread is gone and its owner at rest. *)
Definition timer_gone (r : NodeRun) : Prop :=
  nr_timer r = BtNone /\ wn_heartbeat_timer (nr_node r) = mkTimer false false.

Definition server_gone (r : NodeRun) : Prop :=
  nr_accept r = AcNone /\
  match wn_transport (nr_node r) with
  | None => True
  | Some t => tt_running t = false /\ tt_accepting t = false
  end.

Definition pool_gone (r : NodeRun) : Prop :=
  nr_consumers r = [] /\
  match wn_thread_pool (nr_node r) with
  | None => True
  | Some p => tp_started p = false /\ tp_tasks p = []
  end.

(** What a part of [stop] has achieved once it is done. *)
Definition stop_fact (a : stop_action) (r : NodeRun) : Prop :=
  match a with
  | StopTimer => timer_running r = false
  | JoinTimer => timer_gone r
  | StopServer => server_running r = false
  | JoinServer => server_gone r
  | StopQueue => tq_stopped (wn_task_queue (nr_node r)) = true
  | JoinPool => pool_gone r
  | _ => True
  end.

(** What a part of [start] finds. *)
Definition start_needs (a : start_action) (r : NodeRun) : Prop :=
  match a with
  | StartServer => server_gone r
  | StartConsumers => pool_gone r
  | StartTimer => timer_gone r
  | RegisterWorker => True
  end.

Definition at_rest (r : NodeRun) : Prop := timer_gone r /\ server_gone r /\ pool_gone r.

(** The listening socket is open exactly while the server runs, beside the
    descriptors of the rest of the process. *)
Definition socket_inv (base : gset Z) (r : NodeRun) : Prop :=
  match wn_transport (nr_node r) with
  | None => nr_fds r = base
  | Some t =>
      if tt_running t then
        (0 <= tt_listen_fd t)%Z /\ tt_listen_fd t ∉ base /\ nr_fds r = base ∪ {[tt_listen_fd t]}
      else (tt_listen_fd t < 0)%Z /\ nr_fds r = base
  end.

(** Jobs wait only in a pool with workers. *)
Definition pool_inv (r : NodeRun) : Prop :=
  match wn_thread_pool (nr_node r) with
  | None => True
  | Some p => tp_tasks p <> [] -> tp_started p = true /\ 0 < tp_threads p
  end.

Record threads_inv (base : gset Z) (r : NodeRun) : Prop := {
  th_ints : ints_ok (wn_config (nr_node r));
  th_socket : socket_inv base r;
  th_pool : pool_inv r;
  th_starting : nr_start r <> [] -> nr_stop r = [] /\ node_running r = true;
  th_start : exists done, start_actions = done ++ nr_start r;
  th_start_needs : Forall (fun a => start_needs a r) (nr_start r);
  th_stopping : nr_stop r <> [] -> node_running r = false /\ nr_start r = [];
  th_stop : nr_stop r <> [] ->
    exists b done, stop_actions b = done ++ nr_stop r /\ Forall (fun a => stop_fact a r) done;
  th_rest : nr_start r = [] -> nr_stop r = [] -> node_running r = false -> at_rest r;
}.

(** ** Lemmas: what start and stop leave alone *)

(** The queued tasks, the active set and the reported results; a stopped queue
    stays stopped. *)
Definition keeps_work (n n' : WorkerNode) : Prop :=
  tq_queue (wn_task_queue n') = tq_queue (wn_task_queue n) /\
  wn_active_task_ids n' = wn_active_task_ids n /\
  results_of (wn_requests n') = results_of (wn_requests n) /\
  (tq_stopped (wn_task_queue n) = true -> tq_stopped (wn_task_queue n') = true).

Lemma results_of_app l k : results_of (l ++ k) = results_of l ++ results_of k.
Proof. apply omap_app. Qed.

Lemma keeps_work_request q n : results_of [q] = [] -> keeps_work n (add_request q n).
Proof. intros Hq. split_and!; try done. simpl. by rewrite results_of_app, Hq, app_nil_r. Qed.

Lemma keeps_work_stop a fds n fds' n' : stop_do a fds n = (fds', n') -> keeps_work n n'.
Proof.
  assert (Ht : forall f, on_transport f fds n = (fds', n') -> keeps_work n n').
  { intros f. unfold on_transport. destruct (wn_transport n) as [t|]; [destruct (f fds t)|];
      intros [= _ <-]; by split_and!. }
  destruct a; cbn [stop_do]; try apply Ht; intros E; apply (f_equal snd) in E; simpl in E; subst n';
    try by split_and!. by apply keeps_work_request.
Qed.

Lemma keeps_work_configure file n n' : start_configure file n = Some n' -> keeps_work n n'.
Proof.
  unfold start_configure. destruct (loadConfig _ _ _); [|done]. intros [= <-]. by split_and!.
Qed.

Lemma keeps_work_start {addrinfo} (env : StartEnv addrinfo) a fds n r fds' n' :
  start_do env a fds n = Finished (r, fds', n') -> keeps_work n n'.
Proof.
  destruct a; simpl.
  - unfold startTaskServer. destruct (tcp_start _ _ _) as [[ok fds2] t]. intros [= _ _ <-]. by split_and!.
  - unfold startConsumers. destruct (tp_start _ _) as [[] p]; simpl;
      [destruct (enqueue_consumers _ p)|]; intros [= _ _ <-]; by split_and!.
  - unfold registerToScheduler. destruct (registerWorker _ _ _ _ _) as [[[]| |] fds2];
      intros [= _ _ <-]; by apply keeps_work_request.
  - unfold startHeartbeat. destruct (timer_start _ _ _ _). intros [= _ _ <-]. by split_and!.
Qed.

(** ** Lemmas: bookkeeping *)

Lemma exactly_perm ids ids' A : ids ≡ₚ ids' -> exactly ids A -> exactly ids' A.
Proof. intros Hp [H1 ->]. split; [by rewrite <- Hp|]. apply set_eq. intros x. by rewrite !elem_of_list_to_set, Hp. Qed.

Lemma exactly_add id ids A : id ∉ A -> exactly ids A -> exactly (id :: ids) (A ∪ {[id]}).
Proof. intros Hid [H1 ->]. split; [constructor; set_solver|]. set_solver. Qed.

Lemma exactly_remove id ids A : exactly (id :: ids) A -> exactly ids (A ∖ {[id]}).
Proof. intros [[H1 H2]%NoDup_cons ->]. split; [done|]. set_solver. Qed.

Lemma exactly_size ids A : exactly ids A -> size A = length ids.
Proof. intros [H ->]. by apply size_list_to_set. Qed.

(** The bookkeeping sees the threads only through the tasks they hold. *)
Lemma node_inv_same r r' :
  node_inv r -> keeps_work (nr_node r) (nr_node r') ->
  accept_task (nr_accept r') = accept_task (nr_accept r) ->
  executing r' = executing r -> finishing r' = finishing r ->
  (Forall result_ok (nr_consumers r) -> Forall result_ok (nr_consumers r')) ->
  nr_pushed r' = nr_pushed r -> nr_reported r' = nr_reported r -> node_inv r'.
Proof.
  intros [H1 H2 Hh H3] (Hq & Ha & Hres & _) E1 E2 E3 Eh E4 E5.
  constructor; unfold open_tasks, queued in *; rewrite ?Hq, ?Ha, ?Hres, ?E1, ?E2, ?E3, ?E4, ?E5; auto.
Qed.

Lemma keeps_work_refl n : keeps_work n n.
Proof. by split_and!. Qed.

Lemma node_inv_begin_stop r : node_inv r -> node_inv (begin_stop r).
Proof. intros HI. apply (node_inv_same r); try done. Qed.

#[local] Hint Resolve keeps_work_refl : core.
#[local] Hint Extern 4 (keeps_work _ _) => (by split_and!) : core.

(** ** Lemmas: the steps that move a task *)

Lemma node_inv_mark r task inserted n' :
  node_inv r -> nr_accept r = AcAdmitted task -> mark_active (t_id task) (nr_node r) = (inserted, n') ->
  node_inv (with_accept (if inserted : bool then AcMarked task else AcLoop) (with_node n' r)).
Proof.
  intros HI Hpc. unfold mark_active. case_decide as Hin; intros [= <- <-].
  - apply (node_inv_same r); auto. simpl. by rewrite Hpc.
  - destruct HI as [H1 H2 Hh H3]. constructor; auto. unfold open_tasks in *. rewrite Hpc in H1.
    simpl in *. by apply exactly_add.
Qed.

Lemma node_inv_push r task ok n' :
  node_inv r -> nr_accept r = AcMarked task -> push_marked task (nr_node r) = (ok, n') ->
  node_inv ((if ok : bool then log_pushed task else id) (with_accept AcLoop (with_node n' r))).
Proof.
  intros [H1 H2 Hh H3] Hpc. unfold push_marked, tq_push. unfold open_tasks in H1. rewrite Hpc in H1.
  destruct (tq_stopped _) eqn:Es; intros [= <- <-]; constructor; auto;
    unfold open_tasks, queued, executing, finishing in *; simpl in *.
  - by apply exactly_remove.
  - eapply exactly_perm; [|exact H1]. rewrite <- fmap_cons. apply fmap_Permutation. solve_Permutation.
  - rewrite H2. solve_Permutation.
Qed.

(** A step of one consumer leaves the results the others hold. *)
Lemma held_replace c1 c c2 c' :
  Forall result_ok (c1 ++ c :: c2) -> (result_ok c -> result_ok c') -> Forall result_ok (c1 ++ c' :: c2).
Proof. rewrite !Forall_app, !Forall_cons. naive_solver. Qed.

Lemma held_drop c1 c c2 : Forall result_ok (c1 ++ c :: c2) -> Forall result_ok (c1 ++ c2).
Proof. rewrite !Forall_app, Forall_cons. tauto. Qed.

Ltac consumer_step H1 H2 H3 Hh Hc :=
  unfold open_tasks, queued, executing, finishing in *; rewrite Hc in *;
  constructor; unfold open_tasks, queued, executing, finishing; simpl;
  [ rewrite !omap_app in *; simpl in *; eapply exactly_perm; [|exact H1];
    apply fmap_Permutation; first [reflexivity|solve_Permutation]
  | rewrite !omap_app in *; simpl in *; rewrite H2; first [reflexivity|solve_Permutation]
  | eapply held_replace; [exact Hh|done]
  | ].

Lemma node_inv_take r c1 c2 task q' :
  node_inv r -> nr_consumers r = c1 ++ CsWait :: c2 ->
  waitPop (wn_task_queue (nr_node r)) = (Some task, q') ->
  node_inv (with_consumers (c1 ++ CsTask task :: c2) (with_node (set_task_queue q' (nr_node r)) r)).
Proof.
  intros [H1 H2 Hh H3] Hc. unfold waitPop, open_tasks, queued in *.
  destruct (tq_stopped _); [done|]. destruct (tq_queue _) as [|t rest] eqn:Eq; [done|].
  intros [= -> <-]. by consumer_step H1 H2 H3 Hh Hc.
Qed.

Lemma node_inv_execute r c1 c2 task :
  node_inv r -> nr_consumers r = c1 ++ CsTask task :: c2 ->
  node_inv (with_consumers (c1 ++ CsExecuted task (execute task) :: c2) r).
Proof. intros [H1 H2 Hh H3] Hc. by consumer_step H1 H2 H3 Hh Hc. Qed.

Lemma node_inv_report r c1 c2 task result :
  node_inv r -> nr_consumers r = c1 ++ CsExecuted task result :: c2 ->
  node_inv (log_reported task (with_consumers (c1 ++ CsReporting task result :: c2)
    (with_node (add_request (Req_result result) (nr_node r)) r))).
Proof.
  intros [H1 H2 Hh H3] Hc.
  assert (Hres : result = execute task).
  { rewrite Hc in Hh. apply Forall_app, proj2, Forall_cons, proj1 in Hh. exact Hh. }
  consumer_step H1 H2 H3 Hh Hc. by rewrite results_of_app, H3, fmap_app, Hres.
Qed.

Lemma node_inv_reported r c1 c2 task result :
  node_inv r -> nr_consumers r = c1 ++ CsReporting task result :: c2 ->
  node_inv (with_consumers (c1 ++ CsReported task :: c2) r).
Proof. intros [H1 H2 Hh H3] Hc. by consumer_step H1 H2 H3 Hh Hc. Qed.

Lemma node_inv_finish r c1 c2 task :
  node_inv r -> nr_consumers r = c1 ++ CsReported task :: c2 ->
  node_inv (with_consumers (c1 ++ CsLoop :: c2) (with_node (finishTask (t_id task) (nr_node r)) r)).
Proof.
  intros [H1 H2 Hh H3] Hc. unfold open_tasks, queued, executing, finishing in *. rewrite Hc in *.
  constructor; auto; unfold open_tasks, queued, executing, finishing; simpl;
    rewrite ?omap_app in *; simpl in *; [|done|by eapply held_replace].
  apply exactly_remove. eapply exactly_perm; [|exact H1]. rewrite <- fmap_cons.
  apply fmap_Permutation. solve_Permutation.
Qed.

(** ** Lemmas: the threads and the flags *)

(** The steps other than those of [start] keep what [stop] has achieved. *)
Definition not_start (r r' : NodeRun) : Prop :=
  nr_start r' = nr_start r /\
  (node_running r = false -> node_running r' = false) /\
  (timer_gone r -> timer_gone r') /\ (server_gone r -> server_gone r') /\
  (pool_gone r -> pool_gone r') /\
  (timer_running r = false -> timer_running r' = false) /\
  (server_running r = false -> server_running r' = false) /\
  (tq_stopped (wn_task_queue (nr_node r)) = true -> tq_stopped (wn_task_queue (nr_node r')) = true).

Lemma on_transport_gone f fds n fds' n' :
  on_transport f fds n = (fds', n') ->
  wn_running n' = wn_running n /\ wn_heartbeat_timer n' = wn_heartbeat_timer n /\
  wn_thread_pool n' = wn_thread_pool n /\ wn_task_queue n' = wn_task_queue n.
Proof.
  unfold on_transport. destruct (wn_transport n); [destruct (f _ _)|]; intros [= _ <-]; done.
Qed.

Lemma tcp_part_down f fds t fds' t' :
  f = tcp_shutdown \/ f = tcp_join -> f fds t = (fds', t') -> 
  (tt_running t = false -> tt_running t' = false) /\
  (tt_accepting t = false -> tt_accepting t' = false).
Proof.
  intros [->| ->]; unfold tcp_shutdown, tcp_join, closeListenSocket; destruct t as [port fd [] []]; simpl;
    destruct (0 <=? fd)%Z; intros [= _ <-]; done.
Qed.

Lemma stop_do_not_start r a rest fds' n' :
  stop_do a (nr_fds r) (nr_node r) = (fds', n') ->
  not_start r (with_stop rest (with_fds fds' (with_node n' r))).
Proof.
  assert (Ht : forall f, f = tcp_shutdown \/ f = tcp_join ->
    on_transport f (nr_fds r) (nr_node r) = (fds', n') ->
    not_start r (with_stop rest (with_fds fds' (with_node n' r)))).
  { intros f Hf E. destruct (on_transport_gone _ _ _ _ _ E) as (E1 & E2 & E3 & E4).
    unfold on_transport in E. destruct (wn_transport (nr_node r)) as [t|] eqn:Et.
    - destruct (f (nr_fds r) t) as [fds1 t1] eqn:Ef. injection E as <- <-.
      destruct (tcp_part_down _ _ _ _ _ Hf Ef) as [Hr Ha].
      unfold not_start, timer_gone, server_gone, pool_gone, timer_running, server_running, node_running.
      simpl. rewrite Et. naive_solver.
    - injection E as <- <-. unfold not_start, timer_gone, server_gone, pool_gone, timer_running, server_running, node_running.
      simpl. rewrite Et. naive_solver. }
  destruct a; cbn [stop_do]; eauto; intros E; injection E as <- <-;
    unfold not_start, timer_gone, server_gone, pool_gone, timer_running, server_running, node_running; simpl;
    split_and!; try done.
  all: try (intros [? ->]; done).
  all: try (destruct (wn_heartbeat_timer (nr_node r)) as [[] []]; done).
  all: destruct (wn_thread_pool (nr_node r)) as [p|]; simpl; try done; intros [H1 [H2 H3]]; split; [done|].
  all: unfold tp_signal, tp_stop, set_stopping; rewrite H2; simpl; destruct (_ =? 0); simpl; auto.
Qed.

(** The calls that begin, and the parts of [start]. *)
Definition is_call (l : label) : bool := match l with Call => true | _ => false end.

Ltac case_step Hstep :=
  destruct Hstep as
    [r Hpc|r Hpc Hs|r Hpc Hs|r Hpc|r Hpc|r Hpc Hs|r events Hpc He|r events task Hpc He
    |r task Hpc|r task ins n' Hpc Hm|r task ok n' Hpc Hp
    |r p p' Hp Hlen Ht|r c1 c2 Hc|r c1 c2 task q' Hc Hw|r c1 c2 Hc Hs|r c1 c2 task Hc|r c1 c2 task result Hc
    |r c1 c2 task result addrinfo net ok fds' Hc Hfree Hx|r c1 c2 task Hc
    |r Hpc Hr|r Hpc Hr|r Hpc|r ids Hpc|r count Hpc|r count ids Hpc
    |r count ids addrinfo net ok fds' Hpc Hfree Hx|r Hpc
    |r Hst Hsp|r a rest fds' n' Hsp Hready Hdo|r rest addrinfo net ok fds' Hsp Hfree Hx
    |r file n' Hst Hsp Hr Hcfg
    |r a rest addrinfo env fds' n' Hst Hnew Hfree Hdo
    |r a rest addrinfo env what fds' n' Hst Hnew Hfree Hdo];
  try (first [apply reportResult_fds in Hx|apply sendHeartbeat_fds in Hx]; [subst fds'|exact Hfree]).

Lemma mark_active_frame id n inserted n' :
  mark_active id n = (inserted, n') ->
  n' = set_active (if inserted : bool then wn_active_task_ids n ∪ {[id]} else wn_active_task_ids n) n.
Proof. unfold mark_active. case_decide; intros [= <- <-]; [by destruct n|done]. Qed.

Lemma push_marked_frame task n ok n' :
  push_marked task n = (ok, n') ->
  exists q active, n' = set_active active (set_task_queue q n) /\
    tq_stopped q = tq_stopped (wn_task_queue n) /\ ok = negb (tq_stopped (wn_task_queue n)) /\
    tq_queue q = (if ok : bool then tq_queue (wn_task_queue n) ++ [task] else tq_queue (wn_task_queue n)).
Proof.
  unfold push_marked, tq_push. destruct (tq_stopped (wn_task_queue n)) eqn:E; intros [= <- <-].
  - eexists _, _. split; [reflexivity|]. done.
  - exists (mkTaskQueue (tq_queue (wn_task_queue n) ++ [task]) false), (wn_active_task_ids n).
    split; [by destruct n|]. done.
Qed.

Lemma app_cons_nil {A} (c1 : list A) x c2 : c1 ++ x :: c2 = [] -> False.
Proof. by destruct c1. Qed.

Lemma not_start_step l r r' : node_step l r r' -> is_call l = false -> not_start r r'.
Proof.
  intros Hstep Hl. case_step Hstep; simpl in Hl; try done; try (by eapply stop_do_not_start);
    unfold not_start, timer_gone, server_gone, pool_gone, timer_running, server_running, node_running;
    simpl.
  all: try (apply mark_active_frame in Hm; subst n'; simpl).
  all: try (destruct (push_marked_frame _ _ _ _ Hp) as (q & act & -> & Hq & _); destruct ok; simpl).
  all: rewrite ?Hpc; split_and!; try done; try (by intros [? ?]).
  all: try (rewrite Hc; intros [?%app_cons_nil _]; done).
  all: try (by rewrite Hq).
  - intros [_ Hg]. rewrite Hp in Hg. destruct Hg as [_ Hg]. unfold workerLoop_turn in Ht.
    rewrite Hg in Ht. by destruct (tp_stopping p).
  - intros Es. unfold waitPop in Hw. by rewrite Es in Hw.
Qed.

(** A step of a thread, as opposed to a part of [stop]. *)
Definition thread_frame (r r' : NodeRun) : Prop :=
  nr_stop r' = nr_stop r /\ nr_fds r' = nr_fds r /\
  wn_config (nr_node r') = wn_config (nr_node r) /\ node_running r' = node_running r /\
  wn_transport (nr_node r') = wn_transport (nr_node r) /\ (pool_inv r -> pool_inv r').

Lemma noncall_cases l r r' :
  node_step l r r' -> is_call l = false ->
  thread_frame r r' \/
  exists a rest fds' n', nr_stop r = a :: rest /\ (stop_ready a r \/ a = AwaitAnswer) /\
    stop_do a (nr_fds r) (nr_node r) = (fds', n') /\
    r' = with_stop rest (with_fds fds' (with_node n' r)).
Proof.
  intros Hstep Hl. case_step Hstep; simpl in Hl; try done;
    try (right; eexists _, _, _, _; split; [exact Hsp|by eauto]).
  all: left; unfold thread_frame, node_running, pool_inv; simpl.
  all: try (apply mark_active_frame in Hm; subst n'; simpl).
  all: try (destruct (push_marked_frame _ _ _ _ Hp) as (q & act & -> & Hq & _); destruct ok; simpl).
  all: split_and!; try done.
  unfold workerLoop_turn in Ht. rewrite Hp. destruct (tp_tasks p) as [|job jobs];
    [by destruct (tp_stopping p)|]. inversion Ht. subst p'. simpl. intros H _. by apply H.
Qed.

Lemma stop_do_fact a r fds' n' rest :
  stop_ready a r \/ a = AwaitAnswer -> stop_do a (nr_fds r) (nr_node r) = (fds', n') ->
  (a = JoinServer -> server_running r = false) ->
  (a = JoinTimer -> timer_running r = false) ->
  stop_fact a (with_stop rest (with_fds fds' (with_node n' r))).
Proof.
  intros Hready Hdo Htr Hti.
  assert (Hr : a <> AwaitAnswer -> stop_ready a r) by (by destruct Hready).
  destruct a; try specialize (Hr ltac:(done)); cbn [stop_do stop_ready] in *; try done;
    try (injection Hdo as <- <-); simpl.
  - unfold timer_running. simpl. unfold timer_clear. by destruct (wn_heartbeat_timer _) as [[] []].
  - split; [done|]. simpl. unfold timer_running in Hti. unfold timer_join. by rewrite Hti.
  - unfold on_transport in Hdo. unfold server_running. simpl.
    destruct (wn_transport (nr_node r)) as [t|] eqn:Et.
    + unfold tcp_shutdown, closeListenSocket in Hdo. destruct t as [port fd [] acc]; simpl in Hdo;
        destruct (0 <=? fd)%Z; by injection Hdo as <- <-.
    + injection Hdo as <- <-. by rewrite Et.
  - unfold on_transport in Hdo. split; [done|]. simpl.
    destruct (wn_transport (nr_node r)) as [t|] eqn:Et.
    + unfold server_running in Htr. rewrite Et in Htr. specialize (Htr eq_refl). unfold tcp_join, closeListenSocket in Hdo.
      destruct t as [port fd run acc]; simpl in *. subst run. destruct (0 <=? fd)%Z; by injection Hdo as <- <-.
    + injection Hdo as <- <-. by rewrite Et.
  - done.
  - destruct Hr as [Hc Hj]. split; [done|]. simpl. unfold pool_jobs in Hj.
    destruct (wn_thread_pool (nr_node r)) as [p|]; simpl; [|done].
    unfold tp_stop. destruct p as [? ? ? [] ?]; simpl in *; [done|]. by destruct (_ =? 0).
Qed.

(** The parts of [stop] keep the socket's and the pool's invariants. *)
Lemma stop_do_socket base r a rest fds' n' :
  socket_inv base r -> pool_inv r -> (a = JoinServer -> server_running r = false) ->
  stop_do a (nr_fds r) (nr_node r) = (fds', n') ->
  let r' := with_stop rest (with_fds fds' (with_node n' r)) in
  socket_inv base r' /\ pool_inv r' /\ wn_config n' = wn_config (nr_node r) /\
  wn_running n' = wn_running (nr_node r).
Proof.
  intros Hs Hp Hj Hdo. cbv zeta. destruct a; cbn [stop_do] in Hdo;
    try (injection Hdo as <- <-; split_and!; done).
  - unfold on_transport, socket_inv in *. destruct (wn_transport (nr_node r)) as [t|] eqn:Et.
    2:{ injection Hdo as <- <-. simpl. by rewrite Et. }
    unfold tcp_shutdown, closeListenSocket in Hdo. destruct t as [port fd [] acc]; simpl in *.
    + destruct Hs as (H1 & H2 & H3). rewrite (proj2 (Z.leb_le _ _) H1) in Hdo. injection Hdo as <- <-.
      simpl. split_and!; [lia|set_solver|done..].
    + by injection Hdo as <- <-.
  - unfold on_transport, socket_inv in *. destruct (wn_transport (nr_node r)) as [t|] eqn:Et.
    2:{ injection Hdo as <- <-. simpl. by rewrite Et. }
    unfold server_running in Hj. rewrite Et in Hj.
    unfold tcp_join, closeListenSocket in Hdo. destruct t as [port fd [] acc]; simpl in *.
    + by specialize (Hj eq_refl).
    + destruct Hs as [H1 H2]. rewrite (proj2 (Z.leb_gt _ _) H1) in Hdo. by injection Hdo as <- <-.
  - injection Hdo as <- <-. split_and!; try done. unfold pool_inv in *. simpl.
    destruct (wn_thread_pool (nr_node r)) as [p|]; simpl; [|done].
    unfold tp_signal. by destruct (_ && _).
  - injection Hdo as <- <-. split_and!; try done. unfold pool_inv in *. simpl.
    destruct (wn_thread_pool (nr_node r)) as [p|]; simpl; [|done].
    unfold tp_stop. by destruct (_ && _).
Qed.

(** What has been done before a join. *)
Lemma stop_before b done a rest :
  stop_actions b = done ++ a :: rest ->
  (a = JoinTimer -> StopTimer ∈ done) /\ (a = JoinServer -> StopServer ∈ done) /\
  (a = JoinPool -> StopQueue ∈ done).
Proof.
  destruct b; unfold stop_actions; simpl; intros E;
    do 11 (try (destruct done as [|? done]; simplify_eq/=)); split_and!; try done; set_solver.
Qed.

Lemma stop_fact_stable a r r' : not_start r r' -> stop_fact a r -> stop_fact a r'.
Proof. intros (_&_&?&?&?&?&?&?). destruct a; simpl; auto. Qed.

Lemma start_needs_stable a r r' : not_start r r' -> start_needs a r -> start_needs a r'.
Proof. intros (_&_&?&?&?&?&?&?). destruct a; simpl; auto. Qed.

Lemma at_rest_stable r r' : not_start r r' -> at_rest r -> at_rest r'.
Proof. intros (_&_&?&?&?&?&?&?) (?&?&?). split_and!; auto. Qed.

(** When all parts of [stop] are done, everything is at rest. *)
Lemma stop_done_rest b r : Forall (fun a => stop_fact a r) (stop_actions b) -> at_rest r.
Proof.
  rewrite Forall_forall. intros H. split_and!.
  - apply (H JoinTimer). unfold stop_actions. set_solver.
  - apply (H JoinServer). unfold stop_actions. set_solver.
  - apply (H JoinPool). unfold stop_actions. set_solver.
Qed.

Lemma threads_inv_thread base l r r' :
  node_step l r r' -> is_call l = false -> thread_frame r r' -> threads_inv base r -> threads_inv base r'.
Proof.
  intros Hstep Hl (E1 & E2 & E3 & E4 & E5 & Hp) [H1 H2 H3 H4 H5 H6 H7 H8 H9].
  pose proof (not_start_step _ _ _ Hstep Hl) as Hn. pose proof Hn as (Es & _).
  constructor; rewrite ?E1, ?E3, ?E4, ?Es; auto.
  - unfold socket_inv in *. by rewrite E5, E2.
  - eapply Forall_impl; [exact H6|]. intros a. by apply start_needs_stable.
  - intros Hne. destruct (H8 Hne) as (b & done & E & HF). exists b, done. split; [done|].
    eapply Forall_impl; [exact HF|]. intros a. by apply stop_fact_stable.
  - intros ???. eapply at_rest_stable; eauto.
Qed.

Lemma threads_inv_part base l r a rest fds' n' :
  node_step l r (with_stop rest (with_fds fds' (with_node n' r))) -> is_call l = false ->
  nr_stop r = a :: rest -> stop_ready a r \/ a = AwaitAnswer -> stop_do a (nr_fds r) (nr_node r) = (fds', n') ->
  threads_inv base r -> threads_inv base (with_stop rest (with_fds fds' (with_node n' r))).
Proof.
  intros Hstep Hl Esp Hready Hdo [H1 H2 H3 H4 H5 H6 H7 H8 H9].
  destruct (H7 ltac:(by rewrite Esp)) as [Hr Est].
  destruct (H8 ltac:(by rewrite Esp)) as (b & done & E & HF). rewrite Esp in E.
  destruct (stop_before _ _ _ _ E) as (B1 & B2 & _). rewrite Forall_forall in HF.
  assert (Hj : a = JoinServer -> server_running r = false) by (intros ->; exact (HF _ (B2 eq_refl))).
  destruct (stop_do_socket base r a rest fds' n' H2 H3 Hj Hdo) as (H2' & H3' & Ec & Er).
  pose proof (not_start_step _ _ _ Hstep Hl) as Hn. pose proof Hn as (Es & _).
  assert (HF' : Forall (fun a => stop_fact a (with_stop rest (with_fds fds' (with_node n' r)))) (done ++ [a])).
  { apply Forall_app. split; [apply Forall_forall; intros x Hx; eapply stop_fact_stable; eauto|].
    constructor; [|done]. eapply stop_do_fact; eauto. intros ->. exact (HF _ (B1 eq_refl)). }
  assert (E' : stop_actions b = (done ++ [a]) ++ rest) by (by rewrite <- app_assoc).
  constructor; auto; cbn [nr_start nr_stop nr_node with_stop with_fds with_node].
  - by rewrite Ec.
  - by rewrite Est.
  - by rewrite Est.
  - intros _. unfold node_running in *. simpl. by rewrite Er.
  - intros _. eauto.
  - intros _ -> _. rewrite app_nil_r in E'. eapply stop_done_rest. by rewrite E'.
Qed.

Lemma threads_inv_noncall base l r r' :
  node_step l r r' -> is_call l = false -> threads_inv base r -> threads_inv base r'.
Proof.
  intros Hstep Hl HI.
  destruct (noncall_cases _ _ _ Hstep Hl) as [Hf|(a & rest & fds' & n' & E1 & E2 & E3 & ->)].
  - by eapply threads_inv_thread.
  - by eapply threads_inv_part.
Qed.

(** ** Lemmas: the parts of start *)

(** What a part of [start] keeps, whether it succeeds or not. *)
Definition start_frame (base : gset Z) (a : start_action) (r r1 : NodeRun) : Prop :=
  socket_inv base r1 /\ pool_inv r1 /\ wn_config (nr_node r1) = wn_config (nr_node r) /\
  node_running r1 = node_running r /\
  (a <> StartConsumers -> pool_gone r -> pool_gone r1) /\
  (a <> StartTimer -> timer_gone r -> timer_gone r1).

Lemma startTaskServer_frame base sys r res fds' n' :
  socket_inv base r -> pool_inv r -> server_gone r -> sys_socket sys ∉ nr_fds r ->
  startTaskServer sys (nr_fds r) (nr_node r) = (res, fds', n') ->
  start_frame base StartServer r (with_fds fds' (with_node n' r)).
Proof.
  intros Hs Hp [_ Hg] Hnew E. unfold socket_inv in Hs.
  assert (Hdown : match wn_transport (nr_node r) with Some t => tt_running t = false | None => True end)
    by (destruct (wn_transport (nr_node r)); naive_solver).
  destruct (startTaskServer_spec sys (nr_fds r) (nr_node r)) as
    (res' & fds1 & t & E1 & _ & Hok & _ & Hfresh & Hfds); [|done|done|].
  { unfold node_ok. destruct (wn_transport (nr_node r)) as [t|]; [|done]. destruct Hg as [Hr Ha].
    rewrite Hr in Hs. unfold transport_ok. rewrite Hr. naive_solver. }
  assert (Hbase : nr_fds r = base).
  { destruct (wn_transport (nr_node r)) as [t'|]; [|done]. destruct Hg as [Hr Ha].
    rewrite Hr in Hs. naive_solver. }
  rewrite E1 in E. injection E as <- <- <-. unfold start_frame, socket_inv. simpl. split_and!; try done.
  rewrite Hbase in *. unfold transport_ok in Hok. destruct (tt_running t); simpl in *.
  - destruct Hok as (Hfd & _). destruct (Hfresh eq_refl). split_and!; auto.
  - destruct Hok. split; [done|]. done.
Qed.

Lemma startConsumers_frame base threads r res n' :
  socket_inv base r -> startConsumers threads (nr_node r) = (res, n') ->
  start_frame base StartConsumers r (with_node n' r).
Proof.
  intros Hs. unfold startConsumers, tp_start. simpl.
  set (count := Z.to_nat (wc_threads (wn_config (nr_node r)))).
  destruct (Nat.eqb_spec count 0) as [Hz|Hz]; simpl.
  { intros [= <- <-]. by split_and!. }
  destruct (Nat.ltb_spec threads count); simpl.
  { intros [= <- <-]. unfold start_frame, socket_inv, pool_inv. simpl. unfold tp_stop.
    simpl. split_and!; try done. by destruct (threads =? 0). }
  destruct (enqueue_consumers_spec count (mkThreadPool count count [] true false))
    as (p' & -> & H1 & H2 & H3 & H4); [done|done|].
  intros [= <- <-]. unfold start_frame, socket_inv, pool_inv. simpl. split_and!; try done.
  intros _. split; [done|]. rewrite H3. simpl. lia.
Qed.

Lemma start_do_frame base {addrinfo} (env : StartEnv addrinfo) a r res fds' n' :
  socket_inv base r -> pool_inv r -> start_needs a r -> sys_socket (se_sys env) ∉ nr_fds r ->
  fresh_sockets (se_net env) (nr_fds r) ->
  start_do env a (nr_fds r) (nr_node r) = Finished (res, fds', n') ->
  start_frame base a r (with_fds fds' (with_node n' r)).
Proof.
  intros Hs Hp Hneed Hnew Hfree. destruct a; simpl in *.
  - intros [= E]. by eapply startTaskServer_frame.
  - destruct (startConsumers _ _) as [r1 n1] eqn:E. intros [= <- <- <-].
    pose proof (startConsumers_frame base _ _ _ _ Hs E) as H. by destruct r.
  - unfold registerToScheduler. destruct (registerWorker _ _ _ _ _) as [[ok| |] fds1] eqn:E; try done.
    apply registerWorker_fds in E as ->; [|done]. destruct ok; intros [= <- <- <-]; by split_and!.
  - unfold startHeartbeat. destruct (timer_start _ _ _ _). intros [= <- <- <-]. by split_and!.
Qed.

(** What is left of [start] after one of its parts. *)
Lemma start_after done a rest :
  start_actions = done ++ a :: rest ->
  (a = StartServer /\ rest = [StartConsumers; RegisterWorker; StartTimer]) \/
  (a = StartConsumers /\ rest = [RegisterWorker; StartTimer]) \/
  (a = RegisterWorker /\ rest = [StartTimer]) \/ (a = StartTimer /\ rest = []).
Proof.
  unfold start_actions. intros E.
  do 5 (try (destruct done as [|? done]; simplify_eq/=)); naive_solver.
Qed.

Lemma threads_inv_begin_stop base r :
  ints_ok (wn_config (nr_node r)) -> socket_inv base r -> pool_inv r -> nr_start r = [] ->
  threads_inv base (begin_stop r).
Proof.
  intros H1 H2 H3 H4. constructor; unfold begin_stop; simpl; rewrite ?H4; try done.
  - by exists start_actions.
  - intros _. by exists (node_running r), [].
Qed.

Lemma threads_inv_call base r r' : node_step Call r r' -> threads_inv base r -> threads_inv base r'.
Proof.
  remember Call as l eqn:El. intros Hstep [H1 H2 H3 H4 H5 H6 H7 H8 H9].
  case_step Hstep; try discriminate El.
  - by apply threads_inv_begin_stop.
  - unfold start_configure in Hcfg. destruct (loadConfig _ _ _) as [config|] eqn:Ecfg; [|done].
    injection Hcfg as <-. pose proof (loadConfig_sound _ _ _ _ H1 Ecfg) as [_ ?? ??].
    destruct (H9 Hst Hsp Hr) as (R1 & R2 & R3). constructor; try done; simpl.
    + unfold ints_ok, int_range, INT_MIN in *. simpl. lia.
    + by exists [].
    + apply Forall_forall. intros a _. by destruct a.
  - rewrite Hst in *. apply Forall_cons in H6 as [Hneed Hneeds]. destruct (H4 ltac:(done)) as [Hsp Hrun].
    destruct H5 as [done E].
    destruct (start_do_frame base env a r (Ok tt) fds' n' H2 H3 Hneed Hnew Hfree Hdo)
      as (F1 & F2 & F3 & F4 & F5 & F6). simpl in F3. rewrite Hrun in F4.
    set (r1 := with_start rest (with_fds fds' (with_node n' r))).
    assert (S1 : nr_start (spawn a r1) = rest) by (by destruct a).
    assert (S2 : nr_stop (spawn a r1) = []) by (by destruct a).
    assert (S3 : node_running (spawn a r1) = true) by (by destruct a).
    constructor; rewrite ?S1, ?S2, ?S3; try done.
    + destruct a; simpl; by rewrite F3.
    + by destruct a.
    + by destruct a.
    + exists (done ++ [a]). by rewrite <- app_assoc.
    + destruct (start_after _ _ _ E) as [[-> ->]|[[-> ->]|[[-> ->]|[-> ->]]]]; [| | |done].
      * apply Forall_cons in Hneeds as [N1 [_ [N3 _]%Forall_cons]%Forall_cons].
        repeat apply Forall_cons_2; [by apply F5|done|by apply F6|done].
      * apply Forall_cons in Hneeds as [_ [N3 _]%Forall_cons].
        repeat apply Forall_cons_2; [done|by apply F6|done].
      * apply Forall_cons in Hneeds as [N3 _]. apply Forall_cons_2; [by apply F6|done].
  - rewrite Hst in *. apply Forall_cons in H6 as [Hneed _].
    destruct (start_do_frame base env a r (Throw what) fds' n' H2 H3 Hneed Hnew Hfree Hdo)
      as (F1 & F2 & F3 & _). apply threads_inv_begin_stop; [|done|done|done]. simpl in *. by rewrite F3.
Qed.

Lemma threads_inv_step base r r' : any_step r r' -> threads_inv base r -> threads_inv base r'.
Proof.
  intros [l Hstep]. destruct (is_call l) eqn:El; [|by eapply threads_inv_noncall].
  destruct l; try done. by apply threads_inv_call.
Qed.

Lemma threads_inv_fresh config_path base : threads_inv base (fresh_run config_path base).
Proof.
  constructor; try done. by exists start_actions.
Qed.

Lemma node_inv_step base r r' : any_step r r' -> threads_inv base r -> node_inv r -> node_inv r'.
Proof.
  intros [l Hstep] HT HI.
  case_step Hstep.
  1-8: apply (node_inv_same r); auto; simpl; rewrite Hpc; try case_match; done.
  - apply (node_inv_same r); auto. simpl. rewrite Hpc. by case_match.
  - by eapply node_inv_mark.
  - by eapply node_inv_push.
  - apply (node_inv_same r); auto. intros Hh. by constructor.
  - apply (node_inv_same r); auto; unfold executing, finishing; simpl; rewrite Hc; rewrite ?omap_app;
      [by destruct (node_running r)..|].
    intros Hh. destruct (node_running r); [by eapply held_replace|by eapply held_drop].
  - by eapply node_inv_take.
  - apply (node_inv_same r); auto; unfold executing, finishing; simpl; rewrite Hc; rewrite ?omap_app;
      [done..|]. apply held_drop.
  - by eapply node_inv_execute.
  - by eapply node_inv_report.
  - eapply (node_inv_reported (with_fds (nr_fds r) r)); [|done]. by destruct HI.
  - by eapply node_inv_finish.
  - by apply (node_inv_same r).
  - by apply (node_inv_same r).
  - by apply (node_inv_same r).
  - by apply (node_inv_same r).
  - by apply (node_inv_same r).
  - apply (node_inv_same r); auto. by apply keeps_work_request.
  - by apply (node_inv_same r).
  - by apply (node_inv_same r).
  - by apply node_inv_begin_stop.
  - apply (node_inv_same r); auto. by eapply keeps_work_stop.
  - by apply (node_inv_same r).
  - apply (node_inv_same r); auto. by eapply keeps_work_configure.
  - pose proof (keeps_work_start _ _ _ _ _ _ _ Hdo) as Hk.
    destruct a; simpl; apply (node_inv_same r); try done. simpl.
    pose proof (th_start_needs _ _ HT) as Hn. rewrite Hst in Hn.
    by apply Forall_cons in Hn as [[-> _] _].
  - apply node_inv_begin_stop. apply (node_inv_same r); auto. by eapply keeps_work_start.
Qed.

(** ** Lemmas: the node comes to rest *)

(** The steps every thread can still take by itself; a queued task is worth the
    round of a consumer. *)
Definition accept_left (pc : accept_pc) : nat :=
  match pc with
  | AcNone => 0 | AcAccepting => 1 | AcLoop => 2 | AcReading => 3
  | AcMarked _ => 9 | AcAdmitted _ => 10 | AcDispatch _ => 11
  end.

Definition beat_left (pc : beat_pc) : nat :=
  match pc with
  | BtNone => 0 | BtWait => 1 | BtReturn => 2 | BtSending _ _ => 3 | BtCall => 7
  | BtReads count ids =>
      4 + (if count is None then 1 else 0) + (if ids is None then 1 else 0)
  end.

Definition consumer_left (c : consumer_pc) : nat :=
  match c with
  | CsWait => 1 | CsLoop => 2 | CsReported _ => 3 | CsReporting _ _ => 4 | CsExecuted _ _ => 5
  | CsTask _ => 6
  end.

Definition steps_left (r : NodeRun) : nat :=
  accept_left (nr_accept r) + beat_left (nr_timer r) + 6 * length (queued r) +
  sum_list_with consumer_left (nr_consumers r) + 3 * length (pool_jobs r) + length (nr_stop r).

Lemma stop_do_left a r fds' n' rest :
  stop_do a (nr_fds r) (nr_node r) = (fds', n') -> nr_stop r = a :: rest ->
  steps_left (with_stop rest (with_fds fds' (with_node n' r))) < steps_left r.
Proof.
  intros Hdo Hs. pose proof (keeps_work_stop _ _ _ _ _ Hdo) as (Hq & _).
  assert (Hj : length (pool_jobs (with_node n' r)) <= length (pool_jobs r)).
  { unfold pool_jobs. simpl.
    destruct a; cbn [stop_do] in Hdo; try (apply (f_equal snd) in Hdo; simpl in Hdo; subst n'; simpl; done).
    - destruct (on_transport_gone _ _ _ _ _ Hdo) as (_ & _ & -> & _). done.
    - destruct (on_transport_gone _ _ _ _ _ Hdo) as (_ & _ & -> & _). done.
    - injection Hdo as _ <-. simpl. destruct (wn_thread_pool (nr_node r)); simpl; [|done].
      unfold tp_signal. by destruct (_ && _).
    - injection Hdo as _ <-. simpl. destruct (wn_thread_pool (nr_node r)); simpl; [|done].
      unfold tp_stop. destruct (_ && _); simpl; lia. }
  unfold steps_left, queued, pool_jobs in *. simpl in *. rewrite Hq, Hs. simpl. lia.
Qed.

Lemma own_left r r' : own_step r r' -> steps_left r' < steps_left r.
Proof.
  intros Hown. assert (exists l, node_step l r r' /\ (l = Internal \/ l = Answer)) as (l & Hstep & El)
    by (destruct Hown; eauto). clear Hown.
  case_step Hstep; try (exfalso; destruct El as [El|El]; discriminate El); try (by eapply stop_do_left).
  all: try (apply mark_active_frame in Hm; subst n').
  all: try (destruct (push_marked_frame _ _ _ _ Hp) as (q & act & -> & _ & Hok & Hq); destruct ok).
  all: unfold steps_left, queued, pool_jobs; simpl; rewrite ?Hpc; try rewrite Hc; try rewrite Hsp;
    rewrite ?sum_list_with_app; simpl.
  all: try (case_match; simpl; lia).
  all: try lia.
  - unfold queued. rewrite Hq, length_app. simpl. lia.
  - rewrite Hq. lia.
  - rewrite Hp. unfold workerLoop_turn in Ht. destruct (tp_tasks p); [by destruct (tp_stopping p)|].
    inversion Ht. simpl. lia.
  - unfold waitPop in Hw. destruct (tq_stopped _); [done|]. destruct (tq_queue _); [done|].
    injection Hw as <- <-. simpl. lia.
Qed.

(** A timer's thread or a consumer that waits for the scheduler. *)
Definition sending (pc : beat_pc) : Prop :=
  match pc with BtSending _ _ => True | _ => False end.

Definition reporting (c : consumer_pc) : Prop :=
  match c with CsReporting _ _ => True | _ => False end.

Instance sending_dec pc : Decision (sending pc).
Proof. destruct pc; simpl; apply _. Defined.

Instance reporting_dec c : Decision (reporting c).
Proof. destruct c; simpl; apply _. Defined.

(** A thread a join waits for can take a step or waits for the scheduler. *)
Lemma timer_progress r :
  timer_running r = false -> nr_timer r <> BtNone ->
  red (node_step Internal) r \/ sending (nr_timer r).
Proof.
  intros Hf Hpc. destruct (nr_timer r) as [| | |count ids|count ids|] eqn:E; [done|..].
  - left. eexists. by apply ns_timer_leave.
  - left. eexists. by apply ns_beat_test.
  - left. destruct count as [count|]; [|eexists; by eapply ns_beat_count].
    destruct ids as [ids|]; [|eexists; by eapply ns_beat_ids]. eexists. by eapply ns_beat_send.
  - by right.
  - left. eexists. by apply ns_beat_return.
Qed.

Lemma accept_progress r :
  server_running r = false -> nr_accept r <> AcNone -> red (node_step Internal) r.
Proof.
  intros Hf Hpc. destruct (nr_accept r) as [| | | |task|task|task] eqn:E; [done|..].
  - eexists. by apply ns_accept_test.
  - eexists. by apply ns_accept_ended.
  - eexists. by apply ns_recv_timeout.
  - eexists. by eapply ns_handler_test.
  - destruct (mark_active (t_id task) (nr_node r)) eqn:Em. eexists. by eapply ns_mark.
  - destruct (push_marked task (nr_node r)) eqn:Em. eexists. by eapply ns_push.
Qed.

Lemma consumers_progress r :
  tq_stopped (wn_task_queue (nr_node r)) = true -> pool_inv r ->
  ~ (nr_consumers r = [] /\ pool_jobs r = []) ->
  red (node_step Internal) r \/ Exists reporting (nr_consumers r).
Proof.
  intros Hs Hp Hne. destruct (nr_consumers r) as [|c cs] eqn:Ec.
  - left. unfold pool_jobs, pool_inv in *. destruct (wn_thread_pool (nr_node r)) as [p|] eqn:Ep; [|naive_solver].
    destruct (tp_tasks p) as [|[] jobs] eqn:Et; [naive_solver|]. destruct (Hp ltac:(done)) as [_ Hthr].
    eexists. eapply ns_worker_turn; [exact Ep|by rewrite Ec|unfold workerLoop_turn; by rewrite Et].
  - destruct c as [| |task|task result|task result|task].
    + left. eexists. by apply (ns_consumer_test r [] cs).
    + left. eexists. by apply (ns_leave r [] cs).
    + left. eexists. by apply (ns_execute r [] cs task).
    + left. eexists. by apply (ns_report r [] cs task result).
    + right. by apply Exists_cons_hd.
    + left. eexists. by apply (ns_finish r [] cs task).
Qed.

(** [stop] waits, itself or through a thread it joins, for the end of an exchange with
    the scheduler. *)
Definition stop_awaits (r : NodeRun) : Prop :=
  match nr_stop r with
  | JoinTimer :: _ => sending (nr_timer r)
  | AwaitAnswer :: _ => True
  | JoinPool :: _ => Exists reporting (nr_consumers r)
  | _ => False
  end.

Instance stop_awaits_dec r : Decision (stop_awaits r).
Proof. unfold stop_awaits. destruct (nr_stop r) as [|[] ?]; apply _. Defined.

(** A [stop] under way is stuck only there. *)
Lemma stop_progress base r :
  threads_inv base r -> nr_stop r <> [] -> red (node_step Internal) r \/ stop_awaits r.
Proof.
  intros HI Hne. unfold stop_awaits. destruct (nr_stop r) as [|a rest] eqn:Esp; [done|].
  destruct (th_stop _ _ HI ltac:(by rewrite Esp)) as (b & done & E & HF). rewrite Esp in E.
  destruct (stop_before _ _ _ _ E) as (B1 & B2 & B3). rewrite Forall_forall in HF.
  assert (Hgo : stop_ready a r -> red (node_step Internal) r).
  { intros Hr. destruct (stop_do a (nr_fds r) (nr_node r)) eqn:Ed. eexists. by eapply ns_stop_part. }
  destruct a; try (left; by apply Hgo).
  - destruct (decide (nr_timer r = BtNone)) as [Hz|Hz]; [left; by apply Hgo|].
    apply timer_progress; [|done]. exact (HF _ (B1 eq_refl)).
  - by right.
  - destruct (decide (nr_accept r = AcNone)) as [Hz|Hz]; [left; by apply Hgo|].
    left. apply accept_progress; [|done]. exact (HF _ (B2 eq_refl)).
  - destruct (decide (nr_consumers r = [] /\ pool_jobs r = [])) as [Hz|Hz]; [left; by apply Hgo|].
    apply consumers_progress; [exact (HF _ (B3 eq_refl))|apply (th_pool _ _ HI)|done].
Qed.

(** A scheduler that cannot be found: every exchange with it ends at once. *)
Definition unreachable : Net unit :=
  mkNet (fun _ _ => Failed) (fun _ => (-1)%Z) (fun _ => Failed) (fun _ => []) (fun _ => []).

Lemma unreachable_fresh fds : fresh_sockets unreachable fds.
Proof. intros a Ha. simpl in Ha. lia. Qed.

Lemma unreachable_ends fds path body c : (postJSON unreachable fds path body c).1 = Finished (-1)%Z.
Proof. unfold postJSON. by repeat case_match; simplify_eq/=. Qed.

Lemma unreachable_heartbeat fds count ids c :
  exists ok fds', sendHeartbeat unreachable fds count ids c = (Finished ok, fds').
Proof.
  unfold sendHeartbeat, expect. case_decide; [eauto|].
  destruct (postJSON _ _ _ _ _) as [a fds1] eqn:E. apply (f_equal fst) in E. rewrite unreachable_ends in E.
  simpl in E. subst a. eauto.
Qed.

Lemma unreachable_report fds result c :
  exists ok fds', reportResult unreachable fds result c = (Finished ok, fds').
Proof.
  unfold reportResult, expect. case_decide; [eauto|].
  destruct (postJSON _ _ _ _ _) as [a fds1] eqn:E. apply (f_equal fst) in E. rewrite unreachable_ends in E.
  simpl in E. subst a. eauto.
Qed.

(** An exchange under way can end. *)
Lemma awaits_answer r : stop_awaits r -> red (node_step Answer) r.
Proof.
  unfold stop_awaits. destruct (nr_stop r) as [|[] rest] eqn:Esp; try done.
  - destruct (nr_timer r) as [| | | |count ids|] eqn:E; try done. intros _.
    destruct (unreachable_heartbeat (nr_fds r) count ids (wn_scheduler_client (nr_node r))) as (ok & fds' & Ex).
    eexists. eapply ns_beat_answered; eauto using unreachable_fresh.
  - intros _. destruct (unreachable_heartbeat (nr_fds r) 0 [] (wn_scheduler_client (nr_node r))) as (ok & fds' & Ex).
    eexists. eapply ns_stop_answered; eauto using unreachable_fresh.
  - intros (c & Hin & Hc)%Exists_exists. apply list_elem_of_split in Hin as (c1 & c2 & Ec).
    destruct c as [| | | |task result|]; try done.
    destruct (unreachable_report (nr_fds r) result (wn_scheduler_client (nr_node r))) as (ok & fds' & Ex).
    eexists. eapply ns_report_answered; eauto using unreachable_fresh.
Qed.

(** At a node at rest only [start] and [stop] can be called. *)
Lemma rest_only_calls l r r' : at_rest r -> nr_stop r = [] -> node_step l r r' -> l = Call.
Proof.
  intros ([Ht' _] & [Ha _] & [Hc' Hg]) Hsp' Hstep.
  case_step Hstep; try done; try congruence; try (exfalso; rewrite Hc' in Hc; by eapply app_cons_nil).
  rewrite Hp in Hg. destruct Hg as [_ Hg]. unfold workerLoop_turn in *. rewrite Hg in *.
  by destruct (tp_stopping p).
Qed.

(** ** Lemmas: a silent scheduler *)

(** A step that is not the end of an exchange. *)
Definition silent_step (r r' : NodeRun) : Prop := exists l, l <> Answer /\ node_step l r r'.

Lemma exists_replace (c1 c2 cs : list consumer_pc) c :
  Exists reporting (c1 ++ c :: c2) -> ~ reporting c -> Exists reporting (c1 ++ cs ++ c2).
Proof. rewrite !Exists_app, Exists_cons. tauto. Qed.

Lemma silent_keeps l r r' :
  node_step l r r' -> l <> Answer -> l <> Call ->
  (sending (nr_timer r) -> sending (nr_timer r')) /\
  (Exists reporting (nr_consumers r) -> Exists reporting (nr_consumers r')) /\
  (nr_stop r' = nr_stop r \/ exists a rest, nr_stop r = a :: rest /\ stop_ready a r).
Proof.
  intros Hstep Hl1 Hl2. case_step Hstep; try done; simpl;
    rewrite ?Hpc; try (split; [done|split; [|eauto]]; try done).
  - destruct ok; simpl; eauto.
  - intros He. by apply Exists_cons_tl.
  - rewrite Hc. intros He. apply (exists_replace _ _ _ _ He). intros [].
  - rewrite Hc. intros He. apply (exists_replace _ _ [CsTask task] _ He). intros [].
  - rewrite Hc. intros He. apply (exists_replace _ _ [] _ He). intros [].
  - rewrite Hc. intros He. apply (exists_replace _ _ [CsExecuted task (execute task)] _ He). intros [].
  - rewrite Hc. intros He. apply (exists_replace _ _ [CsReporting task result] _ He). intros [].
  - rewrite Hc. intros He. apply (exists_replace _ _ [CsLoop] _ He). intros [].
Qed.

Lemma silent_stays base r r' :
  silent_step r r' -> threads_inv base r -> stop_awaits r -> stop_awaits r' /\ nr_stop r' = nr_stop r.
Proof.
  intros (l & Hl & Hstep) HT Ha.
  assert (Hne : nr_stop r <> []) by (intros E; unfold stop_awaits in Ha; by rewrite E in Ha).
  destruct (th_stopping _ _ HT Hne) as [_ Hst'].
  assert (Hc : l <> Call) by (intros ->; inversion Hstep; congruence).
  destruct (silent_keeps _ _ _ Hstep Hl Hc) as (H1 & H2 & H3).
  assert (E : nr_stop r' = nr_stop r).
  { destruct H3 as [E|(a & rest & E & Hready)]; [done|]. unfold stop_awaits in Ha. rewrite E in Ha.
    destruct a; simpl in *; try done; [by rewrite Hready in Ha|].
    destruct Hready as [Hz _]. rewrite Hz in Ha. by apply Exists_nil in Ha. }
  split; [|done]. unfold stop_awaits in *. rewrite E.
  destruct (nr_stop r) as [|[] rest]; try done; [by apply H1|by apply H2].
Qed.

(** ** Lemmas: a stopped queue *)

(** What a step does when the queue has stopped. *)
Definition queue_frozen (r r' : NodeRun) : Prop :=
  tq_stopped (wn_task_queue (nr_node r')) = true /\ queued r' = queued r /\
  nr_pushed r' = nr_pushed r /\ executing r' ++ nr_reported r' ≡ₚ executing r ++ nr_reported r.

Lemma keeps_work_frozen r r' :
  tq_stopped (wn_task_queue (nr_node r)) = true -> keeps_work (nr_node r) (nr_node r') ->
  nr_consumers r' = nr_consumers r -> nr_pushed r' = nr_pushed r -> nr_reported r' = nr_reported r ->
  queue_frozen r r'.
Proof.
  intros Hs (Hq & _ & _ & Hk) E1 E2 E3. unfold queue_frozen, queued, executing.
  rewrite Hq, E1, E2, E3. split_and!; auto.
Qed.

Lemma node_stopped_step r r' :
  any_step r r' -> tq_stopped (wn_task_queue (nr_node r)) = true -> queue_frozen r r'.
Proof.
  intros [l Hstep] Hq. case_step Hstep; try (by apply keeps_work_frozen).
  - apply mark_active_frame in Hm. subst n'. by split_and!.
  - destruct (push_marked_frame _ _ _ _ Hp) as (q & act & -> & Hs & Hok & Hqq).
    rewrite Hq in Hok. simpl in Hok. subst ok. unfold queue_frozen, queued, executing. simpl.
    rewrite Hs, Hqq. by split_and!.
  - by split_and!.
  - unfold queue_frozen, executing. simpl. rewrite Hc, !omap_app.
    split_and!; try done. by destruct (node_running r).
  - unfold waitPop in Hw. by rewrite Hq in Hw.
  - unfold queue_frozen, executing. simpl. rewrite Hc, !omap_app. by split_and!.
  - unfold queue_frozen, executing. simpl. rewrite Hc, !omap_app. by split_and!.
  - unfold queue_frozen, executing. simpl. rewrite Hc, !omap_app. simpl.
    split_and!; try done. solve_Permutation.
  - unfold queue_frozen, executing. simpl. rewrite Hc, !omap_app. by split_and!.
  - unfold queue_frozen, executing. simpl. rewrite Hc, !omap_app. by split_and!.
  - apply keeps_work_frozen; try done. by apply keeps_work_request.
  - apply keeps_work_frozen; try done. by eapply keeps_work_stop.
  - apply keeps_work_frozen; try done. by eapply keeps_work_configure.
  - apply keeps_work_start in Hdo. destruct a; by apply keeps_work_frozen.
  - apply keeps_work_start in Hdo. by apply keeps_work_frozen.
Qed.

Lemma node_stopped_run r r' :
  rtc any_step r r' -> tq_stopped (wn_task_queue (nr_node r)) = true -> queue_frozen r r'.
Proof.
  induction 1 as [r|r r1 r' Hstep _ IH]; intros Hs; [by split_and!|].
  destruct (node_stopped_step _ _ Hstep Hs) as (Hs1 & Hq & Hp & He).
  destruct (IH Hs1) as (Hs' & Hq' & Hp' & He'). split_and!; [done|congruence|congruence|].
  by rewrite He', He.
Qed.

(** ** Lemmas: reachable states *)

Lemma node_reachable config_path base r :
  rtc any_step (fresh_run config_path base) r -> node_inv r /\ threads_inv base r.
Proof.
  intros Hrtc.
  apply (rtc_invariant any_step (fun r => node_inv r /\ threads_inv base r)) with (2 := Hrtc).
  - intros s s' Hstep [H1 H2]. split; [by eapply node_inv_step|by eapply threads_inv_step].
  - split; [|apply threads_inv_fresh]. constructor; [split; [constructor|done]|done|constructor|done].
Qed.

Lemma own_any r r' : rtc own_step r r' -> rtc any_step r r'.
Proof. apply rtc_subrel. intros s s' [H|H]; by eexists. Qed.

Lemma silent_any r r' : rtc silent_step r r' -> rtc any_step r r'.
Proof. apply rtc_subrel. intros s s' (l & _ & H). by eexists. Qed.

Lemma own_keeps_down r r' :
  rtc own_step r r' -> node_running r = false -> nr_start r = [] ->
  node_running r' = false /\ nr_start r' = [].
Proof.
  induction 1 as [r|r r1 r' Hstep _ IH]; [done|]. intros E1 E2.
  assert (Hn : not_start r r1) by (destruct Hstep as [H|H]; by eapply not_start_step).
  destruct Hn as (Es & Er & _). apply IH; [by apply Er|congruence].
Qed.

(** ** Properties *)


(** C34. [stop] strands the queue for good: once the queue has stopped, no step (a later
    successful [start] included) accepts, executes or removes another task; only the
    tasks that were already being executed are reported; and the ids of the tasks
    left in the queue stay in the active set forever, so later copies of these tasks
    are skipped as duplicates and they are counted in every heartbeat. *)
Theorem node_stop_strands_queue (config_path : string) (base : gset Z) (r r' : NodeRun) :
  rtc any_step (fresh_run config_path base) r -> tq_stopped (wn_task_queue (nr_node r)) = true ->
  rtc any_step r r' ->
  queued r' = queued r /\ nr_pushed r' = nr_pushed r /\
  executing r' ++ nr_reported r' ≡ₚ executing r ++ nr_reported r /\
  forall task, task ∈ queued r -> t_id task ∈ wn_active_task_ids (nr_node r').
Proof.
  intros H0 Hs Hrtc. destruct (node_stopped_run r r' Hrtc Hs) as (_ & Hq & Hp & He).
  split_and!; auto. intros task Ht.
  destruct (node_reachable config_path base r') as [[[_ ->] _ _] _]; [by etrans|].
  apply elem_of_list_to_set, list_elem_of_fmap. exists task. split; [done|].
  unfold open_tasks. rewrite Hq, !elem_of_app. auto.
Qed.


(** ** Witnesses *)

(** Schedules: a start in which everything succeeds; a client that sends a task; a stop
    up to the end of [task_queue_.stop()], its heartbeat answered. *)
Definition free_env : StartEnv unit :=
  mkStartEnv None (mkSys 6 0 (fun _ => 0%Z) 0 true) 8 sample_scheduler true sample_scheduler.

Definition start_moves : list move :=
  [MStart (Some (sample_file "9001")); MStartPart (sample_env "9001"); MStartPart free_env;
   MStartPart free_env; MStartPart free_env].

Definition send_moves : list move :=
  [MAccept; MClient; MRecv [Chunk ("t|p" +:+ nl)]; MAccept; MAccept; MAccept].

Definition stop_moves : list move :=
  [MStop; MStopPart; MTimer; MStopPart; MStopPart; MStopBeaten sample_scheduler; MStopPart; MAccept;
   MStopPart; MStopPart].

Definition after (ms : list move) : NodeRun :=
  default (fresh_run "c" ∅) (do_moves ms (fresh_run "c" ∅)).

Lemma after_reachable ms :
  bool_decide (is_Some (do_moves ms (fresh_run "c" ∅))) = true ->
  rtc any_step (fresh_run "c" ∅) (after ms).
Proof.
  intros [r E]%bool_decide_eq_true. unfold after. rewrite E. by eapply do_moves_sound.
Qed.

Definition given_task : NodeRun := after (start_moves ++ send_moves).

Definition queue_stopped : NodeRun := after (start_moves ++ send_moves ++ stop_moves).


Lemma node_stop_strands_queue_witness : "t" ∈ wn_active_task_ids (nr_node queue_stopped).
Proof.
  assert (E : queued queue_stopped = [mkTask "t" "p"]) by (vm_compute; reflexivity).
  destruct (node_stop_strands_queue "c" ∅ queue_stopped queue_stopped) as (_ & _ & _ & H).
  { apply after_reachable. vm_compute. reflexivity. }
  { vm_compute. reflexivity. }
  { apply rtc_refl. }
  apply (H (mkTask "t" "p")). rewrite E. constructor.
Defined.

(** The stop runs to its end once the workers have taken and returned their jobs. *)
Definition last_moves : list move :=
  [MWorker; MWorker; MConsumer 0; MConsumer 0; MStopPart; MStopPart; MStopPart].

Definition stopped_run : NodeRun := after (start_moves ++ send_moves ++ stop_moves ++ last_moves).


(** ** A silent scheduler *)

(** A stop that finds the timer in a heartbeat; one that waits for the answer to its own
    heartbeat; one that finds a consumer in a report. *)
Definition stop_in_heartbeat : list move :=
  start_moves ++ [MTick; MTimer; MCount; MIds; MTimer; MStop; MStopPart].

Definition stop_in_last_heartbeat : list move :=
  start_moves ++ [MStop; MStopPart; MTimer; MStopPart; MStopPart].

Definition stop_in_report : list move :=
  start_moves ++ [MWorker; MConsumer 0] ++ send_moves ++ [MConsumer 0; MConsumer 0; MConsumer 0] ++
  stop_moves ++ [MStopPart].

Definition awaits_at (a : stop_action) (ms : list move) : bool :=
  bool_decide (is_Some (do_moves ms (fresh_run "c" ∅))) &&
  bool_decide (head (nr_stop (after ms)) = Some a) && bool_decide (stop_awaits (after ms)).

Lemma awaits_reachable a ms :
  awaits_at a ms = true ->
  exists r, rtc any_step (fresh_run "c" ∅) r /\ head (nr_stop r) = Some a /\ stop_awaits r.
Proof.
  unfold awaits_at. rewrite !andb_true_iff, !bool_decide_eq_true. intros [[H1 H2] H3].
  exists (after ms). split; [|done]. by apply after_reachable, bool_decide_eq_true_2.
Qed.


(** ** A heartbeat's two readings *)

(** One consumer waits, a task arrives, the timer reads the count; the consumer
    executes, reports and finishes the task; the timer reads the ids. *)
Definition torn_heartbeat : list move :=
  start_moves ++ [MWorker; MConsumer 0] ++ send_moves ++ [MTick; MTimer; MCount] ++
  [MConsumer 0; MConsumer 0; MConsumer 0; MReported 0 sample_scheduler; MConsumer 0] ++ [MIds; MTimer].

(** A heartbeat reads the number of active tasks and their ids under two separate
    locks.  Read in one state they agree; but a task can finish in between, and then
    the node reports a running task without an id (a busy worker whose list of ids
    is empty). *)
Theorem heartbeat_readings :
  (forall n, runningTaskCount n = i32 (sizeZ (snapshotActiveTaskIDs n))) /\
  exists r, rtc any_step (fresh_run "c" ∅) r /\ Req_heartbeat 1 [] ∈ wn_requests (nr_node r).
Proof.
  split; [done|]. exists (after torn_heartbeat). split.
  - apply after_reachable. vm_compute. reflexivity.
  - apply (bool_decide_eq_true_1 (Req_heartbeat 1 [] ∈ wn_requests (nr_node (after torn_heartbeat)))).
    vm_compute. reflexivity.
Qed.
