(* ===== verification/MainProgram.v ===== *)
(** * worker/main.cpp: the worker process

    [main] starts the node, starts a thread that watches for a signal, waits in
    [run], and joins the watcher; the node's destructor stops the node once more.
    The state is the node with its threads, the two flags, and where the two
    threads of this file are.  The creation of the watcher is assumed to succeed. *)

From S2P Require Import Prelude CppString CppNumber WorkerConfig WorkerTask SchedulerClient.
From S2P Require Import TcpTransport TaskQueue ThreadPool Timer WorkerNode NodeThreads NodeProps.

(** The main thread: before [start], in [start], in [run] (before a test of the
    predicate, after a test that found the node running and about to sleep, asleep),
    after [run], joining the watcher, past the last statement with the value to return,
    in the destructor, and returned. *)
Inductive main_pc :=
| MnInit | MnStart | MnTests | MnTested | MnAsleep | MnLeft | MnJoin
| MnExit (code : Z) | MnDestroy (code : Z) | MnReturned (code : Z).

(** The watcher: not created, at the two loads of the loop condition, asleep, after
    the loop, in [node.stop()], and done. *)
Inductive watcher_pc :=
| WtNone | WtTestStop | WtTestExit | WtSleep | WtPast | WtStopping | WtDone.

Record MainRun := mkMainRun {
  mp_node : NodeRun;
  mp_signal : bool;                   (* g_stop_requested *)
  mp_exit : bool;                     (* g_exit_requested *)
  mp_main : main_pc;
  mp_watcher : watcher_pc;
}.

Definition main_begin (base : gset Z) : MainRun :=
  mkMainRun (fresh_run "config/worker.yaml" base) false false MnInit WtNone.

(** [notify_all()], the last part of [stop], wakes the main thread if it sleeps. *)
Definition wakes (n n' : NodeRun) : Prop := nr_stop n = [NotifyRun] /\ nr_stop n' = [].

Instance wakes_dec n n' : Decision (wakes n n').
Proof. unfold wakes. apply _. Defined.

Definition wake_main (pc : main_pc) : main_pc :=
  match pc with MnAsleep => MnTests | _ => pc end.

Inductive main_step : label -> MainRun -> MainRun -> Prop :=
(** [handleSignal]. *)
| mp_handleSignal n s e mn wt :
    main_step Input (mkMainRun n s e mn wt) (mkMainRun n true e mn wt)
(** The node's threads, a [stop] under way, and ends of exchanges with the scheduler. *)
| mp_thread l n n' s e mn wt :
    node_step l n n' -> l <> Call -> ~ wakes n n' ->
    main_step l (mkMainRun n s e mn wt) (mkMainRun n' s e mn wt)
| mp_notify n n' s e mn wt :
    node_step Internal n n' -> wakes n n' ->
    main_step Internal (mkMainRun n s e mn wt) (mkMainRun n' s e (wake_main mn) wt)
(** [node.start()]: it is refused the configuration, or goes through its parts; a
    start that failed has stopped the node. *)
| mp_start_refused n s e wt file :
    start_configure file (nr_node n) = None ->
    main_step Call (mkMainRun n s e MnInit wt) (mkMainRun n s e (MnExit 1) wt)
| mp_start n n' s e wt file :
    start_configure file (nr_node n) = Some n' ->
    main_step Call (mkMainRun n s e MnInit wt)
      (mkMainRun (with_start start_actions (with_node n' n)) s e MnStart wt)
| mp_start_part n n' s e wt :
    nr_start n <> [] -> node_step Call n n' ->
    main_step Call (mkMainRun n s e MnStart wt) (mkMainRun n' s e MnStart wt)
| mp_start_true n s e wt :
    nr_start n = [] -> nr_stop n = [] -> node_running n = true ->
    main_step Internal (mkMainRun n s e MnStart wt) (mkMainRun n s e MnTests WtTestStop)
| mp_start_false n s e wt :
    nr_start n = [] -> nr_stop n = [] -> node_running n = false ->
    main_step Internal (mkMainRun n s e MnStart wt) (mkMainRun n s e (MnExit 1) wt)
(** [run]. *)
| mp_run_test n s e wt :
    main_step Internal (mkMainRun n s e MnTests wt)
      (mkMainRun n s e (if node_running n then MnTested else MnLeft) wt)
| mp_run_sleep n s e wt :
    main_step Internal (mkMainRun n s e MnTested wt) (mkMainRun n s e MnAsleep wt)
| mp_run_spurious n s e wt :
    main_step Input (mkMainRun n s e MnAsleep wt) (mkMainRun n s e MnTests wt)
| mp_exit_store n s e wt :
    main_step Internal (mkMainRun n s e MnLeft wt) (mkMainRun n s true MnJoin wt)
| mp_joined n s e :
    main_step Internal (mkMainRun n s e MnJoin WtDone) (mkMainRun n s e (MnExit 0) WtDone)
(** [~WorkerNode]. *)
| mp_destroy n s e code wt :
    nr_start n = [] -> nr_stop n = [] ->
    main_step Internal (mkMainRun n s e (MnExit code) wt)
      (mkMainRun (begin_stop n) s e (MnDestroy code) wt)
| mp_return n s e code wt :
    nr_stop n = [] ->
    main_step Internal (mkMainRun n s e (MnDestroy code) wt) (mkMainRun n s e (MnReturned code) wt)
(** The watcher. *)
| mp_watch_stop n s e mn :
    main_step Internal (mkMainRun n s e mn WtTestStop)
      (mkMainRun n s e mn (if s : bool then WtPast else WtTestExit))
| mp_watch_exit n s e mn :
    main_step Internal (mkMainRun n s e mn WtTestExit)
      (mkMainRun n s e mn (if e : bool then WtPast else WtSleep))
| mp_watch_slept n s e mn :
    main_step Input (mkMainRun n s e mn WtSleep) (mkMainRun n s e mn WtTestStop)
| mp_watch_call n e mn :
    nr_start n = [] -> nr_stop n = [] ->
    main_step Internal (mkMainRun n true e mn WtPast) (mkMainRun (begin_stop n) true e mn WtStopping)
| mp_watch_skip n e mn :
    main_step Internal (mkMainRun n false e mn WtPast) (mkMainRun n false e mn WtDone)
| mp_watch_done n s e mn :
    nr_stop n = [] ->
    main_step Internal (mkMainRun n s e mn WtStopping) (mkMainRun n s e mn WtDone).

Definition main_any (m m' : MainRun) : Prop := exists l, main_step l m m'.

(** The steps the process takes by itself or with the scheduler's answers. *)
Definition main_own (m m' : MainRun) : Prop := main_step Internal m m' \/ main_step Answer m m'.

(** ** Invariant *)

(** The watcher beside a started node: until it calls [stop] the node runs. *)
Definition watcher_inv (m : MainRun) : Prop :=
  match mp_watcher m with
  | WtNone => False
  | WtPast => nr_stop (mp_node m) = [] /\ node_running (mp_node m) = true /\ mp_signal m = true
  | WtTestStop | WtTestExit | WtSleep => nr_stop (mp_node m) = [] /\ node_running (mp_node m) = true
  | WtStopping => node_running (mp_node m) = false /\ mp_signal m = true
  | WtDone => node_running (mp_node m) = false /\ nr_stop (mp_node m) = [] /\ mp_signal m = true
  end.

(** The value to return: 0 after a signal was handled, 1 if the node did not start. *)
Definition code_inv (code : Z) (m : MainRun) : Prop :=
  (code = 0%Z /\ mp_watcher m = WtDone /\ mp_signal m = true) \/
  (code = 1%Z /\ mp_watcher m = WtNone).

Definition main_inv (base : gset Z) (m : MainRun) : Prop :=
  threads_inv base (mp_node m) /\
  match mp_main m with
  | MnInit => mp_watcher m = WtNone /\ nr_start (mp_node m) = [] /\ nr_stop (mp_node m) = [] /\
      node_running (mp_node m) = false /\ mp_exit m = false
  | MnStart => mp_watcher m = WtNone /\ mp_exit m = false
  | MnTests | MnTested | MnAsleep =>
      nr_start (mp_node m) = [] /\ mp_exit m = false /\ watcher_inv m
  | MnLeft =>
      nr_start (mp_node m) = [] /\ mp_exit m = false /\ node_running (mp_node m) = false /\ watcher_inv m
  | MnJoin => nr_start (mp_node m) = [] /\ node_running (mp_node m) = false /\ watcher_inv m
  | MnExit code => code_inv code m /\ nr_start (mp_node m) = [] /\ nr_stop (mp_node m) = [] /\
      node_running (mp_node m) = false
  | MnDestroy code => code_inv code m /\ nr_start (mp_node m) = [] /\
      node_running (mp_node m) = false
  | MnReturned code => code_inv code m /\ nr_start (mp_node m) = [] /\ nr_stop (mp_node m) = [] /\
      node_running (mp_node m) = false
  end.

(** ** Lemmas *)

Lemma noncall_keep l n n' :
  node_step l n n' -> l <> Call ->
  nr_start n' = nr_start n /\ node_running n' = node_running n /\
  (nr_stop n = [] -> nr_stop n' = []).
Proof.
  intros Hstep Hl. assert (Hc : is_call l = false) by (by destruct l).
  destruct (not_start_step _ _ _ Hstep Hc) as (Hs & _).
  destruct (noncall_cases _ _ _ Hstep Hc) as [(E1 & _ & _ & E4 & _)|(a & rest & fds' & n1 & E1 & _ & E3 & ->)].
  - split_and!; [done|done|congruence].
  - split_and!; [done| |by rewrite E1]. unfold node_running. simpl.
    destruct a; cbn [stop_do] in E3; try (apply (f_equal snd) in E3; simpl in E3; by subst n1).
    + by destruct (on_transport_gone _ _ _ _ _ E3) as (-> & _).
    + by destruct (on_transport_gone _ _ _ _ _ E3) as (-> & _).
Qed.

Lemma watcher_inv_thread n n' s e mn mn' wt :
  node_running n' = node_running n -> (nr_stop n = [] -> nr_stop n' = []) ->
  watcher_inv (mkMainRun n s e mn wt) -> watcher_inv (mkMainRun n' s e mn' wt).
Proof. intros E1 E2. unfold watcher_inv. simpl. rewrite E1. destruct wt; naive_solver. Qed.

Lemma main_inv_thread base l n n' s e mn mn' wt :
  node_step l n n' -> l <> Call -> mn' = mn \/ mn' = wake_main mn ->
  main_inv base (mkMainRun n s e mn wt) -> main_inv base (mkMainRun n' s e mn' wt).
Proof.
  intros Hstep Hl Hmn [HT H]. destruct (noncall_keep _ _ _ Hstep Hl) as (E1 & E2 & E3).
  split; [eapply threads_inv_step; [by eexists|done]|]. simpl in *.
  assert (Hw : forall mn1, watcher_inv (mkMainRun n s e mn wt) -> watcher_inv (mkMainRun n' s e mn1 wt))
    by (intros mn1; by apply watcher_inv_thread).
  unfold code_inv in *. simpl in *. rewrite ?E1, ?E2 in *.
  destruct Hmn as [->| ->]; destruct mn; simpl in *; naive_solver.
Qed.

Lemma main_inv_begin_stop base n s e mn wt :
  main_inv base (mkMainRun n s e mn wt) -> nr_start n = [] -> nr_stop n = [] ->
  threads_inv base (begin_stop n) /\ nr_start (begin_stop n) = [] /\
  node_running (begin_stop n) = false.
Proof.
  intros [HT _] H1 H2. split; [|done]. simpl in HT. eapply threads_inv_step; [|exact HT].
  exists Call. by apply ns_call_stop.
Qed.

Lemma main_inv_step base m m' : main_any m m' -> main_inv base m -> main_inv base m'.
Proof.
  intros [l Hstep] HI. destruct Hstep.
  - destruct HI as [HT H]. split; [done|]. simpl in *. unfold watcher_inv, code_inv in *.
    simpl in *. destruct mn; try done; destruct wt; naive_solver.
  - eapply main_inv_thread; eauto.
  - eapply main_inv_thread; eauto.
  - destruct HI as [HT H0]. split; [done|]. simpl in *. unfold code_inv. naive_solver.
  - destruct HI as [HT (H1 & H2 & H3 & H4 & H5)]. split; [|done]. simpl in *.
    eapply threads_inv_step; [|exact HT]. exists Call. by eapply ns_call_start.
  - destruct HI as [HT H1]. split; [|done]. simpl in *. eapply threads_inv_step; [|exact HT]. by eexists.
  - destruct HI as [HT H2]. split; [done|]. simpl in *. unfold watcher_inv. simpl. naive_solver.
  - destruct HI as [HT H2]. split; [done|]. simpl in *. unfold code_inv. naive_solver.
  - destruct HI as [HT H2]. split; [done|]. simpl in *. unfold watcher_inv in *. simpl in *.
    destruct (node_running n) eqn:E; simpl; rewrite ?E; naive_solver.
  - destruct HI as [HT H2]. split; [done|]. done.
  - destruct HI as [HT H2]. split; [done|]. done.
  - destruct HI as [HT H2]. split; [done|]. simpl in *. unfold watcher_inv in *. naive_solver.
  - destruct HI as [HT H2]. split; [done|]. simpl in *. unfold watcher_inv, code_inv in *. simpl in *.
    naive_solver.
  - destruct (main_inv_begin_stop _ _ _ _ _ _ HI H H0) as (H1 & H2 & H3). destruct HI as [HT HC].
    split; [done|]. simpl in *. unfold code_inv in *. naive_solver.
  - destruct HI as [HT H2]. split; [done|]. simpl in *. unfold code_inv in *. naive_solver.
  - destruct HI as [HT H2]. split; [done|]. simpl in *. unfold watcher_inv, code_inv in *. simpl in *.
    destruct mn; try naive_solver; destruct s; naive_solver.
  - destruct HI as [HT H2]. split; [done|]. simpl in *. unfold watcher_inv, code_inv in *. simpl in *.
    destruct mn; try naive_solver. destruct H2 as (_ & E1 & _ & E2). congruence.
  - destruct HI as [HT H2]. split; [done|]. simpl in *. unfold watcher_inv, code_inv in *. simpl in *.
    destruct mn; naive_solver.
  - destruct (main_inv_begin_stop _ _ _ _ _ _ HI H H0) as (H1 & H2 & H3). destruct HI as [HT HC].
    split; [done|]. simpl in *. unfold watcher_inv, code_inv in *. simpl in *. destruct mn; naive_solver.
  - destruct HI as [HT H2]. split; [done|]. simpl in *. unfold watcher_inv, code_inv in *. simpl in *.
    destruct mn; naive_solver.
  - destruct HI as [HT H2]. split; [done|]. simpl in *. unfold watcher_inv, code_inv in *. simpl in *.
    destruct mn; naive_solver.
Qed.

(** ** Lemmas: the steps that are left *)

Definition main_left (pc : main_pc) : nat :=
  match pc with
  | MnReturned _ => 0 | MnDestroy _ => 1 | MnExit _ => 45 | MnJoin => 46 | MnLeft => 47
  | MnAsleep => 48 | MnTested => 49 | MnTests => 50 | MnStart => 110 | MnInit => 111
  end.

Definition watcher_left (pc : watcher_pc) : nat :=
  match pc with
  | WtNone | WtSleep | WtDone => 0 | WtStopping => 1 | WtPast => 45 | WtTestExit => 46
  | WtTestStop => 47
  end.

Definition main_measure (m : MainRun) : nat :=
  4 * steps_left (mp_node m) + main_left (mp_main m) + watcher_left (mp_watcher m).

(** A call of [stop] adds at most ten steps. *)
Lemma begin_stop_left n : nr_stop n = [] -> steps_left (begin_stop n) <= steps_left n + 10.
Proof.
  intros E. unfold steps_left, begin_stop, queued, pool_jobs. simpl. rewrite E.
  destruct (node_running n); simpl; lia.
Qed.

Lemma main_own_left m m' : main_own m m' -> main_measure m' < main_measure m.
Proof.
  intros Hown. assert (exists l, main_step l m m' /\ (l = Internal \/ l = Answer)) as (l & Hstep & El)
    by (destruct Hown; eauto). clear Hown.
  destruct Hstep; try (exfalso; destruct El as [El|El]; discriminate El); unfold main_measure; simpl;
    try (case_match; simpl; lia); try lia.
  - assert (Ho : own_step n n') by (destruct El; subst l; [by left|by right]).
    pose proof (own_left _ _ Ho). lia.
  - pose proof (own_left n n' ltac:(by left)). assert (main_left (wake_main mn) <= main_left mn + 2)
      by (destruct mn; simpl; lia). lia.
  - pose proof (begin_stop_left n H0). lia.
  - pose proof (begin_stop_left n H0). lia.
Qed.

(** ** Lemmas: where the process can wait *)

(** The wake-up of [run] was lost: [stop] is over and the main thread sleeps. *)
Definition lost_wakeup (m : MainRun) : Prop :=
  mp_main m = MnAsleep /\ mp_watcher m = WtDone /\ mp_signal m = true /\
  node_running (mp_node m) = false /\ nr_start (mp_node m) = [] /\ nr_stop (mp_node m) = [] /\
  at_rest (mp_node m).

Lemma node_red_main n s e mn wt :
  red (node_step Internal) n -> red (main_step Internal) (mkMainRun n s e mn wt).
Proof.
  intros [n' Hstep]. destruct (decide (wakes n n')) as [Hw|Hw].
  - eexists. by eapply mp_notify.
  - eexists. by eapply mp_thread.
Qed.

(** The end of an exchange is not the notification. *)
Lemma awaits_red_main n s e mn wt :
  stop_awaits n -> red (main_step Answer) (mkMainRun n s e mn wt).
Proof.
  intros Ha. destruct (awaits_answer _ Ha) as [n' Hstep]. eexists. eapply mp_thread; [exact Hstep|done|].
  intros [E _]. unfold stop_awaits in Ha. by rewrite E in Ha.
Qed.

Lemma main_stuck base m :
  main_inv base m -> nf (main_step Internal) m -> ~ stop_awaits (mp_node m) ->
  (exists code, mp_main m = MnReturned code) \/
  (mp_main m = MnInit \/ mp_main m = MnStart /\ nr_start (mp_node m) <> []) \/
  (mp_main m = MnAsleep /\ mp_watcher m = WtSleep /\ node_running (mp_node m) = true) \/
  lost_wakeup m.
Proof.
  intros [HT HI] Hnf Haw. destruct m as [n s e mn wt]. simpl in *.
  assert (Hsp : nr_stop n = []).
  { destruct (decide (nr_stop n = [])) as [|Hz]; [done|]. destruct Hnf.
    destruct (stop_progress _ _ HT Hz); [by apply node_red_main|done]. }
  destruct mn; simpl in *.
  - auto.
  - right. left. right. split; [done|]. intros Hst. destruct Hnf. destruct (node_running n) eqn:Er.
    + eexists. by apply mp_start_true.
    + eexists. by apply mp_start_false.
  - destruct Hnf. eexists. apply mp_run_test.
  - destruct Hnf. eexists. apply mp_run_sleep.
  - right. right. destruct HI as (Hst & -> & HW). unfold watcher_inv in HW. simpl in HW.
    destruct wt; [done| | | | | |].
    + destruct Hnf. eexists. apply mp_watch_stop.
    + destruct Hnf. eexists. apply mp_watch_exit.
    + left. naive_solver.
    + destruct HW as (_ & _ & ->). destruct Hnf. eexists. by apply mp_watch_call.
    + destruct Hnf. eexists. by apply mp_watch_done.
    + right. destruct HW as (Hr & _ & ->). unfold lost_wakeup. simpl. split_and!; try done.
      all: by apply (th_rest _ _ HT).
  - destruct Hnf. eexists. apply mp_exit_store.
  - destruct Hnf. destruct HI as (Hst & Hr & HW). unfold watcher_inv in HW. simpl in HW.
    destruct wt; simpl in HW; try (exfalso; intuition congruence).
    + eexists. by apply mp_watch_done.
    + eexists. apply mp_joined.
  - destruct HI as (_ & Hst & _). destruct Hnf. eexists. by apply mp_destroy.
  - destruct Hnf. eexists. by apply mp_return.
  - eauto.
Qed.

Lemma main_inv_begin base : main_inv base (main_begin base).
Proof. split; [apply threads_inv_fresh|done]. Qed.

(** A process whose wake-up was lost only takes further signals and spurious
    wake-ups. *)
Lemma lost_step l m m' :
  lost_wakeup m -> main_step l m m' -> m' = m \/ l = Input /\ mp_main m' = MnTests.
Proof.
  intros (E1 & E2 & E3 & E4 & E5 & E6 & HR) Hstep.
  destruct Hstep; simpl in *; simplify_eq; auto.
  - by apply rest_only_calls in H.
  - by apply rest_only_calls in H.
Qed.

(** ** Sample runs *)

(** A schedule of the node's own steps, none of which is the last notification. *)
Fixpoint quiet_moves (ms : list move) (n : NodeRun) : option NodeRun :=
  match ms with
  | [] => Some n
  | m :: ms' =>
      match do_move m n with
      | Some n' =>
          if decide (move_label m = Call \/ wakes n n') then None else quiet_moves ms' n'
      | None => None
      end
  end.

Lemma quiet_moves_run ms n n' s e mn wt :
  quiet_moves ms n = Some n' -> rtc main_any (mkMainRun n s e mn wt) (mkMainRun n' s e mn wt).
Proof.
  revert n. induction ms as [|m ms IH]; intros n; simpl; [by intros [= <-]|].
  destruct (do_move m n) as [n1|] eqn:E; [|done]. case_decide as Hd; [done|].
  intros Hq. eapply rtc_l; [|by apply IH].
  eexists. eapply mp_thread; [by apply do_move_sound|tauto|tauto].
Qed.

(** The parts of [start] under [main]. *)
Fixpoint start_parts (envs : list (StartEnv unit)) (n : NodeRun) : option NodeRun :=
  match envs with
  | [] => Some n
  | env :: envs' => match start_move env n with Some n' => start_parts envs' n' | None => None end
  end.

Lemma start_parts_run envs n n' s e wt :
  start_parts envs n = Some n' -> rtc main_any (mkMainRun n s e MnStart wt) (mkMainRun n' s e MnStart wt).
Proof.
  revert n. induction envs as [|env envs IH]; intros n; simpl; [by intros [= <-]|].
  destruct (start_move env n) as [n1|] eqn:E; [|done]. intros Hq. eapply rtc_l; [|by apply IH].
  eexists. apply mp_start_part; [|by eapply start_move_sound].
  unfold start_move in E. by destruct (nr_start n).
Qed.

Definition main_file : option string := Some (sample_file "9001").

Definition main_configured : NodeRun :=
  let n := fresh_run "config/worker.yaml" ∅ in
  with_start start_actions (with_node (default (nr_node n) (start_configure main_file (nr_node n))) n).

Definition main_started : NodeRun :=
  default main_configured
    (start_parts [sample_env "9001"; free_env; free_env; free_env] main_configured).

Lemma main_started_reachable :
  rtc main_any (main_begin ∅) (mkMainRun main_started false false MnTests WtTestStop).
Proof.
  eapply rtc_l; [eexists; apply (mp_start _ (nr_node main_configured) false false WtNone main_file)|].
  { vm_compute. reflexivity. }
  etrans; [apply (start_parts_run
    [sample_env "9001"; free_env; free_env; free_env] _ main_started); vm_compute; reflexivity|].
  apply rtc_once. eexists. apply mp_start_true; vm_compute; reflexivity.
Qed.

(** [stop] on this node up to its notification. *)
Definition stop_schedule : list move :=
  [MStopPart; MTimer; MStopPart; MStopPart; MStopBeaten sample_scheduler; MStopPart; MAccept; MStopPart; MStopPart;
   MWorker; MWorker; MConsumer 0; MConsumer 0; MStopPart; MStopPart].

Definition main_notifies : NodeRun :=
  default main_started (quiet_moves stop_schedule (begin_stop main_started)).

Definition main_stopped : NodeRun := with_stop [] main_notifies.

(** The signal arrives after [run] has tested the flag; [stop] runs to its end, then
    [run] goes to sleep. *)
Lemma main_lost_reachable :
  rtc main_any (main_begin ∅) (mkMainRun main_stopped true false MnAsleep WtDone).
Proof.
  etrans; [exact main_started_reachable|].
  eapply rtc_l; [eexists; apply mp_run_test|].
  eapply rtc_l; [eexists; apply mp_handleSignal|].
  eapply rtc_l; [eexists; apply mp_watch_stop|].
  eapply rtc_l; [eexists; apply mp_watch_call; vm_compute; reflexivity|].
  etrans; [apply (quiet_moves_run stop_schedule _ main_notifies); vm_compute; reflexivity|].
  eapply rtc_l; [eexists; apply (mp_notify main_notifies main_stopped)|].
  { apply (do_move_sound MStopPart). vm_compute. reflexivity. }
  { split; vm_compute; reflexivity. }
  eapply rtc_l; [eexists; apply mp_watch_done; vm_compute; reflexivity|].
  apply rtc_once. eexists. apply mp_run_sleep.
Qed.

(** ** Properties *)

(** C13. Where the worker process can end or wait.  Without new input (signals, clients,
    the clock, the system calls of a start) every run of the process is finite, the ends of
    its exchanges with the scheduler included.  When it can take no step by itself, it has
    returned, or waits for the system or the scheduler during [start], or waits for a signal
    with the node running, or the wake-up of [run] was lost, or its [stop] waits for the end
    of an exchange with the scheduler, which has no timeout (this last wait is over as soon
    as the exchange ends).  When it has returned, the node is at rest, the listening
    socket and the sockets of the exchanges are closed, and the value is 0 if a signal was
    handled and 1 if the node did not start. *)
Theorem main_ends (base : gset Z) (m : MainRun) :
  sn main_own m /\
  (rtc main_any (main_begin base) m ->
   (nf (main_step Internal) m ->
     (exists code, mp_main m = MnReturned code /\ code_inv code m /\ at_rest (mp_node m) /\
        nr_fds (mp_node m) = base) \/
     (mp_main m = MnInit \/ mp_main m = MnStart /\ nr_start (mp_node m) <> []) \/
     (mp_main m = MnAsleep /\ mp_watcher m = WtSleep /\ node_running (mp_node m) = true) \/
     lost_wakeup m \/ stop_awaits (mp_node m)) /\
   (nf main_own m -> nf (main_step Internal) m /\ ~ stop_awaits (mp_node m))).
Proof.
  split; [apply (sn_measure _ main_measure); exact main_own_left|].
  intros Hrtc. split.
  2:{ intros Hnf. split; [intros [m' H]; apply Hnf; exists m'; by left|]. intros Ha.
      destruct m as [n s e mn wt]. destruct (awaits_red_main n s e mn wt Ha) as [m' H].
      apply Hnf. exists m'. by right. }
  intros Hnf. destruct (decide (stop_awaits (mp_node m))) as [Ha|Ha]; [by auto 6|].
  pose proof (rtc_invariant _ _ (main_inv_step base) _ _ Hrtc (main_inv_begin base)) as HI.
  destruct (main_stuck base m HI Hnf Ha) as [[code E]|H]; [left|right; tauto].
  destruct HI as [HT HI]. rewrite E in HI. destruct HI as (HC & Hst & Hsp & Hr).
  pose proof (th_rest _ _ HT Hst Hsp Hr) as HR. exists code. split_and!; try done; try apply HR.
  pose proof (th_socket _ _ HT) as Hs. destruct HR as (_ & [_ Hg] & _). unfold socket_inv in Hs.
  destruct (wn_transport _) as [t|]; [|done]. destruct Hg as [Hg _]. rewrite Hg in Hs. apply Hs.
Qed.

(** C14. The wake-up of [run] can be lost: there is an interleaving after which the signal has
    been handled, [stop] is over, and the main thread sleeps in [run], since [stop]
    clears the flag and notifies without the mutex of [run].  From there every step
    leaves the process as it is, unless the condition variable wakes up spuriously. *)
Theorem main_can_hang :
  (exists m, rtc main_any (main_begin ∅) m /\ lost_wakeup m) /\
  (forall m l m', lost_wakeup m -> main_step l m m' ->
     m' = m \/ l = Input /\ mp_main m' = MnTests).
Proof.
  split; [|intros m l m'; apply lost_step].
  eexists. split; [exact main_lost_reachable|]. vm_compute. repeat split; reflexivity.
Qed.

(** ** Witnesses *)

(** The usual end: [run] sleeps when the signal arrives. *)
Definition main_destroyed : NodeRun :=
  default main_stopped (quiet_moves (replicate 7 MStopPart) (begin_stop main_stopped)).

Definition main_returned : MainRun :=
  mkMainRun (with_stop [] main_destroyed) true true (MnReturned 0) WtDone.

(** The test of [run] that finds the node stopped. *)
Lemma mp_run_leaves n s e wt :
  node_running n = false -> main_step Internal (mkMainRun n s e MnTests wt) (mkMainRun n s e MnLeft wt).
Proof. intros E. pose proof (mp_run_test n s e wt) as H. by rewrite E in H. Qed.

Lemma main_returned_reachable : rtc main_any (main_begin ∅) main_returned.
Proof.
  etrans; [exact main_started_reachable|].
  eapply rtc_l; [eexists; apply mp_run_test|]. eapply rtc_l; [eexists; apply mp_run_sleep|].
  eapply rtc_l; [eexists; apply mp_handleSignal|]. eapply rtc_l; [eexists; apply mp_watch_stop|].
  eapply rtc_l; [eexists; apply mp_watch_call; vm_compute; reflexivity|].
  etrans; [apply (quiet_moves_run stop_schedule _ main_notifies); vm_compute; reflexivity|].
  eapply rtc_l; [eexists; apply (mp_notify main_notifies main_stopped)|].
  { apply (do_move_sound MStopPart). vm_compute. reflexivity. }
  { split; vm_compute; reflexivity. }
  eapply rtc_l; [eexists; apply mp_watch_done; vm_compute; reflexivity|].
  eapply rtc_l; [eexists; apply mp_run_leaves; vm_compute; reflexivity|].
  eapply rtc_l; [eexists; apply mp_exit_store|].
  eapply rtc_l; [eexists; apply mp_joined|].
  eapply rtc_l; [eexists; apply mp_destroy; vm_compute; reflexivity|].
  etrans; [apply (quiet_moves_run (replicate 7 MStopPart) _ main_destroyed); vm_compute; reflexivity|].
  eapply rtc_l; [eexists; apply (mp_notify main_destroyed (with_stop [] main_destroyed))|].
  { apply (do_move_sound MStopPart). vm_compute. reflexivity. }
  { split; vm_compute; reflexivity. }
  apply rtc_once. eexists. apply mp_return. reflexivity.
Qed.

Lemma returned_nf n s e code :
  at_rest n -> nr_stop n = [] -> nf main_own (mkMainRun n s e (MnReturned code) WtDone).
Proof.
  intros HR Hsp [m' [Hstep|Hstep]]; inversion Hstep; simplify_eq;
    match goal with H : node_step _ n _ |- _ => by apply rest_only_calls in H end.
Qed.

Lemma main_ends_witness :
  nr_fds (mp_node main_returned) = ∅ /\ code_inv 0 main_returned.
Proof.
  destruct (main_ends ∅ main_returned) as [_ H]. destruct (H main_returned_reachable) as [H1 H2].
  destruct H2 as [Hnf Ha].
  { apply returned_nf; [vm_compute; repeat split; reflexivity | reflexivity]. }
  destruct (H1 Hnf) as [(code & E & HC & _ & HF)|[[E|[E _]]|[[E _]|[[E _]|E]]]]; try discriminate E.
  - injection E as <-. split; [exact HF | exact HC].
  - destruct (Ha E).
Defined.
