(* ===== verification/Tensor.v ===== *)
(** * worker/model/tensor.cpp

    A tensor's shape, its element count at [size_t] width, and its data as IEEE 754
    single precision numbers ([SpecFloat] with precision 24 and exponent bound 128)
    that [Serialize] copies as little-endian bytes.  The model takes [float]
    operations as rounding to single precision one by one, and has one NaN. *)

From S2P Require Import Prelude CppString Types.
From Stdlib Require Import SpecFloat.
From Stdlib Require Import Strings.Byte.

(** ** float *)

Definition f32_add : spec_float -> spec_float -> spec_float := SFadd 24 128.

Definition f32_mul : spec_float -> spec_float -> spec_float := SFmul 24 128.

(** [static_cast<float>(i)] for an unsigned [i]. *)
Definition f32_of_size (i : Z) : spec_float := binary_normalize 24 128 i 0 false.

(** The bit pattern. *)
Definition f32_bits (f : spec_float) : Z :=
  match f with
  | S754_zero s => Z.b2z s * 2 ^ 31
  | S754_infinity s => Z.b2z s * 2 ^ 31 + 255 * 2 ^ 23
  | S754_nan => 255 * 2 ^ 23 + 2 ^ 22
  | S754_finite s m e =>
      if (Zpos m <? 2 ^ 23)%Z then Z.b2z s * 2 ^ 31 + Zpos m
      else Z.b2z s * 2 ^ 31 + (e + 150) * 2 ^ 23 + (Zpos m - 2 ^ 23)
  end.

(** The little-endian bytes of a 32-bit pattern. *)
Definition byte_of_Z (z : Z) : byte := default x00 (Byte.of_N (Z.to_N (z mod 256))).

Definition f32_bytes (f : spec_float) : list byte :=
  let z := f32_bits f in
  [byte_of_Z z; byte_of_Z (z / 2 ^ 8); byte_of_Z (z / 2 ^ 16); byte_of_Z (z / 2 ^ 24)].

(** ** Tensor *)

Record Tensor := mkTensor {
  te_name : string;
  te_shape : list Z;                  (* std::vector<std::size_t> *)
  te_data : list spec_float;          (* std::vector<float> *)
}.

(** [Tensor() = default]: the data is empty although [ElementCount()] is 1. *)
Definition default_Tensor : Tensor := mkTensor "" [] [].

Definition shape_count (shape : list Z) : Z :=
  match shape with
  | [] => 1
  | _ => fold_left (fun lhs rhs => u64 (lhs * rhs)) shape 1%Z
  end.

Definition ElementCount (t : Tensor) : Z := shape_count (te_shape t).

(** The constructor; [resize] fills with zeros.  A count the memory cannot hold
    throws [std::bad_alloc], which the model does not have. *)
Definition new_Tensor (name : string) (shape : list Z) : Tensor :=
  mkTensor name shape (replicate (Z.to_nat (shape_count shape)) (S754_zero false)).

Definition FillRamp (start step : spec_float) (t : Tensor) : Tensor :=
  mkTensor (te_name t) (te_shape t)
    (imap (fun i _ => f32_add start (f32_mul (f32_of_size (Z.of_nat i)) step)) (te_data t)).

Definition ByteSize (t : Tensor) : Z := u64 (sizeZ (te_data t) * 4).

Definition Serialize (t : Tensor) : ByteBuffer := te_data t ≫= f32_bytes.

(** The dimensions with an [x] before every one but the first. *)
Fixpoint shape_text (first : bool) (shape : list Z) : string :=
  match shape with
  | [] => ""
  | d :: rest => (if first then "" else "x") +:+ to_string d +:+ shape_text false rest
  end.

Definition Summary (t : Tensor) : string :=
  te_name t +:+ "[" +:+ shape_text true (te_shape t) +:+ "] bytes=" +:+ to_string (ByteSize t).

(** ** Reference: reading the bytes back *)

(** A canonical single precision number: normal with 24 mantissa bits, or subnormal
    at the least exponent. *)
Definition f32_ok (f : spec_float) : Prop :=
  match f with
  | S754_finite _ m e =>
      (2 ^ 23 <= Zpos m < 2 ^ 24)%Z /\ (-149 <= e <= 104)%Z \/ (Zpos m < 2 ^ 23)%Z /\ e = (-149)%Z
  | _ => True
  end.

Definition f32_of_bits (z : Z) : spec_float :=
  let s := (2 ^ 31 <=? z)%Z in
  let e := ((z / 2 ^ 23) mod 256)%Z in
  let m := (z mod 2 ^ 23)%Z in
  if (e =? 255)%Z then (if (m =? 0)%Z then S754_infinity s else S754_nan)
  else if (e =? 0)%Z then
    match m with
    | Zpos p => S754_finite s p (-149)
    | _ => S754_zero s
    end
  else
    match (m + 2 ^ 23)%Z with
    | Zpos p => S754_finite s p (e - 150)
    | _ => S754_nan
    end.

Definition Z_of_byte (b : byte) : Z := Z.of_N (Byte.to_N b).

Fixpoint read_floats (bytes : list byte) : list spec_float :=
  match bytes with
  | b0 :: b1 :: b2 :: b3 :: rest =>
      f32_of_bits (Z_of_byte b0 + Z_of_byte b1 * 2 ^ 8 + Z_of_byte b2 * 2 ^ 16
                   + Z_of_byte b3 * 2 ^ 24) :: read_floats rest
  | _ => []
  end.

(** ** Lemmas *)

Lemma Z_of_byte_of_Z z : Z_of_byte (byte_of_Z z) = (z mod 256)%Z.
Proof.
  unfold Z_of_byte, byte_of_Z. pose proof (Z.mod_pos_bound z 256 ltac:(lia)) as H.
  destruct (Byte.of_N (Z.to_N (z mod 256))) as [b|] eqn:E.
  - apply Byte.to_of_N in E. simpl. rewrite E, Z2N.id; lia.
  - apply Byte.of_N_None_iff in E. lia.
Qed.

Lemma bytes_of_bits z :
  (0 <= z < 2 ^ 32)%Z ->
  (z mod 256 + (z / 2 ^ 8) mod 256 * 2 ^ 8 + (z / 2 ^ 16) mod 256 * 2 ^ 16
   + (z / 2 ^ 24) mod 256 * 2 ^ 24 = z)%Z.
Proof. intros H. Z.div_mod_to_equations. lia. Qed.

Lemma f32_bits_range f : f32_ok f -> (0 <= f32_bits f < 2 ^ 32)%Z.
Proof.
  destruct f as [s|s| |s m e]; simpl; intros H; try (destruct s; simpl; lia); [lia|].
  destruct (Z.ltb_spec (Zpos m) (2 ^ 23)); destruct s; simpl Z.b2z; lia.
Qed.

(** The fields of a pattern put together from its parts. *)
Lemma f32_fields s e m :
  (0 <= e < 256)%Z -> (0 <= m < 2 ^ 23)%Z ->
  let z := (Z.b2z s * 2 ^ 31 + e * 2 ^ 23 + m)%Z in
  (2 ^ 31 <=? z)%Z = s /\ ((z / 2 ^ 23) mod 256 = e)%Z /\ (z mod 2 ^ 23 = m)%Z.
Proof.
  intros He Hm z. unfold z. split_and!.
  - destruct s; simpl Z.b2z; [apply Z.leb_le|apply Z.leb_gt]; lia.
  - destruct s; simpl Z.b2z; Z.div_mod_to_equations; lia.
  - destruct s; simpl Z.b2z; Z.div_mod_to_equations; lia.
Qed.

Lemma f32_of_parts s e m :
  (0 <= e < 256)%Z -> (0 <= m < 2 ^ 23)%Z ->
  f32_of_bits (Z.b2z s * 2 ^ 31 + e * 2 ^ 23 + m) =
    if (e =? 255)%Z then (if (m =? 0)%Z then S754_infinity s else S754_nan)
    else if (e =? 0)%Z then
      match m with Zpos p => S754_finite s p (-149) | _ => S754_zero s end
    else
      match (m + 2 ^ 23)%Z with Zpos p => S754_finite s p (e - 150) | _ => S754_nan end.
Proof.
  intros He Hm. unfold f32_of_bits. destruct (f32_fields s e m He Hm) as (-> & -> & ->). done.
Qed.

Lemma f32_of_bits_bits f : f32_ok f -> f32_of_bits (f32_bits f) = f.
Proof.
  intros Hok. destruct f as [s|s| |s m e]; cbn [f32_bits].
  - replace (Z.b2z s * 2 ^ 31)%Z with (Z.b2z s * 2 ^ 31 + 0 * 2 ^ 23 + 0)%Z by lia.
    by rewrite f32_of_parts by lia.
  - replace (Z.b2z s * 2 ^ 31 + 255 * 2 ^ 23)%Z with (Z.b2z s * 2 ^ 31 + 255 * 2 ^ 23 + 0)%Z by lia.
    by rewrite f32_of_parts by lia.
  - change (255 * 2 ^ 23 + 2 ^ 22)%Z with (Z.b2z false * 2 ^ 31 + 255 * 2 ^ 23 + 2 ^ 22)%Z.
    by rewrite f32_of_parts by lia.
  - simpl in Hok. destruct (Z.ltb_spec (Zpos m) (2 ^ 23)) as [Hlt|Hge].
    + replace (Z.b2z s * 2 ^ 31 + Zpos m)%Z with (Z.b2z s * 2 ^ 31 + 0 * 2 ^ 23 + Zpos m)%Z by lia.
      rewrite f32_of_parts by lia. simpl. f_equal. lia.
    + rewrite f32_of_parts by lia.
      destruct (Z.eqb_spec (e + 150) 255); [lia|]. destruct (Z.eqb_spec (e + 150) 0); [lia|].
      replace (Zpos m - 2 ^ 23 + 2 ^ 23)%Z with (Zpos m) by lia. f_equal. lia.
Qed.

Lemma f32_bytes_length f : length (f32_bytes f) = 4.
Proof. done. Qed.

Lemma Serialize_length t : length (Serialize t) = 4 * length (te_data t).
Proof.
  unfold Serialize. induction (te_data t) as [|f data IH]; [done|].
  rewrite bind_cons, length_app, IH, f32_bytes_length. simpl. lia.
Qed.

Lemma read_floats_bytes data : Forall f32_ok data -> read_floats (data ≫= f32_bytes) = data.
Proof.
  induction 1 as [|f data Hf _ IH]; [done|]. rewrite bind_cons. unfold f32_bytes at 1.
  cbn [app read_floats]. rewrite !Z_of_byte_of_Z, bytes_of_bits by (by apply f32_bits_range).
  by rewrite f32_of_bits_bits, IH.
Qed.

Lemma fold_u64_mod shape acc :
  u64 (fold_left (fun lhs rhs => u64 (lhs * rhs)) shape acc) = u64 (foldr Z.mul 1%Z shape * acc).
Proof.
  revert acc. induction shape as [|d shape IH]; intros acc; simpl; [f_equal; lia|].
  rewrite IH. unfold u64. rewrite Zmult_mod_idemp_r. f_equal. lia.
Qed.

(** ** Properties *)

(** C38. A tensor's bytes are its data: [Serialize] gives four bytes per element,
    [ByteSize()] of them, and reading them back as little-endian single precision
    numbers gives every element, for all canonical values, signed zeros, infinities
    and subnormal numbers included.  A tensor constructed with a shape has the
    product of its dimensions modulo 2^64 elements. *)
Theorem Tensor_bytes (t : Tensor) (name : string) (shape : list Z) :
  Forall f32_ok (te_data t) -> (sizeZ (te_data t) * 4 < 2 ^ 64)%Z ->
  sizeZ (Serialize t) = ByteSize t /\ read_floats (Serialize t) = te_data t /\
  sizeZ (te_data (new_Tensor name shape)) = ElementCount (new_Tensor name shape) /\
  u64 (ElementCount (new_Tensor name shape)) = u64 (foldr Z.mul 1%Z shape).
Proof.
  intros Hok Hsize. split_and!.
  - unfold ByteSize. rewrite u64_small by (unfold sizeZ in *; lia).
    unfold sizeZ. rewrite Serialize_length. lia.
  - by apply read_floats_bytes.
  - unfold sizeZ, ElementCount, new_Tensor. simpl. rewrite length_replicate, Z2Nat.id; [done|].
    unfold shape_count. destruct shape as [|d shape]; [lia|].
    assert (Hnn : forall l acc, (0 <= acc)%Z ->
      (0 <= fold_left (fun lhs rhs => u64 (lhs * rhs)) l acc)%Z).
    { induction l as [|x l IH]; intros acc Ha; simpl; [done|]. apply IH, u64_range. }
    apply Hnn. lia.
  - unfold ElementCount, shape_count. simpl. destruct shape as [|d shape]; [done|].
    rewrite fold_u64_mod. f_equal. lia.
Qed.

(** ** Witnesses *)

(** 1.0f and 0.5f. *)
Definition f32_one : spec_float := S754_finite false 8388608 (-23).
Definition f32_half : spec_float := S754_finite false 8388608 (-24).

Definition ramp : Tensor := FillRamp f32_one f32_half (new_Tensor "layer" [1; 3]%Z).

Example ramp_example :
  te_data ramp = [f32_one; S754_finite false 12582912 (-23); S754_finite false 8388608 (-22)] /\
  Summary ramp = "layer[1x3] bytes=12".
Proof. vm_compute. done. Qed.

Lemma Tensor_bytes_witness : read_floats (Serialize ramp) = te_data ramp.
Proof.
  apply (Tensor_bytes ramp "n" [2; 2]%Z); [|vm_compute; reflexivity].
  rewrite (proj1 ramp_example).
  repeat (constructor; [left; split; split; (reflexivity || discriminate)|]). constructor.
Defined.
