(* ===== verification/WorkerRuntime.v ===== *)
(** * worker/task/task.cpp and worker/runtime/worker_runtime.cpp

    The executor that sends a tensor to a node, and the runtime that owns it.  The
    runtime dereferences its transport, so its operations are only defined with
    one. *)

From S2P Require Import Prelude CppString Types BoundedFifo Memory QueuePair Connection.
From S2P Require Import Completion Transport World Tensor.

Inductive TaskKind := kBroadcast | kAllReduce | kLoadShard.

Definition ToString_TaskKind (kind : TaskKind) : string :=
  match kind with
  | kBroadcast => "broadcast"
  | kAllReduce => "all-reduce"
  | kLoadShard => "load-shard"
  end.

Record TaskSpec := mkTaskSpec {
  sp_id : string;
  sp_kind : TaskKind;
  sp_target_node : string;
  sp_tensor : Tensor;
  sp_metadata : gmap string string;
}.

Record TaskResult := mkTaskResult {
  xr_task_id : string;
  xr_success : bool;
  xr_detail : string;
  xr_work_request_id : Z;             (* std::uint64_t *)
}.

Record TaskExecutor := mkTaskExecutor {
  ex_local_node : string;
  ex_next_work_request_id : Z;        (* std::uint64_t *)
}.

Definition new_TaskExecutor (local_node : string) : TaskExecutor := mkTaskExecutor local_node 1.

(** The message leaves [operation] at its default. *)
Definition Execute `{ArgOrder} (now : TimePoint) (spec : TaskSpec) (qp : QueuePair) (w : World)
    (registry : MemoryRegistry) (completions : CompletionQueue) (x : TaskExecutor)
    : TaskResult * World * MemoryRegistry * CompletionQueue * TaskExecutor :=
  let '(region, h1, r1) := Register (Serialize (sp_tensor spec)) (w_heap w) registry in
  let work_request_id := ex_next_work_request_id x in
  let '(w2, cq) :=
    post_send now qp
      (mkMessage (ex_local_node x) (sp_target_node spec) (ToString_TaskKind (sp_kind spec))
         (Summary (sp_tensor spec)) (mr_storage region) work_request_id op_kSend)
      (set_heap h1 w) completions in
  (mkTaskResult (sp_id spec) true "task submitted to transport" work_request_id, w2, r1, cq,
   mkTaskExecutor (ex_local_node x) (u64 (work_request_id + 1))).

(** ** WorkerRuntime *)

Record WorkerRuntime := mkWorkerRuntime {
  wr_node_id : string;
  wr_registry : MemoryRegistry;
  wr_completions : CompletionQueue;
  wr_executor : TaskExecutor;
  wr_peers : gmap string QueuePair;
}.

Definition new_WorkerRuntime (node_id : string) : WorkerRuntime :=
  mkWorkerRuntime node_id new_MemoryRegistry (new_CompletionQueue default_CompletionQueueConfig)
    (new_TaskExecutor node_id) ∅.

Definition runtime_EnsurePeer (peer : string) (w : World) (r : WorkerRuntime)
    : QueuePair * World * WorkerRuntime :=
  match wr_peers r !! peer with
  | Some qp => (qp, w, r)
  | None =>
      let qp0 := new_QueuePair (mkQueuePairConfig (wr_node_id r) peer 256 256) in
      let qp1 := (TransitionTo kInit qp0).2 in
      let qp2 := (TransitionTo kReadyToReceive qp1).2 in
      let qp3 := (TransitionTo kReadyToSend qp2).2 in
      (qp3, connect_transport qp3 w,
       mkWorkerRuntime (wr_node_id r) (wr_registry r) (wr_completions r) (wr_executor r)
         (emplace peer qp3 (wr_peers r)))
  end.

Definition runtime_peer (spec : TaskSpec) (r : WorkerRuntime) : string :=
  if decide (sp_target_node spec = "") then wr_node_id r else sp_target_node spec.

Definition runtime_Submit `{ArgOrder} (now : TimePoint) (spec : TaskSpec) (w : World)
    (r : WorkerRuntime) : TaskResult * World * WorkerRuntime :=
  let '(qp, w1, r1) := runtime_EnsurePeer (runtime_peer spec r) w r in
  let '(result, w2, reg, cq, x) :=
    Execute now spec qp w1 (wr_registry r1) (wr_completions r1) (wr_executor r1) in
  (result, w2, mkWorkerRuntime (wr_node_id r1) reg cq x (wr_peers r1)).

Definition runtime_Poll (w : World) (r : WorkerRuntime) : option Message * World :=
  poll_receive (wr_node_id r) w.

Definition runtime_PollCompletion (r : WorkerRuntime) : option CompletionEvent * WorkerRuntime :=
  let '(event, cq) := Poll (wr_completions r) in
  (event, mkWorkerRuntime (wr_node_id r) (wr_registry r) cq (wr_executor r) (wr_peers r)).

(** ** Invariant *)

(** The queue pair filed for a peer. *)
Definition ready_pair (node_id peer : string) : QueuePair :=
  conn_queue_pair (ready_connection node_id peer).

Record runtime_wf (w : World) (r : WorkerRuntime) : Prop := {
  rt_peers : map_Forall (fun peer qp => qp = ready_pair (wr_node_id r) peer) (wr_peers r);
  rt_registry : registry_wf (w_heap w) (wr_registry r);
  rt_node : ex_local_node (wr_executor r) = wr_node_id r;
}.

(** The message a task becomes. *)
Definition tensor_message (spec : TaskSpec) (r : WorkerRuntime) (payload : ByteBufferPtr) : Message :=
  mkMessage (wr_node_id r) (runtime_peer spec r) (ToString_TaskKind (sp_kind spec))
    (Summary (sp_tensor spec)) payload (ex_next_work_request_id (wr_executor r)) op_kSend.

(** ** Lemmas *)

Lemma runtime_wf_new w node_id : heap_wf (w_heap w) -> runtime_wf w (new_WorkerRuntime node_id).
Proof. intros Hh. constructor; simpl; [apply map_Forall_empty|by apply registry_wf_new|done]. Qed.

Lemma runtime_EnsurePeer_spec peer w r :
  runtime_wf w r ->
  exists w' r', runtime_EnsurePeer peer w r = (ready_pair (wr_node_id r) peer, w', r') /\
    runtime_wf w' r' /\ wr_node_id r' = wr_node_id r /\ wr_registry r' = wr_registry r /\
    wr_completions r' = wr_completions r /\ wr_executor r' = wr_executor r /\
    (forall n, world_inbox n w' = world_inbox n w) /\ world_capacity w' = world_capacity w /\
    w_heap w' = w_heap w /\ (is_Some (w_transport w) -> is_Some (w_transport w')).
Proof.
  intros [Hp Hr Hn]. unfold runtime_EnsurePeer. destruct (wr_peers r !! peer) as [qp|] eqn:E.
  - exists w, r. rewrite (Hp _ _ E). split_and!; auto. by constructor.
  - eexists _, _. split; [reflexivity|]. split_and!; auto; simpl.
    + constructor; simpl; auto. unfold emplace. rewrite E. by apply map_Forall_insert_2.
    + intros n. apply connect_transport_inbox.
    + apply connect_transport_capacity.
    + intros [t Ht]. rewrite Ht. by eexists.
Qed.

(** ** Properties *)

(** C37. Submitting a tensor, with a transport, room in the peer's mailbox and counters that
    do not wrap: the task's peer (the node itself without a target) gets exactly one message, with the task's kind as topic, the tensor's summary and a
    payload that holds the tensor's bytes; the result carries the task's id and the
    work request id, which the next task does not reuse; the completion queue gets a
    success for that request with the tensor's size; and the runtime stays well
    formed. *)
Theorem runtime_Submit_correct `{ArgOrder} (now : TimePoint) (spec : TaskSpec) (w : World)
    (r : WorkerRuntime) :
  runtime_wf w r -> is_Some (w_transport w) -> counters_ok (wr_registry r) ->
  has_room (runtime_peer spec r) w ->
  let '(result, w', r') := runtime_Submit now spec w r in
  let id := ex_next_work_request_id (wr_executor r) in
  result = mkTaskResult (sp_id spec) true "task submitted to transport" id /\
  (exists payload, deref payload (w_heap w') = Serialize (sp_tensor spec) /\
     forall n, world_inbox n w' =
       if decide (n = runtime_peer spec r)
       then world_inbox n w ++ [tensor_message spec r payload] else world_inbox n w) /\
  wr_completions r' = Push_locked (mkCompletionEvent id cs_kSuccess op_kSend (wr_node_id r)
    (runtime_peer spec r) "send completed through in-memory RDMA backend" now
    (sizeZ (Serialize (sp_tensor spec)))) (wr_completions r) /\
  ex_next_work_request_id (wr_executor r') = u64 (id + 1) /\
  runtime_wf w' r'.
Proof.
  intros Hwf Ht Hc Hroom. unfold runtime_Submit.
  destruct (runtime_EnsurePeer_spec (runtime_peer spec r) w r Hwf)
    as (w1 & r1 & -> & Hwf1 & Hn1 & Hreg1 & Hcq1 & Hx1 & Hin1 & Hcap1 & Hh1 & Ht1).
  unfold Execute. rewrite Hcq1, Hx1.
  destruct (Register _ _ _) as [[region h2] r2] eqn:ER.
  rewrite Hh1, Hreg1 in ER. destruct Hwf as [Hp Hr Hloc].
  destruct (Register_spec _ _ _ _ _ _ Hr Hc ER) as (_ & Hst & Hh2 & _).
  pose proof (registry_wf_Register _ _ _ _ _ _ Hr Hc ER) as Hr2.
  set (msg := mkMessage _ _ _ _ _ _ _).
  assert (Hroom2 : has_room (runtime_peer spec r) (set_heap h2 w1)).
  { unfold has_room in *. change (world_capacity (set_heap h2 w1)) with (world_capacity w1).
    change (world_inbox (runtime_peer spec r) (set_heap h2 w1))
      with (world_inbox (runtime_peer spec r) w1). by rewrite Hcap1, Hin1. }
  pose proof (post_send_ready now (wr_node_id r) (runtime_peer spec r) msg (set_heap h2 w1)
    (wr_completions r) (Ht1 Ht) Hroom2) as HP. cbv zeta in HP.
  unfold ready_pair. destruct (post_send _ _ _ _ _) as [w3 cq].
  destruct HP as (Hin3 & -> & Hh3 & _ & _). simpl in Hh3.
  assert (Hd : deref (mr_storage region) h2 = Serialize (sp_tensor spec)).
  { rewrite Hst, Hh2. simpl. by rewrite lookup_insert_eq. }
  split; [done|]. split; [|split; [|split; [done|]]].
  - exists (mr_storage region). rewrite Hh3. split; [done|]. intros n. rewrite Hin3.
    change (world_inbox n (set_heap h2 w1)) with (world_inbox n w1). rewrite Hin1.
    case_decide; [|done]. do 2 f_equal. unfold stamp, msg, tensor_message. simpl. rewrite Hloc.
    by case_decide.
  - change (msg_size msg (w_heap (set_heap h2 w1))) with (ptr_size (mr_storage region) h2).
    assert (ptr_size (mr_storage region) h2 = sizeZ (Serialize (sp_tensor spec))) as ->; [|done].
    rewrite Hst in *. unfold ptr_size. by rewrite Hd.
  - constructor; simpl; [apply Hwf1|by rewrite Hh3|by rewrite Hloc, Hn1].
Qed.

(** ** Witnesses *)

Definition sample_spec : TaskSpec := mkTaskSpec "shard-1" kLoadShard "worker-b" ramp ∅.

Definition runtime_world : World :=
  mkWorld empty_heap ∅ (Some (new_TransportRdma default_TransportConfig)).

Lemma runtime_Submit_correct_witness :
  (@runtime_Submit true 0%Z sample_spec runtime_world (new_WorkerRuntime "worker-a")).1.1 =
    mkTaskResult "shard-1" true "task submitted to transport" 1.
Proof.
  pose proof (@runtime_Submit_correct true 0%Z sample_spec runtime_world
    (new_WorkerRuntime "worker-a") (runtime_wf_new runtime_world "worker-a" heap_wf_empty)
    ltac:(eexists; reflexivity) ltac:(split; vm_compute; reflexivity)
    ltac:(right; vm_compute; reflexivity)) as H.
  destruct (@runtime_Submit true 0%Z sample_spec runtime_world (new_WorkerRuntime "worker-a"))
    as [[result w'] r'].
  exact (proj1 H).
Defined.
