(* ===== verification/EndpointNet.v ===== *)
(** * Any number of endpoints on one transport

    Worker sessions, clients, servers and runtimes of a process share one transport and
    one heap; several of them may even use the same node name.  Their operations come in
    any order.  An operation is one step: the only wait inside one, that of
    [PollReceive], is at its end, so a call that waits takes effect when it returns.

    The specification knows no heap, no registry, no connection and no queue pair: one
    drop-oldest queue of mail per node and, per endpoint, its name, its work request
    counter and its completion queue.  What an endpoint promises to the net is the
    class [EndpointLaws]; the four classes of endpoints are its instances. *)

From S2P Require Import Prelude CppString Types BoundedFifo WireLine TaskMessage ResultMessage.
From S2P Require Import Memory BufferPool QueuePair Connection Completion Metrics Transport.
From S2P Require Import World WorkerSession ClientServer Tensor WorkerRuntime.

(** ** Mail: a message with its payload in it *)

Record Mail := mkMail {
  ml_source : string;
  ml_destination : string;
  ml_topic : string;
  ml_text : string;
  ml_bytes : ByteBuffer;
  ml_id : WorkRequestId;
  ml_operation : OperationType;
}.

Definition mail_message (l : nat) (mail : Mail) : Message :=
  mkMessage (ml_source mail) (ml_destination mail) (ml_topic mail) (ml_text mail) (Some l)
    (ml_id mail) (ml_operation mail).

(** What a caller that was handed the message reads. *)
Definition mail_of (h : Heap) (m : Message) : Mail :=
  mkMail (msg_source m) (msg_destination m) (msg_topic m) (msg_description m)
    (deref (msg_payload m) h) (msg_work_request_id m) (msg_operation m).

Definition stands_for (h : Heap) (m : Message) (mail : Mail) : Prop :=
  exists l, m = mail_message l mail /\ hp_cells h !! l = Some (ml_bytes mail).

(** The completion of a successful send. *)
Definition sent_event (now : TimePoint) (mail : Mail) : CompletionEvent :=
  mkCompletionEvent (ml_id mail) cs_kSuccess (ml_operation mail) (ml_source mail)
    (ml_destination mail) "send completed through in-memory RDMA backend" now
    (sizeZ (ml_bytes mail)).

(** ** Answers and effects *)

(** What the caller of an operation sees. *)
Inductive seen :=
| SeenTask (task : option TaskMessage)
| SeenResult (result : option ResultMessage)
| SeenMail (mail : option Mail)
| SeenOk (ok : bool)
| SeenId (id : WorkRequestId)
| SeenSubmission (result : SubmissionResult)
| SeenExecuted (result : TaskResult)
| SeenCompletion (event : option CompletionEvent)
| SeenNobody.                                   (* there is no such endpoint *)

(** What an operation does to the mailboxes. *)
Inductive effect :=
| Idle
| Posts (mail : Mail)
| Takes (node : string).

(** What the specification keeps of an endpoint. *)
Record View := mkView {
  v_node : string;
  v_server : string;                            (* a client's server *)
  v_up : bool;                                  (* may submit *)
  v_next_id : WorkRequestId;
  v_completions : CompletionQueue;
}.

Definition pushed (now : TimePoint) (mail : Mail) (v : View) : View :=
  mkView (v_node v) (v_server v) (v_up v) (v_next_id v)
    (Push_locked (sent_event now mail) (v_completions v)).

Definition numbered (v : View) : View :=
  mkView (v_node v) (v_server v) (v_up v) (u64 (v_next_id v + 1)) (v_completions v).

Definition polled (v : View) : View :=
  mkView (v_node v) (v_server v) (v_up v) (v_next_id v) (Poll (v_completions v)).2.

(** The node a message of [node] goes to. *)
Definition goes_to (node target : string) : string := if decide (target = "") then node else target.

(** ** The interface *)

Class Endpoint (E O : Type) := {
  ep_do : O -> World -> E -> seen * World * E;
  ep_view : E -> View;
  (** The operation's effect, the next view, and the answer given the mail taken. *)
  ep_spec : O -> View -> effect * View * (option Mail -> seen);
}.

(** No mailbox changes. *)
Record same_mail (w w' : World) : Prop := {
  sm_heap : w_heap w' = w_heap w;
  sm_transport : is_Some (w_transport w');
  sm_capacity : world_capacity w' = world_capacity w;
  sm_inbox : forall n, world_inbox n w' = world_inbox n w;
}.

(** One message is sent, its payload in a new cell. *)
Record sends (mail : Mail) (w w' : World) : Prop := {
  sd_heap : w_heap w' = (make_shared (ml_bytes mail) (w_heap w)).2;
  sd_transport : is_Some (w_transport w');
  sd_capacity : world_capacity w' = world_capacity w;
  sd_inbox : forall n, world_inbox n w' =
    if decide (n = ml_destination mail)
    then push_bounded (world_capacity w) (world_inbox n w) (mail_message (hp_next (w_heap w)) mail)
    else world_inbox n w;
}.

(** The oldest message of [node], if any, is taken. *)
Record takes (node : string) (w w' : World) : Prop := {
  tk_heap : w_heap w' = w_heap w;
  tk_transport : is_Some (w_transport w');
  tk_capacity : world_capacity w' = world_capacity w;
  tk_inbox : forall n, world_inbox n w' =
    if decide (n = node) then tail (world_inbox n w) else world_inbox n w;
}.

(** The operation did what the specification says. *)
Definition does (eff : effect) (say : option Mail -> seen) (answer : seen) (w w' : World) : Prop :=
  match eff with
  | Idle => same_mail w w' /\ answer = say None
  | Posts mail => sends mail w w' /\ answer = say None
  | Takes node =>
      takes node w w' /\
      forall box, Forall2 (stands_for (w_heap w)) (world_inbox node w) box -> answer = say (head box)
  end.

Class EndpointLaws (E O : Type) `{Endpoint E O} := {
  ep_wf : E -> Prop;
  ep_sound : forall (o : O) (w : World) (e : E),
    ep_wf e -> is_Some (w_transport w) ->
    let '(answer, w', e') := ep_do o w e in
    let '(eff, v', say) := ep_spec o (ep_view e) in
    ep_wf e' /\ ep_view e' = v' /\ does eff say answer w w';
}.

(** ** The four kinds of endpoints *)

Inductive client_op :=
| CConnect
| CSubmitTask (now : TimePoint) (task : TaskMessage)
| CPollResult
| CPollCompletion.

Inductive server_op :=
| VAccept (client_node : string)
| VPollTask
| VSendResult (now : TimePoint) (client_node : string) (result : ResultMessage)
| VPollCompletion.

Inductive runtime_op :=
| RSubmit (now : TimePoint) (spec : TaskSpec)
| RPoll
| RPollCompletion.

Definition read_task (mail : option Mail) : seen :=
  SeenTask ((fun m => TaskMessage.Deserialize (ml_bytes m)) <$> mail).

Definition read_result (mail : option Mail) : seen :=
  SeenResult ((fun m => ResultMessage.Deserialize (ml_bytes m)) <$> mail).

Definition poll_spec (v : View) : effect * View * (option Mail -> seen) :=
  (Idle, polled v, fun _ => SeenCompletion (Poll (v_completions v)).1).

Section instances.
Context {AO : ArgOrder}.

#[export] Instance session_endpoint : Endpoint WorkerSession session_op := {
  ep_do o w s :=
    match o with
    | SSubmit now task =>
        let '(result, w', s') := Submit now task w s in (SeenSubmission result, w', s')
    | SPollTask => let '(task, w', s') := PollTask w s in (SeenTask task, w', s')
    | SSendResult now result =>
        let '(ok, w', s') := SendResult now result w s in (SeenOk ok, w', s')
    | SPollCompletion => let '(event, s') := PollCompletion s in (SeenCompletion event, w, s')
    end;
  ep_view s := mkView (ws_node_id s) "" true (ws_next_work_request_id s) (ws_completions s);
  ep_spec o v :=
    match o with
    | SSubmit now task =>
        let mail := mkMail (v_node v) (goes_to (v_node v) (tm_target_node task)) "task"
          (tm_description task) (TaskMessage.Serialize task) (v_next_id v) op_kSend in
        (Posts mail, numbered (pushed now mail v), fun _ =>
           SeenSubmission (mkSubmissionResult (tm_task_id task) true
             "task submitted through rdma session" (v_next_id v)))
    | SPollTask => (Takes (v_node v), v, read_task)
    | SSendResult now result =>
        let mail := mkMail (v_node v) (goes_to (v_node v) (rm_target_node result)) "result"
          (rm_detail result) (ResultMessage.Serialize result) (v_next_id v) op_kResult in
        (Posts mail, numbered (pushed now mail v), fun _ => SeenOk true)
    | SPollCompletion => poll_spec v
    end;
}.

#[export] Instance client_endpoint : Endpoint RdmaClient client_op := {
  ep_do o w c :=
    match o with
    | CConnect => let '(ok, w', c') := client_Connect w c in (SeenOk ok, w', c')
    | CSubmitTask now task =>
        let '(id, w', c') := SubmitTask now task w c in (SeenId id, w', c')
    | CPollResult => let '(result, w') := PollResult w c in (SeenResult result, w', c)
    | CPollCompletion => let '(event, c') := client_PollCompletion c in (SeenCompletion event, w, c')
    end;
  ep_view c :=
    mkView (cc_node_id (cl_config c)) (cc_server_node (cl_config c))
      (conn_established (cl_connection c)) (cl_next_work_request_id c) (cl_completions c);
  ep_spec o v :=
    match o with
    | CConnect =>
        let ok := negb (bool_decide (v_node v = "")) && negb (bool_decide (v_server v = "")) in
        (Idle, mkView (v_node v) (v_server v) (v_up v || ok) (v_next_id v) (v_completions v),
         fun _ => SeenOk ok)
    | CSubmitTask now task =>
        let mail := mkMail (v_node v) (v_server v) "task" (tm_description task)
          (TaskMessage.Serialize task) (v_next_id v) op_kSend in
        if v_up v
        then (Posts mail, numbered (pushed now mail v), fun _ => SeenId (v_next_id v))
        else (Idle, v, fun _ => SeenId 0)
    | CPollResult => (Takes (v_node v), v, read_result)
    | CPollCompletion => poll_spec v
    end;
}.

#[export] Instance server_endpoint : Endpoint RdmaServer server_op := {
  ep_do o w s :=
    match o with
    | VAccept client_node => let '(ok, w', s') := Accept client_node w s in (SeenOk ok, w', s')
    | VPollTask => let '(task, w') := server_PollTask w s in (SeenTask task, w', s)
    | VSendResult now client_node result =>
        let '(ok, w', s') := server_SendResult now client_node result w s in (SeenOk ok, w', s')
    | VPollCompletion => let '(event, s') := server_PollCompletion s in (SeenCompletion event, w, s')
    end;
  ep_view s := mkView (sv_node_id s) "" true 0 (sv_completions s);
  ep_spec o v :=
    match o with
    | VAccept _ => (Idle, v, fun _ => SeenOk true)
    | VPollTask => (Takes (v_node v), v, read_task)
    | VSendResult now client_node result =>
        let mail := mkMail (v_node v) client_node "result" (rm_detail result)
          (ResultMessage.Serialize result) 0 op_kResult in
        (Posts mail, pushed now mail v, fun _ => SeenOk true)
    | VPollCompletion => poll_spec v
    end;
}.

#[export] Instance runtime_endpoint : Endpoint WorkerRuntime runtime_op := {
  ep_do o w r :=
    match o with
    | RSubmit now spec => let '(result, w', r') := runtime_Submit now spec w r in (SeenExecuted result, w', r')
    | RPoll => let '(m, w') := runtime_Poll w r in (SeenMail (mail_of (w_heap w') <$> m), w', r)
    | RPollCompletion => let '(event, r') := runtime_PollCompletion r in (SeenCompletion event, w, r')
    end;
  ep_view r :=
    mkView (wr_node_id r) "" true (ex_next_work_request_id (wr_executor r)) (wr_completions r);
  ep_spec o v :=
    match o with
    | RSubmit now spec =>
        let mail := mkMail (v_node v) (goes_to (v_node v) (sp_target_node spec))
          (ToString_TaskKind (sp_kind spec)) (Summary (sp_tensor spec))
          (Tensor.Serialize (sp_tensor spec)) (v_next_id v) op_kSend in
        (Posts mail, numbered (pushed now mail v), fun _ =>
           SeenExecuted (mkTaskResult (sp_id spec) true "task submitted to transport" (v_next_id v)))
    | RPoll => (Takes (v_node v), v, SeenMail)
    | RPollCompletion => poll_spec v
    end;
}.
End instances.

(** ** Lemmas: sending and receiving *)

Lemma same_mail_refl w : is_Some (w_transport w) -> same_mail w w.
Proof. intros Ht. by constructor. Qed.

Lemma sends_through mail w w1 w' : same_mail w w1 -> sends mail w1 w' -> sends mail w w'.
Proof.
  intros [Hh _ Hc Hin] [H1 H2 H3 H4]. constructor; [congruence|done|congruence|].
  intros n. by rewrite H4, Hin, Hh, Hc.
Qed.

Lemma connect_same_mail qp w : is_Some (w_transport w) -> same_mail w (connect_transport qp w).
Proof.
  intros [t Ht]. constructor; [done| |apply connect_transport_capacity|intros; apply connect_transport_inbox].
  unfold connect_transport. rewrite Ht. by eexists.
Qed.

Lemma ensure_peer_same node_id peer w peers :
  peers_wf node_id peers -> is_Some (w_transport w) ->
  exists w' peers', ensure_peer node_id peer w peers = (ready_connection node_id peer, w', peers') /\
    peers_wf node_id peers' /\ same_mail w w'.
Proof.
  intros Hp Ht. pose proof (ensure_peer_spec node_id peer w peers Hp) as HE.
  destruct (ensure_peer _ _ _ _) as [[c w'] peers']. destruct HE as (-> & Hp' & Hin & Hc & Hh & _ & Ht').
  exists w', peers'. split_and!; [done|done|]. constructor; auto.
Qed.

(** [PostSend] on a ready queue pair, after the payload has been stored. *)
Lemma post_send_sends now node peer dest topic text bytes id op w cq :
  is_Some (w_transport w) ->
  let mail := mkMail node peer topic text bytes id op in
  exists w',
    post_send now (conn_queue_pair (ready_connection node peer))
      (mkMessage node dest topic text (Some (hp_next (w_heap w))) id op)
      (set_heap (make_shared bytes (w_heap w)).2 w) cq = (w', Push_locked (sent_event now mail) cq) /\
    sends mail w w'.
Proof.
  intros [t Ht] mail. set (msg := mkMessage _ _ _ _ _ _ _).
  set (w1 := set_heap (make_shared bytes (w_heap w)).2 w).
  assert (Ht1 : is_Some (w_transport w1)) by (simpl; rewrite Ht; by eexists).
  pose proof (post_send_bounded now node peer msg w1 cq Ht1) as HP. cbv zeta in HP.
  assert (Hsize : msg_size msg (w_heap w1) = sizeZ bytes).
  { unfold msg_size, ptr_size, deref. simpl. by rewrite lookup_insert_eq. }
  assert (Hcq : (post_send now (conn_queue_pair (ready_connection node peer)) msg w1 cq).2 =
    Push_locked (sent_event now mail) cq).
  { unfold post_send. simpl w_transport. rewrite Ht. simpl. f_equal. unfold sent_event.
    f_equal. exact Hsize. }
  destruct (post_send _ _ _ _ _) as [w' cq']. simpl in Hcq. subst cq'.
  destruct HP as (Hin & Hh & Hc & Ht'). exists w'. split; [done|].
  constructor; [done|done|done|]. intros n. rewrite Hin.
  change (world_inbox n w1) with (world_inbox n w). change (world_capacity w1) with (world_capacity w).
  change (ml_destination mail) with peer. case_decide; [|done]. f_equal. unfold stamp, msg, mail_message. simpl. by case_decide.
Qed.

Lemma Register_stores `{ArgOrder} bytes h r region h' r' :
  Register bytes h r = (region, h', r') ->
  mr_storage region = Some (hp_next h) /\ h' = (make_shared bytes h).2.
Proof.
  unfold Register. simpl. intros [= <- <- _]. by destruct args_left_to_right.
Qed.

(** [PollReceive] takes the oldest message. *)
Lemma poll_receive_takes node w :
  is_Some (w_transport w) ->
  exists w', poll_receive node w = (head (world_inbox node w), w') /\ takes node w w'.
Proof.
  intros [t Ht]. unfold poll_receive. rewrite Ht, PollReceive_spec.
  destruct (inbox node t) as [|m rest] eqn:E.
  - eexists. split; [unfold world_inbox; by rewrite Ht, E|].
    constructor; [done|by eexists|unfold world_capacity; simpl; by rewrite Ht, try_emplace_config|].
    intros n. unfold world_inbox. simpl. rewrite Ht, try_emplace_inbox. case_decide; [|done].
    subst n. by rewrite E.
  - eexists. split; [unfold world_inbox; by rewrite Ht, E|].
    constructor; [done|by eexists|unfold world_capacity; by rewrite Ht|].
    intros n. unfold world_inbox. simpl. rewrite Ht. unfold inbox in *. simpl. rewrite lookup_insert.
    repeat case_decide; subst; try done. by rewrite E.
Qed.

(** The message a poll hands out, against the mail it stands for. *)
Lemma stands_for_head h q box : Forall2 (stands_for h) q box -> head box = mail_of h <$> head q.
Proof.
  intros [|m mail q' box' (l & -> & Hl) _]; [done|]. simpl. f_equal. destruct mail.
  unfold mail_of, mail_message. simpl in *. by rewrite Hl.
Qed.

Lemma decode_stands_for {A} (decode : ByteBuffer -> A) h q box :
  Forall2 (stands_for h) q box ->
  decode_payload decode (head q) h = (fun m => decode (ml_bytes m)) <$> head box.
Proof.
  intros [|m mail q' box' (l & -> & Hl) _]; [done|]. unfold decode_payload. simpl. by rewrite Hl.
Qed.

(** ** The endpoints keep the laws *)

Definition session_ok (s : WorkerSession) : Prop := peers_wf (ws_node_id s) (ws_peers s).

Definition client_ok (c : RdmaClient) : Prop :=
  client_fresh c \/
  cl_connection c = ready_connection (cc_node_id (cl_config c)) (cc_server_node (cl_config c)).

Definition server_ok (s : RdmaServer) : Prop := peers_wf (sv_node_id s) (sv_peers s).

Definition runtime_ok (r : WorkerRuntime) : Prop :=
  map_Forall (fun peer qp => qp = ready_pair (wr_node_id r) peer) (wr_peers r) /\
  ex_local_node (wr_executor r) = wr_node_id r.

(** With a transport, the operations start with the test for one. *)
Ltac has_transport :=
  match goal with
  | H : is_Some (w_transport ?w) |- _ =>
      let t := fresh "t" in let Et := fresh "Et" in
      destruct (w_transport w) as [t|] eqn:Et; [|by destruct H]; rewrite <- Et in H
  end.

Section laws.
Context {AO : ArgOrder}.

Lemma Submit_does now task w s :
  session_ok s -> is_Some (w_transport w) ->
  let mail := mkMail (ws_node_id s) (goes_to (ws_node_id s) (tm_target_node task)) "task"
    (tm_description task) (TaskMessage.Serialize task) (ws_next_work_request_id s) op_kSend in
  exists w' s', Submit now task w s =
    (mkSubmissionResult (tm_task_id task) true "task submitted through rdma session"
       (ws_next_work_request_id s), w', s') /\
    session_ok s' /\ ep_view s' = numbered (pushed now mail (ep_view s)) /\ sends mail w w'.
Proof.
  intros Hp Ht mail. unfold Submit. has_transport. unfold EnsurePeer.
  destruct (ensure_peer_same (ws_node_id s) (goes_to (ws_node_id s) (tm_target_node task)) w
    (ws_peers s) Hp Ht) as (w1 & peers1 & E1 & Hp1 & Hsame).
  change (peer_of (tm_target_node task) s) with (goes_to (ws_node_id s) (tm_target_node task)).
  rewrite E1. destruct (Register _ _ _) as [[region h2] r2] eqn:ER.
  apply Register_stores in ER as [Hst ->]. unfold next_id. rewrite Hst.
  set (peer := goes_to _ _) in *.
  destruct (post_send_sends now (ws_node_id s) peer peer "task"
    (tm_description task) (TaskMessage.Serialize task) (ws_next_work_request_id s) op_kSend w1
    (ws_completions s) (sm_transport _ _ Hsame)) as (w4 & E4 & Hs).
  cbn [set_registry set_peers ws_completions ws_next_work_request_id] in *.
  change (ws_node_id (mkWorkerSession _ _ _ _ _ _ _)) with (ws_node_id s). rewrite E4.
  do 2 eexists. split; [reflexivity|]. split_and!; [done|done|by eapply sends_through].
Qed.

Lemma SendResult_does now result w s :
  session_ok s -> is_Some (w_transport w) ->
  let mail := mkMail (ws_node_id s) (goes_to (ws_node_id s) (rm_target_node result)) "result"
    (rm_detail result) (ResultMessage.Serialize result) (ws_next_work_request_id s) op_kResult in
  exists w' s', SendResult now result w s = (true, w', s') /\
    session_ok s' /\ ep_view s' = numbered (pushed now mail (ep_view s)) /\ sends mail w w'.
Proof.
  intros Hp Ht mail. unfold SendResult. has_transport. unfold EnsurePeer.
  destruct (ensure_peer_same (ws_node_id s) (goes_to (ws_node_id s) (rm_target_node result)) w
    (ws_peers s) Hp Ht) as (w1 & peers1 & E1 & Hp1 & Hsame).
  change (peer_of (rm_target_node result) s) with (goes_to (ws_node_id s) (rm_target_node result)).
  rewrite E1. unfold next_id.
  set (peer := goes_to _ _) in *.
  destruct (post_send_sends now (ws_node_id s) peer peer "result"
    (rm_detail result) (ResultMessage.Serialize result) (ws_next_work_request_id s) op_kResult w1
    (ws_completions s) (sm_transport _ _ Hsame)) as (w4 & E4 & Hs).
  cbn [snd make_shared set_peers ws_completions ws_next_work_request_id] in *.
  change (ws_node_id (mkWorkerSession _ _ _ _ _ _ _)) with (ws_node_id s). rewrite E4.
  do 2 eexists. split; [reflexivity|]. split_and!; [done|done|by eapply sends_through].
Qed.

Lemma PollTask_does w s :
  is_Some (w_transport w) ->
  exists task w' s', PollTask w s = (task, w', s') /\ ws_peers s' = ws_peers s /\
    ep_view s' = ep_view s /\ does (Takes (ws_node_id s)) read_task (SeenTask task) w w'.
Proof.
  intros Ht. unfold PollTask. has_transport.
  destruct (poll_receive_takes (ws_node_id s) w Ht) as (w' & -> & Hk). exists
    (decode_payload TaskMessage.Deserialize (head (world_inbox (ws_node_id s) w)) (w_heap w)), w'.
  rewrite (tk_heap _ _ _ Hk). destruct (head (world_inbox (ws_node_id s) w)) as [m|] eqn:E; simpl.
  - destruct (msg_payload m) as [l|] eqn:El; eexists; (split; [reflexivity|]);
      (split_and!; [done|done|done|]); intros box Hb; unfold read_task;
      rewrite <- (decode_stands_for _ _ _ _ Hb), E; unfold decode_payload; by rewrite El.
  - eexists; split; [reflexivity|]. split_and!; [done|done|done|]. intros box Hb. unfold read_task.
    by rewrite <- (decode_stands_for _ _ _ _ Hb), E.
Qed.

#[export] Instance session_laws : EndpointLaws WorkerSession session_op.
Proof.
  refine {| ep_wf := session_ok |}. intros o w s Hs Ht. destruct o as [now task| |now result|]; simpl.
  - destruct (Submit_does now task w s Hs Ht) as (w' & s' & -> & H1 & H2 & H3). by split_and!.
  - destruct (PollTask_does w s Ht) as (task & w' & s' & -> & H1 & H2 & H3).
    split_and!; [|done|apply H3|apply H3]. unfold session_ok. rewrite H1. by injection H2 as -> _ _.
  - destruct (SendResult_does now result w s Hs Ht) as (w' & s' & -> & H1 & H2 & H3). by split_and!.
  - unfold PollCompletion, polled. destruct (Poll (ws_completions s)) as [[e|] cq] eqn:E; simpl; rewrite E;
      (split_and!; [done|done|by apply same_mail_refl|done]).
Defined.

(** *** RdmaClient *)

Lemma client_Connect_does w c :
  client_ok c -> is_Some (w_transport w) ->
  let ok := negb (bool_decide (cc_node_id (cl_config c) = "")) &&
    negb (bool_decide (cc_server_node (cl_config c) = "")) in
  exists w' c', client_Connect w c = (ok, w', c') /\ client_ok c' /\
    cl_config c' = cl_config c /\ cl_next_work_request_id c' = cl_next_work_request_id c /\
    cl_completions c' = cl_completions c /\
    conn_established (cl_connection c') = (conn_established (cl_connection c) || ok)%bool /\ same_mail w w'.
Proof.
  intros Hc Ht ok. unfold client_Connect. has_transport.
  assert (Hb : Build (qp_config (conn_queue_pair (cl_connection c))) =
    mkHandshakeRequest (cc_node_id (cl_config c)) (cc_server_node (cl_config c)))
    by (by destruct Hc as [->| ->]).
  rewrite Hb. pose proof (Validate_accepted
    (mkHandshakeRequest (cc_node_id (cl_config c)) (cc_server_node (cl_config c)))) as Hv. simpl in Hv.
  assert (Hok : hs_accepted (Validate (mkHandshakeRequest (cc_node_id (cl_config c))
    (cc_server_node (cl_config c)))) = ok).
  { apply eq_bool_prop_intro. rewrite !Is_true_true, Hv. unfold ok.
    repeat case_bool_decide; simpl; naive_solver. }
  rewrite Hok. destruct ok; simpl.
  - assert (HE : Establish (cl_connection c) =
      (true, ready_connection (cc_node_id (cl_config c)) (cc_server_node (cl_config c))))
      by (by destruct Hc as [->| ->]).
    rewrite HE. simpl. do 2 eexists. split; [reflexivity|].
    split_and!; try done; [by right|by rewrite orb_true_r|by apply connect_same_mail].
  - exists w, c. split_and!; auto using same_mail_refl. by rewrite orb_false_r.
Qed.

Lemma SubmitTask_does now task w c :
  client_ok c -> is_Some (w_transport w) -> conn_established (cl_connection c) = true ->
  let mail := mkMail (cc_node_id (cl_config c)) (cc_server_node (cl_config c)) "task"
    (tm_description task) (TaskMessage.Serialize task) (cl_next_work_request_id c) op_kSend in
  exists w' c', SubmitTask now task w c = (cl_next_work_request_id c, w', c') /\
    client_ok c' /\ ep_view c' = numbered (pushed now mail (ep_view c)) /\ sends mail w w'.
Proof.
  intros Hc Ht Hup mail. unfold SubmitTask. has_transport.
  assert (Hr : cl_connection c = ready_connection (cc_node_id (cl_config c)) (cc_server_node (cl_config c))).
  { destruct Hc as [Hf|]; [|done]. unfold client_fresh in Hf. by rewrite Hf in Hup. }
  rewrite Hup. cbn [negb]. destruct (Register _ _ _) as [[region h1] r1] eqn:ER.
  apply Register_stores in ER as [-> ->]. rewrite Hr.
  destruct (post_send_sends now (cc_node_id (cl_config c)) (cc_server_node (cl_config c))
    (cc_server_node (cl_config c)) "task" (tm_description task) (TaskMessage.Serialize task)
    (cl_next_work_request_id c) op_kSend w (cl_completions c) Ht) as (w' & -> & Hs).
  do 2 eexists. split; [reflexivity|]. split_and!; [by right| |done].
  unfold ep_view. simpl. by rewrite Hr.
Qed.

#[export] Instance client_laws : EndpointLaws RdmaClient client_op.
Proof.
  refine {| ep_wf := client_ok |}. intros o w c Hc Ht. destruct o as [|now task| |]; simpl.
  - destruct (client_Connect_does w c Hc Ht) as (w' & c' & -> & H1 & H2 & H3 & H4 & H5 & H6).
    split_and!; [done| |done|done]. by rewrite H2, H3, H4, H5.
  - destruct (conn_established (cl_connection c)) eqn:Hup.
    + destruct (SubmitTask_does now task w c Hc Ht Hup) as (w' & c' & -> & H1 & H2 & H3).
      simpl. split_and!; [done| |done|done]. revert H2. unfold ep_view. simpl. by rewrite Hup.
    + unfold SubmitTask. has_transport. rewrite Hup. simpl.
      split_and!; [done|by rewrite Hup|by apply same_mail_refl|done].
  - unfold PollResult. has_transport.
    destruct (poll_receive_takes (cc_node_id (cl_config c)) w Ht) as (w' & -> & Hk).
    split_and!; [done|done|done|]. intros box Hb. unfold read_result.
    by rewrite (tk_heap _ _ _ Hk), <- (decode_stands_for _ _ _ _ Hb).
  - unfold client_PollCompletion, polled. destruct (Poll (cl_completions c)) as [e cq] eqn:E; simpl. rewrite E.
    split_and!; [done|done|by apply same_mail_refl|done].
Defined.

(** *** RdmaServer *)

Lemma server_SendResult_does now client_node result w s :
  server_ok s -> is_Some (w_transport w) ->
  let mail := mkMail (sv_node_id s) client_node "result" (rm_detail result)
    (ResultMessage.Serialize result) 0 op_kResult in
  exists w' s', server_SendResult now client_node result w s = (true, w', s') /\
    server_ok s' /\ ep_view s' = pushed now mail (ep_view s) /\ sends mail w w'.
Proof.
  intros Hp Ht mail. unfold server_SendResult. has_transport. unfold server_EnsurePeer.
  destruct (ensure_peer_same (sv_node_id s) client_node w (sv_peers s) Hp Ht)
    as (w1 & peers1 & -> & Hp1 & Hsame).
  destruct (post_send_sends now (sv_node_id s) client_node client_node "result" (rm_detail result)
    (ResultMessage.Serialize result) 0 op_kResult w1 (sv_completions s) (sm_transport _ _ Hsame))
    as (w4 & E4 & Hs).
  cbn [snd make_shared sv_completions] in *.
  change (sv_node_id (mkRdmaServer _ _ _)) with (sv_node_id s). rewrite E4.
  do 2 eexists. split; [reflexivity|]. split_and!; [done|done|by eapply sends_through].
Qed.

#[export] Instance server_laws : EndpointLaws RdmaServer server_op.
Proof.
  refine {| ep_wf := server_ok |}. intros o w s Hs Ht. destruct o as [client_node| |now client_node result|]; simpl.
  - unfold Accept, server_EnsurePeer. has_transport.
    destruct (ensure_peer_same (sv_node_id s) client_node w (sv_peers s) Hs Ht)
      as (w1 & peers1 & -> & Hp1 & Hsame). by split_and!.
  - unfold server_PollTask. has_transport.
    destruct (poll_receive_takes (sv_node_id s) w Ht) as (w' & -> & Hk).
    split_and!; [done|done|done|]. intros box Hb. unfold read_task.
    by rewrite (tk_heap _ _ _ Hk), <- (decode_stands_for _ _ _ _ Hb).
  - destruct (server_SendResult_does now client_node result w s Hs Ht) as (w' & s' & -> & H1 & H2 & H3).
    by split_and!.
  - unfold server_PollCompletion, polled. destruct (Poll (sv_completions s)) as [e cq] eqn:E; simpl. rewrite E.
    split_and!; [done|done|by apply same_mail_refl|done].
Defined.

(** *** WorkerRuntime *)

Lemma runtime_EnsurePeer_does peer w r :
  runtime_ok r -> is_Some (w_transport w) ->
  exists w' r', runtime_EnsurePeer peer w r = (ready_pair (wr_node_id r) peer, w', r') /\
    runtime_ok r' /\ wr_node_id r' = wr_node_id r /\ wr_completions r' = wr_completions r /\
    wr_executor r' = wr_executor r /\ same_mail w w'.
Proof.
  intros [Hp Hn] Ht. unfold runtime_EnsurePeer. destruct (wr_peers r !! peer) as [qp|] eqn:E.
  - exists w, r. rewrite (Hp _ _ E). split_and!; auto using same_mail_refl. by split.
  - eexists _, _. split; [reflexivity|]. split_and!; auto using connect_same_mail.
    split; simpl; [|done]. unfold emplace. rewrite E. by apply map_Forall_insert_2.
Qed.

Lemma runtime_Submit_does now spec w r :
  runtime_ok r -> is_Some (w_transport w) ->
  let id := ex_next_work_request_id (wr_executor r) in
  let mail := mkMail (wr_node_id r) (goes_to (wr_node_id r) (sp_target_node spec))
    (ToString_TaskKind (sp_kind spec)) (Summary (sp_tensor spec))
    (Tensor.Serialize (sp_tensor spec)) id op_kSend in
  exists w' r', runtime_Submit now spec w r =
      (mkTaskResult (sp_id spec) true "task submitted to transport" id, w', r') /\
    runtime_ok r' /\ ep_view r' = numbered (pushed now mail (ep_view r)) /\ sends mail w w'.
Proof.
  intros Hr Ht id mail. unfold runtime_Submit.
  change (runtime_peer spec r) with (goes_to (wr_node_id r) (sp_target_node spec)).
  set (peer := goes_to _ _) in *.
  destruct (runtime_EnsurePeer_does peer w r Hr Ht) as (w1 & r1 & -> & [Hp1 Hl1] & Hn1 & Hc1 & Hx1 & Hsame).
  unfold Execute. destruct (Register _ _ _) as [[region h2] r2] eqn:ER.
  apply Register_stores in ER as [-> ->]. rewrite Hl1, Hn1, Hc1, Hx1.
  destruct (post_send_sends now (wr_node_id r) peer (sp_target_node spec)
    (ToString_TaskKind (sp_kind spec)) (Summary (sp_tensor spec)) (Tensor.Serialize (sp_tensor spec))
    (ex_next_work_request_id (wr_executor r)) op_kSend w1 (wr_completions r) (sm_transport _ _ Hsame)) as (w' & E & Hs).
  unfold ready_pair. rewrite E. do 2 eexists. split; [reflexivity|].
  split_and!; [split; simpl; [by rewrite <- Hn1|done]|done|by eapply sends_through].
Qed.

#[export] Instance runtime_laws : EndpointLaws WorkerRuntime runtime_op.
Proof.
  refine {| ep_wf := runtime_ok |}. intros o w r Hr Ht. destruct o as [now spec| |]; simpl.
  - destruct (runtime_Submit_does now spec w r Hr Ht) as (w' & r' & -> & H1 & H2 & H3). by split_and!.
  - unfold runtime_Poll. destruct (poll_receive_takes (wr_node_id r) w Ht) as (w' & -> & Hk).
    split_and!; [done|done|done|]. intros box Hb. by rewrite (tk_heap _ _ _ Hk), (stands_for_head _ _ _ Hb).
  - unfold runtime_PollCompletion, polled. destruct (Poll (wr_completions r)) as [e cq] eqn:E; simpl. rewrite E.
    split_and!; [done|done|by apply same_mail_refl|done].
Defined.
End laws.

(** ** The net *)

Record Net := mkNet {
  nt_world : World;
  nt_sessions : list WorkerSession;
  nt_clients : list RdmaClient;
  nt_servers : list RdmaServer;
  nt_runtimes : list WorkerRuntime;
}.

Inductive net_op :=
| OnSession (i : nat) (o : session_op)
| OnClient (i : nat) (o : client_op)
| OnServer (i : nat) (o : server_op)
| OnRuntime (i : nat) (o : runtime_op).

Record NetConfig := mkNetConfig {
  nc_transport : TransportConfig;
  nc_sessions : list WorkerSessionConfig;
  nc_clients : list ClientConfig;
  nc_servers : list ServerConfig;
  nc_runtimes : list string;
}.

(** An operation of the [i]-th endpoint of a list. *)
Definition step_at {E O} `{Endpoint E O} (i : nat) (o : O) (w : World) (l : list E)
    : seen * World * list E :=
  match l !! i with
  | None => (SeenNobody, w, l)
  | Some e => let '(answer, w', e') := ep_do o w e in (answer, w', <[i := e']> l)
  end.

Section run.
Context {AO : ArgOrder}.

Definition net_step (op : net_op) (n : Net) : seen * Net :=
  match op with
  | OnSession i o =>
      let '(answer, w', l) := step_at i o (nt_world n) (nt_sessions n) in
      (answer, mkNet w' l (nt_clients n) (nt_servers n) (nt_runtimes n))
  | OnClient i o =>
      let '(answer, w', l) := step_at i o (nt_world n) (nt_clients n) in
      (answer, mkNet w' (nt_sessions n) l (nt_servers n) (nt_runtimes n))
  | OnServer i o =>
      let '(answer, w', l) := step_at i o (nt_world n) (nt_servers n) in
      (answer, mkNet w' (nt_sessions n) (nt_clients n) l (nt_runtimes n))
  | OnRuntime i o =>
      let '(answer, w', l) := step_at i o (nt_world n) (nt_runtimes n) in
      (answer, mkNet w' (nt_sessions n) (nt_clients n) (nt_servers n) l)
  end.

Fixpoint net_run (ops : list net_op) (n : Net) : list seen * Net :=
  match ops with
  | [] => ([], n)
  | op :: ops' =>
      let '(answer, n1) := net_step op n in
      let '(answers, n2) := net_run ops' n1 in (answer :: answers, n2)
  end.

(** The constructors of the sessions allocate the buffers of their pools. *)
Fixpoint open_sessions (configs : list WorkerSessionConfig) (w : World)
    : World * list WorkerSession :=
  match configs with
  | [] => (w, [])
  | config :: rest =>
      let '(w1, s) := new_WorkerSession config w in
      let '(w2, l) := open_sessions rest w1 in (w2, s :: l)
  end.

Definition new_net (config : NetConfig) : Net :=
  let '(w, sessions) := open_sessions (nc_sessions config)
    (mkWorld empty_heap ∅ (Some (new_TransportRdma (nc_transport config)))) in
  mkNet w sessions (new_RdmaClient <$> nc_clients config) (new_RdmaServer <$> nc_servers config)
    (new_WorkerRuntime <$> nc_runtimes config).
End run.

(** The pool of a session can be constructed without wrapping a counter. *)
Definition session_config_ok (config : WorkerSessionConfig) : Prop :=
  (0 <= bp_buffers (wsc_buffer_pool config))%Z /\ (0 <= bp_buffer_size (wsc_buffer_pool config))%Z /\
  counters_room new_MemoryRegistry (bp_buffers (wsc_buffer_pool config)).

(** ** The specification *)

Abbreviation Boxes := (gmap string (list Mail)).

Definition box (node : string) (boxes : Boxes) : list Mail := default [] (boxes !! node).

Record AbsNet := mkAbsNet {
  an_boxes : Boxes;
  an_sessions : list View;
  an_clients : list View;
  an_servers : list View;
  an_runtimes : list View;
}.

(** One entry of the log: what was done, the mail taken, and the answer. *)
Record entry := mkEntry {
  en_effect : effect;
  en_taken : option Mail;
  en_seen : seen;
}.

Definition post_office (cap : Z) (eff : effect) (boxes : Boxes) : option Mail * Boxes :=
  match eff with
  | Idle => (None, boxes)
  | Posts mail =>
      (None, <[ml_destination mail := push_bounded cap (box (ml_destination mail) boxes) mail]> boxes)
  | Takes node => (head (box node boxes), <[node := tail (box node boxes)]> boxes)
  end.

Definition spec_at (E O : Type) `{Endpoint E O} (cap : Z) (i : nat) (o : O) (boxes : Boxes) (l : list View)
    : entry * Boxes * list View :=
  match l !! i with
  | None => (mkEntry Idle None SeenNobody, boxes, l)
  | Some v =>
      let '(eff, v', say) := ep_spec o v in
      let '(taken, boxes') := post_office cap eff boxes in
      (mkEntry eff taken (say taken), boxes', <[i := v']> l)
  end.

Section spec.
Context {AO : ArgOrder}.

Definition abs_step (cap : Z) (op : net_op) (a : AbsNet) : entry * AbsNet :=
  match op with
  | OnSession i o =>
      let '(e, boxes, l) := spec_at WorkerSession session_op cap i o (an_boxes a) (an_sessions a) in
      (e, mkAbsNet boxes l (an_clients a) (an_servers a) (an_runtimes a))
  | OnClient i o =>
      let '(e, boxes, l) := spec_at RdmaClient client_op cap i o (an_boxes a) (an_clients a) in
      (e, mkAbsNet boxes (an_sessions a) l (an_servers a) (an_runtimes a))
  | OnServer i o =>
      let '(e, boxes, l) := spec_at RdmaServer server_op cap i o (an_boxes a) (an_servers a) in
      (e, mkAbsNet boxes (an_sessions a) (an_clients a) l (an_runtimes a))
  | OnRuntime i o =>
      let '(e, boxes, l) := spec_at WorkerRuntime runtime_op cap i o (an_boxes a) (an_runtimes a) in
      (e, mkAbsNet boxes (an_sessions a) (an_clients a) (an_servers a) l)
  end.

Fixpoint abs_run (cap : Z) (ops : list net_op) (a : AbsNet) : list entry * AbsNet :=
  match ops with
  | [] => ([], a)
  | op :: ops' =>
      let '(e, a1) := abs_step cap op a in
      let '(log, a2) := abs_run cap ops' a1 in (e :: log, a2)
  end.
End spec.

Definition new_view (node server : string) (up : bool) (id : WorkRequestId)
    (config : CompletionQueueConfig) : View :=
  mkView node server up id (new_CompletionQueue config).

Definition abs_net (config : NetConfig) : AbsNet :=
  mkAbsNet ∅
    ((fun c => new_view (wsc_node_id c) "" true 1 (wsc_completion_queue c)) <$> nc_sessions config)
    ((fun c => new_view (cc_node_id c) (cc_server_node c) false 1 default_CompletionQueueConfig)
       <$> nc_clients config)
    ((fun c => new_view (sc_node_id c) "" true 0 default_CompletionQueueConfig) <$> nc_servers config)
    ((fun node => new_view node "" true 1 default_CompletionQueueConfig) <$> nc_runtimes config).

(** What the log says of one node. *)
Definition put_at (node : string) (log : list entry) : list Mail :=
  omap (fun e => match en_effect e with
                 | Posts mail => if decide (ml_destination mail = node) then Some mail else None
                 | _ => None
                 end) log.

Definition took_at (node : string) (log : list entry) : list Mail :=
  omap (fun e => match en_effect e with
                 | Takes n => if decide (n = node) then en_taken e else None
                 | _ => None
                 end) log.

(** The tasks, or the results, that polls of a node answered. *)
Definition seen_task (answer : seen) : option (option TaskMessage) :=
  match answer with SeenTask task => Some task | _ => None end.

Definition seen_result (answer : seen) : option (option ResultMessage) :=
  match answer with SeenResult result => Some result | _ => None end.

Definition answered_at {A} (pick : seen -> option (option A)) (node : string) (log : list entry)
    : list A :=
  omap (fun e => match en_effect e with
                 | Takes n => if decide (n = node) then pick (en_seen e) ≫= id else None
                 | _ => None
                 end) log.

(** Every poll of the node is one of the kind. *)
Definition polled_for {A} (pick : seen -> option (option A)) (node : string) (log : list entry) : Prop :=
  Forall (fun e => en_effect e = Takes node -> is_Some (pick (en_seen e))) log.

(** ** Invariant: the endpoints and the mailboxes are those of the specification *)

Record mail_rel (cap : Z) (w : World) (boxes : Boxes) : Prop := {
  mr_transport : is_Some (w_transport w);
  mr_capacity : world_capacity w = cap;
  mr_heap : heap_wf (w_heap w);
  mr_boxes : forall node, Forall2 (stands_for (w_heap w)) (world_inbox node w) (box node boxes);
}.

Definition parties_rel {E O} `{EndpointLaws E O} (l : list E) (views : list View) : Prop :=
  Forall2 (fun e v => ep_wf e /\ ep_view e = v) l views.

Record net_rel `{ArgOrder} (cap : Z) (n : Net) (a : AbsNet) : Prop := {
  nr_mail : mail_rel cap (nt_world n) (an_boxes a);
  nr_sessions : parties_rel (O := session_op) (nt_sessions n) (an_sessions a);
  nr_clients : parties_rel (O := client_op) (nt_clients n) (an_clients a);
  nr_servers : parties_rel (O := server_op) (nt_servers n) (an_servers a);
  nr_runtimes : parties_rel (O := runtime_op) (nt_runtimes n) (an_runtimes a);
}.

(** ** Lemmas: refinement *)

Lemma Forall2_push_bounded {A B} (P : A -> B -> Prop) cap q q' x x' :
  Forall2 P q q' -> P x x' -> Forall2 P (push_bounded cap q x) (push_bounded cap q' x').
Proof.
  intros Hq Hx. unfold push_bounded, sizeZ. rewrite (Forall2_length _ _ _ Hq).
  apply Forall2_app; [|by constructor]. destruct (_ && _); [|done]. by destruct Hq.
Qed.

Lemma stands_for_make_shared h bytes m mail :
  heap_wf h -> stands_for h m mail -> stands_for (make_shared bytes h).2 m mail.
Proof.
  intros Hh (l & -> & Hl). exists l. split; [done|]. simpl.
  rewrite lookup_insert_ne; [done|]. intros <-. by rewrite Hh in Hl by lia.
Qed.

Lemma box_insert node node' q boxes :
  box node (<[node' := q]> boxes) = if decide (node = node') then q else box node boxes.
Proof. unfold box. rewrite lookup_insert. repeat case_decide; by subst. Qed.

(** What an operation did to the transport is what the specification does. *)
Lemma post_office_rel cap eff say answer w w' boxes :
  mail_rel cap w boxes -> does eff say answer w w' ->
  let '(taken, boxes') := post_office cap eff boxes in
  mail_rel cap w' boxes' /\ answer = say taken.
Proof.
  intros [Ht Hc Hh Hb]. destruct eff as [|mail|node]; simpl.
  - intros [[H1 H2 H3 H4] ->]. split; [|done].
    constructor; [done|congruence|by rewrite H1|]. intros n. by rewrite H1, H4.
  - intros [[H1 H2 H3 H4] ->]. split; [|done]. constructor; [done|congruence| |].
    + rewrite H1. by apply heap_wf_make_shared.
    + assert (Hk : forall n, Forall2 (stands_for (make_shared (ml_bytes mail) (w_heap w)).2)
        (world_inbox n w) (box n boxes)).
      { intros n. eapply Forall2_impl; [apply Hb|]. intros x y. by apply stands_for_make_shared. }
      intros n. rewrite H1, H4, box_insert, Hc. case_decide as E; [|apply Hk]. rewrite <- E.
      apply Forall2_push_bounded; [apply Hk|]. eexists. split; [done|]. simpl. by rewrite lookup_insert_eq.
  - intros [[H1 H2 H3 H4] Hsay]. split; [|by apply Hsay].
    constructor; [done|congruence|by rewrite H1|]. intros n. rewrite H1, H4, box_insert.
    case_decide as E; [|done]. rewrite <- E. by destruct (Hb n).
Qed.

Lemma step_at_rel {E O} `{EndpointLaws E O} cap i o w boxes (l : list E) views :
  mail_rel cap w boxes -> parties_rel l views ->
  let '(answer, w', l') := step_at i o w l in
  let '(e, boxes', views') := spec_at E O cap i o boxes views in
  answer = en_seen e /\ mail_rel cap w' boxes' /\ parties_rel l' views'.
Proof.
  intros Hm Hl. unfold step_at, spec_at. destruct (l !! i) as [x|] eqn:Ei.
  - destruct (Forall2_lookup_l _ _ _ _ _ Hl Ei) as (v & Ev & Hwf & <-). rewrite Ev.
    pose proof (ep_sound o w x Hwf (mr_transport _ _ _ Hm)) as HS.
    destruct (ep_do o w x) as [[answer w'] x']. destruct (ep_spec o (ep_view x)) as [[eff v'] say].
    destruct HS as (Hwf' & Hv' & Hdoes). pose proof (post_office_rel _ _ _ _ _ _ _ Hm Hdoes) as HP.
    destruct (post_office cap eff boxes) as [taken boxes']. destruct HP as [Hm' ->].
    split_and!; [done|done|]. apply Forall2_insert; [done|]. by split.
  - assert (views !! i = None) as ->.
    { apply lookup_ge_None. rewrite <- (Forall2_length _ _ _ Hl). by apply lookup_ge_None. }
    by split_and!.
Qed.

Section refinement.
Context {AO : ArgOrder}.

Lemma net_step_rel cap op n a :
  net_rel cap n a ->
  let '(answer, n') := net_step op n in
  let '(e, a') := abs_step cap op a in
  answer = en_seen e /\ net_rel cap n' a'.
Proof.
  intros [Hm H1 H2 H3 H4]. destruct op as [i o|i o|i o|i o]; simpl;
    [pose proof (step_at_rel cap i o _ _ _ _ Hm H1) as HS
    |pose proof (step_at_rel cap i o _ _ _ _ Hm H2) as HS
    |pose proof (step_at_rel cap i o _ _ _ _ Hm H3) as HS
    |pose proof (step_at_rel cap i o _ _ _ _ Hm H4) as HS];
    destruct (step_at _ _ _ _) as [[answer w'] l], (spec_at _ _ _ _ _ _ _) as [[e b] v];
    destruct HS as (Ha & Hm' & Hl'); by split.
Qed.

Lemma net_run_rel cap ops n a :
  net_rel cap n a ->
  let '(answers, n') := net_run ops n in
  let '(log, a') := abs_run cap ops a in
  answers = en_seen <$> log /\ net_rel cap n' a'.
Proof.
  revert n a. induction ops as [|op ops IH]; intros n a HR; [by split|]. simpl.
  pose proof (net_step_rel cap op n a HR) as HS. destruct (net_step op n) as [answer n1].
  destruct (abs_step cap op a) as [e a1]. destruct HS as [-> HR1]. specialize (IH n1 a1 HR1).
  destruct (net_run ops n1) as [answers n2], (abs_run cap ops a1) as [log a2].
  destruct IH as [-> HR2]. by split.
Qed.

Lemma open_sessions_rel cap configs w :
  Forall session_config_ok configs -> mail_rel cap w ∅ ->
  let '(w', l) := open_sessions configs w in
  mail_rel cap w' ∅ /\
  parties_rel (O := session_op) l
    ((fun c => new_view (wsc_node_id c) "" true 1 (wsc_completion_queue c)) <$> configs).
Proof.
  revert w. induction configs as [|config configs IH]; intros w Hok HM; [by split; [|constructor]|].
  apply Forall_cons in Hok as [(Hn & Hsz & Hc) Hok]. destruct HM as [H1 H2 H3 H4].
  pose proof (new_WorkerSession_spec config w H3 Hn Hsz Hc) as H. cbn [open_sessions].
  assert (Hs : session_ok (new_WorkerSession config w).2 /\ ep_view (new_WorkerSession config w).2 =
    new_view (wsc_node_id config) "" true 1 (wsc_completion_queue config))
    by (split; [apply peers_wf_empty|done]).
  destruct (new_WorkerSession config w) as [w1 s]. simpl in Hs.
  destruct H as (Hwf & _ & _ & _ & _ & Ht & _).
  assert (HM1 : mail_rel cap w1 ∅).
  { constructor; [by rewrite Ht|unfold world_capacity; by rewrite Ht|apply (swf_registry _ _ Hwf)|].
    intros node. specialize (H4 node). apply Forall2_nil_inv_r in H4.
    unfold world_inbox in *. rewrite Ht, H4. constructor. }
  specialize (IH w1 Hok HM1). destruct (open_sessions configs w1) as [w2 l].
  destruct IH as [HM2 Hl]. split; [done|]. by constructor.
Qed.

Lemma new_net_rel config :
  Forall session_config_ok (nc_sessions config) ->
  net_rel (tc_mailbox_capacity (nc_transport config)) (new_net config) (abs_net config).
Proof.
  intros Hok. unfold new_net.
  pose proof (open_sessions_rel (tc_mailbox_capacity (nc_transport config)) (nc_sessions config)
    (mkWorld empty_heap ∅ (Some (new_TransportRdma (nc_transport config)))) Hok) as HO.
  destruct (open_sessions _ _) as [w l]. destruct HO as [Hm Hl].
  { constructor; [by eexists|done|exact heap_wf_empty|constructor]. }
  constructor; [done|done| | |]; simpl.
  - apply Forall2_fmap_l, Forall2_fmap_r, Forall_Forall2_diag, Forall_true. intros c. split; [by left|done].
  - apply Forall2_fmap_l, Forall2_fmap_r, Forall_Forall2_diag, Forall_true. intros c.
    split; [apply peers_wf_empty|done].
  - apply Forall2_fmap_l, Forall2_fmap_r, Forall_Forall2_diag, Forall_true. intros c.
    split; [split; [apply map_Forall_empty|done]|done].
Qed.
End refinement.

(** ** Lemmas: the account of one mailbox *)

Lemma post_office_ledger cap eff boxes node puts took answer :
  fifo_ledger cap puts took (box node boxes) ->
  let '(taken, boxes') := post_office cap eff boxes in
  let e := mkEntry eff taken answer in
  fifo_ledger cap (puts ++ put_at node [e]) (took ++ took_at node [e]) (box node boxes').
Proof.
  intros HL. destruct eff as [|mail|n]; unfold put_at, took_at; simpl.
  - by rewrite !app_nil_r.
  - rewrite box_insert. case_decide as E; simpl.
    + rewrite decide_True, E, app_nil_r by done. by apply ledger_put.
    + rewrite decide_False, !app_nil_r by congruence. done.
  - rewrite box_insert. case_decide as E; simpl.
    + rewrite decide_True, E, app_nil_r by done.
      destruct (box node boxes) as [|m rest]; simpl; [by rewrite app_nil_r|by apply ledger_take].
    + rewrite decide_False, !app_nil_r by congruence. done.
Qed.

Lemma spec_at_ledger E O `{Endpoint E O} cap i o boxes views node puts took :
  fifo_ledger cap puts took (box node boxes) ->
  let '(e, boxes', _) := spec_at E O cap i o boxes views in
  fifo_ledger cap (puts ++ put_at node [e]) (took ++ took_at node [e]) (box node boxes').
Proof.
  intros HL. unfold spec_at. destruct (views !! i) as [v|].
  - destruct (ep_spec o v) as [[eff v'] say].
    pose proof (fun answer => post_office_ledger cap eff boxes node puts took answer HL) as HP.
    destruct (post_office cap eff boxes) as [taken boxes']. apply HP.
  - unfold put_at, took_at. simpl. by rewrite !app_nil_r.
Qed.

(** Answers that are tasks or results were read from the mail taken. *)
Definition entry_ok (e : entry) : Prop :=
  match en_seen e with
  | SeenTask task =>
      task = (fun m => TaskMessage.Deserialize (ml_bytes m)) <$> en_taken e
  | SeenResult result =>
      result = (fun m => ResultMessage.Deserialize (ml_bytes m)) <$> en_taken e
  | _ => True
  end.

Section account.
Context {AO : ArgOrder}.

Lemma abs_step_ledger cap op a node puts took :
  fifo_ledger cap puts took (box node (an_boxes a)) ->
  let '(e, a') := abs_step cap op a in
  fifo_ledger cap (puts ++ put_at node [e]) (took ++ took_at node [e]) (box node (an_boxes a')).
Proof.
  intros HL. destruct op as [i o|i o|i o|i o]; simpl;
    [pose proof (spec_at_ledger WorkerSession session_op cap i o _ (an_sessions a) _ _ _ HL) as HS
    |pose proof (spec_at_ledger RdmaClient client_op cap i o _ (an_clients a) _ _ _ HL) as HS
    |pose proof (spec_at_ledger RdmaServer server_op cap i o _ (an_servers a) _ _ _ HL) as HS
    |pose proof (spec_at_ledger WorkerRuntime runtime_op cap i o _ (an_runtimes a) _ _ _ HL) as HS];
    by destruct (spec_at _ _ _ _ _ _ _) as [[e b] v].
Qed.

Lemma spec_at_entry E O `{Endpoint E O} cap i o boxes views :
  (forall v taken, entry_ok (mkEntry (ep_spec o v).1.1 taken ((ep_spec o v).2 taken))) ->
  entry_ok (spec_at E O cap i o boxes views).1.1.
Proof.
  intros Hok. unfold spec_at. destruct (views !! i) as [v|]; [|done]. specialize (Hok v).
  destruct (ep_spec o v) as [[eff v'] say]. destruct (post_office cap eff boxes). apply Hok.
Qed.

Lemma abs_step_entry cap op a : entry_ok (abs_step cap op a).1.
Proof.
  destruct op as [i o|i o|i o|i o]; simpl;
    [pose proof (spec_at_entry WorkerSession session_op cap i o (an_boxes a) (an_sessions a)) as HS
    |pose proof (spec_at_entry RdmaClient client_op cap i o (an_boxes a) (an_clients a)) as HS
    |pose proof (spec_at_entry RdmaServer server_op cap i o (an_boxes a) (an_servers a)) as HS
    |pose proof (spec_at_entry WorkerRuntime runtime_op cap i o (an_boxes a) (an_runtimes a)) as HS];
    destruct (spec_at _ _ _ _ _ _ _) as [[e b] l]; apply HS; intros v taken;
    destruct o; simpl; try done; by destruct (v_up v).
Qed.

Lemma abs_run_ledger cap ops a node puts took :
  fifo_ledger cap puts took (box node (an_boxes a)) ->
  let '(log, a') := abs_run cap ops a in
  Forall entry_ok log /\
  fifo_ledger cap (puts ++ put_at node log) (took ++ took_at node log) (box node (an_boxes a')).
Proof.
  revert a puts took. induction ops as [|op ops IH]; intros a puts took HL; simpl.
  { unfold put_at, took_at. simpl. rewrite !app_nil_r. by split. }
  pose proof (abs_step_ledger cap op a node puts took HL) as HS.
  pose proof (abs_step_entry cap op a) as Hok. destruct (abs_step cap op a) as [e a1].
  specialize (IH a1 _ _ HS). destruct (abs_run cap ops a1) as [log a2]. destruct IH as [Hoks HL'].
  split; [by constructor|]. change (e :: log) with ([e] ++ log).
  unfold put_at, took_at in *. by rewrite !omap_app, !app_assoc.
Qed.
End account.

Lemma fifo_account_fmap {A B} (f : A -> B) cap puts taken held :
  fifo_account cap puts taken held -> fifo_account cap (f <$> puts) (f <$> taken) (f <$> held).
Proof.
  unfold fifo_account, sizeZ. intros [(gone & -> & Hs) [Hb Hl]]. rewrite !length_fmap. split_and!; [|done|].
  - exists (f <$> gone). rewrite fmap_app. split; [done|]. by apply fmap_sublist.
  - intros Hc. rewrite <- fmap_app. f_equal. by apply Hl.
Qed.

(** The answers of a kind are what the wire format reads from the mail. *)
Class Picks (A : Type) `{WireFormat A} (pick : seen -> option (option A)) :=
  picks : forall e x, entry_ok e -> pick (en_seen e) = Some x ->
    x = (fun m => wire_decode (ml_bytes m)) <$> en_taken e.

Instance task_picks : Picks TaskMessage seen_task.
Proof. intros [eff taken []] x He; try done. intros [= <-]. exact He. Qed.

Instance result_picks : Picks ResultMessage seen_result.
Proof. intros [eff taken []] x He; try done. intros [= <-]. exact He. Qed.

Lemma answered_at_took {A} `{Picks A pick} node log :
  Forall entry_ok log -> polled_for pick node log ->
  answered_at pick node log = (fun m => wire_decode (ml_bytes m)) <$> took_at node log.
Proof.
  intros Hok Hp. induction log as [|e log IH]; [done|].
  apply Forall_cons in Hok as [He Hok], Hp as [Hpe Hp]. specialize (IH Hok Hp).
  unfold answered_at, took_at in *. simpl. destruct (en_effect e) as [|mail|n]; try exact IH.
  case_decide as E; [|exact IH]. subst n. destruct (Hpe eq_refl) as [x Hx]. rewrite Hx. simpl.
  rewrite (picks _ _ He Hx). destruct (en_taken e) as [m|]; simpl; [f_equal|]; exact IH.
Qed.

(** A mailbox of encoded messages that are polled for as such. *)
Lemma mailbox_account {A} `{Picks A pick} cap node log held (sent : list A) :
  Forall entry_ok log -> polled_for pick node log ->
  ml_bytes <$> put_at node log = wire_encode <$> sent -> Forall wire_safe sent ->
  fifo_account cap (put_at node log) (took_at node log) held ->
  fifo_account cap sent (answered_at pick node log) ((fun m => wire_decode (ml_bytes m)) <$> held).
Proof.
  intros Hok Hp Henc Hsafe Hacc. set (decode := fun m => wire_decode (ml_bytes m)).
  apply (fifo_account_fmap decode) in Hacc. rewrite answered_at_took by done.
  assert (Hs : decode <$> put_at node log = sent); [|by rewrite Hs in Hacc].
  change (wire_decode ∘ ml_bytes <$> put_at node log = sent).
  rewrite list_fmap_compose, Henc, <- list_fmap_compose. clear Henc Hacc.
  induction Hsafe as [|x l Hx _ IH]; [done|]. rewrite fmap_cons, IH. f_equal. by apply wire_decode_encode.
Qed.

(** ** Properties *)

(** C1. Any number of sessions, clients, servers and runtimes constructed on one new
    transport behave, in any order of their operations, as the specification does: every
    answer of every operation is the one the specification gives (the tasks, results and
    messages received, the success and the work request id of every send, the completion
    events), and at the end every mailbox holds the messages the specification holds, in
    the same order, each with its payload. *)
Theorem endpoints_refine `{ArgOrder} (config : NetConfig) (ops : list net_op) :
  Forall session_config_ok (nc_sessions config) ->
  let '(answers, n) := net_run ops (new_net config) in
  let '(log, a) := abs_run (tc_mailbox_capacity (nc_transport config)) ops (abs_net config) in
  answers = en_seen <$> log /\
  forall node, Forall2 (stands_for (w_heap (nt_world n))) (world_inbox node (nt_world n))
    (box node (an_boxes a)).
Proof.
  intros Hok. pose proof (net_run_rel _ ops _ _ (new_net_rel config Hok)) as HR.
  destruct (net_run ops _) as [answers n], (abs_run _ ops _) as [log a].
  destruct HR as [-> [[_ _ _ Hb] _ _ _ _]]. by split.
Qed.

(** C2. Delivery: take any run of any number of endpoints and any node.  If what was
    posted to the node are tasks the text format can carry and the node is polled for
    tasks, then the tasks its polls answered and those that still wait account for the
    tasks posted as one drop-oldest queue of tasks does: unchanged, in the order of
    posting whoever posted them, each at most once, and all of them where the mailbox is
    unbounded or everything fits.  The same holds of results at a node that is polled for
    results. *)
Theorem endpoints_deliver `{ArgOrder} (config : NetConfig) (ops : list net_op) (node : string) :
  let cap := tc_mailbox_capacity (nc_transport config) in
  let log := (abs_run cap ops (abs_net config)).1 in
  Forall session_config_ok (nc_sessions config) ->
  let '(answers, n) := net_run ops (new_net config) in
  answers = en_seen <$> log /\
  (forall tasks, ml_bytes <$> put_at node log = TaskMessage.Serialize <$> tasks ->
     Forall task_safe tasks -> polled_for seen_task node log ->
     exists waiting, length waiting = length (world_inbox node (nt_world n)) /\
       fifo_account cap tasks (answered_at seen_task node log) waiting) /\
  (forall results, ml_bytes <$> put_at node log = ResultMessage.Serialize <$> results ->
     Forall result_safe results -> polled_for seen_result node log ->
     exists waiting, length waiting = length (world_inbox node (nt_world n)) /\
       fifo_account cap results (answered_at seen_result node log) waiting).
Proof.
  intros cap log Hok. pose proof (net_run_rel _ ops _ _ (new_net_rel config Hok)) as HR.
  pose proof (abs_run_ledger cap ops (abs_net config) node [] [] (ledger_nil cap)) as HL.
  fold cap in HR. unfold log. clear log.
  destruct (net_run ops _) as [answers n], (abs_run _ ops _) as [log a]. simpl.
  destruct HR as [-> [[_ _ _ Hb] _ _ _ _]], HL as [Hoks HL]. apply ledger_spec in HL.
  split_and!; [done| |]; intros sent Henc Hs Hp; eexists; (split; [|by eapply mailbox_account]);
    by rewrite length_fmap, (Forall2_length _ _ _ (Hb node)).
Qed.

(** ** Witnesses *)

(** Two clients, a server and a session; the clients submit, the server answers one. *)
Definition net_config : NetConfig :=
  mkNetConfig default_TransportConfig [sample_session_config "planner"]
    [mkClientConfig "client-a" "server"; mkClientConfig "client-b" "server"]
    [mkServerConfig "server" ""] ["trainer"].

Definition net_ops : list net_op :=
  [OnClient 0 CConnect; OnClient 1 (CSubmitTask 0 sample_task); OnClient 1 CConnect;
   OnClient 0 (CSubmitTask 1 sample_task); OnServer 0 VPollTask; OnClient 1 (CSubmitTask 2 sample_task);
   OnServer 0 (VSendResult 3 "client-a" sample_result); OnClient 0 CPollResult; OnServer 0 VPollTask;
   OnRuntime 0 RPoll; OnSession 0 SPollTask; OnSession 7 SPollTask; OnClient 0 CPollCompletion].

Lemma net_config_ok : Forall session_config_ok (nc_sessions net_config).
Proof. repeat constructor; simpl; lia. Qed.

Lemma endpoints_refine_witness :
  (@net_run true net_ops (@new_net true net_config)).1 =
    [SeenOk true; SeenId 0; SeenOk true; SeenId 1; SeenTask (Some sample_task); SeenId 1; SeenOk true;
     SeenResult (Some sample_result); SeenTask (Some sample_task); SeenMail None; SeenTask None;
     SeenNobody; SeenCompletion (Some (mkCompletionEvent 1 cs_kSuccess op_kSend "client-a" "server"
       "send completed through in-memory RDMA backend" 1 (sizeZ (TaskMessage.Serialize sample_task))))].
Proof.
  pose proof (@endpoints_refine true net_config net_ops net_config_ok) as H.
  destruct (@net_run true net_ops (@new_net true net_config)) as [answers n].
  destruct (@abs_run true _ net_ops (abs_net net_config)) as [log a] eqn:E. destruct H as [-> _].
  apply (f_equal fst) in E. cbn [fst] in E. rewrite <- E. vm_compute. reflexivity.
Defined.

Lemma endpoints_deliver_witness :
  exists waiting, fifo_account 4096 [sample_task; sample_task]
    (answered_at seen_task "server" (@abs_run true 4096 net_ops (abs_net net_config)).1) waiting.
Proof.
  pose proof (@endpoints_deliver true net_config net_ops "server" net_config_ok) as H.
  destruct (@net_run true net_ops (@new_net true net_config)) as [answers n].
  destruct H as (_ & H & _). destruct (H [sample_task; sample_task]) as (waiting & _ & Hw).
  - vm_compute. reflexivity.
  - do 2 (constructor; [exact sample_task_safe|]). constructor.
  - unfold polled_for. set (log := (@abs_run _ _ _ _).1). vm_compute in log. subst log.
    repeat first [apply Forall_nil_2|apply Forall_cons_2; [intros E; first [discriminate E|by eexists]|]].
  - exists waiting. exact Hw.
Defined.
